(** * SwiftShader image instructions: a shallow embedding of
    [src/Pipeline/SpirvShaderImage.cpp] and the properties of its
    decoder, sampler cache, texel addressing, pixel codec and queries. *)

From Stdlib Require Import ZArith Lia Bool List Morphisms Setoid.
From Stdlib Require Import Floats.SpecFloat.
From stdpp Require Import base list gmap.

Local Open Scope Z_scope.

(** ** 32-bit lanes

    Every SIMD lane ([SIMD::Int], [SIMD::UInt], [SIMD::Float]) holds a
    32-bit pattern.  A lane is the unsigned representative in
    [[0, 2^32)]; the signed reading is taken where the source uses a
    signed operation. *)

Module Word32.

Definition modulus : Z := 2 ^ 32.

Definition wrap (z : Z) : Z := z mod modulus.

Definition signed (z : Z) : Z :=
  let u := wrap z in if u <? 2 ^ 31 then u else u - modulus.

Definition add (a b : Z) : Z := wrap (a + b).
Definition mul (a b : Z) : Z := wrap (a * b).
Definition and (a b : Z) : Z := Z.land (wrap a) (wrap b).
Definition or (a b : Z) : Z := Z.lor (wrap a) (wrap b).
Definition not (a : Z) : Z := wrap (Z.lnot a).
Definition shl (a n : Z) : Z := wrap (Z.shiftl a n).
(** [>>] on [UInt] lanes (logical) and on [Int] lanes (arithmetic). *)
Definition shr_u (a n : Z) : Z := Z.shiftr (wrap a) n.
Definition shr_s (a n : Z) : Z := wrap (Z.shiftr (signed a) n).
Definition max_s (a b : Z) : Z := if signed a <? signed b then wrap b else wrap a.

(** Comparison results are lane masks: all ones or zero. *)
Definition ones : Z := 0xFFFFFFFF.
Definition mask (b : bool) : Z := if b then ones else 0.
Definition CmpNLT_u (a b : Z) : Z := mask (negb (wrap a <? wrap b)).
Definition CmpEQ (a b : Z) : Z := mask (wrap a =? wrap b).

End Word32.

(** ** Single-precision lanes

    A [SIMD::Float] lane is the IEEE 754 binary32 reading of its 32-bit
    pattern.  Arithmetic is the correctly rounded (nearest, ties to
    even) operation of [SpecFloat] at 24 bits of precision.  NaN
    payloads are not tracked: every NaN result is the default quiet
    NaN.  These are the Reactor operations on [Float4]; their
    definitions live outside this file's source and follow IEEE 754 and
    the x86 instructions Reactor lowers them to. *)

Module F32.

Definition prec : Z := 24.
Definition emax : Z := 128.

Definition of_bits (b : Z) : spec_float :=
  let b := Word32.wrap b in
  let s := Z.testbit b 31 in
  let e := Z.land (Z.shiftr b 23) 0xFF in
  let m := Z.land b 0x7FFFFF in
  if e =? 0 then
    match m with
    | Zpos p => S754_finite s p (-149)
    | _ => S754_zero s
    end
  else if e =? 255 then
    (if m =? 0 then S754_infinity s else S754_nan)
  else
    match Z.lor m 0x800000 with
    | Zpos p => S754_finite s p (e - 150)
    | _ => S754_nan
    end.

Definition sign_bit (s : bool) : Z := if s then 0x80000000 else 0.

Definition to_bits (f : spec_float) : Z :=
  match f with
  | S754_zero s => sign_bit s
  | S754_infinity s => Z.lor (sign_bit s) 0x7F800000
  | S754_nan => 0x7FC00000
  | S754_finite s m e =>
      if Zpos m <? 0x800000 then Z.lor (sign_bit s) (Zpos m)
      else Z.lor (sign_bit s) (Z.lor (Z.shiftl (e + 150) 23) (Zpos m - 0x800000))
  end.

(** [SIMD::Float(x)] of an [Int] lane and of a [UInt] lane. *)
Definition of_int (x : Z) : Z :=
  to_bits (binary_normalize prec emax (Word32.signed x) 0 false).
Definition of_uint (x : Z) : Z :=
  to_bits (binary_normalize prec emax (Word32.wrap x) 0 false).

(** A float literal with an integer value, such as [255.0f]. *)
Definition lit (z : Z) : Z := to_bits (binary_normalize prec emax z 0 false).

Definition mul (a b : Z) : Z := to_bits (SFmul prec emax (of_bits a) (of_bits b)).
Definition div (a b : Z) : Z := to_bits (SFdiv prec emax (of_bits a) (of_bits b)).
Definition add (a b : Z) : Z := to_bits (SFadd prec emax (of_bits a) (of_bits b)).
Definition sub (a b : Z) : Z := to_bits (SFsub prec emax (of_bits a) (of_bits b)).

Definition ltb (a b : Z) : bool := SFltb (of_bits a) (of_bits b).

(** [Min] and [Max] as [minps] and [maxps]: the second operand is
    returned unless the comparison holds. *)
Definition Min (a b : Z) : Z := if ltb a b then Word32.wrap a else Word32.wrap b.
Definition Max (a b : Z) : Z := if ltb b a then Word32.wrap a else Word32.wrap b.

Definition CmpLT (a b : Z) : Z := Word32.mask (ltb a b).

(** The integer nearest to [m * 2^e], ties to even. *)
Definition round_mantissa (m : Z) (e : Z) : Z :=
  if 0 <=? e then m * 2 ^ e
  else
    let d := 2 ^ (- e) in
    let q := m / d in
    let r := m mod d in
    if 2 * r <? d then q
    else if d <? 2 * r then q + 1
    else if Z.even q then q else q + 1.

(** [Round]: the nearest integer as a float, the sign kept on zero. *)
Definition Round (a : Z) : Z :=
  match of_bits a with
  | S754_finite s m e =>
      if 0 <=? e then Word32.wrap a
      else
        let r := round_mantissa (Zpos m) e in
        to_bits (binary_normalize prec emax (if s then - r else r) 0 s)
  | _ => Word32.wrap a
  end.

(** Truncation towards zero. *)
Definition trunc (a : Z) : option Z :=
  match of_bits a with
  | S754_zero _ => Some 0
  | S754_finite s m e =>
      let q := if 0 <=? e then Zpos m * 2 ^ e else Zpos m / 2 ^ (- e) in
      Some (if s then - q else q)
  | _ => None
  end.

(** [SIMD::Int(x)] of a [Float] lane: [cvttps2dq], which yields the
    integer indefinite value when the result does not fit. *)
Definition to_int (a : Z) : Z :=
  match trunc a with
  | Some q => if (- 2 ^ 31 <=? q) && (q <? 2 ^ 31) then Word32.wrap q else 0x80000000
  | None => 0x80000000
  end.

(** [SIMD::UInt(x)] of a [Float] lane: zero for a negative lane, the
    truncated value otherwise. *)
Definition to_uint (a : Z) : Z :=
  if Z.testbit (Word32.wrap a) 31 then 0
  else match trunc a with
       | Some q => if q <? 2 ^ 32 then q else 0
       | None => 0
       end.

Definition is_nan (a : Z) : bool :=
  match of_bits a with S754_nan => true | _ => false end.

End F32.

(** ** SIMD vectors: one value per lane, [SIMD::Width] lanes. *)

Module SIMD.

Definition Width : nat := 4.

Definition t : Type := nat -> Z.

(** [SIMD::Int(x)]: broadcast of a scalar. *)
Definition Int (x : Z) : t := fun _ => Word32.wrap x.

Definition lift2 (f : Z -> Z -> Z) (a b : t) : t := fun i => f (a i) (b i).

Definition add := lift2 Word32.add.
Definition mul := lift2 Word32.mul.
Definition and := lift2 Word32.and.
Definition or := lift2 Word32.or.
Definition not (a : t) : t := fun i => Word32.not (a i).
Definition CmpNLT_u := lift2 Word32.CmpNLT_u.

(** [Insert(v, x, i)] and [Extract(v, i)]. *)
Definition Insert (v : t) (x : Z) (i : nat) : t :=
  fun j => if Nat.eqb j i then x else v j.
Definition Extract (v : t) (i : nat) : Z := v i.

(** [SIMD::Pointer]: a base address, the size of the addressable
    region and one byte offset per lane. *)
Record Pointer := mkPointer {
  base : Z;
  limit : Z;
  offsets : t
}.

(** [ptr += n]. *)
Definition advance (p : Pointer) (n : Z) : Pointer :=
  mkPointer (base p) (limit p) (add (offsets p) (Int n)).

End SIMD.

(** ** SPIR-V constants used by the image instructions
    (values of [spirv.hpp]). *)

Module spv.
Definition Dim1D : Z := 0.
Definition Dim2D : Z := 1.
Definition Dim3D : Z := 2.
Definition DimCube : Z := 3.
Definition DimRect : Z := 4.
Definition DimBuffer : Z := 5.
Definition DimSubpassData : Z := 6.

Definition ImageOperandsBiasMask : Z := 0x1.
Definition ImageOperandsLodMask : Z := 0x2.
Definition ImageOperandsGradMask : Z := 0x4.
Definition ImageOperandsConstOffsetMask : Z := 0x8.
Definition ImageOperandsOffsetMask : Z := 0x10.
Definition ImageOperandsConstOffsetsMask : Z := 0x20.
Definition ImageOperandsSampleMask : Z := 0x40.
Definition ImageOperandsMinLodMask : Z := 0x80.
Definition ImageOperandsSignExtendMask : Z := 0x1000.
Definition ImageOperandsZeroExtendMask : Z := 0x2000.
End spv.

(** ** Instructions, operands and descriptors *)

(** An instruction (or a type definition) is its word stream;
    [insn.word(n)] and [insn.wordCount()]. *)
Definition Insn : Type := list Z.

Definition word (insn : Insn) (n : nat) : Z := nth n insn 0.
Definition wordCount (insn : Insn) : Z := Z.of_nat (length insn).

(** [Operand]: the lanes of each component of an object. *)
Record Operand := mkOperand {
  componentCount : Z;
  OpInt : Z -> SIMD.t;
  isConstantZero : bool
}.

(** [vk::StorageImageDescriptor], the fields read through [OFFSET]. *)
Record StorageImageDescriptor := mkStorageImageDescriptor {
  ptr : Z;
  stencilPtr : Z;
  sizeInBytes : Z;
  width : Z;
  height : Z;
  depth : Z;
  rowPitchBytes : Z;
  slicePitchBytes : Z;
  samplePitchBytes : Z;
  stencilRowPitchBytes : Z;
  stencilSlicePitchBytes : Z;
  stencilSamplePitchBytes : Z;
  sampleCount : Z
}.

(** The part of [SpirvRoutine] read by the addressing code. *)
Record Routine := mkRoutine {
  windowSpacePosition0 : SIMD.t;
  windowSpacePosition1 : SIMD.t;
  viewID : Z
}.

Inductive OutOfBoundsBehavior :=
| Nullify
| RobustBufferAccess
| UndefinedValue
| UndefinedBehavior.

Definition OutOfBoundsBehavior_eqb (a b : OutOfBoundsBehavior) : bool :=
  match a, b with
  | Nullify, Nullify | RobustBufferAccess, RobustBufferAccess
  | UndefinedValue, UndefinedValue | UndefinedBehavior, UndefinedBehavior => true
  | _, _ => false
  end.

(** ** GetTexelAddress *)

Section TexelAddress.

(** [Operand(this, state, id)]: the operand an object id denotes. *)
Variable operandOf : Z -> Operand.
Variable routine : Routine.

Definition OOB_OFFSET : Z := 0x7FFFFFFF - 16.

Definition isArrayedType (imageType : Insn) : bool := negb (word imageType 5 =? 0).
Definition dimOf (imageType : Insn) : Z := word imageType 3.

(** [int dims = coordinate.componentCount - (isArrayed ? 1 : 0)]. *)
Definition dimsOf (coordinate : Operand) (imageType : Insn) : Z :=
  componentCount coordinate - (if isArrayedType imageType then 1 else 0).

(** [u] and [v] once the subpass window position is added. *)
Definition texelU (coordinate : Operand) (imageType : Insn) : SIMD.t :=
  let u := OpInt coordinate 0 in
  if dimOf imageType =? spv.DimSubpassData
  then SIMD.add u (windowSpacePosition0 routine) else u.

Definition texelV (coordinate : Operand) (imageType : Insn) : SIMD.t :=
  let v := SIMD.Int 0 in
  let v := if 1 <? componentCount coordinate then OpInt coordinate 1 else v in
  if dimOf imageType =? spv.DimSubpassData
  then SIMD.add v (windowSpacePosition1 routine) else v.

(** [w]: depth slice plus array layer. *)
Definition texelW (coordinate : Operand) (imageType : Insn) : SIMD.t :=
  let dims := dimsOf coordinate imageType in
  let isArrayed := isArrayedType imageType in
  let w := SIMD.Int 0 in
  if (2 <? dims) || isArrayed then
    let w := if 2 <? dims then SIMD.add w (OpInt coordinate 2) else w in
    let w := if isArrayed then SIMD.add w (OpInt coordinate dims) else w in
    w
  else w.

(** [n]: the sample index, zero unless a sample operand is given that
    is not a constant zero. *)
Definition sampleUsed (sampleId : Z) : bool :=
  negb (sampleId =? 0) && negb (isConstantZero (operandOf sampleId)).

Definition texelN (sampleId : Z) : SIMD.t :=
  if sampleUsed sampleId then OpInt (operandOf sampleId) 0 else SIMD.Int 0.

Definition rowPitchOf (d : StorageImageDescriptor) (useStencilAspect : bool) : Z :=
  if useStencilAspect then stencilRowPitchBytes d else rowPitchBytes d.
Definition slicePitchOf (d : StorageImageDescriptor) (useStencilAspect : bool) : Z :=
  if useStencilAspect then stencilSlicePitchBytes d else slicePitchBytes d.
Definition samplePitchOf (d : StorageImageDescriptor) (useStencilAspect : bool) : Z :=
  if useStencilAspect then stencilSamplePitchBytes d else samplePitchBytes d.

(** The offset before the bounds check (source lines 555-593). *)
Definition texelPtrOffset (coordinate : Operand) (imageType : Insn)
    (descriptor : StorageImageDescriptor) (texelSize : Z) (sampleId : Z)
    (useStencilAspect : bool) : SIMD.t :=
  let isArrayed := isArrayedType imageType in
  let dim := dimOf imageType in
  let dims := dimsOf coordinate imageType in
  let u := texelU coordinate imageType in
  let v := texelV coordinate imageType in
  let rowPitch := SIMD.Int (rowPitchOf descriptor useStencilAspect) in
  let slicePitch := SIMD.Int (slicePitchOf descriptor useStencilAspect) in
  let samplePitch := SIMD.Int (samplePitchOf descriptor useStencilAspect) in
  let ptrOffset := SIMD.mul u (SIMD.Int texelSize) in
  let ptrOffset := if 1 <? dims then SIMD.add ptrOffset (SIMD.mul v rowPitch) else ptrOffset in
  let w := texelW coordinate imageType in
  let ptrOffset :=
    if (2 <? dims) || isArrayed then SIMD.add ptrOffset (SIMD.mul w slicePitch) else ptrOffset in
  let ptrOffset :=
    if dim =? spv.DimSubpassData
    then SIMD.add ptrOffset (SIMD.mul (SIMD.Int (viewID routine)) slicePitch)
    else ptrOffset in
  let n := texelN sampleId in
  if sampleUsed sampleId then SIMD.add ptrOffset (SIMD.mul n samplePitch) else ptrOffset.

(** The out-of-bounds mask of the nullify policy (source lines 599-623). *)
Definition texelOobMask (coordinate : Operand) (imageType : Insn)
    (descriptor : StorageImageDescriptor) (sampleId : Z) : SIMD.t :=
  let isArrayed := isArrayedType imageType in
  let dim := dimOf imageType in
  let dims := dimsOf coordinate imageType in
  let u := texelU coordinate imageType in
  let v := texelV coordinate imageType in
  let w := texelW coordinate imageType in
  let n := texelN sampleId in
  let oobMask := SIMD.CmpNLT_u u (SIMD.Int (width descriptor)) in
  let oobMask :=
    if 1 <? dims then SIMD.or oobMask (SIMD.CmpNLT_u v (SIMD.Int (height descriptor)))
    else oobMask in
  let oobMask :=
    if (2 <? dims) || isArrayed then
      let depth := Word32.wrap (depth descriptor) in
      let depth := if dim =? spv.DimCube then Word32.mul depth 6 else depth in
      SIMD.or oobMask (SIMD.CmpNLT_u w (SIMD.Int depth))
    else oobMask in
  if sampleUsed sampleId
  then SIMD.or oobMask (SIMD.CmpNLT_u n (SIMD.Int (sampleCount descriptor)))
  else oobMask.

Definition GetTexelAddress (imageBase : Z) (imageSizeInBytes : Z)
    (coordinate : Operand) (imageType : Insn) (descriptor : StorageImageDescriptor)
    (texelSize : Z) (sampleId : Z) (useStencilAspect : bool)
    (outOfBoundsBehavior : OutOfBoundsBehavior) : SIMD.Pointer :=
  let ptrOffset :=
    texelPtrOffset coordinate imageType descriptor texelSize sampleId useStencilAspect in
  let ptrOffset :=
    if OutOfBoundsBehavior_eqb outOfBoundsBehavior Nullify then
      let oobMask := texelOobMask coordinate imageType descriptor sampleId in
      SIMD.or (SIMD.and ptrOffset (SIMD.not oobMask))
              (SIMD.and oobMask (SIMD.Int OOB_OFFSET))
    else ptrOffset in
  SIMD.mkPointer imageBase imageSizeInBytes ptrOffset.

(** The bounds law of the nullify policy, stated per lane: some
    relevant axis, read as an unsigned integer, is not below its
    descriptor dimension. *)
Definition depthBound (imageType : Insn) (descriptor : StorageImageDescriptor) : Z :=
  if dimOf imageType =? spv.DimCube
  then Word32.wrap (Word32.wrap (depth descriptor) * 6)
  else Word32.wrap (depth descriptor).

Definition laneOutOfBounds (coordinate : Operand) (imageType : Insn)
    (descriptor : StorageImageDescriptor) (sampleId : Z) (i : nat) : Prop :=
  let dims := dimsOf coordinate imageType in
  Word32.wrap (width descriptor) <= Word32.wrap (texelU coordinate imageType i)
  \/ (1 < dims /\
      Word32.wrap (height descriptor) <= Word32.wrap (texelV coordinate imageType i))
  \/ ((2 < dims \/ isArrayedType imageType = true) /\
      depthBound imageType descriptor <= Word32.wrap (texelW coordinate imageType i))
  \/ (sampleUsed sampleId = true /\
      Word32.wrap (sampleCount descriptor) <= Word32.wrap (texelN sampleId i)).

(** The same law as a decision procedure. *)
Definition laneOutOfBoundsb (coordinate : Operand) (imageType : Insn)
    (descriptor : StorageImageDescriptor) (sampleId : Z) (i : nat) : bool :=
  let dims := dimsOf coordinate imageType in
  negb (Word32.wrap (texelU coordinate imageType i) <? Word32.wrap (width descriptor))
  || ((1 <? dims) &&
      negb (Word32.wrap (texelV coordinate imageType i) <? Word32.wrap (height descriptor)))
  || (((2 <? dims) || isArrayedType imageType) &&
      negb (Word32.wrap (texelW coordinate imageType i) <? depthBound imageType descriptor))
  || (sampleUsed sampleId &&
      negb (Word32.wrap (texelN sampleId i) <? Word32.wrap (sampleCount descriptor))).

End TexelAddress.

(** ** Pixel formats *)

(** The [VkFormat] tags the image instructions name. *)
Inductive VkFormat :=
| VK_FORMAT_UNDEFINED
| VK_FORMAT_R32G32B32A32_SFLOAT | VK_FORMAT_R32G32B32A32_SINT | VK_FORMAT_R32G32B32A32_UINT
| VK_FORMAT_R32_SINT | VK_FORMAT_R32_UINT | VK_FORMAT_R32_SFLOAT
| VK_FORMAT_D32_SFLOAT | VK_FORMAT_D32_SFLOAT_S8_UINT | VK_FORMAT_D16_UNORM
| VK_FORMAT_R16G16B16A16_UNORM | VK_FORMAT_R16G16B16A16_SNORM
| VK_FORMAT_R16G16B16A16_SINT | VK_FORMAT_R16G16B16A16_UINT | VK_FORMAT_R16G16B16A16_SFLOAT
| VK_FORMAT_R8G8B8A8_SNORM | VK_FORMAT_A8B8G8R8_SNORM_PACK32
| VK_FORMAT_R8G8B8A8_UNORM | VK_FORMAT_A8B8G8R8_UNORM_PACK32
| VK_FORMAT_R8G8B8A8_SRGB | VK_FORMAT_A8B8G8R8_SRGB_PACK32
| VK_FORMAT_B8G8R8A8_UNORM | VK_FORMAT_B8G8R8A8_SRGB
| VK_FORMAT_R8G8B8A8_UINT | VK_FORMAT_A8B8G8R8_UINT_PACK32
| VK_FORMAT_R8G8B8A8_SINT | VK_FORMAT_A8B8G8R8_SINT_PACK32
| VK_FORMAT_R8_UNORM | VK_FORMAT_R8_SNORM | VK_FORMAT_R8_UINT | VK_FORMAT_S8_UINT
| VK_FORMAT_R8_SINT
| VK_FORMAT_R8G8_UNORM | VK_FORMAT_R8G8_SNORM | VK_FORMAT_R8G8_UINT | VK_FORMAT_R8G8_SINT
| VK_FORMAT_R16_SFLOAT | VK_FORMAT_R16_UNORM | VK_FORMAT_R16_SNORM
| VK_FORMAT_R16_UINT | VK_FORMAT_R16_SINT
| VK_FORMAT_R16G16_SFLOAT | VK_FORMAT_R16G16_UNORM | VK_FORMAT_R16G16_SNORM
| VK_FORMAT_R16G16_UINT | VK_FORMAT_R16G16_SINT
| VK_FORMAT_R32G32_SINT | VK_FORMAT_R32G32_UINT | VK_FORMAT_R32G32_SFLOAT
| VK_FORMAT_A2B10G10R10_UINT_PACK32 | VK_FORMAT_A2R10G10B10_UINT_PACK32
| VK_FORMAT_A2B10G10R10_UNORM_PACK32 | VK_FORMAT_A2R10G10B10_UNORM_PACK32
| VK_FORMAT_R4G4B4A4_UNORM_PACK16 | VK_FORMAT_B4G4R4A4_UNORM_PACK16
| VK_FORMAT_A4R4G4B4_UNORM_PACK16_EXT | VK_FORMAT_A4B4G4R4_UNORM_PACK16_EXT
| VK_FORMAT_R5G6B5_UNORM_PACK16 | VK_FORMAT_B5G6R5_UNORM_PACK16
| VK_FORMAT_R5G5B5A1_UNORM_PACK16 | VK_FORMAT_B5G5R5A1_UNORM_PACK16
| VK_FORMAT_A1R5G5B5_UNORM_PACK16
| VK_FORMAT_B10G11R11_UFLOAT_PACK32
  (** A format the image instructions do not name, such as a
      compressed colour attachment format, with its texel size. *)
| VK_FORMAT_OTHER (tag : Z) (bytes : Z).

(** ** Fatal conditions

    Modelled from the spec: the macros [UNSUPPORTED], [ASSERT] and
    [UNREACHABLE] are declared outside this file's source.  An
    unsupported feature is a hard abort carrying the offending
    operand mask or format value; a failed assertion is a contract
    violation of the caller and is not recovered. *)

Inductive Fatal :=
| UnsupportedImageOperands (imageOperands : Z)
| UnsupportedImageFormat (format : Z)
| UnsupportedVkFormat (format : VkFormat)
| AssertFailed
| Unreachable.

Inductive Result (A : Type) :=
| Ok (a : A)
| Abort (e : Fatal).

Arguments Ok {A} a.
Arguments Abort {A} e.

#[global] Instance Result_ret : MRet Result := fun A a => Ok a.
#[global] Instance Result_bind : MBind Result := fun A B f m =>
  match m with
  | Ok a => f a
  | Abort e => Abort e
  end.

Definition ASSERT (c : bool) : Result unit := if c then Ok tt else Abort AssertFailed.

Definition isOk {A} (r : Result A) : bool :=
  match r with Ok _ => true | Abort _ => false end.

(** ** Decoded image instructions *)

Module spvOp.
Definition OpTypeInt : Z := 21.
Definition OpTypeFloat : Z := 22.
Definition OpTypeImage : Z := 25.
Definition OpTypeSampler : Z := 26.
Definition OpTypeSampledImage : Z := 27.
Definition OpSampledImage : Z := 86.
Definition OpImageSampleImplicitLod : Z := 87.
Definition OpImageSampleExplicitLod : Z := 88.
Definition OpImageSampleDrefImplicitLod : Z := 89.
Definition OpImageSampleDrefExplicitLod : Z := 90.
Definition OpImageSampleProjImplicitLod : Z := 91.
Definition OpImageSampleProjExplicitLod : Z := 92.
Definition OpImageSampleProjDrefImplicitLod : Z := 93.
Definition OpImageSampleProjDrefExplicitLod : Z := 94.
Definition OpImageFetch : Z := 95.
Definition OpImageGather : Z := 96.
Definition OpImageDrefGather : Z := 97.
Definition OpImageRead : Z := 98.
Definition OpImageWrite : Z := 99.
Definition OpImageQueryLod : Z := 105.
End spvOp.

(** [insn.opcode()]: the low half of the first word. *)
Definition opcode (insn : Insn) : Z := Z.land (word insn 0) 0xFFFF.

Module Variant.
Inductive t := None | Dref | Proj | ProjDref.
End Variant.

Inductive SamplerMethod := Implicit | Bias | Lod | Grad | Fetch | Gather | Query.

Definition SamplerMethod_eqb (a b : SamplerMethod) : bool :=
  match a, b with
  | Implicit, Implicit | Bias, Bias | Lod, Lod | Grad, Grad
  | Fetch, Fetch | Gather, Gather | Query, Query => true
  | _, _ => false
  end.

Record ImageInstructionState := mkState {
  variant : Variant.t;
  samplerMethod : SamplerMethod
}.

Definition isDref (st : ImageInstructionState) : bool :=
  match variant st with Variant.Dref | Variant.ProjDref => true | _ => false end.

Definition isProj (st : ImageInstructionState) : bool :=
  match variant st with Variant.Proj | Variant.ProjDref => true | _ => false end.

Record ImageInstruction := mkImageInstruction {
  state : ImageInstructionState;
  position : Z;
  resultId : Z;
  sampledImageId : Z;
  coordinateId : Z;
  coordinates : Z;
  drefId : Z;
  gatherComponent : Z;
  lodOrBiasId : Z;
  gradDxId : Z;
  gradDyId : Z;
  grad : Z;
  offsetId : Z;
  offset : Z;
  sampleId : Z;
  sample : bool
}.

(** The object and type tables of the enclosing shader, as the image
    instructions read them. *)
Record Shader := mkShader {
  (** [getType(getObject(id)).componentCount] *)
  objectComponentCount : Z -> Z;
  (** [getObject(id).constantValue[0]] *)
  objectConstantValue0 : Z -> Z;
  (** [getObject(id).opcode()] and [getObject(id).definition] *)
  objectOpcode : Z -> Z;
  objectDefinition : Z -> Insn;
  (** [getType(getObject(id)).opcode()] and [.definition] *)
  objectTypeOpcode : Z -> Z;
  objectTypeDefinition : Z -> Insn;
  (** [getType(id).opcode()] *)
  typeOpcode : Z -> Z
}.

Definition hasBit (imageOperands mask : Z) : bool := negb (Z.land imageOperands mask =? 0).
Definition clearBit (imageOperands mask : Z) : Z := Z.land imageOperands (Z.lnot mask).

Definition getImageOperands (insn : Insn) : Result Z :=
  let op := opcode insn in
  if (op =? spvOp.OpImageSampleImplicitLod) || (op =? spvOp.OpImageSampleProjImplicitLod) then
    Ok (if 5 <? wordCount insn then word insn 5 else 0)
  else if (op =? spvOp.OpImageSampleExplicitLod) || (op =? spvOp.OpImageSampleProjExplicitLod) then
    Ok (word insn 5)
  else if (op =? spvOp.OpImageSampleDrefImplicitLod)
          || (op =? spvOp.OpImageSampleProjDrefImplicitLod) then
    Ok (if 6 <? wordCount insn then word insn 6 else 0)
  else if (op =? spvOp.OpImageSampleDrefExplicitLod)
          || (op =? spvOp.OpImageSampleProjDrefExplicitLod) then
    Ok (word insn 6)
  else if (op =? spvOp.OpImageGather) || (op =? spvOp.OpImageDrefGather) then
    Ok (if 6 <? wordCount insn then word insn 6 else 0)
  else if op =? spvOp.OpImageFetch then
    Ok (if 5 <? wordCount insn then word insn 5 else 0)
  else if op =? spvOp.OpImageQueryLod then
    _ ← ASSERT (wordCount insn =? 5); Ok 0
  else
    _ ← ASSERT false; Ok 0.

Definition parseVariantAndMethod (insn : Insn) : Result ImageInstructionState :=
  imageOperands ← getImageOperands insn;
  let bias := hasBit imageOperands spv.ImageOperandsBiasMask in
  let grad := hasBit imageOperands spv.ImageOperandsGradMask in
  let op := opcode insn in
  if op =? spvOp.OpImageSampleImplicitLod then
    Ok (mkState Variant.None (if bias then Bias else Implicit))
  else if op =? spvOp.OpImageSampleExplicitLod then
    Ok (mkState Variant.None (if grad then Grad else Lod))
  else if op =? spvOp.OpImageSampleDrefImplicitLod then
    Ok (mkState Variant.Dref (if bias then Bias else Implicit))
  else if op =? spvOp.OpImageSampleDrefExplicitLod then
    Ok (mkState Variant.Dref (if grad then Grad else Lod))
  else if op =? spvOp.OpImageSampleProjImplicitLod then
    Ok (mkState Variant.Proj (if bias then Bias else Implicit))
  else if op =? spvOp.OpImageSampleProjExplicitLod then
    Ok (mkState Variant.Proj (if grad then Grad else Lod))
  else if op =? spvOp.OpImageSampleProjDrefImplicitLod then
    Ok (mkState Variant.ProjDref (if bias then Bias else Implicit))
  else if op =? spvOp.OpImageSampleProjDrefExplicitLod then
    Ok (mkState Variant.ProjDref (if grad then Grad else Lod))
  else if op =? spvOp.OpImageGather then Ok (mkState Variant.None Gather)
  else if op =? spvOp.OpImageDrefGather then Ok (mkState Variant.Dref Gather)
  else if op =? spvOp.OpImageFetch then Ok (mkState Variant.None Fetch)
  else if op =? spvOp.OpImageQueryLod then Ok (mkState Variant.None Query)
  else _ ← ASSERT false; Ok (mkState Variant.None Implicit).

(** The first operand [<id>] location of the optional block. *)
Definition firstOperand (st : ImageInstructionState) : nat :=
  if isDref st || SamplerMethod_eqb (samplerMethod st) Gather then 7%nat else 6%nat.

(** [ImageInstruction::ImageInstruction]. *)
Definition decodeImageInstruction (spirv : Shader) (insn : Insn) (position : Z)
    : Result ImageInstruction :=
  st ← parseVariantAndMethod insn;
  let method := samplerMethod st in
  let resultId := word insn 2 in
  let sampledImageId := word insn 3 in
  let coordinateId := word insn 4 in
  let coordinates :=
    objectComponentCount spirv coordinateId - (if isProj st then 1 else 0) in
  let drefId := if isDref st then word insn 5 else 0 in
  let gatherComponent :=
    if SamplerMethod_eqb method Gather
    then (if negb (isDref st) then objectConstantValue0 spirv (word insn 5) else 0)
    else 0 in
  imageOperands ← getImageOperands insn;
  let operand := firstOperand st in
  let lodOrBiasId := 0 in
  '(lodOrBiasId, operand, imageOperands) ←
    (if hasBit imageOperands spv.ImageOperandsBiasMask then
       _ ← ASSERT (SamplerMethod_eqb method Bias);
       Ok (word insn operand, S operand, clearBit imageOperands spv.ImageOperandsBiasMask)
     else Ok (lodOrBiasId, operand, imageOperands));
  '(lodOrBiasId, operand, imageOperands) ←
    (if hasBit imageOperands spv.ImageOperandsLodMask then
       _ ← ASSERT (SamplerMethod_eqb method Lod || SamplerMethod_eqb method Fetch);
       Ok (word insn operand, S operand, clearBit imageOperands spv.ImageOperandsLodMask)
     else Ok (lodOrBiasId, operand, imageOperands));
  '(gradDxId, gradDyId, grad, operand, imageOperands) ←
    (if hasBit imageOperands spv.ImageOperandsGradMask then
       _ ← ASSERT (SamplerMethod_eqb method Grad);
       let gradDxId := word insn (operand + 0) in
       let gradDyId := word insn (operand + 1) in
       Ok (gradDxId, gradDyId, objectComponentCount spirv gradDxId, (operand + 2)%nat,
           clearBit imageOperands spv.ImageOperandsGradMask)
     else Ok (0, 0, 0, operand, imageOperands));
  let '(offsetId, offset, operand, imageOperands) :=
    if hasBit imageOperands spv.ImageOperandsConstOffsetMask then
      let offsetId := word insn operand in
      (offsetId, objectComponentCount spirv offsetId, S operand,
       clearBit imageOperands spv.ImageOperandsConstOffsetMask)
    else (0, 0, operand, imageOperands) in
  '(sampleId, sample, imageOperands) ←
    (if hasBit imageOperands spv.ImageOperandsSampleMask then
       _ ← ASSERT (SamplerMethod_eqb method Fetch);
       Ok (word insn operand, true, clearBit imageOperands spv.ImageOperandsSampleMask)
     else Ok (0, false, imageOperands));
  if negb (imageOperands =? 0) then Abort (UnsupportedImageOperands imageOperands)
  else
    Ok {| state := st; position := position; resultId := resultId;
          sampledImageId := sampledImageId; coordinateId := coordinateId;
          coordinates := coordinates; drefId := drefId;
          gatherComponent := gatherComponent; lodOrBiasId := lodOrBiasId;
          gradDxId := gradDxId; gradDyId := gradDyId; grad := grad;
          offsetId := offsetId; offset := offset; sampleId := sampleId;
          sample := sample |}.

(** The image operands of [EmitImageRead] (source lines 641-667): the
    sample id, or the unsupported-feature abort. *)
Definition imageReadOperands (insn : Insn) : Result Z :=
  let sampleId := 0 in
  if 5 <? wordCount insn then
    let operand := 6%nat in
    let imageOperands := word insn 5 in
    let '(sampleId, operand, imageOperands) :=
      if hasBit imageOperands spv.ImageOperandsSampleMask
      then (word insn operand, S operand, clearBit imageOperands spv.ImageOperandsSampleMask)
      else (sampleId, operand, imageOperands) in
    let imageOperands :=
      if hasBit imageOperands spv.ImageOperandsZeroExtendMask
      then clearBit imageOperands spv.ImageOperandsZeroExtendMask
      else if hasBit imageOperands spv.ImageOperandsSignExtendMask
      then clearBit imageOperands spv.ImageOperandsSignExtendMask
      else imageOperands in
    if negb (imageOperands =? 0) then Abort (UnsupportedImageOperands imageOperands)
    else Ok sampleId
  else Ok sampleId.

(** The image operands of [EmitImageWrite] (source lines 1085-1111). *)
Definition imageWriteOperands (insn : Insn) : Result Z :=
  let sampleId := 0 in
  if 4 <? wordCount insn then
    let operand := 5%nat in
    let imageOperands := word insn 4 in
    let '(sampleId, operand, imageOperands) :=
      if hasBit imageOperands spv.ImageOperandsSampleMask
      then (word insn operand, S operand, clearBit imageOperands spv.ImageOperandsSampleMask)
      else (sampleId, operand, imageOperands) in
    let imageOperands :=
      if hasBit imageOperands spv.ImageOperandsZeroExtendMask
      then clearBit imageOperands spv.ImageOperandsZeroExtendMask
      else if hasBit imageOperands spv.ImageOperandsSignExtendMask
      then clearBit imageOperands spv.ImageOperandsSignExtendMask
      else imageOperands in
    if negb (imageOperands =? 0) then Abort (UnsupportedImageOperands imageOperands)
    else Ok sampleId
  else Ok sampleId.

(** The image operands the sampling decoder recognizes, and those
    [EmitImageRead] recognizes. *)
Definition recognizedImageOperands : Z :=
  Z.lor spv.ImageOperandsBiasMask
    (Z.lor spv.ImageOperandsLodMask
       (Z.lor spv.ImageOperandsGradMask
          (Z.lor spv.ImageOperandsConstOffsetMask spv.ImageOperandsSampleMask))).

Definition recognizedReadOperands : Z :=
  Z.lor spv.ImageOperandsSampleMask
    (Z.lor spv.ImageOperandsZeroExtendMask spv.ImageOperandsSignExtendMask).

(** The operand ids a decoded instruction holds for the bits present
    in the mask, in the order bias-or-lod, gradient dx and dy, constant
    offset, sample. *)
Definition consumedOperands (instr : ImageInstruction) (imageOperands : Z) : list Z :=
  (if hasBit imageOperands spv.ImageOperandsBiasMask
      || hasBit imageOperands spv.ImageOperandsLodMask
   then [lodOrBiasId instr] else [])
  ++ (if hasBit imageOperands spv.ImageOperandsGradMask
      then [gradDxId instr; gradDyId instr] else [])
  ++ (if hasBit imageOperands spv.ImageOperandsConstOffsetMask
      then [offsetId instr] else [])
  ++ (if hasBit imageOperands spv.ImageOperandsSampleMask
      then [sampleId instr] else []).

(** The contract the decoder asserts on the sampler method of an
    instruction carrying the given operand mask. *)
Definition operandContract (st : ImageInstructionState) (imageOperands : Z) : bool :=
  let method := samplerMethod st in
  implb (hasBit imageOperands spv.ImageOperandsBiasMask) (SamplerMethod_eqb method Bias)
  && implb (hasBit imageOperands spv.ImageOperandsLodMask)
       (SamplerMethod_eqb method Lod || SamplerMethod_eqb method Fetch)
  && implb (hasBit imageOperands spv.ImageOperandsGradMask) (SamplerMethod_eqb method Grad)
  && implb (hasBit imageOperands spv.ImageOperandsSampleMask) (SamplerMethod_eqb method Fetch).

(** ** callSamplerFunction *)

Definition OpFloat (o : Operand) (i : Z) : SIMD.t := OpInt o i.

Definition SIMD_fdiv : SIMD.t -> SIMD.t -> SIMD.t := SIMD.lift2 F32.div.

(** [in[i] = v; i++] for each value in turn.  [Array<SIMD::Float> in(16)]
    is a list of sixteen slots, [None] while unwritten; a write past the
    end, undefined in the source, leaves the list as it is. *)
Fixpoint storeFrom (in_ : list (option SIMD.t)) (i : nat) (vals : list SIMD.t)
    : list (option SIMD.t) * nat :=
  match vals with
  | [] => (in_, i)
  | v :: vals => storeFrom (<[i := Some v]> in_) (S i) vals
  end.

Section Sampler.

Variable operandOf : Z -> Operand.

(** The input array [callSamplerFunction] marshals (source lines
    287-365). *)
Definition samplerInputs (instruction : ImageInstruction) : list (option SIMD.t) :=
  let st := state instruction in
  let in_ : list (option SIMD.t) := replicate 16 None in
  let coordinate := operandOf (coordinateId instruction) in
  let '(in_, i) :=
    storeFrom in_ 0
      (map (fun i : nat =>
              if isProj st
              then SIMD_fdiv (OpFloat coordinate (Z.of_nat i))
                     (OpFloat coordinate (coordinates instruction))
              else OpFloat coordinate (Z.of_nat i))
         (seq 0 (Z.to_nat (coordinates instruction)))) in
  let '(in_, i) :=
    if isDref st then
      let drefValue := operandOf (drefId instruction) in
      (<[i := Some (if isProj st
                    then SIMD_fdiv (OpFloat drefValue 0)
                           (OpFloat coordinate (coordinates instruction))
                    else OpFloat drefValue 0)]> in_, S i)
    else (in_, i) in
  let '(in_, i) :=
    if negb (lodOrBiasId instruction =? 0) then
      let lodValue := operandOf (lodOrBiasId instruction) in
      (<[i := Some (OpFloat lodValue 0)]> in_, S i)
    else if negb (gradDxId instruction =? 0) then
      let dxValue := operandOf (gradDxId instruction) in
      let dyValue := operandOf (gradDyId instruction) in
      let count := Z.to_nat (componentCount dxValue) in
      let '(in_, i) :=
        storeFrom in_ i (map (fun j : nat => OpFloat dxValue (Z.of_nat j)) (seq 0 count)) in
      storeFrom in_ i (map (fun j : nat => OpFloat dyValue (Z.of_nat j)) (seq 0 count))
    else if SamplerMethod_eqb (samplerMethod st) Fetch then
      (<[i := Some (SIMD.Int 0)]> in_, S i)
    else (in_, i) in
  let '(in_, i) :=
    if negb (offsetId instruction =? 0) then
      let offsetValue := operandOf (offsetId instruction) in
      storeFrom in_ i
        (map (fun j : nat => OpInt offsetValue (Z.of_nat j))
           (seq 0 (Z.to_nat (componentCount offsetValue))))
    else (in_, i) in
  let in_ :=
    if sample instruction then
      let sampleValue := operandOf (sampleId instruction) in
      <[i := Some (OpInt sampleValue 0)]> in_
    else in_ in
  in_.

(** [Call<ImageSampler>(samplerFunction, texture, &in[0], &out[0], constants)]:
    the compiled routine is external; it yields the four output lanes. *)
Variable ImageSampler : Z -> Z -> list (option SIMD.t) -> nat -> SIMD.t.
(** [OFFSET(vk::SampledImageDescriptor, texture)]. *)
Variable textureOffset : Z.

Definition callSamplerFunction (samplerFunction : Z) (imageDescriptor : Z)
    (instruction : ImageInstruction) : nat -> SIMD.t :=
  let texture := imageDescriptor + textureOffset in
  ImageSampler samplerFunction texture (samplerInputs instruction).

End Sampler.

(** ** The sampler function cache *)

(** [vk::SampledImageDescriptor], the fields read through [OFFSET]. *)
Record SampledImageDescriptor := mkSampledImageDescriptor {
sampled_samplerId : Z;
sampled_imageViewId : Z;
sampled_device : Z;
sampled_width : Z;
sampled_height : Z;
sampled_depth : Z;
sampled_mipLevels : Z;
sampled_sampleCount : Z
}.

Module SamplerCache.
Record t := mk {
imageDescriptor : Z;
samplerId : Z;
function : Z
}.
End SamplerCache.

(** One call of the routine compiler [getImageSampler]:
    [(device, instruction.state, samplerId, imageViewId)]. *)
Definition CompilerCall : Type := Z * ImageInstructionState * Z * Z.

(** The part of [EmitState] and of its routine the sampler lookup
    touches: the per-call-site cache, keyed by instruction position, and
    the calls made to the routine compiler so far. *)
Record SamplerState := mkSamplerState {
samplerCache : gmap Z SamplerCache.t;
compilerCalls : list CompilerCall
}.

Section SamplerLookup.

Variable spirv : Shader.
(** [state->getPointer(id).base]. *)
Variable getPointer : Z -> Z.
(** The sampled-image descriptor stored at an address. *)
Variable descriptorAt : Z -> SampledImageDescriptor.
(** The external routine compiler. *)
Variable getImageSampler : Z -> ImageInstructionState -> Z -> Z -> Z.

(** The sampler identity of an invocation: read from the sampler
    descriptor, and forced to zero when the operand's type is not a
    sampled-image type. *)
Definition currentSamplerId (imageDescriptor : Z) (instruction : ImageInstruction) : Z :=
  let sampledImage := sampledImageId instruction in
  let samplerDescriptor :=
    if objectOpcode spirv sampledImage =? spvOp.OpSampledImage
    then getPointer (word (objectDefinition spirv sampledImage) 4)
    else imageDescriptor in
  let samplerId := sampled_samplerId (descriptorAt samplerDescriptor) in
  if negb (objectTypeOpcode spirv sampledImage =? spvOp.OpTypeSampledImage)
  then 0 else samplerId.

(** [samplerCache.at(position)] fails on a call site without a slot. *)
Definition lookupSamplerFunction (imageDescriptor : Z) (instruction : ImageInstruction)
    (st : SamplerState) : option (Z * SamplerState) :=
  let samplerId := currentSamplerId imageDescriptor instruction in
  cache ← samplerCache st !! position instruction;
  let cacheHit :=
    (SamplerCache.imageDescriptor cache =? imageDescriptor)
    && (SamplerCache.samplerId cache =? samplerId) in
  if negb cacheHit then
    let imageViewId := sampled_imageViewId (descriptorAt imageDescriptor) in
    let device := sampled_device (descriptorAt imageDescriptor) in
    let function := getImageSampler device (state instruction) samplerId imageViewId in
    let cache := SamplerCache.mk imageDescriptor samplerId function in
    Some (SamplerCache.function cache,
          mkSamplerState (<[position instruction := cache]> (samplerCache st))
            (compilerCalls st ++ [(device, state instruction, samplerId, imageViewId)]))
  else Some (SamplerCache.function cache, st).

End SamplerLookup.

(** ** Image size queries *)

Inductive VkDescriptorType :=
| VK_DESCRIPTOR_TYPE_SAMPLER
| VK_DESCRIPTOR_TYPE_COMBINED_IMAGE_SAMPLER
| VK_DESCRIPTOR_TYPE_SAMPLED_IMAGE
| VK_DESCRIPTOR_TYPE_STORAGE_IMAGE
| VK_DESCRIPTOR_TYPE_UNIFORM_TEXEL_BUFFER
| VK_DESCRIPTOR_TYPE_STORAGE_TEXEL_BUFFER
| VK_DESCRIPTOR_TYPE_UNIFORM_BUFFER
| VK_DESCRIPTOR_TYPE_STORAGE_BUFFER
| VK_DESCRIPTOR_TYPE_UNIFORM_BUFFER_DYNAMIC
| VK_DESCRIPTOR_TYPE_STORAGE_BUFFER_DYNAMIC
| VK_DESCRIPTOR_TYPE_INPUT_ATTACHMENT.

(** [Intermediate]: the lanes of each component of a result, [None]
    until moved into. *)
Definition Intermediate : Type := list (option SIMD.t).

Definition createIntermediate (componentCount : Z) : Intermediate :=
  replicate (Z.to_nat componentCount) None.

Definition move (i : Z) (v : SIMD.t) (dst : Intermediate) : Intermediate :=
  <[Z.to_nat i := Some v]> dst.

(** [Max(x >> lod, one)] on [SIMD::Int] lanes; the shift count is the
    lane of [lod]. *)
Definition SIMD_shr_s (a n : SIMD.t) : SIMD.t :=
  fun i => Word32.shr_s (a i) (Word32.wrap (n i)).
Definition SIMD_max_s : SIMD.t -> SIMD.t -> SIMD.t := SIMD.lift2 Word32.max_s.

Section ImageQueries.

Variable spirv : Shader.
Variable operandOf : Z -> Operand.
Variable getPointer : Z -> Z.
(** [routine->pipelineLayout->getDescriptorType(d.DescriptorSet, d.Binding)]
    for the decorations of an image id. *)
Variable descriptorTypeOf : Z -> VkDescriptorType.
(** The descriptor stored at an address, read in either layout. *)
Variable storageAt : Z -> StorageImageDescriptor.
Variable sampledAt : Z -> SampledImageDescriptor.

Definition GetImageDimensions (resultTyComponentCount : Z) (imageId lodId : Z)
    (dst : Intermediate) : Result Intermediate :=
  _ ← ASSERT (objectTypeOpcode spirv imageId =? spvOp.OpTypeImage);
  let isArrayed := negb (word (objectTypeDefinition spirv imageId) 5 =? 0) in
  let dimensions := Word32.wrap (resultTyComponentCount - (if isArrayed then 1 else 0)) in
  let descriptorType := descriptorTypeOf imageId in
  let descriptor := getPointer imageId in
  '(width, height, depth) ←
    match descriptorType with
    | VK_DESCRIPTOR_TYPE_STORAGE_IMAGE
    | VK_DESCRIPTOR_TYPE_STORAGE_TEXEL_BUFFER =>
        Ok (width (storageAt descriptor), height (storageAt descriptor),
            depth (storageAt descriptor))
    | VK_DESCRIPTOR_TYPE_COMBINED_IMAGE_SAMPLER
    | VK_DESCRIPTOR_TYPE_SAMPLED_IMAGE
    | VK_DESCRIPTOR_TYPE_UNIFORM_TEXEL_BUFFER =>
        Ok (sampled_width (sampledAt descriptor), sampled_height (sampledAt descriptor),
            sampled_depth (sampledAt descriptor))
    | _ => Abort Unreachable
    end;
  dst ←
    (if negb (lodId =? 0) then
       let lodVal := operandOf lodId in
       _ ← ASSERT (componentCount lodVal =? 1);
       let lod := OpInt lodVal 0 in
       let one := SIMD.Int 1 in
       let dst := if 1 <=? dimensions
                  then move 0 (SIMD_max_s (SIMD_shr_s (SIMD.Int width) lod) one) dst else dst in
       let dst := if 2 <=? dimensions
                  then move 1 (SIMD_max_s (SIMD_shr_s (SIMD.Int height) lod) one) dst else dst in
       let dst := if 3 <=? dimensions
                  then move 2 (SIMD_max_s (SIMD_shr_s (SIMD.Int depth) lod) one) dst else dst in
       Ok dst
     else
       let dst := if 1 <=? dimensions then move 0 (SIMD.Int width) dst else dst in
       let dst := if 2 <=? dimensions then move 1 (SIMD.Int height) dst else dst in
       let dst := if 3 <=? dimensions then move 2 (SIMD.Int depth) dst else dst in
       Ok dst);
  let dst := if isArrayed then move dimensions (SIMD.Int depth) dst else dst in
  Ok dst.

(** [resultTyComponentCount] is the component count of the type
    [insn.resultTypeId()] names. *)
Definition EmitImageQuerySizeLod (insn : Insn) (resultTyComponentCount : Z)
    : Result Intermediate :=
  let imageId := word insn 3 in
  let lodId := word insn 4 in
  let dst := createIntermediate resultTyComponentCount in
  GetImageDimensions resultTyComponentCount imageId lodId dst.

Definition EmitImageQuerySize (insn : Insn) (resultTyComponentCount : Z)
    : Result Intermediate :=
  let imageId := word insn 3 in
  let lodId := 0 in
  let dst := createIntermediate resultTyComponentCount in
  GetImageDimensions resultTyComponentCount imageId lodId dst.

(** The width, height and depth a query reads for an image id. *)
Definition descriptorExtent (imageId : Z) : option (Z * Z * Z) :=
  let descriptor := getPointer imageId in
  match descriptorTypeOf imageId with
  | VK_DESCRIPTOR_TYPE_STORAGE_IMAGE
  | VK_DESCRIPTOR_TYPE_STORAGE_TEXEL_BUFFER =>
      Some (width (storageAt descriptor), height (storageAt descriptor),
            depth (storageAt descriptor))
  | VK_DESCRIPTOR_TYPE_COMBINED_IMAGE_SAMPLER
  | VK_DESCRIPTOR_TYPE_SAMPLED_IMAGE
  | VK_DESCRIPTOR_TYPE_UNIFORM_TEXEL_BUFFER =>
      Some (sampled_width (sampledAt descriptor), sampled_height (sampledAt descriptor),
            sampled_depth (sampledAt descriptor))
  | _ => None
  end.

End ImageQueries.

(** ** The pixel codec

    SIMD operations act lane by lane, so the codec is written for one
    lane: [packed k] is the lane of [packed[k]], and the decoded texel
    lists the lane of each of the four components moved into [dst].
    The constructors record the SIMD type of the moved value. *)

Inductive Scalar :=
| IntLane (x : Z)
| UIntLane (x : Z)
| FloatLane (x : Z).

Definition laneBits (s : Scalar) : Z :=
  match s with IntLane x | UIntLane x | FloatLane x => x end.

Declare Scope lane_scope.
Delimit Scope lane_scope with lane.
Notation "a .& b" := (Word32.and a b) (at level 40, left associativity) : lane_scope.
Notation "a .| b" := (Word32.or a b) (at level 50, left associativity) : lane_scope.
Notation "a <<. n" := (Word32.shl a n) (at level 33, left associativity) : lane_scope.
(** [>>] on an [Int] lane and on a [UInt] lane. *)
Notation "a >>s n" := (Word32.shr_s a n) (at level 33, left associativity) : lane_scope.
Notation "a >>u n" := (Word32.shr_u a n) (at level 33, left associativity) : lane_scope.
Notation "a *f b" := (F32.mul a b) (at level 40, left associativity) : lane_scope.

(** Half-precision values, IEEE 754 binary16. *)
Module F16.

Definition prec : Z := 11.
Definition emax : Z := 16.

Definition of_bits (h : Z) : spec_float :=
  let h := Z.land h 0xFFFF in
  let s := Z.testbit h 15 in
  let e := Z.land (Z.shiftr h 10) 0x1F in
  let m := Z.land h 0x3FF in
  if e =? 0 then
    match m with
    | Zpos p => S754_finite s p (-24)
    | _ => S754_zero s
    end
  else if e =? 31 then
    (if m =? 0 then S754_infinity s else S754_nan)
  else
    match Z.lor m 0x400 with
    | Zpos p => S754_finite s p (e - 25)
    | _ => S754_nan
    end.

Definition sign_bit (s : bool) : Z := if s then 0x8000 else 0.

Definition to_bits (f : spec_float) : Z :=
  match f with
  | S754_zero s => sign_bit s
  | S754_infinity s => Z.lor (sign_bit s) 0x7C00
  | S754_nan => 0x7E00
  | S754_finite s m e =>
      if Zpos m <? 0x400 then Z.lor (sign_bit s) (Zpos m)
      else Z.lor (sign_bit s) (Z.lor (Z.shiftl (e + 25) 10) (Zpos m - 0x400))
  end.

(** The value of a float, rounded to the given format. *)
Definition convert (prec emax : Z) (f : spec_float) : spec_float :=
  match f with
  | S754_finite s m e => binary_normalize prec emax (if s then Zneg m else Zpos m) e s
  | _ => f
  end.

End F16.

(** Modelled from the spec: [halfToFloatBits] and [floatToHalfBits] are
    defined outside this file's source.  The first widens a half-float
    bit pattern to single precision: the sign, the exponent and the
    mantissa fields are carried over, so a finite pattern becomes the
    single-precision pattern of the same value, and an infinity or a
    NaN keeps its sign and has its ten mantissa bits, the payload of a
    NaN, at the top of the wider mantissa.  The second converts a
    single-precision pattern to the half-float pattern of its value,
    placed in the upper sixteen bits when [storeInUpperBits] is set.
    The spec leaves open the rounding of values that are not
    half-precision numbers and the pattern a NaN is narrowed to:
    nearest-even and the quiet NaN are taken here. *)
Definition halfToFloatBits (halfBits : Z) : Z :=
  let h := Z.land halfBits 0xFFFF in
  let sign32 := Z.shiftl (Z.land h 0x8000) 16 in
  let man32 := Z.shiftl (Z.land h 0x03FF) 13 in
  if Z.land h 0x7C00 =? 0x7C00 then Z.lor sign32 (Z.lor 0x7F800000 man32)
  else F32.to_bits (F16.convert F32.prec F32.emax (F16.of_bits h)).

Definition floatToHalfBits (floatBits : Z) (storeInUpperBits : bool) : Z :=
  let joined := F16.to_bits (F16.convert F16.prec F16.emax (F32.of_bits floatBits)) in
  if storeInUpperBits then Word32.shl joined 16 else joined.

Section Codec.
Local Open Scope lane_scope.

(** [sw::power], an approximation defined outside this file's source. *)
Variable power : Z -> Z -> Z.

(** Float literals of the source, as single-precision patterns. *)
Definition f_0_0 : Z := 0.
Definition f_1_0 : Z := F32.lit 1.
Definition f_m1_0 : Z := F32.lit (-1).
(** [0.055f], [2.4f], [0.04045f], [1.0f / 12.92f], [1.0f / 1.055f]. *)
Definition f_0_055 : Z := 0x3D6147AE.
Definition f_2_4 : Z := 0x4019999A.
Definition f_0_04045 : Z := 0x3D25AEE6.
Definition f_inv_12_92 : Z := F32.div f_1_0 0x414EB852.
Definition f_inv_1_055 : Z := F32.div f_1_0 0x3F870A3D.

Definition sRGBtoLinear (c : Z) : Z :=
  let lc := c *f f_inv_12_92 in
  let ec := power (F32.add c f_0_055 *f f_inv_1_055) f_2_4 in
  let linear := F32.CmpLT c f_0_04045 in
  (linear .& lc) .| (Word32.not linear .& ec).

(** [SIMD::Float(x) * SIMD::Float(1.0f / max)] on an [Int] lane [x]. *)
Definition unorm (x max : Z) : Z := F32.of_int x *f F32.div f_1_0 (F32.lit max).

(** [Max(SIMD::Float(x) * SIMD::Float(1.0f / max), SIMD::Float(-1.0f))]. *)
Definition snorm (x max : Z) : Z := F32.Max (F32.of_int x *f F32.div f_1_0 (F32.lit max)) f_m1_0.

(** The decode table of [EmitImageRead] (source lines 751-1070): the
    unpack rule of a format, or the unsupported-format abort. *)
Definition decodeTexel (vkFormat : VkFormat) : Result ((nat -> Z) -> list Scalar) :=
  match vkFormat with
  | VK_FORMAT_R32G32B32A32_SFLOAT
  | VK_FORMAT_R32G32B32A32_SINT
  | VK_FORMAT_R32G32B32A32_UINT =>
      Ok (fun packed =>
        [IntLane (packed 0%nat); IntLane (packed 1%nat);
         IntLane (packed 2%nat); IntLane (packed 3%nat)])
  | VK_FORMAT_R32_SINT
  | VK_FORMAT_R32_UINT =>
      Ok (fun packed => [IntLane (packed 0%nat); IntLane 0; IntLane 0; IntLane 1])
  | VK_FORMAT_R32_SFLOAT
  | VK_FORMAT_D32_SFLOAT
  | VK_FORMAT_D32_SFLOAT_S8_UINT =>
      Ok (fun packed =>
        [IntLane (packed 0%nat); FloatLane f_0_0; FloatLane f_0_0; FloatLane f_1_0])
  | VK_FORMAT_D16_UNORM =>
      Ok (fun packed =>
        [FloatLane (unorm (packed 0%nat .& 0xFFFF) 0xFFFF);
         FloatLane f_0_0; FloatLane f_0_0; FloatLane f_1_0])
  | VK_FORMAT_R16G16B16A16_UNORM =>
      Ok (fun packed =>
        [FloatLane (unorm (packed 0%nat .& 0xFFFF) 0xFFFF);
         FloatLane (unorm ((packed 0%nat >>s 16) .& 0xFFFF) 0xFFFF);
         FloatLane (unorm (packed 1%nat .& 0xFFFF) 0xFFFF);
         FloatLane (unorm ((packed 1%nat >>s 16) .& 0xFFFF) 0xFFFF)])
  | VK_FORMAT_R16G16B16A16_SNORM =>
      Ok (fun packed =>
        [FloatLane (snorm ((packed 0%nat <<. 16) .& 0xFFFF0000) 0x7FFF0000);
         FloatLane (snorm (packed 0%nat .& 0xFFFF0000) 0x7FFF0000);
         FloatLane (snorm ((packed 1%nat <<. 16) .& 0xFFFF0000) 0x7FFF0000);
         FloatLane (snorm (packed 1%nat .& 0xFFFF0000) 0x7FFF0000)])
  | VK_FORMAT_R16G16B16A16_SINT =>
      Ok (fun packed =>
        [IntLane ((packed 0%nat <<. 16) >>s 16); IntLane (packed 0%nat >>s 16);
         IntLane ((packed 1%nat <<. 16) >>s 16); IntLane (packed 1%nat >>s 16)])
  | VK_FORMAT_R16G16B16A16_UINT =>
      Ok (fun packed =>
        [IntLane (packed 0%nat .& 0xFFFF); IntLane ((packed 0%nat >>s 16) .& 0xFFFF);
         IntLane (packed 1%nat .& 0xFFFF); IntLane ((packed 1%nat >>s 16) .& 0xFFFF)])
  | VK_FORMAT_R16G16B16A16_SFLOAT =>
      Ok (fun packed =>
        [UIntLane (halfToFloatBits (packed 0%nat .& 0x0000FFFF));
         UIntLane (halfToFloatBits ((packed 0%nat .& 0xFFFF0000) >>u 16));
         UIntLane (halfToFloatBits (packed 1%nat .& 0x0000FFFF));
         UIntLane (halfToFloatBits ((packed 1%nat .& 0xFFFF0000) >>u 16))])
  | VK_FORMAT_R8G8B8A8_SNORM
  | VK_FORMAT_A8B8G8R8_SNORM_PACK32 =>
      Ok (fun packed =>
        [FloatLane (snorm ((packed 0%nat <<. 24) .& 0xFF000000) 0x7F000000);
         FloatLane (snorm ((packed 0%nat <<. 16) .& 0xFF000000) 0x7F000000);
         FloatLane (snorm ((packed 0%nat <<. 8) .& 0xFF000000) 0x7F000000);
         FloatLane (snorm (packed 0%nat .& 0xFF000000) 0x7F000000)])
  | VK_FORMAT_R8G8B8A8_UNORM
  | VK_FORMAT_A8B8G8R8_UNORM_PACK32 =>
      Ok (fun packed =>
        [FloatLane (unorm (packed 0%nat .& 0xFF) 0xFF);
         FloatLane (unorm ((packed 0%nat >>s 8) .& 0xFF) 0xFF);
         FloatLane (unorm ((packed 0%nat >>s 16) .& 0xFF) 0xFF);
         FloatLane (unorm ((packed 0%nat >>s 24) .& 0xFF) 0xFF)])
  | VK_FORMAT_R8G8B8A8_SRGB
  | VK_FORMAT_A8B8G8R8_SRGB_PACK32 =>
      Ok (fun packed =>
        [FloatLane (sRGBtoLinear (unorm (packed 0%nat .& 0xFF) 0xFF));
         FloatLane (sRGBtoLinear (unorm ((packed 0%nat >>s 8) .& 0xFF) 0xFF));
         FloatLane (sRGBtoLinear (unorm ((packed 0%nat >>s 16) .& 0xFF) 0xFF));
         FloatLane (unorm ((packed 0%nat >>s 24) .& 0xFF) 0xFF)])
  | VK_FORMAT_B8G8R8A8_UNORM =>
      Ok (fun packed =>
        [FloatLane (unorm ((packed 0%nat >>s 16) .& 0xFF) 0xFF);
         FloatLane (unorm ((packed 0%nat >>s 8) .& 0xFF) 0xFF);
         FloatLane (unorm (packed 0%nat .& 0xFF) 0xFF);
         FloatLane (unorm ((packed 0%nat >>s 24) .& 0xFF) 0xFF)])
  | VK_FORMAT_B8G8R8A8_SRGB =>
      Ok (fun packed =>
        [FloatLane (sRGBtoLinear (unorm ((packed 0%nat >>s 16) .& 0xFF) 0xFF));
         FloatLane (sRGBtoLinear (unorm ((packed 0%nat >>s 8) .& 0xFF) 0xFF));
         FloatLane (sRGBtoLinear (unorm (packed 0%nat .& 0xFF) 0xFF));
         FloatLane (unorm ((packed 0%nat >>s 24) .& 0xFF) 0xFF)])
  | VK_FORMAT_R8G8B8A8_UINT
  | VK_FORMAT_A8B8G8R8_UINT_PACK32 =>
      Ok (fun packed =>
        [UIntLane (packed 0%nat .& 0xFF); UIntLane ((packed 0%nat >>u 8) .& 0xFF);
         UIntLane ((packed 0%nat >>u 16) .& 0xFF); UIntLane ((packed 0%nat >>u 24) .& 0xFF)])
  | VK_FORMAT_R8G8B8A8_SINT
  | VK_FORMAT_A8B8G8R8_SINT_PACK32 =>
      Ok (fun packed =>
        [IntLane ((packed 0%nat <<. 24) >>s 24); IntLane ((packed 0%nat <<. 16) >>s 24);
         IntLane ((packed 0%nat <<. 8) >>s 24); IntLane (packed 0%nat >>s 24)])
  | VK_FORMAT_R8_UNORM =>
      Ok (fun packed =>
        [FloatLane (unorm (packed 0%nat .& 0xFF) 0xFF);
         FloatLane f_0_0; FloatLane f_0_0; FloatLane f_1_0])
  | VK_FORMAT_R8_SNORM =>
      Ok (fun packed =>
        [FloatLane (snorm ((packed 0%nat <<. 24) .& 0xFF000000) 0x7F000000);
         FloatLane f_0_0; FloatLane f_0_0; FloatLane f_1_0])
  | VK_FORMAT_R8_UINT
  | VK_FORMAT_S8_UINT =>
      Ok (fun packed =>
        [UIntLane (packed 0%nat .& 0xFF); UIntLane 0; UIntLane 0; UIntLane 1])
  | VK_FORMAT_R8_SINT =>
      Ok (fun packed =>
        [IntLane ((packed 0%nat <<. 24) >>s 24); IntLane 0; IntLane 0; IntLane 1])
  | VK_FORMAT_R8G8_UNORM =>
      Ok (fun packed =>
        [FloatLane (unorm (packed 0%nat .& 0xFF) 0xFF);
         FloatLane (unorm ((packed 0%nat >>s 8) .& 0xFF) 0xFF);
         FloatLane f_0_0; FloatLane f_1_0])
  | VK_FORMAT_R8G8_SNORM =>
      Ok (fun packed =>
        [FloatLane (snorm ((packed 0%nat <<. 24) .& 0xFF000000) 0x7F000000);
         FloatLane (snorm ((packed 0%nat <<. 16) .& 0xFF000000) 0x7F000000);
         FloatLane f_0_0; FloatLane f_1_0])
  | VK_FORMAT_R8G8_UINT =>
      Ok (fun packed =>
        [UIntLane (packed 0%nat .& 0xFF); UIntLane ((packed 0%nat >>u 8) .& 0xFF);
         UIntLane 0; UIntLane 1])
  | VK_FORMAT_R8G8_SINT =>
      Ok (fun packed =>
        [IntLane ((packed 0%nat <<. 24) >>s 24); IntLane ((packed 0%nat <<. 16) >>s 24);
         IntLane 0; IntLane 1])
  | VK_FORMAT_R16_SFLOAT =>
      Ok (fun packed =>
        [UIntLane (halfToFloatBits (packed 0%nat .& 0x0000FFFF));
         FloatLane f_0_0; FloatLane f_0_0; FloatLane f_1_0])
  | VK_FORMAT_R16_UNORM =>
      Ok (fun packed =>
        [FloatLane (unorm (packed 0%nat .& 0xFFFF) 0xFFFF);
         FloatLane f_0_0; FloatLane f_0_0; FloatLane f_1_0])
  | VK_FORMAT_R16_SNORM =>
      Ok (fun packed =>
        [FloatLane (snorm ((packed 0%nat <<. 16) .& 0xFFFF0000) 0x7FFF0000);
         FloatLane f_0_0; FloatLane f_0_0; FloatLane f_1_0])
  | VK_FORMAT_R16_UINT =>
      Ok (fun packed =>
        [IntLane (packed 0%nat .& 0xFFFF); UIntLane 0; UIntLane 0; UIntLane 1])
  | VK_FORMAT_R16_SINT =>
      Ok (fun packed =>
        [IntLane ((packed 0%nat <<. 16) >>s 16); IntLane 0; IntLane 0; IntLane 1])
  | VK_FORMAT_R16G16_SFLOAT =>
      Ok (fun packed =>
        [UIntLane (halfToFloatBits (packed 0%nat .& 0x0000FFFF));
         UIntLane (halfToFloatBits ((packed 0%nat .& 0xFFFF0000) >>u 16));
         FloatLane f_0_0; FloatLane f_1_0])
  | VK_FORMAT_R16G16_UNORM =>
      Ok (fun packed =>
        [FloatLane (unorm (packed 0%nat .& 0xFFFF) 0xFFFF);
         FloatLane (F32.of_uint (packed 0%nat >>u 16) *f F32.div f_1_0 (F32.lit 0xFFFF));
         FloatLane f_0_0; FloatLane f_1_0])
  | VK_FORMAT_R16G16_SNORM =>
      Ok (fun packed =>
        [FloatLane (snorm ((packed 0%nat <<. 16) .& 0xFFFF0000) 0x7FFF0000);
         FloatLane (snorm (packed 0%nat .& 0xFFFF0000) 0x7FFF0000);
         FloatLane f_0_0; FloatLane f_1_0])
  | VK_FORMAT_R16G16_UINT =>
      Ok (fun packed =>
        [IntLane (packed 0%nat .& 0xFFFF); IntLane ((packed 0%nat >>s 16) .& 0xFFFF);
         UIntLane 0; UIntLane 1])
  | VK_FORMAT_R16G16_SINT =>
      Ok (fun packed =>
        [IntLane ((packed 0%nat <<. 16) >>s 16); IntLane (packed 0%nat >>s 16);
         IntLane 0; IntLane 1])
  | VK_FORMAT_R32G32_SINT
  | VK_FORMAT_R32G32_UINT =>
      Ok (fun packed =>
        [IntLane (packed 0%nat); IntLane (packed 1%nat); IntLane 0; IntLane 1])
  | VK_FORMAT_R32G32_SFLOAT =>
      Ok (fun packed =>
        [IntLane (packed 0%nat); IntLane (packed 1%nat); FloatLane f_0_0; FloatLane f_1_0])
  | VK_FORMAT_A2B10G10R10_UINT_PACK32 =>
      Ok (fun packed =>
        [IntLane (packed 0%nat .& 0x3FF); IntLane ((packed 0%nat >>s 10) .& 0x3FF);
         IntLane ((packed 0%nat >>s 20) .& 0x3FF); IntLane ((packed 0%nat >>s 30) .& 0x3)])
  | VK_FORMAT_A2R10G10B10_UINT_PACK32 =>
      Ok (fun packed =>
        [IntLane ((packed 0%nat >>s 20) .& 0x3FF); IntLane ((packed 0%nat >>s 10) .& 0x3FF);
         IntLane (packed 0%nat .& 0x3FF); IntLane ((packed 0%nat >>s 30) .& 0x3)])
  | VK_FORMAT_A2B10G10R10_UNORM_PACK32 =>
      Ok (fun packed =>
        [FloatLane (unorm (packed 0%nat .& 0x3FF) 0x3FF);
         FloatLane (unorm ((packed 0%nat >>s 10) .& 0x3FF) 0x3FF);
         FloatLane (unorm ((packed 0%nat >>s 20) .& 0x3FF) 0x3FF);
         FloatLane (unorm ((packed 0%nat >>s 30) .& 0x3) 0x3)])
  | VK_FORMAT_A2R10G10B10_UNORM_PACK32 =>
      Ok (fun packed =>
        [FloatLane (unorm ((packed 0%nat >>s 20) .& 0x3FF) 0x3FF);
         FloatLane (unorm ((packed 0%nat >>s 10) .& 0x3FF) 0x3FF);
         FloatLane (unorm (packed 0%nat .& 0x3FF) 0x3FF);
         FloatLane (unorm ((packed 0%nat >>s 30) .& 0x3) 0x3)])
  | VK_FORMAT_R4G4B4A4_UNORM_PACK16 =>
      Ok (fun packed =>
        [FloatLane (unorm ((packed 0%nat >>s 12) .& 0xF) 0xF);
         FloatLane (unorm ((packed 0%nat >>s 8) .& 0xF) 0xF);
         FloatLane (unorm ((packed 0%nat >>s 4) .& 0xF) 0xF);
         FloatLane (unorm (packed 0%nat .& 0xF) 0xF)])
  | VK_FORMAT_B4G4R4A4_UNORM_PACK16 =>
      Ok (fun packed =>
        [FloatLane (unorm ((packed 0%nat >>s 4) .& 0xF) 0xF);
         FloatLane (unorm ((packed 0%nat >>s 8) .& 0xF) 0xF);
         FloatLane (unorm ((packed 0%nat >>s 12) .& 0xF) 0xF);
         FloatLane (unorm (packed 0%nat .& 0xF) 0xF)])
  | VK_FORMAT_A4R4G4B4_UNORM_PACK16_EXT =>
      Ok (fun packed =>
        [FloatLane (unorm ((packed 0%nat >>s 8) .& 0xF) 0xF);
         FloatLane (unorm ((packed 0%nat >>s 4) .& 0xF) 0xF);
         FloatLane (unorm (packed 0%nat .& 0xF) 0xF);
         FloatLane (unorm ((packed 0%nat >>s 12) .& 0xF) 0xF)])
  | VK_FORMAT_A4B4G4R4_UNORM_PACK16_EXT =>
      Ok (fun packed =>
        [FloatLane (unorm (packed 0%nat .& 0xF) 0xF);
         FloatLane (unorm ((packed 0%nat >>s 4) .& 0xF) 0xF);
         FloatLane (unorm ((packed 0%nat >>s 8) .& 0xF) 0xF);
         FloatLane (unorm ((packed 0%nat >>s 12) .& 0xF) 0xF)])
  | VK_FORMAT_R5G6B5_UNORM_PACK16 =>
      Ok (fun packed =>
        [FloatLane (unorm ((packed 0%nat >>s 11) .& 0x1F) 0x1F);
         FloatLane (unorm ((packed 0%nat >>s 5) .& 0x3F) 0x3F);
         FloatLane (unorm (packed 0%nat .& 0x1F) 0x1F);
         FloatLane f_1_0])
  | VK_FORMAT_B5G6R5_UNORM_PACK16 =>
      Ok (fun packed =>
        [FloatLane (unorm (packed 0%nat .& 0x1F) 0x1F);
         FloatLane (unorm ((packed 0%nat >>s 5) .& 0x3F) 0x3F);
         FloatLane (unorm ((packed 0%nat >>s 11) .& 0x1F) 0x1F);
         FloatLane f_1_0])
  | VK_FORMAT_R5G5B5A1_UNORM_PACK16 =>
      Ok (fun packed =>
        [FloatLane (unorm ((packed 0%nat >>s 11) .& 0x1F) 0x1F);
         FloatLane (unorm ((packed 0%nat >>s 6) .& 0x1F) 0x1F);
         FloatLane (unorm ((packed 0%nat >>s 1) .& 0x1F) 0x1F);
         FloatLane (F32.of_int (packed 0%nat .& 0x1))])
  | VK_FORMAT_B5G5R5A1_UNORM_PACK16 =>
      Ok (fun packed =>
        [FloatLane (unorm ((packed 0%nat >>s 1) .& 0x1F) 0x1F);
         FloatLane (unorm ((packed 0%nat >>s 6) .& 0x1F) 0x1F);
         FloatLane (unorm ((packed 0%nat >>s 11) .& 0x1F) 0x1F);
         FloatLane (F32.of_int (packed 0%nat .& 0x1))])
  | VK_FORMAT_A1R5G5B5_UNORM_PACK16 =>
      Ok (fun packed =>
        [FloatLane (unorm ((packed 0%nat >>s 10) .& 0x1F) 0x1F);
         FloatLane (unorm ((packed 0%nat >>s 5) .& 0x1F) 0x1F);
         FloatLane (unorm (packed 0%nat .& 0x1F) 0x1F);
         FloatLane (F32.of_int ((packed 0%nat >>s 15) .& 0x1))])
  | VK_FORMAT_B10G11R11_UFLOAT_PACK32 =>
      Ok (fun packed =>
        [UIntLane (halfToFloatBits ((packed 0%nat <<. 4) .& 0x7FF0));
         UIntLane (halfToFloatBits ((packed 0%nat >>s 7) .& 0x7FF0));
         UIntLane (halfToFloatBits ((packed 0%nat >>s 17) .& 0x7FE0));
         FloatLane f_1_0])
  | _ => Abort (UnsupportedVkFormat vkFormat)
  end.

End Codec.

(** ** The encode table of [EmitImageWrite] *)

Section Encode.
Local Open Scope lane_scope.

(** [SIMD::UInt(Round(Min(Max(x, 0.0f), 1.0f) * SIMD::Float(scale)))]. *)
Definition packUnorm (x scale : Z) : Z :=
  F32.to_uint (F32.Round (F32.Min (F32.Max x f_0_0) f_1_0 *f F32.lit scale)).

(** [SIMD::Int(Round(Min(Max(x, -1.0f), 1.0f) * SIMD::Float(scale)))]. *)
Definition packSnorm (x scale : Z) : Z :=
  F32.to_int (F32.Round (F32.Min (F32.Max x f_m1_0) f_1_0 *f F32.lit scale)).

(** The texel size and the packed lanes of a texel (source lines
    1120-1289), or the unsupported-format abort. *)
Definition encodeTexel (format : VkFormat) : Result (Z * ((nat -> Z) -> list Z)) :=
  match format with
  | VK_FORMAT_R32G32B32A32_SFLOAT
  | VK_FORMAT_R32G32B32A32_SINT
  | VK_FORMAT_R32G32B32A32_UINT =>
      Ok (16, fun texel => [texel 0%nat; texel 1%nat; texel 2%nat; texel 3%nat])
  | VK_FORMAT_R32_SFLOAT
  | VK_FORMAT_R32_SINT
  | VK_FORMAT_R32_UINT =>
      Ok (4, fun texel => [texel 0%nat])
  | VK_FORMAT_R8G8B8A8_UNORM =>
      Ok (4, fun texel =>
        [packUnorm (texel 0%nat) 255
         .| (packUnorm (texel 1%nat) 255 <<. 8)
         .| (packUnorm (texel 2%nat) 255 <<. 16)
         .| (packUnorm (texel 3%nat) 255 <<. 24)])
  | VK_FORMAT_R8G8B8A8_SNORM =>
      Ok (4, fun texel =>
        [(packSnorm (texel 0%nat) 127 .& 0xFF)
         .| ((packSnorm (texel 1%nat) 127 .& 0xFF) <<. 8)
         .| ((packSnorm (texel 2%nat) 127 .& 0xFF) <<. 16)
         .| ((packSnorm (texel 3%nat) 127 .& 0xFF) <<. 24)])
  | VK_FORMAT_R8G8B8A8_SINT
  | VK_FORMAT_R8G8B8A8_UINT =>
      Ok (4, fun texel =>
        [(texel 0%nat .& 0xff)
         .| ((texel 1%nat .& 0xff) <<. 8)
         .| ((texel 2%nat .& 0xff) <<. 16)
         .| ((texel 3%nat .& 0xff) <<. 24)])
  | VK_FORMAT_R16G16B16A16_SFLOAT =>
      Ok (8, fun texel =>
        [floatToHalfBits (texel 0%nat) false .| floatToHalfBits (texel 1%nat) true;
         floatToHalfBits (texel 2%nat) false .| floatToHalfBits (texel 3%nat) true])
  | VK_FORMAT_R16G16B16A16_SINT
  | VK_FORMAT_R16G16B16A16_UINT =>
      Ok (8, fun texel =>
        [(texel 0%nat .& 0xFFFF) .| ((texel 1%nat .& 0xFFFF) <<. 16);
         (texel 2%nat .& 0xFFFF) .| ((texel 3%nat .& 0xFFFF) <<. 16)])
  | VK_FORMAT_R32G32_SFLOAT
  | VK_FORMAT_R32G32_SINT
  | VK_FORMAT_R32G32_UINT =>
      Ok (8, fun texel => [texel 0%nat; texel 1%nat])
  | VK_FORMAT_R16G16_SFLOAT =>
      Ok (4, fun texel =>
        [floatToHalfBits (texel 0%nat) false .| floatToHalfBits (texel 1%nat) true])
  | VK_FORMAT_R16G16_SINT
  | VK_FORMAT_R16G16_UINT =>
      Ok (4, fun texel => [(texel 0%nat .& 0xFFFF) .| ((texel 1%nat .& 0xFFFF) <<. 16)])
  | VK_FORMAT_B10G11R11_UFLOAT_PACK32 =>
      Ok (4, fun texel =>
        [((floatToHalfBits (F32.Max (texel 0%nat) f_0_0) false .& 0x7FF0) >>u 4)
         .| ((floatToHalfBits (F32.Max (texel 1%nat) f_0_0) false .& 0x7FF0) <<. 7)
         .| ((floatToHalfBits (F32.Max (texel 2%nat) f_0_0) false .& 0x7FE0) <<. 17)])
  | VK_FORMAT_R16_SFLOAT =>
      Ok (2, fun texel => [floatToHalfBits (texel 0%nat) false])
  | VK_FORMAT_R16G16B16A16_UNORM =>
      Ok (8, fun texel =>
        [packUnorm (texel 0%nat) 0xFFFF .| (packUnorm (texel 1%nat) 0xFFFF <<. 16);
         packUnorm (texel 2%nat) 0xFFFF .| (packUnorm (texel 3%nat) 0xFFFF <<. 16)])
  | VK_FORMAT_A2B10G10R10_UNORM_PACK32 =>
      Ok (4, fun texel =>
        [packUnorm (texel 0%nat) 0x3FF
         .| (packUnorm (texel 1%nat) 0x3FF <<. 10)
         .| (packUnorm (texel 2%nat) 0x3FF <<. 20)
         .| (packUnorm (texel 3%nat) 0x3 <<. 30)])
  | VK_FORMAT_R16G16_UNORM =>
      Ok (4, fun texel =>
        [packUnorm (texel 0%nat) 0xFFFF .| (packUnorm (texel 1%nat) 0xFFFF <<. 16)])
  | VK_FORMAT_R8G8_UNORM =>
      Ok (2, fun texel =>
        [packUnorm (texel 0%nat) 0xFF .| (packUnorm (texel 1%nat) 0xFF <<. 8)])
  | VK_FORMAT_R16_UNORM =>
      Ok (2, fun texel => [packUnorm (texel 0%nat) 0xFFFF])
  | VK_FORMAT_R8_UNORM =>
      Ok (1, fun texel => [packUnorm (texel 0%nat) 0xFF])
  | VK_FORMAT_R16G16B16A16_SNORM =>
      Ok (8, fun texel =>
        [(packSnorm (texel 0%nat) 0x7FFF .& 0xFFFF) .| (packSnorm (texel 1%nat) 0x7FFF <<. 16);
         (packSnorm (texel 2%nat) 0x7FFF .& 0xFFFF) .| (packSnorm (texel 3%nat) 0x7FFF <<. 16)])
  | VK_FORMAT_R16G16_SNORM =>
      Ok (4, fun texel =>
        [(packSnorm (texel 0%nat) 0x7FFF .& 0xFFFF) .| (packSnorm (texel 1%nat) 0x7FFF <<. 16)])
  | VK_FORMAT_R8G8_SNORM =>
      Ok (2, fun texel =>
        [(packSnorm (texel 0%nat) 0x7F .& 0xFF) .| (packSnorm (texel 1%nat) 0x7F <<. 8)])
  | VK_FORMAT_R16_SNORM =>
      Ok (2, fun texel => [packSnorm (texel 0%nat) 0x7FFF])
  | VK_FORMAT_R8_SNORM =>
      Ok (1, fun texel => [packSnorm (texel 0%nat) 0x7F])
  | VK_FORMAT_R8G8_SINT
  | VK_FORMAT_R8G8_UINT =>
      Ok (2, fun texel => [(texel 0%nat .& 0xFF) .| ((texel 1%nat .& 0xFF) <<. 8)])
  | VK_FORMAT_R16_SINT
  | VK_FORMAT_R16_UINT =>
      Ok (2, fun texel => [texel 0%nat .& 0xFFFF])
  | VK_FORMAT_R8_SINT
  | VK_FORMAT_R8_UINT =>
      Ok (1, fun texel => [texel 0%nat .& 0xFF])
  | VK_FORMAT_A2B10G10R10_UINT_PACK32 =>
      Ok (4, fun texel =>
        [(texel 0%nat .& 0x3FF)
         .| ((texel 1%nat .& 0x3FF) <<. 10)
         .| ((texel 2%nat .& 0x3FF) <<. 20)
         .| ((texel 3%nat .& 0x3) <<. 30)])
  | _ => Abort (UnsupportedVkFormat format)
  end.

End Encode.

(** [SpirvFormatToVulkanFormat], on the numeric [spv::ImageFormat]. *)
Definition SpirvFormatToVulkanFormat (format : Z) : Result VkFormat :=
  match format with
  | 1 (* Rgba32f *) => Ok VK_FORMAT_R32G32B32A32_SFLOAT
  | 2 (* Rgba16f *) => Ok VK_FORMAT_R16G16B16A16_SFLOAT
  | 3 (* R32f *) => Ok VK_FORMAT_R32_SFLOAT
  | 4 (* Rgba8 *) => Ok VK_FORMAT_R8G8B8A8_UNORM
  | 5 (* Rgba8Snorm *) => Ok VK_FORMAT_R8G8B8A8_SNORM
  | 6 (* Rg32f *) => Ok VK_FORMAT_R32G32_SFLOAT
  | 7 (* Rg16f *) => Ok VK_FORMAT_R16G16_SFLOAT
  | 8 (* R11fG11fB10f *) => Ok VK_FORMAT_B10G11R11_UFLOAT_PACK32
  | 9 (* R16f *) => Ok VK_FORMAT_R16_SFLOAT
  | 10 (* Rgba16 *) => Ok VK_FORMAT_R16G16B16A16_UNORM
  | 11 (* Rgb10A2 *) => Ok VK_FORMAT_A2B10G10R10_UNORM_PACK32
  | 12 (* Rg16 *) => Ok VK_FORMAT_R16G16_UNORM
  | 13 (* Rg8 *) => Ok VK_FORMAT_R8G8_UNORM
  | 14 (* R16 *) => Ok VK_FORMAT_R16_UNORM
  | 15 (* R8 *) => Ok VK_FORMAT_R8_UNORM
  | 16 (* Rgba16Snorm *) => Ok VK_FORMAT_R16G16B16A16_SNORM
  | 17 (* Rg16Snorm *) => Ok VK_FORMAT_R16G16_SNORM
  | 18 (* Rg8Snorm *) => Ok VK_FORMAT_R8G8_SNORM
  | 19 (* R16Snorm *) => Ok VK_FORMAT_R16_SNORM
  | 20 (* R8Snorm *) => Ok VK_FORMAT_R8_SNORM
  | 21 (* Rgba32i *) => Ok VK_FORMAT_R32G32B32A32_SINT
  | 22 (* Rgba16i *) => Ok VK_FORMAT_R16G16B16A16_SINT
  | 23 (* Rgba8i *) => Ok VK_FORMAT_R8G8B8A8_SINT
  | 24 (* R32i *) => Ok VK_FORMAT_R32_SINT
  | 25 (* Rg32i *) => Ok VK_FORMAT_R32G32_SINT
  | 26 (* Rg16i *) => Ok VK_FORMAT_R16G16_SINT
  | 27 (* Rg8i *) => Ok VK_FORMAT_R8G8_SINT
  | 28 (* R16i *) => Ok VK_FORMAT_R16_SINT
  | 29 (* R8i *) => Ok VK_FORMAT_R8_SINT
  | 30 (* Rgba32ui *) => Ok VK_FORMAT_R32G32B32A32_UINT
  | 31 (* Rgba16ui *) => Ok VK_FORMAT_R16G16B16A16_UINT
  | 32 (* Rgba8ui *) => Ok VK_FORMAT_R8G8B8A8_UINT
  | 33 (* R32ui *) => Ok VK_FORMAT_R32_UINT
  | 34 (* Rgb10a2ui *) => Ok VK_FORMAT_A2B10G10R10_UINT_PACK32
  | 35 (* Rg32ui *) => Ok VK_FORMAT_R32G32_UINT
  | 36 (* Rg16ui *) => Ok VK_FORMAT_R16G16_UINT
  | 37 (* Rg8ui *) => Ok VK_FORMAT_R8G8_UINT
  | 38 (* R16ui *) => Ok VK_FORMAT_R16_UINT
  | 39 (* R8ui *) => Ok VK_FORMAT_R8_UINT
  | _ => Abort (UnsupportedImageFormat format)
  end.

(** ** Format properties *)

(** The channels a format stores; a depth/stencil format stores one
    channel per aspect. *)
Definition storedChannels (vkFormat : VkFormat) : nat :=
  match vkFormat with
  | VK_FORMAT_R32_SINT | VK_FORMAT_R32_UINT | VK_FORMAT_R32_SFLOAT
  | VK_FORMAT_D32_SFLOAT | VK_FORMAT_D32_SFLOAT_S8_UINT | VK_FORMAT_D16_UNORM
  | VK_FORMAT_R8_UNORM | VK_FORMAT_R8_SNORM | VK_FORMAT_R8_UINT | VK_FORMAT_S8_UINT
  | VK_FORMAT_R8_SINT
  | VK_FORMAT_R16_SFLOAT | VK_FORMAT_R16_UNORM | VK_FORMAT_R16_SNORM
  | VK_FORMAT_R16_UINT | VK_FORMAT_R16_SINT => 1
  | VK_FORMAT_R8G8_UNORM | VK_FORMAT_R8G8_SNORM | VK_FORMAT_R8G8_UINT | VK_FORMAT_R8G8_SINT
  | VK_FORMAT_R16G16_SFLOAT | VK_FORMAT_R16G16_UNORM | VK_FORMAT_R16G16_SNORM
  | VK_FORMAT_R16G16_UINT | VK_FORMAT_R16G16_SINT
  | VK_FORMAT_R32G32_SINT | VK_FORMAT_R32G32_UINT | VK_FORMAT_R32G32_SFLOAT => 2
  | VK_FORMAT_R5G6B5_UNORM_PACK16 | VK_FORMAT_B5G6R5_UNORM_PACK16
  | VK_FORMAT_B10G11R11_UFLOAT_PACK32 => 3
  | _ => 4
  end.

Inductive DataClass := IntegerClass | FloatClass.

(** The data class of a format, by its numeric suffix: [UINT] and
    [SINT] formats are integer; normalized, sRGB and floating-point
    formats are floating-point. *)
Definition dataClass (vkFormat : VkFormat) : DataClass :=
  match vkFormat with
  | VK_FORMAT_R32G32B32A32_SINT | VK_FORMAT_R32G32B32A32_UINT
  | VK_FORMAT_R32_SINT | VK_FORMAT_R32_UINT
  | VK_FORMAT_R16G16B16A16_SINT | VK_FORMAT_R16G16B16A16_UINT
  | VK_FORMAT_R8G8B8A8_UINT | VK_FORMAT_A8B8G8R8_UINT_PACK32
  | VK_FORMAT_R8G8B8A8_SINT | VK_FORMAT_A8B8G8R8_SINT_PACK32
  | VK_FORMAT_R8_UINT | VK_FORMAT_S8_UINT | VK_FORMAT_R8_SINT
  | VK_FORMAT_R8G8_UINT | VK_FORMAT_R8G8_SINT
  | VK_FORMAT_R16_UINT | VK_FORMAT_R16_SINT
  | VK_FORMAT_R16G16_UINT | VK_FORMAT_R16G16_SINT
  | VK_FORMAT_R32G32_SINT | VK_FORMAT_R32G32_UINT
  | VK_FORMAT_A2B10G10R10_UINT_PACK32 | VK_FORMAT_A2R10G10B10_UINT_PACK32 => IntegerClass
  | _ => FloatClass
  end.

(** The padding law: the value of a channel the format does not store. *)
Definition isPadding (class : DataClass) (channel : nat) (value : Scalar) : Prop :=
  match class with
  | FloatClass => value = FloatLane (if Nat.eqb channel 3 then F32.lit 1 else 0)
  | IntegerClass =>
      value = IntLane (if Nat.eqb channel 3 then 1 else 0) \/
      value = UIntLane (if Nat.eqb channel 3 then 1 else 0)
  end.

(** Modelled from the spec: [vk::Format::bytes()] is defined outside
    this file's source.  Texel sizes are 1, 2, 4, 8 or 16 bytes, as the
    channel widths of the format name give them; the combined
    depth/stencil format counts its depth plane. *)
Definition formatBytes (vkFormat : VkFormat) : Z :=
  match vkFormat with
  | VK_FORMAT_UNDEFINED => 0
  | VK_FORMAT_R32G32B32A32_SFLOAT | VK_FORMAT_R32G32B32A32_SINT
  | VK_FORMAT_R32G32B32A32_UINT => 16
  | VK_FORMAT_R16G16B16A16_UNORM | VK_FORMAT_R16G16B16A16_SNORM
  | VK_FORMAT_R16G16B16A16_SINT | VK_FORMAT_R16G16B16A16_UINT
  | VK_FORMAT_R16G16B16A16_SFLOAT
  | VK_FORMAT_R32G32_SINT | VK_FORMAT_R32G32_UINT | VK_FORMAT_R32G32_SFLOAT => 8
  | VK_FORMAT_D16_UNORM
  | VK_FORMAT_R8G8_UNORM | VK_FORMAT_R8G8_SNORM | VK_FORMAT_R8G8_UINT | VK_FORMAT_R8G8_SINT
  | VK_FORMAT_R16_SFLOAT | VK_FORMAT_R16_UNORM | VK_FORMAT_R16_SNORM
  | VK_FORMAT_R16_UINT | VK_FORMAT_R16_SINT
  | VK_FORMAT_R4G4B4A4_UNORM_PACK16 | VK_FORMAT_B4G4R4A4_UNORM_PACK16
  | VK_FORMAT_A4R4G4B4_UNORM_PACK16_EXT | VK_FORMAT_A4B4G4R4_UNORM_PACK16_EXT
  | VK_FORMAT_R5G6B5_UNORM_PACK16 | VK_FORMAT_B5G6R5_UNORM_PACK16
  | VK_FORMAT_R5G5B5A1_UNORM_PACK16 | VK_FORMAT_B5G5R5A1_UNORM_PACK16
  | VK_FORMAT_A1R5G5B5_UNORM_PACK16 => 2
  | VK_FORMAT_R8_UNORM | VK_FORMAT_R8_SNORM | VK_FORMAT_R8_UINT | VK_FORMAT_S8_UINT
  | VK_FORMAT_R8_SINT => 1
  | VK_FORMAT_OTHER _ bytes => bytes
  | _ => 4
  end.

(** ** Memory *)

(** Image memory: the byte stored at each address. *)
Definition Memory : Type := Z -> Z.

Definition loadByte (mem : Memory) (a : Z) : Z := mem a mod 256.

Definition storeByte (mem : Memory) (a v : Z) : Memory :=
  fun a' => if a' =? a then v mod 256 else mem a'.

(** Little-endian loads: [*Pointer<Byte>], [*Pointer<Short>] and
    [*Pointer<Int>]. *)
Definition load8 (mem : Memory) (a : Z) : Z := loadByte mem a.
Definition load16 (mem : Memory) (a : Z) : Z :=
  loadByte mem a + 2 ^ 8 * loadByte mem (a + 1).
Definition load32 (mem : Memory) (a : Z) : Z :=
  loadByte mem a + 2 ^ 8 * loadByte mem (a + 1)
  + 2 ^ 16 * loadByte mem (a + 2) + 2 ^ 24 * loadByte mem (a + 3).

Definition store8 (mem : Memory) (a v : Z) : Memory := storeByte mem a v.
Definition store16 (mem : Memory) (a v : Z) : Memory :=
  storeByte (storeByte mem a v) (a + 1) (v / 2 ^ 8).
Definition store32 (mem : Memory) (a v : Z) : Memory :=
  storeByte (storeByte (storeByte (storeByte mem a v) (a + 1) (v / 2 ^ 8))
               (a + 2) (v / 2 ^ 16)) (a + 3) (v / 2 ^ 24).

(** [Int(x)] of a [Short] (sign extension) and of a [Byte] (zero
    extension); [Short(x)] and [Byte(x)] of an [Int] truncate, which the
    byte stores above do. *)
Definition Int_of_Short (h : Z) : Z :=
  Word32.wrap (if h mod 2 ^ 16 <? 2 ^ 15 then h mod 2 ^ 16 else h mod 2 ^ 16 - 2 ^ 16).
Definition Int_of_Byte (b : Z) : Z := b mod 2 ^ 8.

(** ** Masked access through a SIMD pointer

    Modelled from the spec: [SIMD::Pointer::isInBounds], [Load] and
    [Store] are defined outside this file's source.  A lane is in
    bounds when its signed offset is not negative and the access ends
    within the addressable region; under the nullify policy a load
    yields zero on a lane that is masked off or out of bounds, and a
    store does nothing there. *)

Definition laneInBounds (p : SIMD.Pointer) (accessSize : Z) (i : nat) : bool :=
  (0 <=? Word32.signed (SIMD.offsets p i))
  && (Word32.signed (SIMD.offsets p i) + accessSize <=? SIMD.limit p).

Definition isInBounds (p : SIMD.Pointer) (accessSize : Z)
    (robustness : OutOfBoundsBehavior) : SIMD.t :=
  fun i => Word32.mask (laneInBounds p accessSize i).

Definition laneAddress (p : SIMD.Pointer) (i : nat) : Z :=
  SIMD.base p + Word32.signed (SIMD.offsets p i).

Definition Load (p : SIMD.Pointer) (robustness : OutOfBoundsBehavior) (mask : SIMD.t)
    (mem : Memory) : SIMD.t :=
  fun i =>
    if negb (SIMD.and mask (isInBounds p 4 robustness) i =? 0)
    then load32 mem (laneAddress p i) else 0.

(** [for(int i = 0; i < SIMD::Width; i++)]. *)
Definition lanes : list nat := seq 0 SIMD.Width.

Definition Store (p : SIMD.Pointer) (value : SIMD.t) (robustness : OutOfBoundsBehavior)
    (mask : SIMD.t) (mem : Memory) : Memory :=
  foldl (fun mem i =>
           if negb (SIMD.and mask (isInBounds p 4 robustness) i =? 0)
           then store32 mem (laneAddress p i) (value i) else mem)
    mem lanes.

(** ** EmitImageRead and EmitImageWrite *)

Section ImageAccess.

Variable spirv : Shader.
Variable operandOf : Z -> Operand.
Variable routine : Routine.
Variable getPointer : Z -> Z.
Variable storageAt : Z -> StorageImageDescriptor.
(** [inputAttachmentFormats[d.InputAttachmentIndex]] for the decorations
    of an image id. *)
Variable inputAttachmentFormat : Z -> VkFormat.
Variable power : Z -> Z -> Z.

Definition isD32S8 (vkFormat : VkFormat) : bool :=
  match vkFormat with VK_FORMAT_D32_SFLOAT_S8_UINT => true | _ => false end.

(** The format, the aspect and the texel pointer of a read (source
    lines 669-706). *)
Definition imageReadAddress (insn : Insn) (sampleId : Z)
    : Result (VkFormat * bool * Z * SIMD.Pointer) :=
  let imageId := word insn 3 in
  let imageType := objectTypeDefinition spirv imageId in
  _ ← ASSERT (objectTypeOpcode spirv imageId =? spvOp.OpTypeImage);
  let dim := word imageType 3 in
  let coordinate := operandOf (word insn 4) in
  vkFormat ←
    (if dim =? spv.DimSubpassData then Ok (inputAttachmentFormat imageId)
     else SpirvFormatToVulkanFormat (word imageType 8));
  let useStencilAspect :=
    isD32S8 vkFormat && (typeOpcode spirv (word imageType 2) =? spvOp.OpTypeInt) in
  let vkFormat := if useStencilAspect then VK_FORMAT_S8_UINT else vkFormat in
  let binding := getPointer imageId in
  let imageBase :=
    if useStencilAspect then stencilPtr (storageAt binding) else ptr (storageAt binding) in
  let imageSizeInBytes := sizeInBytes (storageAt binding) in
  let robustness := Nullify in
  let texelSize := formatBytes vkFormat in
  let texelPtr :=
    GetTexelAddress operandOf routine imageBase imageSizeInBytes coordinate imageType
      (storageAt binding) texelSize sampleId useStencilAspect robustness in
  Ok (vkFormat, useStencilAspect, texelSize, texelPtr).

(** [packed[i] = texelPtr.Load(...); texelPtr += sizeof(float)] for
    [count] words from word [i]. *)
Fixpoint gatherWords (count : nat) (i : nat) (texelPtr : SIMD.Pointer) (mask : SIMD.t)
    (mem : Memory) (packed : nat -> SIMD.t) : nat -> SIMD.t :=
  match count with
  | O => packed
  | S count =>
      let packed := fun k => if Nat.eqb k i then Load texelPtr Nullify mask mem else packed k in
      gatherWords count (S i) (SIMD.advance texelPtr 4) mask mem packed
  end.

(** The packed lanes of a read (source lines 708-746).  [packed] holds
    the lanes before the gather: the source leaves them uninitialised. *)
Definition gatherTexel (texelSize : Z) (texelPtr : SIMD.Pointer) (activeLaneMask : SIMD.t)
    (mem : Memory) (packed : nat -> SIMD.t) : Result (nat -> SIMD.t) :=
  let robustness := Nullify in
  if (texelSize =? 4) || (texelSize =? 8) || (texelSize =? 16) then
    Ok (gatherWords (Z.to_nat (texelSize / 4)) 0 texelPtr activeLaneMask mem packed)
  else if texelSize =? 2 then
    let offsets := SIMD.offsets texelPtr in
    let mask := SIMD.and activeLaneMask (isInBounds texelPtr 2 robustness) in
    Ok (foldl (fun packed i =>
                 if negb (SIMD.Extract mask i =? 0) then
                   fun k =>
                     if Nat.eqb k 0
                     then SIMD.Insert (packed 0%nat)
                            (Int_of_Short
                               (load16 mem (SIMD.base texelPtr
                                            + Word32.signed (SIMD.Extract offsets i)))) i
                     else packed k
                 else packed)
          packed lanes)
  else if texelSize =? 1 then
    let offsets := SIMD.offsets texelPtr in
    let mask := SIMD.and activeLaneMask (isInBounds texelPtr 1 robustness) in
    Ok (foldl (fun packed i =>
                 if negb (SIMD.Extract mask i =? 0) then
                   fun k =>
                     if Nat.eqb k 0
                     then SIMD.Insert (packed 0%nat)
                            (Int_of_Byte
                               (load8 mem (SIMD.base texelPtr
                                           + Word32.signed (SIMD.Extract offsets i)))) i
                     else packed k
                 else packed)
          packed lanes)
  else Abort Unreachable.

(** [EmitImageRead]: the decoded texel of every lane. *)
Definition EmitImageRead (insn : Insn) (activeLaneMask : SIMD.t) (mem : Memory)
    (packed : nat -> SIMD.t) : Result (nat -> list Scalar) :=
  sampleId ← imageReadOperands insn;
  '(vkFormat, useStencilAspect, texelSize, texelPtr) ← imageReadAddress insn sampleId;
  packed ← gatherTexel texelSize texelPtr activeLaneMask mem packed;
  decode ← decodeTexel power vkFormat;
  Ok (fun lane => decode (fun k => packed k lane)).

(** The texel pointer of a write (source lines 1113-1118 and
    1294-1296). *)
Definition imageWriteAddress (insn : Insn) (sampleId : Z) (texelSize : Z) : SIMD.Pointer :=
  let imageId := word insn 1 in
  let imageType := objectTypeDefinition spirv imageId in
  let coordinate := operandOf (word insn 2) in
  let binding := getPointer imageId in
  let imageBase := ptr (storageAt binding) in
  let imageSizeInBytes := sizeInBytes (storageAt binding) in
  let robustness := Nullify in
  GetTexelAddress operandOf routine imageBase imageSizeInBytes coordinate imageType
    (storageAt binding) texelSize sampleId false robustness.

(** [texelPtr.Store(packed[i], ...); texelPtr += sizeof(float)] for
    [count] words from word [i]. *)
Fixpoint scatterWords (count : nat) (i : nat) (texelPtr : SIMD.Pointer) (mask : SIMD.t)
    (packed : nat -> SIMD.t) (mem : Memory) : Memory :=
  match count with
  | O => mem
  | S count =>
      let mem := Store texelPtr (packed i) Nullify mask mem in
      scatterWords count (S i) (SIMD.advance texelPtr 4) mask packed mem
  end.

(** The scatter of a write (source lines 1298-1335). *)
Definition scatterTexel (texelSize : Z) (texelPtr : SIMD.Pointer)
    (activeStoresAndAtomicsMask : SIMD.t) (packed : nat -> SIMD.t) (mem : Memory)
    : Result Memory :=
  let robustness := Nullify in
  if (texelSize =? 4) || (texelSize =? 8) || (texelSize =? 16) then
    Ok (scatterWords (Z.to_nat (texelSize / 4)) 0 texelPtr activeStoresAndAtomicsMask
          packed mem)
  else if texelSize =? 2 then
    let offsets := SIMD.offsets texelPtr in
    let mask := SIMD.and activeStoresAndAtomicsMask (isInBounds texelPtr 2 robustness) in
    Ok (foldl (fun mem i =>
                 if negb (SIMD.Extract mask i =? 0)
                 then store16 mem (SIMD.base texelPtr + Word32.signed (SIMD.Extract offsets i))
                        (SIMD.Extract (packed 0%nat) i)
                 else mem)
          mem lanes)
  else if texelSize =? 1 then
    let offsets := SIMD.offsets texelPtr in
    let mask := SIMD.and activeStoresAndAtomicsMask (isInBounds texelPtr 1 robustness) in
    Ok (foldl (fun mem i =>
                 if negb (SIMD.Extract mask i =? 0)
                 then store8 mem (SIMD.base texelPtr + Word32.signed (SIMD.Extract offsets i))
                        (SIMD.Extract (packed 0%nat) i)
                 else mem)
          mem lanes)
  else Abort Unreachable.

(** [EmitImageWrite]: the memory after the write. *)
Definition EmitImageWrite (insn : Insn) (activeStoresAndAtomicsMask : SIMD.t) (mem : Memory)
    : Result Memory :=
  let imageId := word insn 1 in
  let imageType := objectTypeDefinition spirv imageId in
  _ ← ASSERT (objectTypeOpcode spirv imageId =? spvOp.OpTypeImage);
  sampleId ← imageWriteOperands insn;
  let texel := operandOf (word insn 3) in
  format ← SpirvFormatToVulkanFormat (word imageType 8);
  '(texelSize, encode) ← encodeTexel format;
  let packed : nat -> SIMD.t :=
    fun k lane => nth k (encode (fun c => OpInt texel (Z.of_nat c) lane)) 0 in
  let texelPtr := imageWriteAddress insn sampleId texelSize in
  scatterTexel texelSize texelPtr activeStoresAndAtomicsMask packed mem.

End ImageAccess.

(** A descriptor with other contents in its stencil fields. *)
Definition setStencil (d : StorageImageDescriptor)
    (stencilPtr' rowPitch' slicePitch' samplePitch' : Z) : StorageImageDescriptor :=
  {| ptr := ptr d; stencilPtr := stencilPtr'; sizeInBytes := sizeInBytes d;
     width := width d; height := height d; depth := depth d;
     rowPitchBytes := rowPitchBytes d; slicePitchBytes := slicePitchBytes d;
     samplePitchBytes := samplePitchBytes d;
     stencilRowPitchBytes := rowPitch'; stencilSlicePitchBytes := slicePitch';
     stencilSamplePitchBytes := samplePitch'; sampleCount := sampleCount d |}.

(** ** What a lane of an image access sees *)

(** The packed words a read gathers for one lane from the texel at
    [addr]: little-endian words for 4-, 8- and 16-byte texels, the
    sign-extended half word or the zero-extended byte for 2- and 1-byte
    texels.  [rest] holds the words the gather leaves unwritten. *)
Definition texelAt (mem : Memory) (addr : Z) (texelSize : Z) (rest : nat -> Z) : nat -> Z :=
  fun k =>
    if (texelSize =? 4) || (texelSize =? 8) || (texelSize =? 16) then
      if (k <? Z.to_nat (texelSize / 4))%nat then load32 mem (addr + 4 * Z.of_nat k)
      else rest k
    else if texelSize =? 2 then
      if Nat.eqb k 0 then Int_of_Short (load16 mem addr) else rest k
    else
      if Nat.eqb k 0 then Int_of_Byte (load8 mem addr) else rest k.

(** The packed words of a lane a 4-, 8- or 16-byte gather nullifies. *)
Definition zeroWords (texelSize : Z) (rest : nat -> Z) : nat -> Z :=
  fun k => if (k <? Z.to_nat (texelSize / 4))%nat then 0 else rest k.

(** A lane takes part in an access when its mask lane is not zero. *)
Definition laneActive (mask : SIMD.t) (i : nat) : bool := negb (Word32.wrap (mask i) =? 0).

(** [texelPtr] after [k] steps of [texelPtr += sizeof(float)]. *)
Definition advanceWords (p : SIMD.Pointer) (k : nat) : SIMD.Pointer :=
  Nat.iter k (fun p => SIMD.advance p 4) p.

(** Byte [j] of the packed words of one lane, in the little-endian
    order the word, half-word and byte stores write them. *)
Definition texelByte (words : nat -> Z) (j : Z) : Z :=
  (words (Z.to_nat (j / 4)) / 2 ^ (8 * (j mod 4))) mod 256.

(** A mask with the lanes of [drop] switched off. *)
Definition withoutLanes (mask : SIMD.t) (drop : nat -> bool) : SIMD.t :=
  fun i => if drop i then 0 else mask i.

(** The packed words a texel of [texelSize] bytes occupies. *)
Definition packedWords (texelSize : Z) : nat := Z.to_nat ((texelSize + 3) / 4).

Section AccessLanes.

Variable spirv : Shader.
Variable operandOf : Z -> Operand.
Variable routine : Routine.
Variable getPointer : Z -> Z.
Variable storageAt : Z -> StorageImageDescriptor.

(** The out-of-bounds predicate and the computed byte offset of a lane
    of an access to image [imageId] at the coordinate [coordinateId]. *)
Definition accessOutOfBounds (imageId coordinateId sampleId : Z) (lane : nat) : bool :=
  laneOutOfBoundsb operandOf routine (operandOf coordinateId)
    (objectTypeDefinition spirv imageId) (storageAt (getPointer imageId)) sampleId lane.

Definition accessOffset (imageId coordinateId sampleId texelSize : Z)
    (useStencilAspect : bool) (lane : nat) : Z :=
  texelPtrOffset operandOf routine (operandOf coordinateId)
    (objectTypeDefinition spirv imageId) (storageAt (getPointer imageId)) texelSize sampleId
    useStencilAspect lane.

End AccessLanes.

(** ** Round trips through the codec *)

(** The texel operand of a write that holds a decoded texel: the bit
    patterns of its four components.  The packed words of an encoded
    texel, as the decode indexes them. *)
Definition texelOf (v : list Scalar) : nat -> Z := fun c => laneBits (nth c v (IntLane 0)).
Definition wordsOf (ws : list Z) : nat -> Z := fun k => nth k ws 0.

(** Decoding the encoding of a decoded texel. *)
Definition reencode (dec : (nat -> Z) -> list Scalar) (enc : (nat -> Z) -> list Z)
    (packed : nat -> Z) : list Scalar :=
  dec (wordsOf (enc (texelOf (dec packed)))).

(** The one format whose encode clamps with [Max(x, 0)], which sends a
    NaN to zero. *)
Definition clampsNaN (format : VkFormat) : bool :=
  match format with VK_FORMAT_B10G11R11_UFLOAT_PACK32 => true | _ => false end.

Definition noNaN (v : list Scalar) : Prop :=
  forall c, (c < 3)%nat -> F32.is_nan (texelOf v c) = false.

(** The formats whose channels are stored as half-precision floats,
    and a decoded texel none of whose four components is a NaN. *)
Definition halfFloat (format : VkFormat) : bool :=
  match format with
  | VK_FORMAT_R16G16B16A16_SFLOAT | VK_FORMAT_R16G16_SFLOAT | VK_FORMAT_R16_SFLOAT => true
  | _ => false
  end.

Definition allNumbers (v : list Scalar) : Prop :=
  forall c, (c < 4)%nat -> F32.is_nan (texelOf v c) = false.

(** Single-precision operations on values rather than bit patterns:
    the operations of [F32] without the trips through [to_bits] and
    [of_bits]. *)
Module SF32.

Definition zero : spec_float := S754_zero false.
Definition one : spec_float := S754_finite false 8388608 (-23).
Definition minus_one : spec_float := S754_finite true 8388608 (-23).
Definition valid (f : spec_float) : bool := valid_binary F32.prec F32.emax f.
Definition of_Z (z : Z) : spec_float := binary_normalize F32.prec F32.emax z 0 false.
Definition mul (a b : spec_float) : spec_float := SFmul F32.prec F32.emax a b.
Definition Max (a b : spec_float) : spec_float := if SFltb b a then a else b.
Definition Min (a b : spec_float) : spec_float := if SFltb a b then a else b.

Definition Round (f : spec_float) : spec_float :=
  match f with
  | S754_finite s m e =>
      if 0 <=? e then f
      else
        let r := F32.round_mantissa (Zpos m) e in
        binary_normalize F32.prec F32.emax (if s then - r else r) 0 s
  | _ => f
  end.

Definition trunc (f : spec_float) : option Z :=
  match f with
  | S754_zero _ => Some 0
  | S754_finite s m e =>
      let q := if 0 <=? e then Zpos m * 2 ^ e else Zpos m / 2 ^ (- e) in
      Some (if s then - q else q)
  | _ => None
  end.

Definition sign (f : spec_float) : bool :=
  match f with
  | S754_zero s | S754_infinity s | S754_finite s _ _ => s
  | S754_nan => false
  end.

Definition to_int (f : spec_float) : Z :=
  match trunc f with
  | Some q => if (- 2 ^ 31 <=? q) && (q <? 2 ^ 31) then Word32.wrap q else 0x80000000
  | None => 0x80000000
  end.

Definition to_uint (f : spec_float) : Z :=
  if sign f then 0
  else match trunc f with
       | Some q => if q <? 2 ^ 32 then q else 0
       | None => 0
       end.

End SF32.

(** [f] on every number of [n] bits above the prefix [acc]. *)
Fixpoint allBits (n : nat) (acc : Z) (f : Z -> bool) : bool :=
  match n with
  | O => f acc
  | S n => allBits n (2 * acc) f && allBits n (2 * acc + 1) f
  end.

(** The constants [1.0f / max] and [max] of the normalized formats. *)
Definition unormScale (max : Z) : spec_float := F32.of_bits (F32.div f_1_0 (F32.lit max)).
Definition packScale (scale : Z) : spec_float := F32.of_bits (F32.lit scale).

(** A field value [k] survives the decode and the encode of an
    unsigned normalized channel: every intermediate value is a float of
    the format and the packed integer is [k].  [C] and [M] are the
    constants [1.0f / max] and [max]. *)
Definition checkUnorm (C M : spec_float) (k : Z) : bool :=
  let f := SF32.of_Z k in
  let u := SF32.mul f C in
  let p := SF32.mul (SF32.Min (SF32.Max u SF32.zero) SF32.one) M in
  let r := SF32.Round p in
  SF32.valid f && SF32.valid u && SF32.valid p && SF32.valid r && (SF32.to_uint r =? k).

(** The same for a signed normalized channel of [bits] bits, held in
    the upper bits of the decoded integer.  The most negative pattern
    decodes to [-1.0], which is packed as the next pattern. *)
Definition checkSnorm (bits : Z) (C M : spec_float) (b : Z) : bool :=
  let x := Word32.signed (Z.shiftl b (32 - bits)) in
  let f := SF32.of_Z x in
  let u := SF32.mul f C in
  let v := SF32.Max u SF32.minus_one in
  let p := SF32.mul (SF32.Min (SF32.Max v SF32.minus_one) SF32.one) M in
  let r := SF32.Round p in
  SF32.valid f && SF32.valid u && SF32.valid p && SF32.valid r &&
  (Z.land (SF32.to_int r) (Z.ones bits) =? (if b =? 2 ^ (bits - 1) then b + 1 else b)).

(** A half-float pattern that is not a NaN survives the widening and
    the narrowing. *)
Definition checkHalf (h : Z) : bool :=
  let v := halfToFloatBits h in
  F32.is_nan v || (floatToHalfBits v false =? h).

(** An unsigned half-float field of 11 bits, held in bits 4 to 14,
    survives the widening, the clamp at zero and the narrowing, unless
    it is a NaN. *)
Definition checkUFloat (j : Z) : bool :=
  let h := Z.shiftl j 4 in
  let v := halfToFloatBits h in
  F32.is_nan v || (floatToHalfBits (F32.Max v f_0_0) false =? h).

(** ** EmitImageQueryLevels and EmitImageQuerySamples *)

Section LevelAndSampleQueries.

Variable spirv : Shader.
Variable getPointer : Z -> Z.
Variable descriptorTypeOf : Z -> VkDescriptorType.
Variable storageAt : Z -> StorageImageDescriptor.
Variable sampledAt : Z -> SampledImageDescriptor.

(** [resultTyComponentCount] is the component count of the type
    [insn.resultTypeId()] names. *)
Definition EmitImageQueryLevels (insn : Insn) (resultTyComponentCount : Z)
    : Result Intermediate :=
  _ ← ASSERT (resultTyComponentCount =? 1);
  let imageId := word insn 3 in
  let descriptorType := descriptorTypeOf imageId in
  let descriptor := getPointer imageId in
  mipLevels ←
    match descriptorType with
    | VK_DESCRIPTOR_TYPE_COMBINED_IMAGE_SAMPLER
    | VK_DESCRIPTOR_TYPE_SAMPLED_IMAGE
    | VK_DESCRIPTOR_TYPE_UNIFORM_TEXEL_BUFFER => Ok (sampled_mipLevels (sampledAt descriptor))
    | _ => Abort Unreachable
    end;
  let dst := createIntermediate 1 in
  Ok (move 0 (SIMD.Int mipLevels) dst).

Definition EmitImageQuerySamples (insn : Insn) (resultTyComponentCount : Z)
    : Result Intermediate :=
  _ ← ASSERT (resultTyComponentCount =? 1);
  let imageId := word insn 3 in
  let imageTy := objectTypeDefinition spirv imageId in
  _ ← ASSERT (objectTypeOpcode spirv imageId =? spvOp.OpTypeImage);
  _ ← ASSERT (word imageTy 3 =? spv.Dim2D);
  _ ← ASSERT (word imageTy 6 =? 1);
  let descriptorType := descriptorTypeOf imageId in
  let descriptor := getPointer imageId in
  sampleCount ←
    match descriptorType with
    | VK_DESCRIPTOR_TYPE_STORAGE_IMAGE => Ok (sampleCount (storageAt descriptor))
    | VK_DESCRIPTOR_TYPE_COMBINED_IMAGE_SAMPLER
    | VK_DESCRIPTOR_TYPE_SAMPLED_IMAGE
    | VK_DESCRIPTOR_TYPE_UNIFORM_TEXEL_BUFFER => Ok (sampled_sampleCount (sampledAt descriptor))
    | _ => Abort Unreachable
    end;
  let dst := createIntermediate 1 in
  Ok (move 0 (SIMD.Int sampleCount) dst).

End LevelAndSampleQueries.

(** ** EmitImageTexelPointer *)

Definition StorageClassImage : Z := 11.

Section TexelPointer.

Variable spirv : Shader.
Variable operandOf : Z -> Operand.
Variable routine : Routine.
Variable getPointer : Z -> Z.
Variable storageAt : Z -> StorageImageDescriptor.
(** [getType(id).storageClass] and [getType(id).element]. *)
Variable typeStorageClass : Z -> Z.
Variable typeElement : Z -> Z.
(** [getType(getType(getObject(id)).element).definition]: the image is
    passed by pointer, and the type looked at is the pointee's. *)
Variable pointeeTypeDefinition : Z -> Insn.

(** The arguments of [state->createPointer(resultId, ptr)]. *)
Definition EmitImageTexelPointer (insn : Insn) : Result (Z * SIMD.Pointer) :=
  let resultType := word insn 1 in
  let imageId := word insn 3 in
  let imageType := pointeeTypeDefinition imageId in
  let resultId := word insn 2 in
  _ ← ASSERT (opcode imageType =? spvOp.OpTypeImage);
  _ ← ASSERT (typeStorageClass resultType =? StorageClassImage);
  _ ← ASSERT (typeOpcode spirv (typeElement resultType) =? spvOp.OpTypeInt);
  let coordinate := operandOf (word insn 4) in
  let sampleId := word insn 5 in
  let binding := getPointer imageId in
  let imageBase := ptr (storageAt binding) in
  let imageSizeInBytes := sizeInBytes (storageAt binding) in
  let robustness := Nullify in
  let ptr :=
    GetTexelAddress operandOf routine imageBase imageSizeInBytes coordinate imageType
      (storageAt binding) 4 sampleId false robustness in
  Ok (resultId, ptr).

(** The arguments of [state->createPointer(resultId, state->getPointer(imageId))]. *)
Definition EmitSampledImageCombineOrSplit (insn : Insn) : Z * Z :=
  let resultId := word insn 2 in
  let imageId := word insn 3 in
  (resultId, getPointer imageId).

End TexelPointer.

(** ** EmitImageSample *)

Section Sample.

Variable spirv : Shader.
Variable operandOf : Z -> Operand.
Variable getPointer : Z -> Z.
Variable descriptorAt : Z -> SampledImageDescriptor.
Variable getImageSampler : Z -> ImageInstructionState -> Z -> Z -> Z.
Variable ImageSampler : Z -> Z -> list (option SIMD.t) -> nat -> SIMD.t.
Variable textureOffset : Z.
(** [AnyTrue(state->activeLaneMask())], defined outside this file's
    source. *)
Variable AnyTrue : SIMD.t -> bool.

(** The output lanes and the sampler state after the call; nothing on
    a call site without a cache slot. *)
Definition EmitImageSampleUnconditional (instruction : ImageInstruction) (st : SamplerState)
    : option ((nat -> SIMD.t) * SamplerState) :=
  let imageDescriptor := getPointer (sampledImageId instruction) in
  '(samplerFunction, st) ←
    lookupSamplerFunction spirv getPointer descriptorAt getImageSampler imageDescriptor
      instruction st;
  Some (callSamplerFunction operandOf ImageSampler textureOffset samplerFunction
          imageDescriptor instruction, st).

(** [out] holds the four output lanes before the call: the source
    leaves them uninitialised.  [position] is the distance of the
    instruction from the start of the module. *)
Definition EmitImageSample (insn : Insn) (position : Z) (resultTyComponentCount : Z)
    (activeLaneMask : SIMD.t) (out : nat -> SIMD.t) (st : SamplerState)
    : Result (option (Intermediate * SamplerState)) :=
  let result := createIntermediate resultTyComponentCount in
  instruction ← decodeImageInstruction spirv insn position;
  Ok ('(out, st) ←
        (if AnyTrue activeLaneMask then EmitImageSampleUnconditional instruction st
         else Some (out, st));
      Some (foldl (fun result i => move (Z.of_nat i) (out i) result) result
              (seq 0 (Z.to_nat resultTyComponentCount)), st)).

End Sample.

(** ** The arguments of a sampler call *)

Section SamplerArguments.

Variable operandOf : Z -> Operand.

(** The values [callSamplerFunction] hands to the routine, in the
    order it writes them: the coordinates, the reference depth, the
    level-of-detail block (the lod or bias, or the two gradients, or
    the zero level of a fetch), the offset components and the sample
    index. *)
Definition samplerArguments (instruction : ImageInstruction) : list SIMD.t :=
  let st := state instruction in
  let coordinate := operandOf (coordinateId instruction) in
  let drefValue := operandOf (drefId instruction) in
  let lodValue := operandOf (lodOrBiasId instruction) in
  let dxValue := operandOf (gradDxId instruction) in
  let dyValue := operandOf (gradDyId instruction) in
  let offsetValue := operandOf (offsetId instruction) in
  let sampleValue := operandOf (sampleId instruction) in
  let q := OpFloat coordinate (coordinates instruction) in
  map (fun i : nat =>
         if isProj st then SIMD_fdiv (OpFloat coordinate (Z.of_nat i)) q
         else OpFloat coordinate (Z.of_nat i))
    (seq 0 (Z.to_nat (coordinates instruction)))
  ++ (if isDref st
      then [if isProj st then SIMD_fdiv (OpFloat drefValue 0) q else OpFloat drefValue 0]
      else [])
  ++ (if negb (lodOrBiasId instruction =? 0) then [OpFloat lodValue 0]
      else if negb (gradDxId instruction =? 0) then
        map (fun j : nat => OpFloat dxValue (Z.of_nat j))
          (seq 0 (Z.to_nat (componentCount dxValue)))
        ++ map (fun j : nat => OpFloat dyValue (Z.of_nat j))
             (seq 0 (Z.to_nat (componentCount dxValue)))
      else if SamplerMethod_eqb (samplerMethod st) Fetch then [SIMD.Int 0]
      else [])
  ++ (if negb (offsetId instruction =? 0)
      then map (fun j : nat => OpInt offsetValue (Z.of_nat j))
             (seq 0 (Z.to_nat (componentCount offsetValue)))
      else [])
  ++ (if sample instruction then [OpInt sampleValue 0] else []).

End SamplerArguments.

(** The formats whose encode keeps every bit of a decoded texel: all
    but the signed normalized formats, whose most negative pattern is
    stored as the next one, and the half-float and packed-float
    formats, whose encode need not keep the pattern of a NaN. *)
Definition storesExactly (format : VkFormat) : bool :=
  match format with
  | VK_FORMAT_R8G8B8A8_SNORM | VK_FORMAT_R8G8_SNORM | VK_FORMAT_R8_SNORM
  | VK_FORMAT_R16G16B16A16_SNORM | VK_FORMAT_R16G16_SNORM | VK_FORMAT_R16_SNORM
  | VK_FORMAT_R16G16B16A16_SFLOAT | VK_FORMAT_R16G16_SFLOAT | VK_FORMAT_R16_SFLOAT
  | VK_FORMAT_B10G11R11_UFLOAT_PACK32 => false
  | _ => true
  end.

(** A decoded texel with its three colour channels taken from sRGB to
    linear; the alpha channel is left as it is. *)
Definition sRGBColor (power : Z -> Z -> Z) (v : list Scalar) : list Scalar :=
  imap (fun (c : nat) (x : Scalar) =>
          if (c <? 3)%nat then FloatLane (sRGBtoLinear power (laneBits x)) else x) v.

(** The decode of one byte-sized channel, by the numeric class of the
    format: the byte itself, the byte sign-extended, the byte over 255,
    and the byte as a signed fraction of 127. *)
Inductive ChannelClass := UintChannel | SintChannel | UnormChannel | SnormChannel.

Definition channelOfByte (class : ChannelClass) (b : Z) : Scalar :=
  match class with
  | UintChannel => UIntLane b
  | SintChannel => IntLane (Word32.wrap (if b <? 128 then b else b - 256))
  | UnormChannel => FloatLane (unorm b 0xFF)
  | SnormChannel => FloatLane (snorm (Z.shiftl b 24) 0x7F000000)
  end.

(** The formats of byte-sized channels the decode table holds. *)
Definition byteFormats : list (VkFormat * ChannelClass) :=
  [(VK_FORMAT_R8_UINT, UintChannel); (VK_FORMAT_R8G8_UINT, UintChannel);
   (VK_FORMAT_R8G8B8A8_UINT, UintChannel); (VK_FORMAT_A8B8G8R8_UINT_PACK32, UintChannel);
   (VK_FORMAT_S8_UINT, UintChannel);
   (VK_FORMAT_R8_SINT, SintChannel); (VK_FORMAT_R8G8_SINT, SintChannel);
   (VK_FORMAT_R8G8B8A8_SINT, SintChannel); (VK_FORMAT_A8B8G8R8_SINT_PACK32, SintChannel);
   (VK_FORMAT_R8_UNORM, UnormChannel); (VK_FORMAT_R8G8_UNORM, UnormChannel);
   (VK_FORMAT_R8G8B8A8_UNORM, UnormChannel); (VK_FORMAT_A8B8G8R8_UNORM_PACK32, UnormChannel);
   (VK_FORMAT_R8_SNORM, SnormChannel); (VK_FORMAT_R8G8_SNORM, SnormChannel);
   (VK_FORMAT_R8G8B8A8_SNORM, SnormChannel); (VK_FORMAT_A8B8G8R8_SNORM_PACK32, SnormChannel)].

(** ** Sample inputs *)

Module Examples.

(** [OpTypeImage] of a two-dimensional, non-arrayed storage image. *)
Definition image2D : Insn := [25; 10; 6; spv.Dim2D; 0; 0; 0; 2; 33].
(** A two-dimensional arrayed image and a cube image. *)
Definition image2DArray : Insn := [25; 10; 6; spv.Dim2D; 0; 1; 0; 2; 33].
Definition imageCube : Insn := [25; 10; 6; spv.DimCube; 0; 0; 0; 2; 33].

(** A 4 x 4 image of 4-byte texels, 16 bytes per row. *)
Definition descriptor4x4 : StorageImageDescriptor :=
  {| ptr := 0x1000; stencilPtr := 0x2000; sizeInBytes := 64;
     width := 4; height := 4; depth := 1;
     rowPitchBytes := 16; slicePitchBytes := 64; samplePitchBytes := 64;
     stencilRowPitchBytes := 4; stencilSlicePitchBytes := 16;
     stencilSamplePitchBytes := 16; sampleCount := 1 |}.

(** Lane [i] addresses the texel [(i + 1, 2)]: lane 3 is out of range
    along [u]. *)
Definition coordinate2 : Operand :=
  {| componentCount := 2;
     OpInt := fun c i => if c =? 0 then Z.of_nat i + 1 else 2;
     isConstantZero := false |}.

Definition noOperand : Z -> Operand :=
  fun _ => {| componentCount := 1; OpInt := fun _ _ => 0; isConstantZero := true |}.

Definition routine0 : Routine :=
  {| windowSpacePosition0 := fun _ => 0; windowSpacePosition1 := fun _ => 0; viewID := 0 |}.

(** [OpImageFetch] with a lod operand (id 20) and a sample operand
    (id 21): eight words, image operands [Lod | Sample]. *)
Definition fetchLodSample : Insn :=
  [Z.lor (Z.shiftl 8 16) spvOp.OpImageFetch; 1; 2; 3; 4; 0x42; 20; 21].

(** [OpImageRead] carrying the [MinLod] image operand, which
    [EmitImageRead] does not recognize. *)
Definition readMinLod : Insn :=
  [Z.lor (Z.shiftl 7 16) spvOp.OpImageRead; 1; 2; 3; 4; 0x80; 5].

Definition shader0 : Shader :=
  {| objectComponentCount := fun _ => 2;
     objectConstantValue0 := fun _ => 0;
     objectOpcode := fun _ => 0;
     objectDefinition := fun _ => [];
     objectTypeOpcode := fun _ => spvOp.OpTypeImage;
     objectTypeDefinition := fun _ => image2D;
     typeOpcode := fun _ => spvOp.OpTypeInt |}.

(** [OpImageSampleProjImplicitLod] on a three-component coordinate
    [(2.0, 4.0, 2.0)]: two coordinates and the projective divisor. *)
Definition sampleProj : Insn :=
  [Z.lor (Z.shiftl 5 16) spvOp.OpImageSampleProjImplicitLod; 1; 2; 3; 4].

Definition shaderProj : Shader :=
  {| objectComponentCount := fun _ => 3;
     objectConstantValue0 := fun _ => 0;
     objectOpcode := fun _ => spvOp.OpSampledImage;
     objectDefinition := fun _ => [0; 0; 0; 0; 7];
     objectTypeOpcode := fun _ => spvOp.OpTypeSampledImage;
     objectTypeDefinition := fun _ => image2D;
     typeOpcode := fun _ => spvOp.OpTypeFloat |}.

Definition projOperand : Z -> Operand :=
  fun _ => {| componentCount := 3;
              OpInt := fun c _ => if c =? 1 then 0x40800000 else 0x40000000;
              isConstantZero := false |}.

(** A call site at position 0 whose slot has not been filled yet, and a
    sampled-image descriptor with sampler identity 9. *)
Definition emptySlot : SamplerState :=
  {| samplerCache := {[ 0 := SamplerCache.mk 0 0 0 ]}; compilerCalls := [] |}.

Definition sampledDescriptor : Z -> SampledImageDescriptor :=
  fun _ => {| sampled_samplerId := 9; sampled_imageViewId := 5; sampled_device := 1;
              sampled_width := 4; sampled_height := 4; sampled_depth := 1;
              sampled_mipLevels := 3; sampled_sampleCount := 1 |}.

Definition projInstruction : ImageInstruction :=
  {| state := mkState Variant.Proj Implicit; position := 0; resultId := 2;
     sampledImageId := 3; coordinateId := 4; coordinates := 2; drefId := 0;
     gatherComponent := 0; lodOrBiasId := 0; gradDxId := 0; gradDyId := 0;
     grad := 0; offsetId := 0; offset := 0; sampleId := 0; sample := false |}.

(** A stand-in for the routine compiler. *)
Definition compiler0 : Z -> ImageInstructionState -> Z -> Z -> Z :=
  fun device _ samplerId imageViewId => 1000 + 100 * device + 10 * samplerId + imageViewId.

(** [OpImageQuerySizeLod] of image 3 at the lod held by object 4, and a
    lod operand whose lanes are 0, 1, 2 and 3. *)
Definition querySizeLod : Insn := [Z.lor (Z.shiftl 5 16) 103; 1; 2; 3; 4].

Definition lodOperand : Z -> Operand :=
  fun _ => {| componentCount := 1; OpInt := fun _ i => Z.of_nat i; isConstantZero := false |}.

(** [OpImageRead] and [OpImageWrite] of image 3 at the coordinate held
    by object 4; the written texel is object 5. *)
Definition imageRead : Insn := [Z.lor (Z.shiftl 5 16) spvOp.OpImageRead; 1; 2; 3; 4].
Definition imageWrite : Insn := [Z.lor (Z.shiftl 4 16) spvOp.OpImageWrite; 3; 4; 5].

(** Object 4 is the coordinate [coordinate2]; object 5 is a texel whose
    first component is [0x11223344 + lane]. *)
Definition accessOperand : Z -> Operand :=
  fun id =>
    if id =? 4 then coordinate2
    else {| componentCount := 4;
            OpInt := fun c i => if c =? 0 then 0x11223344 + Z.of_nat i else 7;
            isConstantZero := false |}.

(** Memory holding at each address its low byte. *)
Definition memory0 : Memory := fun a => a mod 256.

Definition allLanes : SIMD.t := fun _ => 0xFFFFFFFF.

(** The power function is outside this file's source; the formats of
    the examples below do not use it. *)
Definition power0 : Z -> Z -> Z := fun _ _ => 0.

(** Every binding holds the 4 x 4 image. *)
Definition storage0 : Z -> StorageImageDescriptor := fun _ => descriptor4x4.

(** [OpImageTexelPointer] of the image variable 3 at the coordinate held
    by object 4, without a sample. *)
Definition texelPointer : Insn := [Z.lor (Z.shiftl 6 16) 60; 1; 2; 3; 4; 0].

(** [OpImageFetch] with a constant offset (id 22) and no lod operand. *)
Definition fetchOffset : Insn :=
  [Z.lor (Z.shiftl 7 16) spvOp.OpImageFetch; 1; 2; 3; 4; 0x8; 22].

(** The decode and the encode of a format the tables hold. *)
Definition decodeOf (format : VkFormat) : (nat -> Z) -> list Scalar :=
  match decodeTexel power0 format with Ok dec => dec | Abort _ => fun _ => [] end.
Definition encodeOf (format : VkFormat) : (nat -> Z) -> list Z :=
  match encodeTexel format with Ok (_, enc) => enc | Abort _ => fun _ => [] end.

End Examples.

(** * Properties *)

(** ** Lane arithmetic *)

Module Word32Facts.
Import Word32.

Lemma modulus_pos : 0 < modulus.
Proof. reflexivity. Qed.

Lemma wrap_range z : 0 <= wrap z < modulus.
Proof. apply Z.mod_pos_bound, modulus_pos. Qed.

Lemma wrap_small z : 0 <= z < modulus -> wrap z = z.
Proof. apply Z.mod_small. Qed.

Lemma wrap_wrap z : wrap (wrap z) = wrap z.
Proof. apply Z.mod_mod. discriminate. Qed.

Lemma wrap_add_l a b : wrap (wrap a + b) = wrap (a + b).
Proof. apply Zplus_mod_idemp_l. Qed.

Lemma wrap_add_r a b : wrap (a + wrap b) = wrap (a + b).
Proof. apply Zplus_mod_idemp_r. Qed.

Lemma wrap_mul_l a b : wrap (wrap a * b) = wrap (a * b).
Proof. apply Zmult_mod_idemp_l. Qed.

Lemma wrap_mul_r a b : wrap (a * wrap b) = wrap (a * b).
Proof. apply Zmult_mod_idemp_r. Qed.

(** Equality of wrapped sums and products, through congruence modulo
    [2^32]. *)
#[export] Instance eqm_equiv : Equivalence (eqm modulus) := eqm_setoid modulus.
#[export] Instance add_eqm :
  Proper (eqm modulus ==> eqm modulus ==> eqm modulus) Z.add := Zplus_eqm modulus.
#[export] Instance sub_eqm :
  Proper (eqm modulus ==> eqm modulus ==> eqm modulus) Z.sub := Zminus_eqm modulus.
#[export] Instance mul_eqm :
  Proper (eqm modulus ==> eqm modulus ==> eqm modulus) Z.mul := Zmult_eqm modulus.

Lemma wrap_eqm a : eqm modulus (wrap a) a.
Proof. apply Zmod_eqm. Qed.

Ltac wrap_eq :=
  match goal with
  | |- wrap ?a = wrap ?b =>
      change (eqm modulus a b); rewrite ?wrap_eqm; unfold eqm; f_equal; try ring
  end.

Lemma mask_cases b : mask b = 0 \/ mask b = ones.
Proof. destruct b; auto. Qed.

Lemma mask_nonzero b : mask b <> 0 <-> b = true.
Proof. destruct b; unfold mask, ones; split; intros; easy. Qed.

Lemma or_mask a b : or (mask a) (mask b) = mask (a || b).
Proof. destruct a, b; reflexivity. Qed.

Lemma land_ones32 z : 0 <= z < modulus -> Z.land z ones = z.
Proof.
  intros Hz. change ones with (Z.ones 32).
  rewrite Z.land_ones by lia. now apply Z.mod_small.
Qed.

(** [(p & ~m) | (m & c)] selects [c] on the lanes of the mask. *)
Lemma select_mask p c b :
  or (and p (not (mask b))) (and (mask b) c) = if b then wrap c else wrap p.
Proof.
  assert (Hl : forall z, Z.land (wrap z) ones = wrap z)
    by (intros z; apply land_ones32, wrap_range).
  unfold or, and, not. destruct b; cbn [mask].
  - change (wrap (Z.lnot ones)) with 0. change (wrap ones) with ones.
    change (wrap 0) with 0.
    rewrite Z.land_0_r, (Z.land_comm ones), Hl, wrap_wrap.
    reflexivity.
  - change (wrap (Z.lnot 0)) with ones. change (wrap ones) with ones.
    change (wrap 0) with 0.
    rewrite Z.land_0_l, Hl, wrap_wrap. change (wrap 0) with 0.
    apply Z.lor_0_r.
Qed.

End Word32Facts.

(** ** The texel address calculator *)

Section TexelAddressFacts.
Import Word32 Word32Facts.

Variable operandOf : Z -> Operand.
Variable routine : Routine.

Lemma laneOutOfBoundsb_spec coordinate imageType descriptor sampleId i :
  laneOutOfBoundsb operandOf routine coordinate imageType descriptor sampleId i = true <->
  laneOutOfBounds operandOf routine coordinate imageType descriptor sampleId i.
Proof.
  unfold laneOutOfBoundsb, laneOutOfBounds. cbv zeta.
  rewrite !orb_true_iff, !andb_true_iff, !orb_true_iff, !negb_true_iff,
    !Z.ltb_ge, !Z.ltb_lt.
  tauto.
Qed.

Lemma texelOobMask_mask coordinate imageType descriptor sampleId i :
  texelOobMask operandOf routine coordinate imageType descriptor sampleId i =
  mask (laneOutOfBoundsb operandOf routine coordinate imageType descriptor sampleId i).
Proof.
  unfold texelOobMask, laneOutOfBoundsb, depthBound. cbv zeta.
  destruct (1 <? dimsOf coordinate imageType);
    destruct ((2 <? dimsOf coordinate imageType) || isArrayedType imageType);
    destruct (sampleUsed operandOf sampleId);
    destruct (dimOf imageType =? spv.DimCube);
    unfold SIMD.or, SIMD.CmpNLT_u, SIMD.lift2, SIMD.Int, CmpNLT_u, Word32.mul;
    rewrite ?wrap_wrap, ?or_mask;
    cbn [andb orb]; rewrite ?orb_false_r; reflexivity.
Qed.

Lemma texelPtrOffset_range coordinate imageType descriptor texelSize sampleId st i :
  wrap (texelPtrOffset operandOf routine coordinate imageType descriptor
          texelSize sampleId st i) =
  texelPtrOffset operandOf routine coordinate imageType descriptor texelSize sampleId st i.
Proof.
  unfold texelPtrOffset. cbv zeta.
  repeat match goal with |- context [if ?b then _ else _] => destruct b end;
    unfold SIMD.add, SIMD.mul, SIMD.lift2, Word32.add, Word32.mul;
    apply wrap_wrap.
Qed.

Lemma GetTexelAddress_nullify_offsets imageBase size coordinate imageType descriptor
    texelSize sampleId st i :
  SIMD.offsets (GetTexelAddress operandOf routine imageBase size coordinate imageType
                  descriptor texelSize sampleId st Nullify) i =
  if laneOutOfBoundsb operandOf routine coordinate imageType descriptor sampleId i
  then OOB_OFFSET
  else texelPtrOffset operandOf routine coordinate imageType descriptor
         texelSize sampleId st i.
Proof.
  unfold GetTexelAddress. cbn [OutOfBoundsBehavior_eqb SIMD.offsets].
  unfold SIMD.or, SIMD.and, SIMD.not, SIMD.lift2.
  rewrite texelOobMask_mask, select_mask.
  destruct (laneOutOfBoundsb _ _ _ _ _ _ _).
  - reflexivity.
  - apply texelPtrOffset_range.
Qed.

End TexelAddressFacts.

Section TexelAddressClaims.
Import Word32 Word32Facts.

Variable operandOf : Z -> Operand.
Variable routine : Routine.

(** C3.  Under the nullify policy a lane's out-of-bounds predicate is
    set exactly when, comparing as unsigned integers, [u >= width], or
    (more than one dimension) [v >= height], or (more than two
    dimensions, or arrayed) [w >= depth] with the depth multiplied by 6
    for cube images, or (sample operand present and not a constant
    zero) the sample index [>= sampleCount].  A lane whose predicate is
    set receives the offset [0x7FFFFFFF - 16], which the build-time
    assertion keeps at or above the largest allocation size; every
    other lane keeps its computed offset. *)
Theorem GetTexelAddress_nullify_bounds
    (MAX_MEMORY_ALLOCATION_SIZE : Z)
    (static_assert : OOB_OFFSET >= MAX_MEMORY_ALLOCATION_SIZE)
    imageBase size coordinate imageType descriptor texelSize sampleId useStencilAspect i :
  let oobMask :=
    texelOobMask operandOf routine coordinate imageType descriptor sampleId i in
  let texelPtr :=
    GetTexelAddress operandOf routine imageBase size coordinate imageType descriptor
      texelSize sampleId useStencilAspect Nullify in
  (oobMask = 0 \/ oobMask = ones) /\
  (oobMask <> 0 <->
   laneOutOfBounds operandOf routine coordinate imageType descriptor sampleId i) /\
  (oobMask <> 0 -> SIMD.offsets texelPtr i = 0x7FFFFFFF - 16) /\
  (oobMask = 0 ->
   SIMD.offsets texelPtr i =
   texelPtrOffset operandOf routine coordinate imageType descriptor texelSize
     sampleId useStencilAspect i) /\
  MAX_MEMORY_ALLOCATION_SIZE <= 0x7FFFFFFF - 16.
Proof.
  cbv zeta.
  rewrite GetTexelAddress_nullify_offsets, texelOobMask_mask.
  rewrite <- laneOutOfBoundsb_spec, mask_nonzero.
  repeat split; try tauto.
  - apply mask_cases.
  - intros ->. reflexivity.
  - destruct (laneOutOfBoundsb _ _ _ _ _ _ _); [discriminate | reflexivity].
  - unfold OOB_OFFSET in static_assert. lia.
Qed.

(** C4.  For an image that is not subpass data the byte offset of a
    lane is [u * texelSize], plus [v * rowPitch] when the
    dimensionality exceeds 1, plus [w * slicePitch] when it exceeds 2
    or the image is arrayed ([w] the sum of the depth-slice and the
    array-layer coordinate), plus [n * samplePitch] when a sample
    operand is present and not a constant zero, in 32-bit arithmetic;
    the pitches are the stencil triplet exactly when the stencil aspect
    is requested.  [GetTexelAddress] returns this offset, except on the
    lanes the nullify policy redirects. *)
Theorem GetTexelAddress_offset
    imageBase size coordinate imageType descriptor texelSize sampleId
    (useStencilAspect : bool) behaviour i :
  dimOf imageType <> spv.DimSubpassData ->
  let dims := dimsOf coordinate imageType in
  let isArrayed := isArrayedType imageType in
  let u := OpInt coordinate 0 i in
  let v := OpInt coordinate 1 i in
  let w := (if 2 <? dims then OpInt coordinate 2 i else 0) +
           (if isArrayed then OpInt coordinate dims i else 0) in
  let n := OpInt (operandOf sampleId) 0 i in
  let rowPitch :=
    if useStencilAspect then stencilRowPitchBytes descriptor
    else rowPitchBytes descriptor in
  let slicePitch :=
    if useStencilAspect then stencilSlicePitchBytes descriptor
    else slicePitchBytes descriptor in
  let samplePitch :=
    if useStencilAspect then stencilSamplePitchBytes descriptor
    else samplePitchBytes descriptor in
  let offset :=
    wrap (u * texelSize
          + (if 1 <? dims then v * rowPitch else 0)
          + (if (2 <? dims) || isArrayed then w * slicePitch else 0)
          + (if negb (sampleId =? 0) && negb (isConstantZero (operandOf sampleId))
             then n * samplePitch else 0)) in
  texelPtrOffset operandOf routine coordinate imageType descriptor texelSize
    sampleId useStencilAspect i = offset /\
  SIMD.offsets (GetTexelAddress operandOf routine imageBase size coordinate imageType
                  descriptor texelSize sampleId useStencilAspect behaviour) i =
  match behaviour with
  | Nullify =>
      if laneOutOfBoundsb operandOf routine coordinate imageType descriptor sampleId i
      then OOB_OFFSET else offset
  | _ => offset
  end.
Proof.
  intros Hdim. cbv zeta.
  assert (Hoff :
    texelPtrOffset operandOf routine coordinate imageType descriptor texelSize
      sampleId useStencilAspect i =
    wrap (OpInt coordinate 0 i * texelSize
          + (if 1 <? dimsOf coordinate imageType
             then OpInt coordinate 1 i * rowPitchOf descriptor useStencilAspect else 0)
          + (if (2 <? dimsOf coordinate imageType) || isArrayedType imageType
             then ((if 2 <? dimsOf coordinate imageType then OpInt coordinate 2 i else 0) +
                   (if isArrayedType imageType
                    then OpInt coordinate (dimsOf coordinate imageType) i else 0))
                  * slicePitchOf descriptor useStencilAspect else 0)
          + (if sampleUsed operandOf sampleId
             then OpInt (operandOf sampleId) 0 i * samplePitchOf descriptor useStencilAspect
             else 0))).
  { unfold texelPtrOffset, texelU, texelV, texelW, texelN. cbv zeta.
    apply Z.eqb_neq in Hdim. rewrite Hdim.
    assert (Hv : (1 <? dimsOf coordinate imageType) = true ->
                 (1 <? componentCount coordinate) = true).
    { unfold dimsOf. rewrite !Z.ltb_lt. destruct (isArrayedType imageType); lia. }
    destruct (1 <? dimsOf coordinate imageType) eqn:E1;
      [rewrite (Hv eq_refl) | ]; clear Hv;
      destruct (2 <? dimsOf coordinate imageType);
      destruct (isArrayedType imageType);
      destruct (sampleUsed operandOf sampleId); cbn [orb];
      unfold SIMD.add, SIMD.mul, SIMD.lift2, SIMD.Int, Word32.add, Word32.mul;
      wrap_eq. }
  split; [exact Hoff |].
  destruct behaviour;
    [rewrite GetTexelAddress_nullify_offsets; rewrite Hoff; reflexivity | ..];
    unfold GetTexelAddress; cbn [OutOfBoundsBehavior_eqb SIMD.offsets]; exact Hoff.
Qed.

End TexelAddressClaims.

Lemma GetTexelAddress_nullify_bounds_witness :
  OOB_OFFSET >= 0x40000000 /\
  SIMD.offsets
    (GetTexelAddress Examples.noOperand Examples.routine0 0x1000 64 Examples.coordinate2
       Examples.image2D Examples.descriptor4x4 4 0 false Nullify) 3%nat = 0x7FFFFFFF - 16.
Proof.
  assert (H : OOB_OFFSET >= 0x40000000) by (vm_compute; discriminate).
  split; [exact H |].
  pose proof (GetTexelAddress_nullify_bounds Examples.noOperand Examples.routine0
                0x40000000 H 0x1000 64 Examples.coordinate2 Examples.image2D
                Examples.descriptor4x4 4 0 false 3%nat) as (_ & _ & Hoob & _).
  apply Hoob. vm_compute. discriminate.
Defined.

Lemma GetTexelAddress_offset_witness :
  dimOf Examples.image2D <> spv.DimSubpassData /\
  SIMD.offsets
    (GetTexelAddress Examples.noOperand Examples.routine0 0x1000 64 Examples.coordinate2
       Examples.image2D Examples.descriptor4x4 4 0 false Nullify) 1%nat = 2 * 4 + 2 * 16.
Proof.
  assert (H : dimOf Examples.image2D <> spv.DimSubpassData) by (vm_compute; discriminate).
  split; [exact H |].
  pose proof (GetTexelAddress_offset Examples.noOperand Examples.routine0 0x1000 64
                Examples.coordinate2 Examples.image2D Examples.descriptor4x4 4 0 false
                Nullify 1%nat H) as [_ Hp].
  rewrite Hp. reflexivity.
Defined.

(** ** Checks of the single-precision model on known bit patterns *)

Module F32Checks.
Example one_bits : F32.lit 1 = 0x3F800000.
Proof. reflexivity. Qed.
Example half_bits : F32.div (F32.lit 1) (F32.lit 2) = 0x3F000000.
Proof. reflexivity. Qed.
Example bits_round_trip : F32.to_bits (F32.of_bits 0xC2F70000) = 0xC2F70000.
Proof. reflexivity. Qed.
Example subnormal_round_trip : F32.to_bits (F32.of_bits 0x00000001) = 0x00000001.
Proof. reflexivity. Qed.
(** [127.5] rounds to [128], [126.5] to [126]. *)
Example round_tie_up : F32.Round (F32.mul (F32.lit 255) 0x3F000000) = F32.lit 128.
Proof. reflexivity. Qed.
Example round_tie_even : F32.Round 0x42FD0000 = F32.lit 126.
Proof. reflexivity. Qed.
Example of_int_negative : F32.of_int 0xFFFFFFFF = 0xBF800000.
Proof. reflexivity. Qed.
Example to_int_negative : F32.to_int 0xC2FE0000 = 0xFFFFFF81.
Proof. reflexivity. Qed.
Example max_clamps : F32.Max 0xBF800000 0 = 0.
Proof. reflexivity. Qed.
Example one_over_255 : F32.div (F32.lit 1) (F32.lit 255) = 0x3B808081.
Proof. reflexivity. Qed.
End F32Checks.

(** ** The instruction decoder *)

Section DecoderFacts.

Lemma land_zero_bits a b i :
  Z.land a b = 0 -> 0 <= i -> Z.testbit a i && Z.testbit b i = false.
Proof.
  intros H Hi. rewrite <- Z.land_spec, H. apply Z.bits_0.
Qed.

Lemma clearBit_absent x b : hasBit x b = false -> clearBit x b = x.
Proof.
  unfold hasBit, clearBit. rewrite negb_false_iff, Z.eqb_eq. intros H.
  apply Z.bits_inj'. intros i Hi.
  rewrite Z.land_spec, Z.lnot_spec by assumption.
  pose proof (land_zero_bits _ _ i H Hi).
  destruct (Z.testbit x i), (Z.testbit b i); cbn in *; congruence.
Qed.

Lemma clearBit_clearBit x a b : clearBit (clearBit x a) b = clearBit x (Z.lor a b).
Proof.
  unfold clearBit. apply Z.bits_inj'. intros i Hi.
  rewrite !Z.land_spec, !Z.lnot_spec, Z.lor_spec by assumption.
  destruct (Z.testbit x i), (Z.testbit a i), (Z.testbit b i); reflexivity.
Qed.

(** Clearing a recognized bit leaves the unrecognized bits alone. *)
Lemma clearBit_outside x b r :
  Z.land b (Z.lnot r) = 0 -> Z.land (clearBit x b) (Z.lnot r) = Z.land x (Z.lnot r).
Proof.
  intros H. unfold clearBit. apply Z.bits_inj'. intros i Hi.
  pose proof (land_zero_bits _ _ i H Hi) as Hb.
  rewrite !Z.land_spec, !Z.lnot_spec in * by assumption.
  destruct (Z.testbit x i), (Z.testbit b i), (Z.testbit r i); cbn in *; congruence.
Qed.

Lemma recognized_nested x :
  clearBit
    (clearBit
       (clearBit
          (clearBit (clearBit x spv.ImageOperandsBiasMask) spv.ImageOperandsLodMask)
          spv.ImageOperandsGradMask)
       spv.ImageOperandsConstOffsetMask)
    spv.ImageOperandsSampleMask
  = Z.land x (Z.lnot recognizedImageOperands).
Proof.
  rewrite !clearBit_clearBit. unfold clearBit. f_equal.
Qed.

Lemma hasBit_true_nonzero x b : hasBit x b = true -> x <> 0.
Proof.
  unfold hasBit. rewrite negb_true_iff, Z.eqb_neq. intros H ->. now apply H.
Qed.

End DecoderFacts.
Section DecoderClaims.

Variable spirv : Shader.

Lemma hasBit_clearBit_other x a b :
  Z.land a b = 0 -> hasBit (clearBit x a) b = hasBit x b.
Proof.
  intros H. unfold hasBit, clearBit. f_equal. f_equal.
  apply Z.bits_inj'. intros i Hi.
  pose proof (land_zero_bits _ _ i H Hi) as Hb.
  rewrite !Z.land_spec, Z.lnot_spec by assumption.
  destruct (Z.testbit x i), (Z.testbit a i), (Z.testbit b i); cbn in *; congruence.
Qed.

Lemma nat_add_2 n : (n + 2 = S (S n))%nat.
Proof. lia. Qed.

(** Rewrites [clearBit y b] to [y] for the bits found absent. *)
Ltac absorb_absent :=
  repeat match goal with
    | H : hasBit _ ?b = false |- context [clearBit ?y ?b] =>
        rewrite (clearBit_absent y b)
          by (rewrite ?hasBit_clearBit_other by reflexivity; exact H)
    end.

Ltac split_bit b :=
  rewrite ?hasBit_clearBit_other by reflexivity;
  let H := fresh "Hbit" in
  destruct (hasBit _ b) eqn:H;
  cbn [implb andb orb negb ASSERT mbind Result_bind app].

Lemma decodeImageInstruction_cases insn pos st imageOperands :
  parseVariantAndMethod insn = Ok st ->
  getImageOperands insn = Ok imageOperands ->
  let leftover := Z.land imageOperands (Z.lnot recognizedImageOperands) in
  let start := firstOperand st in
  if negb (operandContract st imageOperands) then
    decodeImageInstruction spirv insn pos = Abort AssertFailed
  else if negb (leftover =? 0) then
    decodeImageInstruction spirv insn pos = Abort (UnsupportedImageOperands leftover)
  else
    exists instr,
      decodeImageInstruction spirv insn pos = Ok instr /\
      state instr = st /\
      consumedOperands instr imageOperands =
        map (word insn) (seq start (length (consumedOperands instr imageOperands))).
Proof.
  intros Hparse Hops. cbv zeta.
  unfold decodeImageInstruction. rewrite Hparse, Hops.
  unfold operandContract, consumedOperands.
  rewrite <- recognized_nested.
  cbn [mbind Result_bind].
  set (start := firstOperand st).
  destruct (samplerMethod st) eqn:Hmethod; cbn [SamplerMethod_eqb orb].
  all: split_bit spv.ImageOperandsBiasMask; try reflexivity.
  all: split_bit spv.ImageOperandsLodMask; try reflexivity.
  all: split_bit spv.ImageOperandsGradMask; try reflexivity.
  all: split_bit spv.ImageOperandsConstOffsetMask.
  all: split_bit spv.ImageOperandsSampleMask; try reflexivity.
  all: absorb_absent.
  all: match goal with
       | |- context [negb (?x =? 0)] => destruct (negb (x =? 0)); [reflexivity |]
       end.
  all: eexists; split; [reflexivity |]; split; [reflexivity |].
  all: cbn [lodOrBiasId gradDxId gradDyId offsetId sampleId app length seq map].
  all: rewrite ?Nat.add_0_r, ?Nat.add_1_r, ?nat_add_2; reflexivity.
Qed.

Lemma land_nonzero_l a b : Z.land a b <> 0 -> a <> 0.
Proof. intros H ->. apply H, Z.land_0_l. Qed.

Lemma imageReadOperands_unrecognized insn :
  5 < wordCount insn ->
  let unrecognized := Z.land (word insn 5) (Z.lnot recognizedReadOperands) in
  unrecognized <> 0 ->
  exists m,
    imageReadOperands insn = Abort (UnsupportedImageOperands m) /\
    m <> 0 /\
    Z.land m (Z.lnot recognizedReadOperands) = unrecognized.
Proof.
  intros Hcount. cbv zeta. intros Hun.
  unfold imageReadOperands. apply Z.ltb_lt in Hcount. rewrite Hcount.
  assert (Hnz : forall m,
    Z.land m (Z.lnot recognizedReadOperands) =
    Z.land (word insn 5) (Z.lnot recognizedReadOperands) ->
    exists m',
      (if negb (m =? 0) then Abort (UnsupportedImageOperands m) else Ok 0) =
        @Abort Z (UnsupportedImageOperands m') /\
      m' <> 0 /\
      Z.land m' (Z.lnot recognizedReadOperands) =
      Z.land (word insn 5) (Z.lnot recognizedReadOperands)).
  { intros m Hm. exists m.
    assert (m <> 0) as Hm0
      by (apply (land_nonzero_l m (Z.lnot recognizedReadOperands)); congruence).
    apply Z.eqb_neq in Hm0. rewrite Hm0.
    split; [reflexivity |]. split; [now apply Z.eqb_neq | exact Hm]. }
  destruct (hasBit (word insn 5) spv.ImageOperandsSampleMask);
    cbv beta iota;
    match goal with
    | |- context [hasBit ?y spv.ImageOperandsZeroExtendMask] =>
        destruct (hasBit y spv.ImageOperandsZeroExtendMask);
        [| destruct (hasBit y spv.ImageOperandsSignExtendMask)]
    end.
  all: match goal with
       | |- context [negb (?m =? 0)] =>
           destruct (Hnz m) as (m' & Hm' & Hne & Hland);
           [rewrite ?clearBit_outside by reflexivity; reflexivity |]
       end.
  all: exists m'; split; [| split; assumption].
  all: match goal with
       | H : (if ?c then _ else _) = _ |- (if ?c then _ else _) = _ =>
           destruct c; [exact H | discriminate H]
       end.
Qed.

(** C8.  The decoder consumes the optional operands named by the
    image-operand mask in the order bias-or-lod, gradient dx and dy,
    constant offset, sample, from word 7 when the instruction has a
    dereference operand or is a gather and from word 6 otherwise.
    When the caller's contract on the sampler method holds, any bit
    left in the mask after the recognized ones aborts decoding with
    the unsupported-feature condition carrying the leftover mask;
    decoding succeeds only when nothing is left.  [EmitImageRead]
    aborts likewise on an operand bit it does not recognize. *)
Theorem image_operands_consumed_or_unsupported insn pos st imageOperands readInsn :
  parseVariantAndMethod insn = Ok st ->
  getImageOperands insn = Ok imageOperands ->
  let leftover := Z.land imageOperands (Z.lnot recognizedImageOperands) in
  let start :=
    if isDref st || SamplerMethod_eqb (samplerMethod st) Gather then 7%nat else 6%nat in
  (if negb (operandContract st imageOperands) then
     decodeImageInstruction spirv insn pos = Abort AssertFailed
   else if negb (leftover =? 0) then
     decodeImageInstruction spirv insn pos = Abort (UnsupportedImageOperands leftover)
   else
     exists instr,
       decodeImageInstruction spirv insn pos = Ok instr /\
       state instr = st /\
       consumedOperands instr imageOperands =
         map (word insn) (seq start (length (consumedOperands instr imageOperands)))) /\
  (5 < wordCount readInsn ->
   Z.land (word readInsn 5) (Z.lnot recognizedReadOperands) <> 0 ->
   exists m,
     imageReadOperands readInsn = Abort (UnsupportedImageOperands m) /\
     m <> 0 /\
     Z.land m (Z.lnot recognizedReadOperands) =
     Z.land (word readInsn 5) (Z.lnot recognizedReadOperands)).
Proof.
  intros Hparse Hops. cbv zeta. split.
  - exact (decodeImageInstruction_cases insn pos st imageOperands Hparse Hops).
  - intros Hcount Hun. now apply imageReadOperands_unrecognized.
Qed.

End DecoderClaims.

Lemma image_operands_consumed_or_unsupported_witness :
  parseVariantAndMethod Examples.fetchLodSample = Ok (mkState Variant.None Fetch) /\
  getImageOperands Examples.fetchLodSample = Ok 0x42 /\
  (exists instr,
     decodeImageInstruction Examples.shader0 Examples.fetchLodSample 0 = Ok instr /\
     consumedOperands instr 0x42 = [20; 21]) /\
  (exists m,
     imageReadOperands Examples.readMinLod = Abort (UnsupportedImageOperands m) /\ m <> 0).
Proof.
  assert (H1 : parseVariantAndMethod Examples.fetchLodSample = Ok (mkState Variant.None Fetch))
    by reflexivity.
  assert (H2 : getImageOperands Examples.fetchLodSample = Ok 0x42) by reflexivity.
  pose proof (image_operands_consumed_or_unsupported Examples.shader0
                Examples.fetchLodSample 0 _ _ Examples.readMinLod H1 H2) as [Hd Hr].
  split; [exact H1 |]. split; [exact H2 |]. split.
  - destruct Hd as (instr & Hi & _ & Hc). exists instr. split; [exact Hi |].
    rewrite Hc. vm_compute in Hi. injection Hi as <-. reflexivity.
  - destruct Hr as (m & Hm & Hne & _);
      [vm_compute; reflexivity | vm_compute; discriminate |].
    exists m. split; assumption.
Defined.
(** ** The sampler call *)

Section SamplerFacts.

Lemma storeFrom_spec vals : forall (in_ : list (option SIMD.t)) (i : nat),
  (storeFrom in_ i vals).2 = (i + length vals)%nat /\
  length (storeFrom in_ i vals).1 = length in_ /\
  (forall k, (k < i)%nat -> (storeFrom in_ i vals).1 !! k = in_ !! k) /\
  (forall j v, vals !! j = Some v -> (i + j < length in_)%nat ->
               (storeFrom in_ i vals).1 !! (i + j)%nat = Some (Some v)).
Proof.
  induction vals as [| v vals IH]; intros in_ i; cbn [storeFrom].
  - repeat split; cbn; try lia. intros j v Hj. rewrite lookup_nil in Hj. discriminate.
  - destruct (IH (<[i := Some v]> in_) (S i)) as (Hi & Hlen & Hlt & Hat).
    rewrite length_insert in *.
    repeat split.
    + rewrite Hi. cbn. lia.
    + exact Hlen.
    + intros k Hk. rewrite Hlt by lia. apply list_lookup_insert_ne. lia.
    + intros [| j] w Hj Hb; cbn in Hj.
      * injection Hj as <-. rewrite Nat.add_0_r, Hlt by lia.
        apply list_lookup_insert_eq. lia.
      * replace (i + S j)%nat with (S i + j)%nat by lia. apply Hat; [exact Hj | lia].
Qed.

Lemma storeFrom_below in_ i vals in' i' k :
  storeFrom in_ i vals = (in', i') -> (k < i)%nat -> in' !! k = in_ !! k.
Proof.
  intros E Hk. destruct (storeFrom_spec vals in_ i) as (_ & _ & Hlt & _).
  rewrite E in Hlt. now apply Hlt.
Qed.

Lemma storeFrom_next in_ i vals in' i' :
  storeFrom in_ i vals = (in', i') -> (i <= i')%nat.
Proof.
  intros E. destruct (storeFrom_spec vals in_ i) as (Hi & _).
  rewrite E in Hi. cbn in Hi. lia.
Qed.

Lemma storeFrom_length in_ i vals in' i' :
  storeFrom in_ i vals = (in', i') -> length in' = length in_.
Proof.
  intros E. destruct (storeFrom_spec vals in_ i) as (_ & Hl & _).
  now rewrite E in Hl.
Qed.

End SamplerFacts.

Section SamplerClaims.

Variable operandOf : Z -> Operand.
Variable spirv : Shader.

(** The coordinate slots and the reference-depth slot of the input
    array, as the projective law gives them. *)
Lemma samplerInputs_prefix instruction :
  let st := state instruction in
  let coordinate := operandOf (coordinateId instruction) in
  let drefValue := operandOf (drefId instruction) in
  let q := OpFloat coordinate (coordinates instruction) in
  let n := Z.to_nat (coordinates instruction) in
  let in_ := samplerInputs operandOf instruction in
  (n < 16)%nat ->
  (forall i, (i < n)%nat ->
     in_ !! i = Some (Some (if isProj st
                            then SIMD_fdiv (OpFloat coordinate (Z.of_nat i)) q
                            else OpFloat coordinate (Z.of_nat i)))) /\
  (isDref st = true ->
     in_ !! n = Some (Some (if isProj st
                            then SIMD_fdiv (OpFloat drefValue 0) q
                            else OpFloat drefValue 0))).
Proof.
  cbv zeta. intros Hn. unfold samplerInputs. cbv zeta.
  set (vals := map _ (seq 0 (Z.to_nat (coordinates instruction)))).
  destruct (storeFrom_spec vals (replicate 16 None) 0) as (Hi0 & Hl0 & _ & Hat0).
  destruct (storeFrom (replicate 16 None) 0 vals) as [in0 i0] eqn:E0.
  cbn [fst snd] in *.
  assert (Hvals : length vals = Z.to_nat (coordinates instruction))
    by (unfold vals; now rewrite length_map, length_seq).
  rewrite Hvals in Hi0. cbn in Hi0. subst i0.
  rewrite length_replicate in *.
  (* the state after the reference-depth slot *)
  match goal with
  | |- context [let '(a, b) := ?s in _] => destruct s as [in1 i1] eqn:E1
  end.
  assert (H1 : (Z.to_nat (coordinates instruction) <= i1)%nat /\
               length in1 = 16%nat /\
               (forall k, (k < Z.to_nat (coordinates instruction))%nat ->
                          in1 !! k = in0 !! k) /\
               (isDref (state instruction) = true ->
                (Z.to_nat (coordinates instruction) < i1)%nat /\
                in1 !! Z.to_nat (coordinates instruction) =
                Some (Some (if isProj (state instruction)
                            then SIMD_fdiv (OpFloat (operandOf (drefId instruction)) 0)
                                   (OpFloat (operandOf (coordinateId instruction))
                                      (coordinates instruction))
                            else OpFloat (operandOf (drefId instruction)) 0)))).
  { destruct (isDref (state instruction)); injection E1 as <- <-.
    - rewrite length_insert. repeat split; try lia.
      + intros k Hk. apply list_lookup_insert_ne. lia.
      + apply list_lookup_insert_eq. lia.
    - repeat split; try lia; try discriminate. }
  destruct H1 as (Hle1 & Hl1 & Hlt1 & Hd1).
  (* every later stage writes at or above [i1] *)
  match goal with
  | |- context [let '(a, b) := ?s in _] => destruct s as [in2 i2] eqn:E2
  end.
  assert (H2 : (i1 <= i2)%nat /\ forall k, (k < i1)%nat -> in2 !! k = in1 !! k).
  { destruct (negb (lodOrBiasId instruction =? 0)).
    { injection E2 as <- <-. split; [lia |].
      intros k Hk. apply list_lookup_insert_ne. lia. }
    destruct (negb (gradDxId instruction =? 0)).
    { match type of E2 with
      | context [let '(a, b) := ?s in _] => destruct s as [inx ix] eqn:Ex
      end.
      pose proof (storeFrom_next _ _ _ _ _ Ex).
      pose proof (storeFrom_next _ _ _ _ _ E2).
      split; [lia |]. intros k Hk.
      rewrite (storeFrom_below _ _ _ _ _ k E2) by lia.
      apply (storeFrom_below _ _ _ _ _ k Ex). lia. }
    destruct (SamplerMethod_eqb _ Fetch); injection E2 as <- <-.
    - split; [lia |]. intros k Hk. apply list_lookup_insert_ne. lia.
    - split; [lia | reflexivity]. }
  destruct H2 as (Hle2 & Hlt2).
  match goal with
  | |- context [let '(a, b) := ?s in _] => destruct s as [in3 i3] eqn:E3
  end.
  assert (H3 : (i2 <= i3)%nat /\ forall k, (k < i2)%nat -> in3 !! k = in2 !! k).
  { destruct (negb (offsetId instruction =? 0)).
    - pose proof (storeFrom_next _ _ _ _ _ E3). split; [lia |].
      intros k Hk. now apply (storeFrom_below _ _ _ _ _ k E3).
    - injection E3 as <- <-. split; [lia | reflexivity]. }
  destruct H3 as (Hle3 & Hlt3).
  assert (H4 : forall k, (k < i3)%nat ->
            (if sample instruction
             then <[i3 := Some (OpInt (operandOf (sampleId instruction)) 0)]> in3
             else in3) !! k = in3 !! k).
  { intros k Hk. destruct (sample instruction); [| reflexivity].
    apply list_lookup_insert_ne. lia. }
  split.
  - intros i Hi.
    rewrite H4, Hlt3, Hlt2, Hlt1 by lia.
    rewrite <- (Nat.add_0_l i). apply Hat0; [| lia].
    unfold vals. rewrite list_lookup_fmap, lookup_seq_lt by lia. reflexivity.
  - intros Hd. destruct (Hd1 Hd) as (Hlt & Hval).
    rewrite H4, Hlt3, Hlt2 by lia. exact Hval.
Qed.

Lemma decodeImageInstruction_coordinates insn pos instruction :
  decodeImageInstruction spirv insn pos = Ok instruction ->
  coordinateId instruction = word insn 4 /\
  coordinates instruction =
    objectComponentCount spirv (coordinateId instruction)
    - (if isProj (state instruction) then 1 else 0).
Proof.
  unfold decodeImageInstruction. intros H.
  destruct (parseVariantAndMethod insn) as [st |]; [| discriminate H].
  destruct (getImageOperands insn) as [ops |]; [| discriminate H].
  unfold ASSERT in H. cbn [mbind Result_bind] in H.
  repeat match type of H with
         | context [if ?c then _ else _] =>
             lazymatch c with
             | isProj _ => fail
             | isDref _ => fail
             | _ => destruct c; cbn [mbind Result_bind] in H; try discriminate H
             end
         end.
  all: injection H as <-; split; reflexivity.
Qed.

Variable ImageSampler : Z -> Z -> list (option SIMD.t) -> nat -> SIMD.t.
Variable textureOffset : Z.

(** C7.  For the Proj and ProjDref variants each of the first
    [coordinates] slots handed to the compiled sampler routine holds
    the raw coordinate component divided by the raw component at index
    [coordinates], the trailing divisor the count leaves out, and the
    reference-depth slot, when present, holds the reference depth
    divided by the same component; for the other variants the raw
    components are handed over unchanged. *)
Theorem callSamplerFunction_projection insn pos instruction samplerFunction imageDescriptor :
  decodeImageInstruction spirv insn pos = Ok instruction ->
  (Z.to_nat (coordinates instruction) < 16)%nat ->
  let st := state instruction in
  let coordinate := operandOf (coordinateId instruction) in
  let drefValue := operandOf (drefId instruction) in
  let n := Z.to_nat (coordinates instruction) in
  let q := OpFloat coordinate (coordinates instruction) in
  exists in_,
    callSamplerFunction operandOf ImageSampler textureOffset samplerFunction
      imageDescriptor instruction
    = ImageSampler samplerFunction (imageDescriptor + textureOffset) in_ /\
    coordinates instruction =
      objectComponentCount spirv (coordinateId instruction)
      - (if isProj st then 1 else 0) /\
    (isProj st = true ->
       (forall i, (i < n)%nat ->
          in_ !! i = Some (Some (SIMD_fdiv (OpFloat coordinate (Z.of_nat i)) q))) /\
       (isDref st = true ->
          in_ !! n = Some (Some (SIMD_fdiv (OpFloat drefValue 0) q)))) /\
    (isProj st = false ->
       (forall i, (i < n)%nat ->
          in_ !! i = Some (Some (OpFloat coordinate (Z.of_nat i)))) /\
       (isDref st = true -> in_ !! n = Some (Some (OpFloat drefValue 0)))).
Proof.
  intros Hdec Hn. cbv zeta.
  exists (samplerInputs operandOf instruction).
  destruct (decodeImageInstruction_coordinates insn pos instruction Hdec) as [_ Hc].
  destruct (samplerInputs_prefix instruction Hn) as [Hco Hdr].
  split; [reflexivity |]. split; [exact Hc |].
  split; intros Hp; rewrite Hp in *; split; assumption.
Qed.

End SamplerClaims.

Lemma callSamplerFunction_projection_witness :
  decodeImageInstruction Examples.shaderProj Examples.sampleProj 0 =
    Ok {| state := mkState Variant.Proj Implicit; position := 0; resultId := 2;
          sampledImageId := 3; coordinateId := 4; coordinates := 2; drefId := 0;
          gatherComponent := 0; lodOrBiasId := 0; gradDxId := 0; gradDyId := 0;
          grad := 0; offsetId := 0; offset := 0; sampleId := 0; sample := false |} /\
  exists (in_ : list (option SIMD.t)) (x y : SIMD.t),
    callSamplerFunction Examples.projOperand (fun _ _ _ _ _ => 0) 0 0 0
      {| state := mkState Variant.Proj Implicit; position := 0; resultId := 2;
         sampledImageId := 3; coordinateId := 4; coordinates := 2; drefId := 0;
         gatherComponent := 0; lodOrBiasId := 0; gradDxId := 0; gradDyId := 0;
         grad := 0; offsetId := 0; offset := 0; sampleId := 0; sample := false |}
    = (fun _ _ _ _ _ => 0) 0 (0 + 0) in_ /\
    in_ !! 0%nat = Some (Some x) /\ x 0%nat = F32.lit 1 /\
    in_ !! 1%nat = Some (Some y) /\ y 0%nat = F32.lit 2.
Proof.
  assert (H : decodeImageInstruction Examples.shaderProj Examples.sampleProj 0 =
    Ok {| state := mkState Variant.Proj Implicit; position := 0; resultId := 2;
          sampledImageId := 3; coordinateId := 4; coordinates := 2; drefId := 0;
          gatherComponent := 0; lodOrBiasId := 0; gradDxId := 0; gradDyId := 0;
          grad := 0; offsetId := 0; offset := 0; sampleId := 0; sample := false |})
    by reflexivity.
  split; [exact H |].
  destruct (callSamplerFunction_projection Examples.projOperand Examples.shaderProj
              (fun _ _ _ _ _ => 0) 0 _ _ _ 0 0 H)
    as (in_ & Hcall & _ & Hproj & _); [cbn; lia |].
  destruct (Hproj eq_refl) as [Hco _].
  exists in_. eexists. eexists.
  split; [exact Hcall |].
  split; [apply (Hco 0%nat); cbn; lia |].
  split; [reflexivity |].
  split; [apply (Hco 1%nat); cbn; lia |].
  reflexivity.
Defined.

(** ** The sampler function cache *)

Section SamplerCacheClaims.

Variable spirv : Shader.
Variable getImageSampler : Z -> ImageInstructionState -> Z -> Z -> Z.

Lemma lookupSamplerFunction_hit getPointer descriptorAt imageDescriptor instruction st cache :
  samplerCache st !! position instruction = Some cache ->
  SamplerCache.imageDescriptor cache = imageDescriptor ->
  SamplerCache.samplerId cache =
    currentSamplerId spirv getPointer descriptorAt imageDescriptor instruction ->
  lookupSamplerFunction spirv getPointer descriptorAt getImageSampler imageDescriptor
    instruction st = Some (SamplerCache.function cache, st).
Proof.
  intros Hslot Hd Hs. unfold lookupSamplerFunction. rewrite Hslot. cbn.
  rewrite Hd, Hs, !Z.eqb_refl. reflexivity.
Qed.

Lemma lookupSamplerFunction_miss getPointer descriptorAt imageDescriptor instruction st cache :
  samplerCache st !! position instruction = Some cache ->
  SamplerCache.imageDescriptor cache <> imageDescriptor \/
  SamplerCache.samplerId cache <>
    currentSamplerId spirv getPointer descriptorAt imageDescriptor instruction ->
  let samplerId := currentSamplerId spirv getPointer descriptorAt imageDescriptor instruction in
  let call := (sampled_device (descriptorAt imageDescriptor), state instruction, samplerId,
               sampled_imageViewId (descriptorAt imageDescriptor)) in
  let function :=
    getImageSampler (sampled_device (descriptorAt imageDescriptor)) (state instruction)
      samplerId (sampled_imageViewId (descriptorAt imageDescriptor)) in
  lookupSamplerFunction spirv getPointer descriptorAt getImageSampler imageDescriptor
    instruction st =
  Some (function,
        {| samplerCache :=
             <[position instruction := SamplerCache.mk imageDescriptor samplerId function]>
               (samplerCache st);
           compilerCalls := compilerCalls st ++ [call] |}).
Proof.
  intros Hslot Hne. cbv zeta. unfold lookupSamplerFunction. rewrite Hslot. cbn.
  assert (Hmiss : (SamplerCache.imageDescriptor cache =? imageDescriptor)
                  && (SamplerCache.samplerId cache =?
                      currentSamplerId spirv getPointer descriptorAt imageDescriptor
                        instruction) = false).
  { apply andb_false_iff. rewrite !Z.eqb_neq. exact Hne. }
  rewrite Hmiss. reflexivity.
Qed.

(** After any lookup the slot holds the pair just looked up. *)
Lemma lookupSamplerFunction_slot getPointer descriptorAt imageDescriptor instruction st f st' :
  lookupSamplerFunction spirv getPointer descriptorAt getImageSampler imageDescriptor
    instruction st = Some (f, st') ->
  samplerCache st' !! position instruction =
  Some (SamplerCache.mk imageDescriptor
          (currentSamplerId spirv getPointer descriptorAt imageDescriptor instruction) f).
Proof.
  unfold lookupSamplerFunction.
  destruct (samplerCache st !! position instruction) as [cache |] eqn:Hslot;
    [| discriminate]. cbn.
  destruct (SamplerCache.imageDescriptor cache =? imageDescriptor) eqn:Hd;
    destruct (SamplerCache.samplerId cache =? _) eqn:Hs; cbn;
    intros H; injection H as <- <-; cbn [samplerCache];
    rewrite ?lookup_insert_eq; try reflexivity.
  apply Z.eqb_eq in Hd, Hs. rewrite Hslot. destruct cache; cbn in *. congruence.
Qed.

(** C5.  Each call site keeps one cache slot.  The sampler identity of
    an invocation is zero when the operand is not of a sampled-image
    type.  When the invocation's (descriptor, sampler identity) pair
    equals the cached pair the cached routine is returned and nothing
    else changes; when either component differs the routine compiler is
    called exactly once and the three fields of the slot are
    overwritten, the slots of other call sites being left alone.  A
    lookup that follows another with the same pair therefore returns the
    same routine without a further call. *)
Theorem lookupSamplerFunction_single_slot
    getPointer descriptorAt imageDescriptor instruction st cache :
  samplerCache st !! position instruction = Some cache ->
  let samplerId := currentSamplerId spirv getPointer descriptorAt imageDescriptor instruction in
  let lookup :=
    lookupSamplerFunction spirv getPointer descriptorAt getImageSampler imageDescriptor
      instruction st in
  (objectTypeOpcode spirv (sampledImageId instruction) <> spvOp.OpTypeSampledImage ->
   samplerId = 0) /\
  (SamplerCache.imageDescriptor cache = imageDescriptor /\
   SamplerCache.samplerId cache = samplerId ->
   lookup = Some (SamplerCache.function cache, st)) /\
  (SamplerCache.imageDescriptor cache <> imageDescriptor \/
   SamplerCache.samplerId cache <> samplerId ->
   exists function call st',
     lookup = Some (function, st') /\
     compilerCalls st' = compilerCalls st ++ [call] /\
     call = (sampled_device (descriptorAt imageDescriptor), state instruction, samplerId,
             sampled_imageViewId (descriptorAt imageDescriptor)) /\
     function = getImageSampler (sampled_device (descriptorAt imageDescriptor))
                  (state instruction) samplerId
                  (sampled_imageViewId (descriptorAt imageDescriptor)) /\
     samplerCache st' !! position instruction =
       Some (SamplerCache.mk imageDescriptor samplerId function) /\
     (forall other, other <> position instruction ->
        samplerCache st' !! other = samplerCache st !! other)) /\
  (forall function st' getPointer' descriptorAt',
     lookup = Some (function, st') ->
     currentSamplerId spirv getPointer' descriptorAt' imageDescriptor instruction = samplerId ->
     lookupSamplerFunction spirv getPointer' descriptorAt' getImageSampler imageDescriptor
       instruction st' = Some (function, st')).
Proof.
  intros Hslot. cbv zeta. repeat split.
  - intros Hty. unfold currentSamplerId. apply Z.eqb_neq in Hty. now rewrite Hty.
  - intros [Hd Hs]. now apply lookupSamplerFunction_hit.
  - intros Hne. do 3 eexists.
    split; [exact (lookupSamplerFunction_miss _ _ _ _ _ cache Hslot Hne) |].
    cbn [compilerCalls samplerCache].
    repeat split.
    + apply lookup_insert_eq.
    + intros other Ho. apply lookup_insert_ne. congruence.
  - intros function st' getPointer' descriptorAt' Hlookup Hsame.
    apply lookupSamplerFunction_slot in Hlookup.
    rewrite (lookupSamplerFunction_hit getPointer' descriptorAt' imageDescriptor instruction
               st' _ Hlookup); cbn; congruence.
Qed.

End SamplerCacheClaims.

Lemma lookupSamplerFunction_single_slot_witness :
  samplerCache Examples.emptySlot !! position Examples.projInstruction =
    Some (SamplerCache.mk 0 0 0) /\
  exists st',
    lookupSamplerFunction Examples.shaderProj (fun _ => 0x600) Examples.sampledDescriptor
      Examples.compiler0 0x500 Examples.projInstruction Examples.emptySlot
    = Some (1195, st') /\
    compilerCalls st' = [(1, mkState Variant.Proj Implicit, 9, 5)] /\
    lookupSamplerFunction Examples.shaderProj (fun _ => 0x600) Examples.sampledDescriptor
      Examples.compiler0 0x500 Examples.projInstruction st'
    = Some (1195, st').
Proof.
  assert (H : samplerCache Examples.emptySlot !! position Examples.projInstruction =
              Some (SamplerCache.mk 0 0 0)) by reflexivity.
  split; [exact H |].
  destruct (lookupSamplerFunction_single_slot Examples.shaderProj Examples.compiler0
              (fun _ => 0x600) Examples.sampledDescriptor 0x500 Examples.projInstruction
              Examples.emptySlot _ H) as (_ & _ & Hmiss & Hagain).
  destruct Hmiss as (function & call & st' & Hlookup & Hcalls & Hcall & Hf & _).
  { left. cbn. discriminate. }
  exists st'. subst function call.
  split; [exact Hlookup |]. split; [exact Hcalls |].
  exact (Hagain _ _ _ _ Hlookup eq_refl).
Defined.

(** ** Image size queries *)

Section ImageQueryClaims.
Import Word32 Word32Facts.

Variable spirv : Shader.
Variable operandOf : Z -> Operand.
Variable getPointer : Z -> Z.
Variable descriptorTypeOf : Z -> VkDescriptorType.
Variable storageAt : Z -> StorageImageDescriptor.
Variable sampledAt : Z -> SampledImageDescriptor.

Lemma signed_small x : 0 <= x < 2 ^ 31 -> signed x = x.
Proof.
  intros Hx. unfold signed. rewrite wrap_small by (unfold modulus; lia).
  destruct (x <? 2 ^ 31) eqn:E; [reflexivity | apply Z.ltb_ge in E; lia].
Qed.

(** On a non-negative dimension the lane operation is the arithmetic
    [max(dimension >> lod, 1)]. *)
Lemma max_shr_lane x lod :
  0 <= x < 2 ^ 31 -> 0 <= lod < 2 ^ 32 ->
  max_s (shr_s (wrap x) (wrap lod)) (wrap 1) = Z.max (Z.shiftr x lod) 1.
Proof.
  intros Hx Hlod. unfold max_s, shr_s.
  rewrite !(wrap_small x), (wrap_small lod) by (unfold modulus; lia).
  rewrite (signed_small x) by lia.
  assert (Hs : 0 <= Z.shiftr x lod <= x).
  { rewrite Z.shiftr_div_pow2 by lia. split.
    - apply Z.div_pos; [lia | apply Z.pow_pos_nonneg; lia].
    - apply Z.div_le_upper_bound; [apply Z.pow_pos_nonneg; lia |].
      assert (0 < 2 ^ lod) by (apply Z.pow_pos_nonneg; lia). nia. }
  rewrite !(wrap_small (Z.shiftr x lod)) by (unfold modulus; lia).
  rewrite (signed_small (Z.shiftr x lod)) by lia.
  change (signed (wrap 1)) with 1. change (wrap (wrap 1)) with 1.
  destruct (Z.shiftr x lod <? 1) eqn:E; [apply Z.ltb_lt in E | apply Z.ltb_ge in E]; lia.
Qed.

(** C9.  The size queries read width, height and depth from the
    descriptor.  With a lod operand each returned spatial dimension is
    [max(dimension >> lod, 1)] per lane, without one the dimensions are
    returned as read; for an arrayed image the descriptor's depth field
    follows the spatial dimensions as one more component, and is not
    shifted. *)
Theorem image_query_size insn resultTyComponentCount w h d :
  let imageId := word insn 3 in
  let lodId := word insn 4 in
  let isArrayed := negb (word (objectTypeDefinition spirv imageId) 5 =? 0) in
  let dimensions := resultTyComponentCount - (if isArrayed then 1 else 0) in
  let lod := OpInt (operandOf lodId) 0 in
  let shifted (x : Z) : SIMD.t := SIMD_max_s (SIMD_shr_s (SIMD.Int x) lod) (SIMD.Int 1) in
  objectTypeOpcode spirv imageId = spvOp.OpTypeImage ->
  descriptorExtent getPointer descriptorTypeOf storageAt sampledAt imageId = Some (w, h, d) ->
  1 <= dimensions <= 3 ->
  (lodId <> 0 -> componentCount (operandOf lodId) = 1) ->
  (lodId <> 0 ->
   exists dst,
     EmitImageQuerySizeLod spirv operandOf getPointer descriptorTypeOf storageAt sampledAt
       insn resultTyComponentCount = Ok dst /\
     length dst = Z.to_nat resultTyComponentCount /\
     dst !! 0%nat = Some (Some (shifted w)) /\
     (2 <= dimensions -> dst !! 1%nat = Some (Some (shifted h))) /\
     (3 <= dimensions -> dst !! 2%nat = Some (Some (shifted d))) /\
     (isArrayed = true -> dst !! Z.to_nat dimensions = Some (Some (SIMD.Int d)))) /\
  (exists dst,
     EmitImageQuerySize spirv operandOf getPointer descriptorTypeOf storageAt sampledAt
       insn resultTyComponentCount = Ok dst /\
     length dst = Z.to_nat resultTyComponentCount /\
     dst !! 0%nat = Some (Some (SIMD.Int w)) /\
     (2 <= dimensions -> dst !! 1%nat = Some (Some (SIMD.Int h))) /\
     (3 <= dimensions -> dst !! 2%nat = Some (Some (SIMD.Int d))) /\
     (isArrayed = true -> dst !! Z.to_nat dimensions = Some (Some (SIMD.Int d)))) /\
  (forall (x : Z) (lane : nat),
     0 <= x < 2 ^ 31 -> 0 <= lod lane < 2 ^ 32 ->
     shifted x lane = Z.max (Z.shiftr x (lod lane)) 1).
Proof.
  cbv zeta. intros Hty Hext Hdim Hlod.
  assert (Hread :
    match descriptorTypeOf (word insn 3) with
    | VK_DESCRIPTOR_TYPE_STORAGE_IMAGE
    | VK_DESCRIPTOR_TYPE_STORAGE_TEXEL_BUFFER =>
        Ok (width (storageAt (getPointer (word insn 3))),
            height (storageAt (getPointer (word insn 3))),
            depth (storageAt (getPointer (word insn 3))))
    | VK_DESCRIPTOR_TYPE_COMBINED_IMAGE_SAMPLER
    | VK_DESCRIPTOR_TYPE_SAMPLED_IMAGE
    | VK_DESCRIPTOR_TYPE_UNIFORM_TEXEL_BUFFER =>
        Ok (sampled_width (sampledAt (getPointer (word insn 3))),
            sampled_height (sampledAt (getPointer (word insn 3))),
            sampled_depth (sampledAt (getPointer (word insn 3))))
    | _ => Abort Unreachable
    end = Ok (w, h, d)).
  { unfold descriptorExtent in Hext.
    destruct (descriptorTypeOf (word insn 3)); try discriminate Hext;
      injection Hext as <- <- <-; reflexivity. }
  split; [| split].
  - intros Hl. unfold EmitImageQuerySizeLod, GetImageDimensions.
    rewrite Hty, Z.eqb_refl, Hread. apply Z.eqb_neq in Hl. rewrite Hl.
    rewrite (Hlod ltac:(now apply Z.eqb_neq)), Z.eqb_refl.
    cbn [ASSERT mbind Result_bind negb].
    destruct (negb (word (objectTypeDefinition spirv (word insn 3)) 5 =? 0));
      (assert (Hcc : resultTyComponentCount = 1 \/ resultTyComponentCount = 2 \/
                     resultTyComponentCount = 3 \/ resultTyComponentCount = 4) by lia;
       destruct Hcc as [-> | [-> | [-> | ->]]]; try lia);
      eexists; (split; [reflexivity |]); cbn; repeat split; intros; try reflexivity; lia.
  - unfold EmitImageQuerySize, GetImageDimensions.
    rewrite Hty, Z.eqb_refl, Hread.
    cbn [ASSERT mbind Result_bind negb Z.eqb].
    destruct (negb (word (objectTypeDefinition spirv (word insn 3)) 5 =? 0));
      (assert (Hcc : resultTyComponentCount = 1 \/ resultTyComponentCount = 2 \/
                     resultTyComponentCount = 3 \/ resultTyComponentCount = 4) by lia;
       destruct Hcc as [-> | [-> | [-> | ->]]]; try lia);
      eexists; (split; [reflexivity |]); cbn; repeat split; intros; try reflexivity; lia.
  - intros x lane Hx Hl. unfold SIMD_max_s, SIMD_shr_s, SIMD.lift2, SIMD.Int.
    now apply max_shr_lane.
Qed.

End ImageQueryClaims.

Lemma image_query_size_witness :
  objectTypeOpcode Examples.shader0 (word Examples.querySizeLod 3) = spvOp.OpTypeImage /\
  descriptorExtent (fun _ => 0x700) (fun _ => VK_DESCRIPTOR_TYPE_STORAGE_IMAGE)
    (fun _ => Examples.descriptor4x4) Examples.sampledDescriptor
    (word Examples.querySizeLod 3) = Some (4, 4, 1) /\
  exists (dst : Intermediate) (x : SIMD.t),
    EmitImageQuerySizeLod Examples.shader0 Examples.lodOperand (fun _ => 0x700)
      (fun _ => VK_DESCRIPTOR_TYPE_STORAGE_IMAGE) (fun _ => Examples.descriptor4x4)
      Examples.sampledDescriptor Examples.querySizeLod 2 = Ok dst /\
    dst !! 0%nat = Some (Some x) /\
    x 0%nat = 4 /\ x 1%nat = 2 /\ x 2%nat = 1 /\ x 3%nat = 1.
Proof.
  assert (H1 : objectTypeOpcode Examples.shader0 (word Examples.querySizeLod 3) =
               spvOp.OpTypeImage) by reflexivity.
  assert (H2 : descriptorExtent (fun _ => 0x700) (fun _ => VK_DESCRIPTOR_TYPE_STORAGE_IMAGE)
                 (fun _ => Examples.descriptor4x4) Examples.sampledDescriptor
                 (word Examples.querySizeLod 3) = Some (4, 4, 1)) by reflexivity.
  split; [exact H1 |]. split; [exact H2 |].
  destruct (image_query_size Examples.shader0 Examples.lodOperand (fun _ => 0x700)
              (fun _ => VK_DESCRIPTOR_TYPE_STORAGE_IMAGE) (fun _ => Examples.descriptor4x4)
              Examples.sampledDescriptor Examples.querySizeLod 2 4 4 1 H1 H2)
    as (Hlod & _ & _).
  { cbn. lia. }
  { intros _. reflexivity. }
  destruct Hlod as (dst & Hq & _ & H0 & _); [cbn; discriminate |].
  exists dst. eexists. split; [exact Hq |]. split; [exact H0 |].
  repeat split.
Defined.

(** ** The pixel codec: padding *)

Section PaddingClaims.

Variable power : Z -> Z -> Z.

(** C6.  For a format that stores fewer than four channels the decode
    yields, on every channel the format does not store, 1 on channel 3
    (alpha) and 0 elsewhere: as the floats [1.0] and [0.0] for
    normalized, sRGB and floating-point formats, as the integers 1 and
    0 for [UINT] and [SINT] formats. *)
Theorem decodeTexel_padding vkFormat dec (packed : nat -> Z) (channel : nat) :
  decodeTexel power vkFormat = Ok dec ->
  (storedChannels vkFormat <= channel < 4)%nat ->
  exists value,
    dec packed !! channel = Some value /\
    isPadding (dataClass vkFormat) channel value.
Proof.
  intros Hdec Hch.
  destruct vkFormat; cbn in Hdec; try discriminate Hdec;
    injection Hdec as <-; cbn in Hch;
    (destruct channel as [| [| [| [| ?]]]]; try lia);
    eexists; (split; [reflexivity |]); cbn; auto.
Qed.

End PaddingClaims.

Lemma decodeTexel_padding_witness :
  decodeTexel (fun _ _ => 0) VK_FORMAT_R8G8_UINT =
    Ok (fun packed =>
          [UIntLane (Word32.and (packed 0%nat) 0xFF);
           UIntLane (Word32.and (Word32.shr_u (packed 0%nat) 8) 0xFF);
           UIntLane 0; UIntLane 1]) /\
  (storedChannels VK_FORMAT_R8G8_UINT <= 3 < 4)%nat /\
  exists value,
    [UIntLane (Word32.and 0x1234 0xFF); UIntLane (Word32.and (Word32.shr_u 0x1234 8) 0xFF);
     UIntLane 0; UIntLane 1] !! 3%nat = Some value /\
    isPadding IntegerClass 3 value.
Proof.
  assert (H1 : decodeTexel (fun _ _ => 0) VK_FORMAT_R8G8_UINT =
    Ok (fun packed =>
          [UIntLane (Word32.and (packed 0%nat) 0xFF);
           UIntLane (Word32.and (Word32.shr_u (packed 0%nat) 8) 0xFF);
           UIntLane 0; UIntLane 1])) by reflexivity.
  assert (H2 : (storedChannels VK_FORMAT_R8G8_UINT <= 3 < 4)%nat) by (cbn; lia).
  split; [exact H1 |]. split; [exact H2 |].
  exact (decodeTexel_padding (fun _ _ => 0) VK_FORMAT_R8G8_UINT _ (fun _ => 0x1234) 3 H1 H2).
Defined.

(** ** Memory and masked stores *)

Section MemoryFacts.

Lemma storeByte_other mem a v a' : a' <> a -> storeByte mem a v a' = mem a'.
Proof. intros H. unfold storeByte. apply Z.eqb_neq in H. now rewrite H. Qed.

Lemma storeByte_same mem a v : storeByte mem a v a = v mod 256.
Proof. unfold storeByte. now rewrite Z.eqb_refl. Qed.

Lemma store8_frame mem A v a : ~ (A <= a < A + 1) -> store8 mem A v a = mem a.
Proof. intros H. unfold store8. apply storeByte_other. lia. Qed.

Lemma store16_frame mem A v a : ~ (A <= a < A + 2) -> store16 mem A v a = mem a.
Proof. intros H. unfold store16. rewrite !storeByte_other by lia. reflexivity. Qed.

Lemma store32_frame mem A v a : ~ (A <= a < A + 4) -> store32 mem A v a = mem a.
Proof. intros H. unfold store32. rewrite !storeByte_other by lia. reflexivity. Qed.

(** A lane that passes the bounds test addresses the region
    [[base, base + limit)]. *)
Lemma laneInBounds_region p size i :
  laneInBounds p size i = true ->
  SIMD.base p <= laneAddress p i /\ laneAddress p i + size <= SIMD.base p + SIMD.limit p.
Proof.
  unfold laneInBounds, laneAddress. rewrite andb_true_iff, !Z.leb_le. lia.
Qed.

Lemma masked_lane (mask : SIMD.t) p size r i :
  negb (SIMD.and mask (isInBounds p size r) i =? 0) = true ->
  laneInBounds p size i = true.
Proof.
  unfold SIMD.and, SIMD.lift2, isInBounds.
  destruct (laneInBounds p size i); [reflexivity |].
  cbn [Word32.mask]. unfold Word32.and. change (Word32.wrap 0) with 0.
  rewrite Z.land_0_r. discriminate.
Qed.

Lemma foldl_frame {A} (f : Memory -> A -> Memory) (l : list A) (a : Z) :
  (forall mem x, f mem x a = mem a) -> forall mem, foldl f mem l a = mem a.
Proof.
  intros Hf. induction l as [| x l IH]; intros mem; cbn; [reflexivity |].
  now rewrite IH, Hf.
Qed.

Lemma Store_frame p value r mask mem a :
  ~ (SIMD.base p <= a < SIMD.base p + SIMD.limit p) ->
  Store p value r mask mem a = mem a.
Proof.
  intros Ha. unfold Store. apply foldl_frame. intros m i.
  destruct (negb (SIMD.and mask (isInBounds p 4 r) i =? 0)) eqn:E; [| reflexivity].
  apply masked_lane, laneInBounds_region in E. apply store32_frame. lia.
Qed.

Lemma scatterWords_frame count : forall i p mask packed mem a,
  ~ (SIMD.base p <= a < SIMD.base p + SIMD.limit p) ->
  scatterWords count i p mask packed mem a = mem a.
Proof.
  induction count as [| count IH]; intros i p mask packed mem a Ha; cbn [scatterWords];
    [reflexivity |].
  rewrite IH by exact Ha. now apply Store_frame.
Qed.

Lemma Ok_inj {A} (x y : A) : Ok x = Ok y -> x = y.
Proof. congruence. Qed.

Lemma scatterTexel_frame texelSize p mask packed mem mem' a :
  scatterTexel texelSize p mask packed mem = Ok mem' ->
  ~ (SIMD.base p <= a < SIMD.base p + SIMD.limit p) ->
  mem' a = mem a.
Proof.
  unfold scatterTexel. intros H Ha.
  destruct ((texelSize =? 4) || (texelSize =? 8) || (texelSize =? 16)).
  { apply Ok_inj in H. rewrite <- H. now apply scatterWords_frame. }
  destruct (texelSize =? 2).
  { apply Ok_inj in H. rewrite <- H. apply foldl_frame. intros m i.
    destruct (negb _) eqn:E; [| reflexivity].
    apply masked_lane, laneInBounds_region in E. apply store16_frame.
    unfold laneAddress in E. unfold SIMD.Extract. lia. }
  destruct (texelSize =? 1); [| discriminate H].
  apply Ok_inj in H. rewrite <- H. apply foldl_frame. intros m i.
  destruct (negb _) eqn:E; [| reflexivity].
  apply masked_lane, laneInBounds_region in E. apply store8_frame.
  unfold laneAddress in E. unfold SIMD.Extract. lia.
Qed.

End MemoryFacts.

(** ** Writes address the primary plane *)

Section WritePlaneClaims.

Variable spirv : Shader.
Variable operandOf : Z -> Operand.
Variable routine : Routine.
Variable getPointer : Z -> Z.
Variable storageAt : Z -> StorageImageDescriptor.
Variable inputAttachmentFormat : Z -> VkFormat.

Lemma EmitImageWrite_frame insn mask mem mem' a :
  EmitImageWrite spirv operandOf routine getPointer storageAt insn mask mem = Ok mem' ->
  let d := storageAt (getPointer (word insn 1)) in
  ~ (ptr d <= a < ptr d + sizeInBytes d) ->
  mem' a = mem a.
Proof.
  unfold EmitImageWrite. intros H. cbv zeta. intros Ha.
  destruct (ASSERT _); [| discriminate H].
  destruct (imageWriteOperands insn) as [sampleId |]; [| discriminate H].
  destruct (SpirvFormatToVulkanFormat _) as [format |]; [| discriminate H].
  cbn [mbind Result_bind] in H.
  destruct (encodeTexel format) as [[texelSize encode] |]; [| discriminate H].
  cbn [mbind Result_bind] in H.
  apply (scatterTexel_frame _ _ _ _ _ _ a H). exact Ha.
Qed.

(** C10.  A write computes its texel address with the stencil aspect
    off and takes its base from the descriptor's primary data pointer:
    whatever the stencil pointer and the stencil pitches hold, the
    result of the write is the same, and no byte outside the primary
    plane's region changes.  The stencil pointer and pitch triplet are
    selected on the read path only, and there exactly when the format
    is the combined depth/stencil format read through an integer
    sampled type. *)
Theorem EmitImageWrite_primary_plane insn mask mem sampleId texelSize
    (stencilPtr' rowPitch' slicePitch' samplePitch' : Z -> Z) :
  let binding := getPointer (word insn 1) in
  let d := storageAt binding in
  let storageAt' :=
    fun b => setStencil (storageAt b) (stencilPtr' b) (rowPitch' b) (slicePitch' b)
               (samplePitch' b) in
  EmitImageWrite spirv operandOf routine getPointer storageAt' insn mask mem =
    EmitImageWrite spirv operandOf routine getPointer storageAt insn mask mem /\
  imageWriteAddress spirv operandOf routine getPointer storageAt insn sampleId texelSize =
    GetTexelAddress operandOf routine (ptr d) (sizeInBytes d) (operandOf (word insn 2))
      (objectTypeDefinition spirv (word insn 1)) d texelSize sampleId false Nullify /\
  (forall mem' a,
     EmitImageWrite spirv operandOf routine getPointer storageAt insn mask mem = Ok mem' ->
     ~ (ptr d <= a < ptr d + sizeInBytes d) -> mem' a = mem a) /\
  (forall readInsn readSample vkFormat useStencilAspect size texelPtr,
     imageReadAddress spirv operandOf routine getPointer storageAt inputAttachmentFormat
       readInsn readSample = Ok (vkFormat, useStencilAspect, size, texelPtr) ->
     let imageId := word readInsn 3 in
     let imageType := objectTypeDefinition spirv imageId in
     let rd := storageAt (getPointer imageId) in
     texelPtr =
       GetTexelAddress operandOf routine (if useStencilAspect then stencilPtr rd else ptr rd)
         (sizeInBytes rd) (operandOf (word readInsn 4)) imageType rd size readSample
         useStencilAspect Nullify /\
     (useStencilAspect = true <->
      word imageType 3 = spv.DimSubpassData /\
      inputAttachmentFormat imageId = VK_FORMAT_D32_SFLOAT_S8_UINT /\
      typeOpcode spirv (word imageType 2) = spvOp.OpTypeInt)).
Proof.
  cbv zeta. split; [reflexivity |]. split; [reflexivity |]. split.
  - intros mem' a H Ha. exact (EmitImageWrite_frame insn mask mem mem' a H Ha).
  - intros readInsn readSample vkFormat useStencilAspect size texelPtr H.
    unfold imageReadAddress in H.
    destruct (ASSERT _); [| discriminate H]. cbn [mbind Result_bind] in H.
    destruct (word (objectTypeDefinition spirv (word readInsn 3)) 3 =? spv.DimSubpassData)
      eqn:Hdim.
    + cbn [mbind Result_bind] in H. injection H as <- <- <- <-.
      split; [reflexivity |].
      rewrite andb_true_iff, Z.eqb_eq. apply Z.eqb_eq in Hdim.
      destruct (inputAttachmentFormat (word readInsn 3)); cbn [isD32S8];
        intuition (discriminate || auto).
    + destruct (SpirvFormatToVulkanFormat _) as [format |] eqn:Hfmt; [| discriminate H].
      cbn [mbind Result_bind] in H. injection H as <- <- <- <-.
      assert (Hno : isD32S8 format = false).
      { unfold SpirvFormatToVulkanFormat in Hfmt.
        repeat match type of Hfmt with
               | context [match ?x with _ => _ end] => destruct x; try discriminate Hfmt
               end; injection Hfmt as <-; reflexivity. }
      rewrite Hno. cbn [andb]. split; [reflexivity |].
      apply Z.eqb_neq in Hdim. intuition (discriminate || auto).
Qed.

End WritePlaneClaims.

(** ** Reads through a texel pointer *)

Section GatherFacts.
Import Word32 Word32Facts.

Lemma advanceWords_base p k : SIMD.base (advanceWords p k) = SIMD.base p.
Proof. induction k as [| k IH]; [reflexivity | exact IH]. Qed.

Lemma advanceWords_limit p k : SIMD.limit (advanceWords p k) = SIMD.limit p.
Proof. induction k as [| k IH]; [reflexivity | exact IH]. Qed.

Lemma advanceWords_offsets p k i :
  SIMD.offsets (advanceWords p (S k)) i = wrap (SIMD.offsets p i + 4 * Z.of_nat (S k)).
Proof.
  induction k as [| k IH].
  - cbn. unfold SIMD.add, SIMD.lift2, SIMD.Int, Word32.add. wrap_eq.
  - change (advanceWords p (S (S k))) with (SIMD.advance (advanceWords p (S k)) 4).
    cbn [SIMD.advance SIMD.offsets]. unfold SIMD.add, SIMD.lift2, SIMD.Int, Word32.add.
    rewrite IH. rewrite (Nat2Z.inj_succ (S k)). wrap_eq.
Qed.

Lemma advanceWords_S p k : advanceWords (SIMD.advance p 4) k = advanceWords p (S k).
Proof.
  induction k as [| k IH]; [reflexivity |].
  change (advanceWords (SIMD.advance p 4) (S k))
    with (SIMD.advance (advanceWords (SIMD.advance p 4) k) 4).
  now rewrite IH.
Qed.

Lemma gatherWords_spec count : forall i0 p mask mem packed k,
  gatherWords count i0 p mask mem packed k =
  if (i0 <=? k)%nat && (k <? i0 + count)%nat
  then Load (advanceWords p (k - i0)) Nullify mask mem
  else packed k.
Proof.
  induction count as [| count IH]; intros i0 p mask mem packed k; cbn [gatherWords].
  - replace ((k <? i0 + 0)%nat) with (k <? i0)%nat by (f_equal; lia).
    destruct (i0 <=? k)%nat eqn:E1, (k <? i0)%nat eqn:E2; try reflexivity.
    apply Nat.leb_le in E1. apply Nat.ltb_lt in E2. lia.
  - rewrite IH.
    destruct (Nat.eqb k i0) eqn:Ek.
    + apply Nat.eqb_eq in Ek. subst k.
      assert (E1 : (S i0 <=? i0)%nat = false) by (apply Nat.leb_gt; lia).
      assert (E2 : (i0 <=? i0)%nat = true) by (apply Nat.leb_le; lia).
      assert (E3 : (i0 <? i0 + S count)%nat = true) by (apply Nat.ltb_lt; lia).
      rewrite E1, E2, E3, Nat.sub_diag. reflexivity.
    + apply Nat.eqb_neq in Ek.
      destruct (S i0 <=? k)%nat eqn:E1.
      * apply Nat.leb_le in E1.
        assert (E2 : (i0 <=? k)%nat = true) by (apply Nat.leb_le; lia).
        rewrite E2. replace (S i0 + count)%nat with (i0 + S count)%nat by lia.
        destruct (k <? i0 + S count)%nat; cbn [andb]; [| reflexivity].
        rewrite advanceWords_S. f_equal. f_equal. lia.
      * apply Nat.leb_gt in E1.
        assert (E2 : (i0 <=? k)%nat = false) by (apply Nat.leb_gt; lia).
        rewrite E2. reflexivity.
Qed.

(** The test of a masked lane: active and in bounds. *)
Lemma masked_lane_iff (mask : SIMD.t) p size r i :
  negb (SIMD.and mask (isInBounds p size r) i =? 0) =
  laneActive mask i && laneInBounds p size i.
Proof.
  unfold SIMD.and, SIMD.lift2, isInBounds, laneActive, Word32.and.
  destruct (laneInBounds p size i); cbn [Word32.mask].
  - change (wrap ones) with ones. rewrite land_ones32 by apply wrap_range.
    now rewrite andb_true_r.
  - change (wrap 0) with 0. rewrite Z.land_0_r, andb_false_r. reflexivity.
Qed.

Lemma signed_nonneg x : 0 <= x < 2 ^ 31 -> signed x = x.
Proof.
  intros Hx. unfold signed. rewrite wrap_small by (unfold modulus; lia).
  destruct (x <? 2 ^ 31) eqn:E; [reflexivity | apply Z.ltb_ge in E; lia].
Qed.

(** A word of an in-range texel is in bounds and at the expected
    address. *)
Lemma advanceWords_lane p k i off :
  SIMD.offsets p i = off -> 0 <= off -> off + 4 * Z.of_nat k < 2 ^ 31 ->
  signed (SIMD.offsets (advanceWords p k) i) = off + 4 * Z.of_nat k.
Proof.
  intros Hoff H0 Hk. destruct k as [| k].
  - cbn. rewrite Hoff. rewrite Z.add_0_r in *. now apply signed_nonneg.
  - rewrite advanceWords_offsets, Hoff.
    rewrite wrap_small by (unfold modulus; lia). apply signed_nonneg. lia.
Qed.

End GatherFacts.

Section GatherLaneFacts.
Import Word32 Word32Facts.

Lemma foldl_insert_spec (cond : nat -> bool) (val : nat -> Z) (l : list nat) :
  forall (packed : nat -> SIMD.t) (k lane : nat),
  foldl (fun (packed : nat -> SIMD.t) j =>
           if cond j
           then fun k => if Nat.eqb k 0 then SIMD.Insert (packed 0%nat) (val j) j else packed k
           else packed) packed l k lane =
  if Nat.eqb k 0 && existsb (Nat.eqb lane) l && cond lane then val lane else packed k lane.
Proof.
  induction l as [| x l IH]; intros packed k lane; cbn [foldl existsb].
  - now rewrite andb_false_r.
  - rewrite IH. unfold SIMD.Insert.
    destruct (Nat.eqb lane x) eqn:Ex; [apply Nat.eqb_eq in Ex; subst x |];
      (destruct k as [| k]; cbn [Nat.eqb andb orb]);
      destruct (existsb (Nat.eqb lane) l); cbn [andb orb];
      try destruct (cond lane) eqn:El; try destruct (cond x) eqn:Ec;
      cbn [Nat.eqb andb orb]; rewrite ?Nat.eqb_refl, ?Ex; try reflexivity;
      congruence.
Qed.

Lemma lane_in_lanes i : (i < SIMD.Width)%nat -> existsb (Nat.eqb i) lanes = true.
Proof.
  intros Hi. unfold SIMD.Width in Hi.
  destruct i as [| [| [| [| i]]]]; try reflexivity. lia.
Qed.

Lemma texelSize_words texelSize :
  texelSize = 4 \/ texelSize = 8 \/ texelSize = 16 ->
  (texelSize =? 4) || (texelSize =? 8) || (texelSize =? 16) = true /\
  4 * Z.of_nat (Z.to_nat (texelSize / 4)) = texelSize.
Proof. intros [-> | [-> | ->]]; split; reflexivity. Qed.

(** The words gathered for an active lane whose texel lies within the
    addressable region. *)
Lemma gatherTexel_in_range texelSize p mask mem packed i off :
  (i < SIMD.Width)%nat ->
  texelSize = 1 \/ texelSize = 2 \/ texelSize = 4 \/ texelSize = 8 \/ texelSize = 16 ->
  SIMD.offsets p i = off -> 0 <= off -> off + texelSize <= SIMD.limit p ->
  SIMD.limit p < 2 ^ 31 ->
  laneActive mask i = true ->
  exists g,
    gatherTexel texelSize p mask mem packed = Ok g /\
    forall k, g k i = texelAt mem (SIMD.base p + off) texelSize (fun k => packed k i) k.
Proof.
  intros Hi Hsize Hoff H0 Hlim Hmax Hact. unfold gatherTexel, texelAt.
  destruct Hsize as [-> | [-> | Hsize]].
  - (* one byte *)
    cbn [Z.eqb orb Pos.eqb]. eexists. split; [reflexivity |]. intros k.
    unfold SIMD.Extract.
    rewrite (foldl_insert_spec
               (fun j => negb (SIMD.and mask (isInBounds p 1 Nullify) j =? 0))
               (fun j => Int_of_Byte (load8 mem (SIMD.base p + signed (SIMD.offsets p j))))).
    rewrite lane_in_lanes by exact Hi. rewrite masked_lane_iff, Hact.
    unfold laneInBounds. rewrite Hoff, signed_nonneg by lia.
    assert (E1 : (0 <=? off) = true) by (apply Z.leb_le; lia).
    assert (E2 : (off + 1 <=? SIMD.limit p) = true) by (apply Z.leb_le; lia).
    rewrite E1, E2. cbn [andb]. rewrite !andb_true_r. reflexivity.
  - (* two bytes *)
    cbn [Z.eqb orb Pos.eqb]. eexists. split; [reflexivity |]. intros k.
    unfold SIMD.Extract.
    rewrite (foldl_insert_spec
               (fun j => negb (SIMD.and mask (isInBounds p 2 Nullify) j =? 0))
               (fun j => Int_of_Short (load16 mem (SIMD.base p + signed (SIMD.offsets p j))))).
    rewrite lane_in_lanes by exact Hi. rewrite masked_lane_iff, Hact.
    unfold laneInBounds. rewrite Hoff, signed_nonneg by lia.
    assert (E1 : (0 <=? off) = true) by (apply Z.leb_le; lia).
    assert (E2 : (off + 2 <=? SIMD.limit p) = true) by (apply Z.leb_le; lia).
    rewrite E1, E2. cbn [andb]. rewrite !andb_true_r. reflexivity.
  - (* whole words *)
    destruct (texelSize_words texelSize Hsize) as [Hw Hn]. rewrite Hw.
    eexists. split; [reflexivity |]. intros k.
    rewrite gatherWords_spec. cbn [Nat.leb andb Nat.add]. rewrite Nat.sub_0_r.
    destruct (k <? Z.to_nat (texelSize / 4))%nat eqn:Ek; [| reflexivity].
    apply Nat.ltb_lt in Ek. unfold Load.
    rewrite masked_lane_iff, Hact. unfold laneInBounds, laneAddress.
    rewrite advanceWords_limit, advanceWords_base.
    rewrite (advanceWords_lane p k i off Hoff H0) by lia.
    assert (E1 : (0 <=? off + 4 * Z.of_nat k) = true) by (apply Z.leb_le; lia).
    assert (E2 : (off + 4 * Z.of_nat k + 4 <=? SIMD.limit p) = true) by (apply Z.leb_le; lia).
    rewrite E1, E2. cbn [andb negb]. f_equal. lia.
Qed.

(** The words gathered for a lane redirected to the out-of-bounds
    offset, for texels of whole words. *)
Lemma gatherTexel_nullified texelSize p mask mem packed i :
  texelSize = 4 \/ texelSize = 8 \/ texelSize = 16 ->
  SIMD.offsets p i = OOB_OFFSET -> SIMD.limit p <= OOB_OFFSET ->
  exists g,
    gatherTexel texelSize p mask mem packed = Ok g /\
    forall k, g k i = zeroWords texelSize (fun k => packed k i) k.
Proof.
  intros Hsize Hoff Hlim. unfold gatherTexel, zeroWords.
  destruct (texelSize_words texelSize Hsize) as [Hw Hn]. rewrite Hw.
  eexists. split; [reflexivity |]. intros k.
  rewrite gatherWords_spec. cbn [Nat.leb andb Nat.add]. rewrite Nat.sub_0_r.
  destruct (k <? Z.to_nat (texelSize / 4))%nat eqn:Ek; [| reflexivity].
  apply Nat.ltb_lt in Ek. unfold Load.
  rewrite masked_lane_iff. unfold laneInBounds.
  rewrite advanceWords_limit.
  assert (Hk : 4 * Z.of_nat k + 4 <= 16) by (destruct Hsize as [-> | [-> | ->]]; lia).
  unfold OOB_OFFSET in *.
  rewrite (advanceWords_lane p k i _ Hoff) by lia.
  assert (E2 : (2147483647 - 16 + 4 * Z.of_nat k + 4 <=? SIMD.limit p) = false)
    by (apply Z.leb_gt; lia).
  rewrite E2, !andb_false_r. reflexivity.
Qed.

End GatherLaneFacts.


Section ScatterFacts.
Import Word32 Word32Facts.

Lemma In_lanes i : In i lanes <-> (i < SIMD.Width)%nat.
Proof. unfold lanes. rewrite in_seq. lia. Qed.

Lemma NoDup_lanes : List.NoDup lanes.
Proof. apply seq_NoDup. Qed.

Ltac decide_eqb :=
  repeat match goal with
         | |- context [?x =? ?y] =>
             first [ replace (x =? y) with false by (symmetry; apply Z.eqb_neq; lia)
                   | replace (x =? y) with true by (symmetry; apply Z.eqb_eq; lia) ]
         end.

Lemma store8_byte mem A v j :
  0 <= j < 1 -> store8 mem A v (A + j) = (v / 2 ^ (8 * j)) mod 256.
Proof.
  intros Hj. assert (j = 0) as -> by lia.
  unfold store8, storeByte. decide_eqb. now rewrite Z.div_1_r.
Qed.

Lemma store16_byte mem A v j :
  0 <= j < 2 -> store16 mem A v (A + j) = (v / 2 ^ (8 * j)) mod 256.
Proof.
  intros Hj. assert (Hc : j = 0 \/ j = 1) by lia.
  destruct Hc as [-> | ->]; unfold store16, storeByte; decide_eqb;
    rewrite ?Z.div_1_r; reflexivity.
Qed.

Lemma store32_byte mem A v j :
  0 <= j < 4 -> store32 mem A v (A + j) = (v / 2 ^ (8 * j)) mod 256.
Proof.
  intros Hj. assert (Hc : j = 0 \/ j = 1 \/ j = 2 \/ j = 3) by lia.
  destruct Hc as [-> | [-> | [-> | ->]]]; unfold store32, storeByte; decide_eqb;
    rewrite ?Z.div_1_r; reflexivity.
Qed.

Lemma foldl_frame_in {A} (f : Memory -> A -> Memory) (l : list A) (a : Z) :
  (forall mem x, In x l -> f mem x a = mem a) -> forall mem, foldl f mem l a = mem a.
Proof.
  induction l as [| x l IH]; intros Hf mem; cbn [foldl]; [reflexivity |].
  rewrite IH by (intros m y Hy; apply Hf; now right).
  apply Hf. now left.
Qed.

Lemma foldl_hit (f : Memory -> nat -> Memory) (l : list nat) (a v : Z) (lane : nat) :
  List.NoDup l -> In lane l ->
  (forall mem, f mem lane a = v) ->
  (forall mem i, In i l -> i <> lane -> f mem i a = mem a) ->
  forall mem, foldl f mem l a = v.
Proof.
  induction l as [| x l IH]; intros Hnd Hin Hhit Hmiss mem; [destruct Hin |].
  apply List.NoDup_cons_iff in Hnd. destruct Hnd as [Hx Hnd]. cbn [foldl].
  destruct (Nat.eq_dec x lane) as [-> | Hne].
  - rewrite foldl_frame_in; [apply Hhit |].
    intros m y Hy. apply Hmiss; [now right |]. intros ->. contradiction.
  - apply IH; [exact Hnd | | exact Hhit |].
    + destruct Hin as [-> | Hin]; [contradiction | exact Hin].
    + intros m y Hy. apply Hmiss. now right.
Qed.

Lemma foldl_ext_in {A B} (f g : A -> B -> A) (l : list B) :
  (forall a x, In x l -> f a x = g a x) -> forall a, foldl f a l = foldl g a l.
Proof.
  induction l as [| x l IH]; intros H a; cbn [foldl]; [reflexivity |].
  rewrite (H a x) by now left. apply IH. intros b y Hy. apply H. now right.
Qed.

(** A store loop over the lanes leaves alone every byte outside the
    accesses of its enabled lanes. *)
Lemma lanes_store_frame (st : Memory -> Z -> Z -> Memory) (size : Z)
    (cond : nat -> bool) (addr val : nat -> Z) (a : Z) :
  (forall mem A v a, ~ (A <= a < A + size) -> st mem A v a = mem a) ->
  (forall i, (i < SIMD.Width)%nat -> cond i = true -> ~ (addr i <= a < addr i + size)) ->
  forall mem,
    foldl (fun mem i => if cond i then st mem (addr i) (val i) else mem) mem lanes a = mem a.
Proof.
  intros Hst Hmiss. apply foldl_frame_in. intros mem i Hi. apply In_lanes in Hi.
  destruct (cond i) eqn:E; [| reflexivity]. apply Hst. now apply Hmiss.
Qed.

(** A store loop over the lanes writes the value of an enabled lane
    that no other enabled lane overlaps. *)
Lemma lanes_store_hit (st : Memory -> Z -> Z -> Memory) (size : Z)
    (cond : nat -> bool) (addr val : nat -> Z) (lane : nat) (j a : Z) :
  (forall mem A v a, ~ (A <= a < A + size) -> st mem A v a = mem a) ->
  (forall mem A v j, 0 <= j < size -> st mem A v (A + j) = (v / 2 ^ (8 * j)) mod 256) ->
  (lane < SIMD.Width)%nat -> cond lane = true -> 0 <= j < size -> a = addr lane + j ->
  (forall i, (i < SIMD.Width)%nat -> i <> lane -> cond i = true ->
     ~ (addr i <= a < addr i + size)) ->
  forall mem,
    foldl (fun mem i => if cond i then st mem (addr i) (val i) else mem) mem lanes a =
    (val lane / 2 ^ (8 * j)) mod 256.
Proof.
  intros Hframe Hbyte Hlane Hcond Hj -> Hmiss.
  apply foldl_hit with (lane := lane).
  - exact NoDup_lanes.
  - now apply In_lanes.
  - intros mem. rewrite Hcond. now apply Hbyte.
  - intros mem i Hi Hne. apply In_lanes in Hi.
    destruct (cond i) eqn:E; [| reflexivity]. apply Hframe. now apply Hmiss.
Qed.

Lemma scatterWords_lane_frame count : forall i0 p mask packed mem a,
  (forall i k, (i < SIMD.Width)%nat -> (k < count)%nat -> laneActive mask i = true ->
     laneInBounds (advanceWords p k) 4 i = true ->
     ~ (laneAddress (advanceWords p k) i <= a < laneAddress (advanceWords p k) i + 4)) ->
  scatterWords count i0 p mask packed mem a = mem a.
Proof.
  induction count as [| count IH]; intros i0 p mask packed mem a Hmiss; cbn [scatterWords];
    [reflexivity |].
  rewrite IH.
  - unfold Store. apply (lanes_store_frame store32 4).
    + intros m A v b Hb. now apply store32_frame.
    + intros i Hi Hc. rewrite masked_lane_iff in Hc. apply andb_true_iff in Hc.
      apply (Hmiss i 0%nat); [exact Hi | lia | tauto | tauto].
  - intros i k Hi Hk Hact Hin. rewrite advanceWords_S in *. apply Hmiss; [exact Hi | lia | |];
      assumption.
Qed.

Lemma scatterWords_hit count : forall i0 p mask packed mem lane k j a,
  (k < count)%nat -> (lane < SIMD.Width)%nat -> 0 <= j < 4 ->
  laneActive mask lane = true -> laneInBounds (advanceWords p k) 4 lane = true ->
  a = laneAddress (advanceWords p k) lane + j ->
  (forall i k', (i < SIMD.Width)%nat -> (k' < count)%nat -> i <> lane \/ k' <> k ->
     laneActive mask i = true -> laneInBounds (advanceWords p k') 4 i = true ->
     ~ (laneAddress (advanceWords p k') i <= a < laneAddress (advanceWords p k') i + 4)) ->
  scatterWords count i0 p mask packed mem a = (packed (i0 + k)%nat lane / 2 ^ (8 * j)) mod 256.
Proof.
  induction count as [| count IH]; intros i0 p mask packed mem lane k j a Hk Hlane Hj Hact Hin
    Ha Hmiss; [lia |].
  cbn [scatterWords]. destruct k as [| k].
  - rewrite scatterWords_lane_frame.
    + rewrite Nat.add_0_r. unfold Store.
      apply (lanes_store_hit store32 4
               (fun i => negb (SIMD.and mask (isInBounds p 4 Nullify) i =? 0))
               (laneAddress p) (packed i0) lane j a).
      * intros m A v b Hb. now apply store32_frame.
      * intros m A v b Hb. now apply store32_byte.
      * exact Hlane.
      * rewrite masked_lane_iff, Hact. exact Hin.
      * exact Hj.
      * exact Ha.
      * intros i Hi Hne Hc. rewrite masked_lane_iff in Hc. apply andb_true_iff in Hc.
        apply (Hmiss i 0%nat); [exact Hi | lia | now left | tauto | tauto].
    + intros i k' Hi Hk' Hact' Hin'. rewrite advanceWords_S in *.
      apply Hmiss; [exact Hi | lia | right; lia | |]; assumption.
  - replace (i0 + S k)%nat with (S i0 + k)%nat by lia.
    apply IH; try assumption.
    + lia.
    + now rewrite advanceWords_S.
    + now rewrite advanceWords_S.
    + intros i k' Hi Hk' Hne Hact' Hin'. rewrite advanceWords_S in *.
      apply Hmiss; [exact Hi | lia | destruct Hne; [now left | right; lia] | |]; assumption.
Qed.

End ScatterFacts.


Section TexelLaneFacts.
Import Word32 Word32Facts.

Lemma lane_in_range p size i :
  0 <= SIMD.offsets p i -> SIMD.offsets p i + size <= SIMD.limit p -> 0 <= size ->
  SIMD.limit p <= OOB_OFFSET ->
  laneInBounds p size i = true /\ laneAddress p i = SIMD.base p + SIMD.offsets p i.
Proof.
  intros H0 H1 Hs Hl. unfold laneInBounds, laneAddress, OOB_OFFSET in *.
  rewrite signed_nonneg by lia. split; [| reflexivity].
  apply andb_true_iff. rewrite !Z.leb_le. lia.
Qed.

Lemma lane_nullified p size i :
  SIMD.offsets p i = OOB_OFFSET -> 0 < size -> SIMD.limit p <= OOB_OFFSET ->
  laneInBounds p size i = false.
Proof.
  intros H0 Hs Hl. unfold laneInBounds, OOB_OFFSET in *. rewrite H0.
  rewrite signed_nonneg by lia. apply andb_false_iff. right. apply Z.leb_gt. lia.
Qed.

Lemma word_in_range p size i k :
  0 <= SIMD.offsets p i -> SIMD.offsets p i + size <= SIMD.limit p ->
  SIMD.limit p <= OOB_OFFSET -> 4 * Z.of_nat k + 4 <= size ->
  laneInBounds (advanceWords p k) 4 i = true /\
  laneAddress (advanceWords p k) i = SIMD.base p + SIMD.offsets p i + 4 * Z.of_nat k.
Proof.
  intros H0 H1 Hl Hk. unfold laneInBounds, laneAddress, OOB_OFFSET in *.
  rewrite advanceWords_limit, advanceWords_base.
  rewrite (advanceWords_lane p k i _ eq_refl H0) by lia. split; [| lia].
  apply andb_true_iff. rewrite !Z.leb_le. lia.
Qed.

Lemma word_nullified p i k :
  SIMD.offsets p i = OOB_OFFSET -> SIMD.limit p <= OOB_OFFSET -> (k <= 3)%nat ->
  laneInBounds (advanceWords p k) 4 i = false.
Proof.
  intros H0 Hl Hk. unfold laneInBounds, OOB_OFFSET in *. rewrite advanceWords_limit.
  rewrite (advanceWords_lane p k i _ H0) by lia.
  apply andb_false_iff. right. apply Z.leb_gt. lia.
Qed.

Lemma texelSize_cases texelSize :
  texelSize = 1 \/ texelSize = 2 \/ texelSize = 4 \/ texelSize = 8 \/ texelSize = 16 ->
  (texelSize = 4 \/ texelSize = 8 \/ texelSize = 16) \/
  ((texelSize =? 4) || (texelSize =? 8) || (texelSize =? 16) = false /\
   (texelSize = 2 \/ texelSize = 1)).
Proof. intros [-> | [-> | [-> | [-> | ->]]]]; auto. Qed.

(** The scatter of a write whose lanes are each either redirected to
    the out-of-bounds offset or wholly within the addressable region:
    bytes outside the texels of the active in-range lanes keep their
    value, and the texel of an active in-range lane that no other
    such lane overlaps holds the lane's packed words. *)
Lemma scatterTexel_spec texelSize p mask packed mem :
  texelSize = 1 \/ texelSize = 2 \/ texelSize = 4 \/ texelSize = 8 \/ texelSize = 16 ->
  SIMD.limit p <= OOB_OFFSET ->
  (forall i, (i < SIMD.Width)%nat ->
     SIMD.offsets p i = OOB_OFFSET \/
     (0 <= SIMD.offsets p i /\ SIMD.offsets p i + texelSize <= SIMD.limit p)) ->
  exists mem',
    scatterTexel texelSize p mask packed mem = Ok mem' /\
    (forall a,
       (forall i, (i < SIMD.Width)%nat -> laneActive mask i = true ->
          SIMD.offsets p i <> OOB_OFFSET ->
          ~ (SIMD.base p + SIMD.offsets p i <= a
             < SIMD.base p + SIMD.offsets p i + texelSize)) ->
       mem' a = mem a) /\
    (forall lane j,
       (lane < SIMD.Width)%nat -> laneActive mask lane = true ->
       SIMD.offsets p lane <> OOB_OFFSET -> 0 <= j < texelSize ->
       (forall i, (i < SIMD.Width)%nat -> i <> lane -> laneActive mask i = true ->
          SIMD.offsets p i <> OOB_OFFSET ->
          SIMD.offsets p i + texelSize <= SIMD.offsets p lane \/
          SIMD.offsets p lane + texelSize <= SIMD.offsets p i) ->
       mem' (SIMD.base p + SIMD.offsets p lane + j) = texelByte (fun k => packed k lane) j).
Proof.
  intros Hsize Hlim Hlanes.
  assert (Hpos : 0 < texelSize) by lia.
  assert (Hne : forall i, (i < SIMD.Width)%nat ->
            0 <= SIMD.offsets p i /\ SIMD.offsets p i + texelSize <= SIMD.limit p ->
            SIMD.offsets p i <> OOB_OFFSET) by (intros i Hi Hr; lia).
  unfold scatterTexel.
  destruct (texelSize_cases texelSize Hsize) as [Hw | [Hnw Hs]].
  - destruct (texelSize_words texelSize Hw) as [Hb Hn]. rewrite Hb.
    eexists. split; [reflexivity |]. split.
    + intros a Hout. apply scatterWords_lane_frame.
      intros i k Hi Hk Hact Hin.
      destruct (Hlanes i Hi) as [Hoob | [H0 H1]].
      { rewrite word_nullified in Hin by (try assumption; lia). discriminate. }
      destruct (word_in_range p texelSize i k H0 H1 Hlim) as [_ ->]; [lia |].
      specialize (Hout i Hi Hact (Hne i Hi (conj H0 H1))). lia.
    + intros lane j Hlane Hact Hoff Hj Hdisj.
      destruct (Hlanes lane Hlane) as [Hoob | [H0 H1]]; [contradiction |].
      assert (Hq : 0 <= j / 4) by (apply Z.div_pos; lia).
      assert (Hdm : j = 4 * (j / 4) + j mod 4) by (apply Z.div_mod; lia).
      assert (Hm : 0 <= j mod 4 < 4) by (apply Z.mod_pos_bound; lia).
      assert (Hk : Z.of_nat (Z.to_nat (j / 4)) = j / 4) by (apply Z2Nat.id; lia).
      destruct (word_in_range p texelSize lane (Z.to_nat (j / 4)) H0 H1 Hlim) as [Hin Haddr];
        [lia |].
      rewrite (scatterWords_hit _ 0%nat p mask packed mem lane (Z.to_nat (j / 4)) (j mod 4));
        try assumption.
      * reflexivity.
      * lia.
      * rewrite Haddr. lia.
      * intros i k' Hi Hk' Hor Hact' Hin'.
        destruct (Hlanes i Hi) as [Hoob | [H0' H1']].
        { rewrite word_nullified in Hin' by (try assumption; lia). discriminate. }
        destruct (word_in_range p texelSize i k' H0' H1' Hlim) as [_ ->]; [lia |].
        destruct (Nat.eq_dec i lane) as [-> | Hil].
        { destruct Hor as [? | Hkk]; [contradiction |]. lia. }
        specialize (Hdisj i Hi Hil Hact' (Hne i Hi (conj H0' H1'))). lia.
  - rewrite Hnw. destruct Hs as [-> | ->]; cbn [Z.eqb Pos.eqb].
    + eexists. split; [reflexivity |]. split.
      * intros a Hout. apply (lanes_store_frame store16 2).
        { intros m A v b Hb. now apply store16_frame. }
        intros i Hi Hc. unfold SIMD.Extract in *. rewrite masked_lane_iff in Hc.
        apply andb_true_iff in Hc. destruct Hc as [Hact Hin].
        destruct (Hlanes i Hi) as [Hoob | [H0 H1]].
        { rewrite lane_nullified in Hin by (try assumption; lia). discriminate. }
        rewrite signed_nonneg by (unfold OOB_OFFSET in *; lia).
        apply Hout; auto.
      * intros lane j Hlane Hact Hoff Hj Hdisj.
        destruct (Hlanes lane Hlane) as [Hoob | [H0 H1]]; [contradiction |].
        unfold texelByte. rewrite (Z.div_small j 4), (Z.mod_small j 4) by lia.
        apply (lanes_store_hit store16 2
                 (fun i => negb (SIMD.Extract (SIMD.and mask (isInBounds p 2 Nullify)) i =? 0))
                 (fun i => SIMD.base p + signed (SIMD.Extract (SIMD.offsets p) i))
                 (fun i => SIMD.Extract (packed 0%nat) i) lane j).
        { intros m A v b Hb. now apply store16_frame. }
        { intros m A v b Hb. now apply store16_byte. }
        { exact Hlane. }
        { unfold SIMD.Extract. rewrite masked_lane_iff, Hact.
          now apply lane_in_range; try lia. }
        { exact Hj. }
        { unfold SIMD.Extract. rewrite signed_nonneg by (unfold OOB_OFFSET in *; lia).
          reflexivity. }
        intros i Hi Hil Hc. unfold SIMD.Extract in *. rewrite masked_lane_iff in Hc.
        apply andb_true_iff in Hc. destruct Hc as [Hact' Hin].
        destruct (Hlanes i Hi) as [Hoob | [H0' H1']].
        { rewrite lane_nullified in Hin by (try assumption; lia). discriminate. }
        rewrite signed_nonneg by (unfold OOB_OFFSET in *; lia).
        specialize (Hdisj i Hi Hil Hact' (Hne i Hi (conj H0' H1'))). lia.
    + eexists. split; [reflexivity |]. split.
      * intros a Hout. apply (lanes_store_frame store8 1).
        { intros m A v b Hb. now apply store8_frame. }
        intros i Hi Hc. unfold SIMD.Extract in *. rewrite masked_lane_iff in Hc.
        apply andb_true_iff in Hc. destruct Hc as [Hact Hin].
        destruct (Hlanes i Hi) as [Hoob | [H0 H1]].
        { rewrite lane_nullified in Hin by (try assumption; lia). discriminate. }
        rewrite signed_nonneg by (unfold OOB_OFFSET in *; lia).
        apply Hout; auto.
      * intros lane j Hlane Hact Hoff Hj Hdisj.
        destruct (Hlanes lane Hlane) as [Hoob | [H0 H1]]; [contradiction |].
        unfold texelByte. rewrite (Z.div_small j 4), (Z.mod_small j 4) by lia.
        apply (lanes_store_hit store8 1
                 (fun i => negb (SIMD.Extract (SIMD.and mask (isInBounds p 1 Nullify)) i =? 0))
                 (fun i => SIMD.base p + signed (SIMD.Extract (SIMD.offsets p) i))
                 (fun i => SIMD.Extract (packed 0%nat) i) lane j).
        { intros m A v b Hb. now apply store8_frame. }
        { intros m A v b Hb. now apply store8_byte. }
        { exact Hlane. }
        { unfold SIMD.Extract. rewrite masked_lane_iff, Hact.
          now apply lane_in_range; try lia. }
        { exact Hj. }
        { unfold SIMD.Extract. rewrite signed_nonneg by (unfold OOB_OFFSET in *; lia).
          reflexivity. }
        intros i Hi Hil Hc. unfold SIMD.Extract in *. rewrite masked_lane_iff in Hc.
        apply andb_true_iff in Hc. destruct Hc as [Hact' Hin].
        destruct (Hlanes i Hi) as [Hoob | [H0' H1']].
        { rewrite lane_nullified in Hin by (try assumption; lia). discriminate. }
        rewrite signed_nonneg by (unfold OOB_OFFSET in *; lia).
        specialize (Hdisj i Hi Hil Hact' (Hne i Hi (conj H0' H1'))). lia.
Qed.

End TexelLaneFacts.


Section CodecShapeFacts.

Variable power : Z -> Z -> Z.

(** Every format the decode table names has a texel of 1, 2, 4, 8 or
    16 bytes. *)
Lemma decodeTexel_bytes vkFormat dec :
  decodeTexel power vkFormat = Ok dec ->
  let texelSize := formatBytes vkFormat in
  texelSize = 1 \/ texelSize = 2 \/ texelSize = 4 \/ texelSize = 8 \/ texelSize = 16.
Proof.
  intros Hdec. destruct vkFormat; try discriminate Hdec; cbn; tauto.
Qed.

Lemma encodeTexel_bytes format texelSize encode :
  encodeTexel format = Ok (texelSize, encode) ->
  texelSize = 1 \/ texelSize = 2 \/ texelSize = 4 \/ texelSize = 8 \/ texelSize = 16.
Proof.
  intros Henc. destruct format; try discriminate Henc;
    apply Ok_inj in Henc; apply (f_equal fst) in Henc; cbn [fst] in Henc; subst texelSize;
    tauto.
Qed.

(** The decode of a format reads the packed words of its texel only. *)
Lemma decodeTexel_prefix vkFormat dec (p q : nat -> Z) :
  decodeTexel power vkFormat = Ok dec ->
  (forall k, (k < packedWords (formatBytes vkFormat))%nat -> p k = q k) ->
  dec p = dec q.
Proof.
  intros Hdec Hpq.
  destruct vkFormat; try discriminate Hdec; apply Ok_inj in Hdec; subst dec;
    cbv beta;
    rewrite ?(Hpq 0%nat), ?(Hpq 1%nat), ?(Hpq 2%nat), ?(Hpq 3%nat)
      by (vm_compute; lia);
    reflexivity.
Qed.

(** The decode of all-zero packed words is zero on every channel the
    format stores. *)
Lemma decodeTexel_zero vkFormat dec (channel : nat) :
  decodeTexel power vkFormat = Ok dec ->
  (channel < storedChannels vkFormat)%nat ->
  exists value, dec (fun _ => 0) !! channel = Some value /\ laneBits value = 0.
Proof.
  intros Hdec Hch.
  destruct vkFormat; try discriminate Hdec; apply Ok_inj in Hdec; subst dec;
    cbn [storedChannels] in Hch;
    (destruct channel as [| [| [| [| ?]]]]; try lia);
    eexists; (split; [reflexivity |]); vm_compute; reflexivity.
Qed.

End CodecShapeFacts.


Section MaskFacts.
Import Word32 Word32Facts.

Lemma laneActive_withoutLanes mask drop i :
  laneActive (withoutLanes mask drop) i = negb (drop i) && laneActive mask i.
Proof. unfold laneActive, withoutLanes. destruct (drop i); reflexivity. Qed.

Lemma Store_mask_ext p value mask mask' mem :
  (forall i, (i < SIMD.Width)%nat ->
     laneActive mask' i && laneInBounds p 4 i = laneActive mask i && laneInBounds p 4 i) ->
  Store p value Nullify mask' mem = Store p value Nullify mask mem.
Proof.
  intros H. unfold Store. apply foldl_ext_in. intros m i Hi. apply In_lanes in Hi.
  rewrite !masked_lane_iff, (H i Hi). reflexivity.
Qed.

Lemma scatterWords_mask_ext count : forall i0 p mask mask' packed mem,
  (forall i k, (i < SIMD.Width)%nat -> (k < count)%nat ->
     laneActive mask' i && laneInBounds (advanceWords p k) 4 i =
     laneActive mask i && laneInBounds (advanceWords p k) 4 i) ->
  scatterWords count i0 p mask' packed mem = scatterWords count i0 p mask packed mem.
Proof.
  induction count as [| count IH]; intros i0 p mask mask' packed mem H; cbn [scatterWords];
    [reflexivity |].
  rewrite (Store_mask_ext p (packed i0) mask mask') by (intros i Hi; apply (H i 0%nat Hi); lia).
  apply IH. intros i k Hi Hk. rewrite advanceWords_S. apply H; [exact Hi | lia].
Qed.

(** Switching off lanes that were redirected to the out-of-bounds
    offset does not change a scatter. *)
Lemma scatterTexel_mask_ext texelSize p mask drop packed mem :
  texelSize = 1 \/ texelSize = 2 \/ texelSize = 4 \/ texelSize = 8 \/ texelSize = 16 ->
  SIMD.limit p <= OOB_OFFSET ->
  (forall i, (i < SIMD.Width)%nat -> drop i = true -> SIMD.offsets p i = OOB_OFFSET) ->
  scatterTexel texelSize p (withoutLanes mask drop) packed mem =
  scatterTexel texelSize p mask packed mem.
Proof.
  intros Hsize Hlim Hdrop. unfold scatterTexel.
  destruct (texelSize_cases texelSize Hsize) as [Hw | [Hnw Hs]].
  - destruct (texelSize_words texelSize Hw) as [Hb Hn]. rewrite Hb. f_equal.
    apply scatterWords_mask_ext. intros i k Hi Hk.
    rewrite laneActive_withoutLanes. destruct (drop i) eqn:Ed; [| reflexivity].
    rewrite word_nullified; [now rewrite !andb_false_r | now apply Hdrop | exact Hlim | lia].
  - rewrite Hnw. destruct Hs as [-> | ->]; cbn [Z.eqb Pos.eqb]; f_equal;
      apply foldl_ext_in; intros m i Hi; apply In_lanes in Hi; unfold SIMD.Extract;
      rewrite !masked_lane_iff, laneActive_withoutLanes;
      (destruct (drop i) eqn:Ed; [| reflexivity]);
      rewrite lane_nullified by (try apply Hdrop; try assumption; lia);
      rewrite !andb_false_r; reflexivity.
Qed.

(** A gather of 1- or 2-byte texels leaves alone a lane that was
    redirected to the out-of-bounds offset. *)
Lemma gatherTexel_skipped texelSize p mask mem packed i :
  texelSize = 1 \/ texelSize = 2 ->
  SIMD.offsets p i = OOB_OFFSET -> SIMD.limit p <= OOB_OFFSET ->
  exists g,
    gatherTexel texelSize p mask mem packed = Ok g /\ forall k, g k i = packed k i.
Proof.
  intros Hsize Hoff Hlim. unfold gatherTexel.
  destruct Hsize as [-> | ->]; cbn [Z.eqb Pos.eqb orb]; eexists; (split; [reflexivity |]);
    intros k; unfold SIMD.Extract.
  - rewrite (foldl_insert_spec
               (fun j => negb (SIMD.and mask (isInBounds p 1 Nullify) j =? 0))
               (fun j => Int_of_Byte (load8 mem (SIMD.base p + signed (SIMD.offsets p j))))).
    rewrite masked_lane_iff, lane_nullified by (try assumption; lia).
    now rewrite !andb_false_r.
  - rewrite (foldl_insert_spec
               (fun j => negb (SIMD.and mask (isInBounds p 2 Nullify) j =? 0))
               (fun j => Int_of_Short (load16 mem (SIMD.base p + signed (SIMD.offsets p j))))).
    rewrite masked_lane_iff, lane_nullified by (try assumption; lia).
    now rewrite !andb_false_r.
Qed.

End MaskFacts.


(** ** The bounds law of image reads and writes *)

Section BoundsFacts.
Import Word32 Word32Facts.

Variable spirv : Shader.
Variable operandOf : Z -> Operand.
Variable routine : Routine.
Variable getPointer : Z -> Z.
Variable storageAt : Z -> StorageImageDescriptor.
Variable inputAttachmentFormat : Z -> VkFormat.
Variable power : Z -> Z -> Z.

Lemma imageReadAddress_spec insn sampleId vkFormat useStencilAspect texelSize texelPtr :
  imageReadAddress spirv operandOf routine getPointer storageAt inputAttachmentFormat
    insn sampleId = Ok (vkFormat, useStencilAspect, texelSize, texelPtr) ->
  let d := storageAt (getPointer (word insn 3)) in
  texelSize = formatBytes vkFormat /\
  texelPtr =
    GetTexelAddress operandOf routine (if useStencilAspect then stencilPtr d else ptr d)
      (sizeInBytes d) (operandOf (word insn 4)) (objectTypeDefinition spirv (word insn 3)) d
      texelSize sampleId useStencilAspect Nullify.
Proof.
  unfold imageReadAddress. intros H. cbv zeta.
  destruct (ASSERT _); [| discriminate H]. cbn [mbind Result_bind] in H.
  destruct (if word (objectTypeDefinition spirv (word insn 3)) 3 =? spv.DimSubpassData
            then _ else _) as [format |]; [| discriminate H].
  cbn [mbind Result_bind] in H. injection H as <- <- <- <-. split; reflexivity.
Qed.

Lemma access_offsets imageBase imageId coordinateId sampleId texelSize st lane :
  SIMD.offsets
    (GetTexelAddress operandOf routine imageBase (sizeInBytes (storageAt (getPointer imageId)))
       (operandOf coordinateId) (objectTypeDefinition spirv imageId)
       (storageAt (getPointer imageId)) texelSize sampleId st Nullify) lane =
  if accessOutOfBounds spirv operandOf routine getPointer storageAt imageId coordinateId
       sampleId lane
  then OOB_OFFSET
  else accessOffset spirv operandOf routine getPointer storageAt imageId coordinateId
         sampleId texelSize st lane.
Proof. apply GetTexelAddress_nullify_offsets. Qed.

(** What a read returns on each lane. *)
Lemma EmitImageRead_lanes insn mask mem packed sampleId vkFormat useStencilAspect texelSize
    texelPtr dec :
  let d := storageAt (getPointer (word insn 3)) in
  imageReadOperands insn = Ok sampleId ->
  imageReadAddress spirv operandOf routine getPointer storageAt inputAttachmentFormat
    insn sampleId = Ok (vkFormat, useStencilAspect, texelSize, texelPtr) ->
  decodeTexel power vkFormat = Ok dec ->
  sizeInBytes d <= OOB_OFFSET ->
  exists out,
    EmitImageRead spirv operandOf routine getPointer storageAt inputAttachmentFormat power
      insn mask mem packed = Ok out /\
    forall lane, (lane < SIMD.Width)%nat ->
      let oob :=
        accessOutOfBounds spirv operandOf routine getPointer storageAt (word insn 3)
          (word insn 4) sampleId lane in
      let off :=
        accessOffset spirv operandOf routine getPointer storageAt (word insn 3)
          (word insn 4) sampleId texelSize useStencilAspect lane in
      (oob = false -> laneActive mask lane = true ->
       0 <= off -> off + texelSize <= sizeInBytes d ->
       out lane =
       dec (texelAt mem ((if useStencilAspect then stencilPtr d else ptr d) + off) texelSize
              (fun _ => 0))) /\
      (oob = true -> 4 <= texelSize -> out lane = dec (fun _ => 0)) /\
      (oob = true -> texelSize < 4 -> out lane = dec (fun k => packed k lane)).
Proof.
  intros d Hops Haddr Hdec Hmax.
  destruct (imageReadAddress_spec _ _ _ _ _ _ Haddr) as [Hsize Hptr]. fold d in Hptr.
  pose proof (decodeTexel_bytes power vkFormat dec Hdec) as Hbytes. cbv zeta in Hbytes.
  rewrite <- Hsize in Hbytes.
  assert (Hg : exists g, gatherTexel texelSize texelPtr mask mem packed = Ok g).
  { unfold gatherTexel.
    destruct Hbytes as [-> | [-> | [-> | [-> | ->]]]]; cbn [Z.eqb Pos.eqb orb]; eauto. }
  destruct Hg as [g Hg].
  exists (fun lane => dec (fun k => g k lane)). split.
  { unfold EmitImageRead. rewrite Hops. cbn [mbind Result_bind]. rewrite Haddr.
    cbn [mbind Result_bind]. rewrite Hg. cbn [mbind Result_bind]. rewrite Hdec.
    reflexivity. }
  intros lane Hlane oob off.
  assert (Hoff : SIMD.offsets texelPtr lane = if oob then OOB_OFFSET else off).
  { rewrite Hptr. apply access_offsets. }
  assert (Hlim : SIMD.limit texelPtr = sizeInBytes d) by (rewrite Hptr; reflexivity).
  assert (Hbase : SIMD.base texelPtr = if useStencilAspect then stencilPtr d else ptr d)
    by (rewrite Hptr; reflexivity).
  split; [| split].
  - intros Hin Hact H0 H1. rewrite Hin in Hoff.
    destruct (gatherTexel_in_range texelSize texelPtr mask mem packed lane off Hlane Hbytes Hoff
                H0) as (g' & Hg' & Hspec);
      [rewrite Hlim; exact H1 | rewrite Hlim; unfold OOB_OFFSET in Hmax; lia | exact Hact |].
    rewrite Hg in Hg'. apply Ok_inj in Hg'. subst g'.
    apply (decodeTexel_prefix power vkFormat dec _ _ Hdec).
    intros k Hk. rewrite Hspec, Hbase. rewrite <- Hsize in Hk.
    unfold texelAt, packedWords in *.
    destruct Hbytes as [-> | [-> | [-> | [-> | ->]]]]; cbn [Z.eqb Pos.eqb orb] in *;
      vm_compute in Hk.
    + assert (k = 0%nat) as -> by lia. reflexivity.
    + assert (k = 0%nat) as -> by lia. reflexivity.
    + assert (k = 0%nat) as -> by lia. reflexivity.
    + destruct k as [| [| k]]; [reflexivity | reflexivity | lia].
    + destruct k as [| [| [| [| k]]]]; try reflexivity. lia.
  - intros Hin Hs. rewrite Hin in Hoff.
    destruct (gatherTexel_nullified texelSize texelPtr mask mem packed lane) as (g' & Hg' & Hspec);
      [lia | exact Hoff | rewrite Hlim; exact Hmax |].
    rewrite Hg in Hg'. apply Ok_inj in Hg'. subst g'.
    apply (decodeTexel_prefix power vkFormat dec _ _ Hdec).
    intros k Hk. rewrite Hspec. rewrite <- Hsize in Hk.
    unfold zeroWords, packedWords in *.
    destruct Hbytes as [-> | [-> | [-> | [-> | ->]]]]; try lia; vm_compute in Hk.
    + assert (k = 0%nat) as -> by lia. reflexivity.
    + destruct k as [| [| k]]; [reflexivity | reflexivity | lia].
    + destruct k as [| [| [| [| k]]]]; try reflexivity. lia.
  - intros Hin Hs. rewrite Hin in Hoff.
    destruct (gatherTexel_skipped texelSize texelPtr mask mem packed lane) as (g' & Hg' & Hspec);
      [lia | exact Hoff | rewrite Hlim; exact Hmax |].
    rewrite Hg in Hg'. apply Ok_inj in Hg'. subst g'.
    apply (decodeTexel_prefix power vkFormat dec _ _ Hdec).
    intros k Hk. apply Hspec.
Qed.

(** What a write stores for each lane. *)
Lemma EmitImageWrite_lanes insn mask mem sampleId format texelSize encode :
  let imageId := word insn 1 in
  let d := storageAt (getPointer imageId) in
  let oob :=
    accessOutOfBounds spirv operandOf routine getPointer storageAt imageId (word insn 2)
      sampleId in
  let off :=
    accessOffset spirv operandOf routine getPointer storageAt imageId (word insn 2)
      sampleId texelSize false in
  let words := fun lane k =>
    nth k (encode (fun c => OpInt (operandOf (word insn 3)) (Z.of_nat c) lane)) 0 in
  objectTypeOpcode spirv imageId = spvOp.OpTypeImage ->
  imageWriteOperands insn = Ok sampleId ->
  SpirvFormatToVulkanFormat (word (objectTypeDefinition spirv imageId) 8) = Ok format ->
  encodeTexel format = Ok (texelSize, encode) ->
  sizeInBytes d <= OOB_OFFSET ->
  exists mem',
    EmitImageWrite spirv operandOf routine getPointer storageAt insn mask mem = Ok mem' /\
    EmitImageWrite spirv operandOf routine getPointer storageAt insn (withoutLanes mask oob)
      mem = Ok mem' /\
    ((forall lane, (lane < SIMD.Width)%nat -> oob lane = false ->
        0 <= off lane /\ off lane + texelSize <= sizeInBytes d) ->
     (forall a,
        (forall lane, (lane < SIMD.Width)%nat -> laneActive mask lane = true ->
           oob lane = false ->
           ~ (ptr d + off lane <= a < ptr d + off lane + texelSize)) ->
        mem' a = mem a) /\
     (forall lane j,
        (lane < SIMD.Width)%nat -> laneActive mask lane = true -> oob lane = false ->
        0 <= j < texelSize ->
        (forall i, (i < SIMD.Width)%nat -> i <> lane -> laneActive mask i = true ->
           oob i = false ->
           off i + texelSize <= off lane \/ off lane + texelSize <= off i) ->
        mem' (ptr d + off lane + j) = texelByte (words lane) j)).
Proof.
  intros imageId d oob off words Hop Hops Hfmt Henc Hmax.
  pose proof (encodeTexel_bytes format texelSize encode Henc) as Hbytes.
  set (p := imageWriteAddress spirv operandOf routine getPointer storageAt insn sampleId
              texelSize).
  assert (Hrun : forall m,
            EmitImageWrite spirv operandOf routine getPointer storageAt insn m mem =
            scatterTexel texelSize p m (fun k lane => words lane k) mem).
  { intros m. unfold EmitImageWrite. fold imageId. rewrite Hop, Z.eqb_refl.
    cbn [ASSERT mbind Result_bind]. rewrite Hops. cbn [mbind Result_bind].
    rewrite Hfmt. cbn [mbind Result_bind]. rewrite Henc. reflexivity. }
  assert (Hoff : forall lane, SIMD.offsets p lane = if oob lane then OOB_OFFSET else off lane).
  { intros lane. apply access_offsets. }
  assert (Hlim : SIMD.limit p = sizeInBytes d) by reflexivity.
  assert (Hbase : SIMD.base p = ptr d) by reflexivity.
  assert (Hm : exists mem', scatterTexel texelSize p mask (fun k lane => words lane k) mem =
                            Ok mem').
  { unfold scatterTexel.
    destruct Hbytes as [-> | [-> | [-> | [-> | ->]]]]; cbn [Z.eqb Pos.eqb orb]; eauto. }
  destruct Hm as [mem' Hm]. exists mem'. split; [now rewrite Hrun |]. split.
  { rewrite Hrun, scatterTexel_mask_ext; [exact Hm | exact Hbytes | now rewrite Hlim |].
    intros i Hi Hd. now rewrite Hoff, Hd. }
  intros Hwf.
  destruct (scatterTexel_spec texelSize p mask (fun k lane => words lane k) mem Hbytes)
    as (mem'' & Hm'' & Hframe & Hhit).
  { now rewrite Hlim. }
  { intros i Hi. rewrite Hoff, Hlim. destruct (oob i) eqn:Eo; [now left | right].
    now apply Hwf. }
  rewrite Hm in Hm''. apply Ok_inj in Hm''. subst mem''.
  assert (Hclear : forall i, SIMD.offsets p i <> OOB_OFFSET ->
            oob i = false /\ SIMD.offsets p i = off i).
  { intros i Hne. rewrite Hoff in *. destruct (oob i); [contradiction | auto]. }
  split.
  - intros a Hout. apply Hframe. intros i Hi Hact Hne.
    destruct (Hclear i Hne) as [Ho ->]. rewrite Hbase. now apply Hout.
  - intros lane j Hlane Hact Ho Hj Hdisj.
    assert (Hl : SIMD.offsets p lane = off lane) by (now rewrite Hoff, Ho).
    destruct (Hwf lane Hlane Ho) as [H0 H1].
    rewrite <- Hbase, <- Hl. apply Hhit; try assumption.
    + rewrite Hl. lia.
    + intros i Hi Hil Hact' Hne. destruct (Hclear i Hne) as [Ho' ->]. rewrite Hl.
      now apply Hdisj.
Qed.

End BoundsFacts.


Section BoundsClaims.

Variable spirv : Shader.
Variable operandOf : Z -> Operand.
Variable routine : Routine.
Variable getPointer : Z -> Z.
Variable storageAt : Z -> StorageImageDescriptor.
Variable inputAttachmentFormat : Z -> VkFormat.
Variable power : Z -> Z -> Z.

(** C1, as the code has it.  Take a read and a write whose image
    operands and formats are supported, on images no larger than the
    largest allocation.  Neither aborts, whatever the coordinates.

    Read.  A lane that is active, has its out-of-bounds predicate clear
    and whose texel lies within the image memory receives the decode of
    the texel at its computed offset.  A lane whose predicate is set
    receives, for texels of 4, 8 or 16 bytes, the decode of all-zero
    words: zero on every channel the format stores, and the padding
    values on the others (so alpha is 1 for a format without an alpha
    channel).

    Write.  The result is the one of the same write with the
    out-of-bounds lanes switched off.  When every lane with a clear
    predicate has its texel within the image memory, a byte outside the
    texels of the active lanes with a clear predicate keeps its value,
    and the texel of such a lane, if no other such lane overlaps it,
    holds the lane's encoded words. *)
Theorem image_access_bounds_law
    (MAX_MEMORY_ALLOCATION_SIZE : Z)
    (static_assert : OOB_OFFSET >= MAX_MEMORY_ALLOCATION_SIZE)
    (readInsn writeInsn : Insn) (mask : SIMD.t) (mem : Memory) (packed : nat -> SIMD.t)
    readSample vkFormat useStencilAspect readSize texelPtr dec
    writeSample format writeSize encode :
  let rd := storageAt (getPointer (word readInsn 3)) in
  let wd := storageAt (getPointer (word writeInsn 1)) in
  let readOob :=
    accessOutOfBounds spirv operandOf routine getPointer storageAt (word readInsn 3)
      (word readInsn 4) readSample in
  let readOff :=
    accessOffset spirv operandOf routine getPointer storageAt (word readInsn 3)
      (word readInsn 4) readSample readSize useStencilAspect in
  let writeOob :=
    accessOutOfBounds spirv operandOf routine getPointer storageAt (word writeInsn 1)
      (word writeInsn 2) writeSample in
  let writeOff :=
    accessOffset spirv operandOf routine getPointer storageAt (word writeInsn 1)
      (word writeInsn 2) writeSample writeSize false in
  let words := fun lane k =>
    nth k (encode (fun c => OpInt (operandOf (word writeInsn 3)) (Z.of_nat c) lane)) 0 in
  imageReadOperands readInsn = Ok readSample ->
  imageReadAddress spirv operandOf routine getPointer storageAt inputAttachmentFormat
    readInsn readSample = Ok (vkFormat, useStencilAspect, readSize, texelPtr) ->
  decodeTexel power vkFormat = Ok dec ->
  sizeInBytes rd <= MAX_MEMORY_ALLOCATION_SIZE ->
  objectTypeOpcode spirv (word writeInsn 1) = spvOp.OpTypeImage ->
  imageWriteOperands writeInsn = Ok writeSample ->
  SpirvFormatToVulkanFormat (word (objectTypeDefinition spirv (word writeInsn 1)) 8) =
    Ok format ->
  encodeTexel format = Ok (writeSize, encode) ->
  sizeInBytes wd <= MAX_MEMORY_ALLOCATION_SIZE ->
  (exists out,
     EmitImageRead spirv operandOf routine getPointer storageAt inputAttachmentFormat power
       readInsn mask mem packed = Ok out /\
     forall lane, (lane < SIMD.Width)%nat ->
       (readOob lane = false -> laneActive mask lane = true ->
        0 <= readOff lane -> readOff lane + readSize <= sizeInBytes rd ->
        out lane =
        dec (texelAt mem ((if useStencilAspect then stencilPtr rd else ptr rd) + readOff lane)
               readSize (fun _ => 0))) /\
       (readOob lane = true -> 4 <= readSize ->
        out lane = dec (fun _ => 0) /\
        forall channel, (channel < storedChannels vkFormat)%nat ->
          exists value, out lane !! channel = Some value /\ laneBits value = 0)) /\
  (exists mem',
     EmitImageWrite spirv operandOf routine getPointer storageAt writeInsn mask mem = Ok mem' /\
     EmitImageWrite spirv operandOf routine getPointer storageAt writeInsn
       (withoutLanes mask writeOob) mem = Ok mem' /\
     ((forall lane, (lane < SIMD.Width)%nat -> writeOob lane = false ->
         0 <= writeOff lane /\ writeOff lane + writeSize <= sizeInBytes wd) ->
      (forall a,
         (forall lane, (lane < SIMD.Width)%nat -> laneActive mask lane = true ->
            writeOob lane = false ->
            ~ (ptr wd + writeOff lane <= a < ptr wd + writeOff lane + writeSize)) ->
         mem' a = mem a) /\
      (forall lane j,
         (lane < SIMD.Width)%nat -> laneActive mask lane = true -> writeOob lane = false ->
         0 <= j < writeSize ->
         (forall i, (i < SIMD.Width)%nat -> i <> lane -> laneActive mask i = true ->
            writeOob i = false ->
            writeOff i + writeSize <= writeOff lane \/
            writeOff lane + writeSize <= writeOff i) ->
         mem' (ptr wd + writeOff lane + j) = texelByte (words lane) j))).
Proof.
  intros rd wd readOob readOff writeOob writeOff words
    Hrops Hraddr Hdec Hrmax Hwop Hwops Hfmt Henc Hwmax.
  split.
  - destruct (EmitImageRead_lanes spirv operandOf routine getPointer storageAt
                inputAttachmentFormat power readInsn mask mem packed readSample vkFormat
                useStencilAspect readSize texelPtr dec Hrops Hraddr Hdec)
      as (out & Hout & Hlanes); [fold rd; lia |].
    exists out. split; [exact Hout |]. intros lane Hlane.
    destruct (Hlanes lane Hlane) as (Hin & Hzero & _).
    split; [exact Hin |].
    intros Ho Hs. split; [now apply Hzero |].
    intros channel Hch. rewrite (Hzero Ho Hs).
    now apply (decodeTexel_zero power vkFormat dec channel Hdec).
  - apply (EmitImageWrite_lanes spirv operandOf routine getPointer storageAt writeInsn mask
             mem writeSample format writeSize encode Hwop Hwops Hfmt Henc).
    fold wd. lia.
Qed.

End BoundsClaims.

(** The claim as the specification words it does not hold: lane 3 of
    the read below addresses column 4 of an image 4 texels wide, and
    receives alpha 1. *)
Lemma image_read_out_of_bounds_alpha :
  OpInt (Examples.accessOperand 4) 0 3%nat = 4 /\
  width (Examples.storage0 0) = 4 /\
  laneOutOfBounds Examples.accessOperand Examples.routine0 (Examples.accessOperand 4)
    Examples.image2D (Examples.storage0 0) 0 3%nat /\
  match
    EmitImageRead Examples.shader0 Examples.accessOperand Examples.routine0 (fun _ => 0)
      Examples.storage0 (fun _ => VK_FORMAT_UNDEFINED) Examples.power0 Examples.imageRead
      Examples.allLanes Examples.memory0 (fun _ _ => 0)
  with
  | Ok out => out 3%nat = [IntLane 0; IntLane 0; IntLane 0; IntLane 1]
  | Abort _ => False
  end.
Proof.
  split; [reflexivity |]. split; [reflexivity |]. split.
  - left. vm_compute. discriminate.
  - vm_compute. reflexivity.
Qed.


Lemma image_access_bounds_law_witness :
  OOB_OFFSET >= 0x40000000 /\
  imageReadOperands Examples.imageRead = Ok 0 /\
  imageWriteOperands Examples.imageWrite = Ok 0 /\
  sizeInBytes (Examples.storage0 0) <= 0x40000000 /\
  (exists out,
     EmitImageRead Examples.shader0 Examples.accessOperand Examples.routine0 (fun _ => 0)
       Examples.storage0 (fun _ => VK_FORMAT_UNDEFINED) Examples.power0 Examples.imageRead
       Examples.allLanes Examples.memory0 (fun _ _ => 0) = Ok out /\
     out 0%nat = [IntLane 0x27262524; IntLane 0; IntLane 0; IntLane 1] /\
     out 3%nat = [IntLane 0; IntLane 0; IntLane 0; IntLane 1]) /\
  (exists mem',
     EmitImageWrite Examples.shader0 Examples.accessOperand Examples.routine0 (fun _ => 0)
       Examples.storage0 Examples.imageWrite Examples.allLanes Examples.memory0 = Ok mem' /\
     mem' (0x1000 + 36) = 0x44 /\
     mem' 0x1000 = Examples.memory0 0x1000).
Proof.
  assert (H0 : OOB_OFFSET >= 0x40000000) by (vm_compute; discriminate).
  assert (H1 : imageReadOperands Examples.imageRead = Ok 0) by reflexivity.
  assert (H2 : imageWriteOperands Examples.imageWrite = Ok 0) by reflexivity.
  assert (H3 : sizeInBytes (Examples.storage0 0) <= 0x40000000) by (vm_compute; discriminate).
  split; [exact H0 |]. split; [exact H1 |]. split; [exact H2 |]. split; [exact H3 |].
  destruct (image_access_bounds_law Examples.shader0 Examples.accessOperand Examples.routine0
              (fun _ => 0) Examples.storage0 (fun _ => VK_FORMAT_UNDEFINED) Examples.power0
              0x40000000 H0 Examples.imageRead Examples.imageWrite Examples.allLanes
              Examples.memory0 (fun _ _ => 0) 0 VK_FORMAT_R32_UINT false 4
              (GetTexelAddress Examples.accessOperand Examples.routine0 0x1000 64
                 (Examples.accessOperand 4) Examples.image2D Examples.descriptor4x4 4 0 false
                 Nullify)
              (fun packed => [IntLane (packed 0%nat); IntLane 0; IntLane 0; IntLane 1])
              0 VK_FORMAT_R32_UINT 4 (fun c => [c 0%nat])
              H1 eq_refl eq_refl H3 eq_refl H2 eq_refl eq_refl H3)
    as [(out & Hout & Hlanes) (mem' & Hw & _ & Hstore)].
  split.
  - exists out. split; [exact Hout |]. split.
    + destruct (Hlanes 0%nat) as (Hin & _); [vm_compute; lia |].
      rewrite Hin; [reflexivity | reflexivity | reflexivity | vm_compute; discriminate |
                    vm_compute; discriminate].
    + destruct (Hlanes 3%nat) as (_ & Hz); [vm_compute; lia |].
      destruct Hz as [-> _]; [reflexivity | lia | reflexivity].
  - exists mem'. split; [exact Hw |].
    destruct Hstore as [Hframe Hhit].
    { intros lane Hl Ho. unfold SIMD.Width in Hl.
      destruct lane as [| [| [| [| lane]]]]; try lia; try discriminate Ho;
        split; vm_compute; discriminate. }
    split.
    + apply (Hhit 0%nat 0); [vm_compute; lia | reflexivity | reflexivity | lia |].
      intros i Hi Hne _ Ho. unfold SIMD.Width in Hi.
      destruct i as [| [| [| [| i]]]]; try lia; try discriminate Ho;
        right; vm_compute; discriminate.
    + apply Hframe. intros lane Hl _ Ho. unfold SIMD.Width in Hl.
      destruct lane as [| [| [| [| lane]]]]; try lia; try discriminate Ho;
        vm_compute; intros [Ha Hb]; first [now apply Ha | discriminate Hb].
Defined.

(** ** Single-precision values and their bit patterns *)

Section FloatBitsFacts.
Import Word32 Word32Facts.

Lemma digits2_pos_bounds m :
  2 ^ (Zpos (digits2_pos m) - 1) <= Zpos m < 2 ^ Zpos (digits2_pos m).
Proof.
  induction m as [m IH | m IH |]; cbn [digits2_pos].
  - rewrite Pos2Z.inj_succ, (Pos2Z.inj_xI m).
    replace (Z.succ (Zpos (digits2_pos m)) - 1) with (Z.succ (Zpos (digits2_pos m) - 1)) by lia.
    rewrite !Z.pow_succ_r by lia.
    set (A := 2 ^ (Zpos (digits2_pos m) - 1)) in *. set (B := 2 ^ Zpos (digits2_pos m)) in *.
    clearbody A B. lia.
  - rewrite Pos2Z.inj_succ, (Pos2Z.inj_xO m).
    replace (Z.succ (Zpos (digits2_pos m)) - 1) with (Z.succ (Zpos (digits2_pos m) - 1)) by lia.
    rewrite !Z.pow_succ_r by lia.
    set (A := 2 ^ (Zpos (digits2_pos m) - 1)) in *. set (B := 2 ^ Zpos (digits2_pos m)) in *.
    clearbody A B. lia.
  - cbn. lia.
Qed.

(** A mantissa and exponent of the format: subnormal, or normal with
    24 significant bits. *)
Lemma bounded_cases m e :
  bounded F32.prec F32.emax m e = true ->
  (Zpos m < 2 ^ 23 /\ e = -149) \/ (2 ^ 23 <= Zpos m < 2 ^ 24 /\ -149 <= e <= 104).
Proof.
  unfold bounded, canonical_mantissa, fexp, emin, F32.prec, F32.emax.
  rewrite andb_true_iff, Z.eqb_eq, Z.leb_le. intros [Hc He].
  pose proof (digits2_pos_bounds m) as Hd.
  set (d := Zpos (digits2_pos m)) in *.
  assert (Hd0 : 0 < d) by (unfold d; lia).
  destruct (Z.lt_trichotomy d 24) as [Hlt | [Heq | Hgt]].
  - left. split; [| lia].
    apply Z.lt_le_trans with (2 ^ d); [lia |]. apply Z.pow_le_mono_r; lia.
  - right. rewrite Heq in Hd. change (24 - 1) with 23 in Hd. lia.
  - lia.
Qed.

Lemma high_bits_zero a n i : 0 <= a < 2 ^ n -> n <= i -> Z.testbit a i = false.
Proof.
  intros Ha Hi. destruct (Z.eq_dec a 0) as [-> | Hne]; [apply Z.bits_0 |].
  apply Z.bits_above_log2; [lia |].
  apply Z.lt_le_trans with n; [| exact Hi].
  apply Z.log2_lt_pow2; lia.
Qed.

Lemma land_disjoint a b n : 0 <= n -> 0 <= a < 2 ^ n -> Z.land (b * 2 ^ n) a = 0.
Proof.
  intros Hn Ha. apply Z.bits_inj'. intros i Hi. rewrite Z.land_spec, Z.bits_0.
  destruct (Z.ltb_spec i n).
  - rewrite Z.mul_pow2_bits_low by lia. reflexivity.
  - rewrite (high_bits_zero a n i) by lia. apply andb_false_r.
Qed.

Lemma lor_disjoint a b n :
  0 <= n -> 0 <= a < 2 ^ n -> Z.lor (b * 2 ^ n) a = b * 2 ^ n + a.
Proof.
  intros Hn Ha.
  rewrite <- Z.lxor_lor by (now apply land_disjoint).
  symmetry. apply Z.add_nocarry_lxor. now apply land_disjoint.
Qed.

(** The three fields of a single-precision pattern, as a sum. *)
Lemma to_bits_fields s m e :
  bounded F32.prec F32.emax m e = true ->
  F32.to_bits (S754_finite s m e) =
  (if s then 2 ^ 31 else 0)
  + (if Zpos m <? 2 ^ 23 then Zpos m else (e + 150) * 2 ^ 23 + (Zpos m - 2 ^ 23)).
Proof.
  intros Hb. apply bounded_cases in Hb. unfold F32.to_bits.
  change 0x800000 with (2 ^ 23).
  assert (Hsign : forall x, 0 <= x < 2 ^ 31 ->
            Z.lor (F32.sign_bit s) x = (if s then 2 ^ 31 else 0) + x).
  { intros x Hx. destruct s; cbn [F32.sign_bit].
    - change 0x80000000 with (1 * 2 ^ 31). rewrite lor_disjoint by lia. lia.
    - rewrite Z.lor_0_l. lia. }
  destruct (Zpos m <? 2 ^ 23) eqn:E.
  - apply Z.ltb_lt in E. rewrite Hsign by lia. lia.
  - apply Z.ltb_ge in E. destruct Hb as [[? ?] | [Hm He]]; [lia |].
    rewrite Z.shiftl_mul_pow2 by lia.
    rewrite (lor_disjoint (Zpos m - 2 ^ 23) (e + 150) 23) by lia.
    rewrite Hsign by lia. lia.
Qed.

Lemma of_bits_fields (s : bool) E M :
  0 <= E < 256 -> 0 <= M < 2 ^ 23 ->
  F32.of_bits ((if s then 2 ^ 31 else 0) + (E * 2 ^ 23 + M)) =
  if E =? 0 then
    match M with
    | Zpos p => S754_finite s p (-149)
    | _ => S754_zero s
    end
  else if E =? 255 then (if M =? 0 then S754_infinity s else S754_nan)
  else
    match M + 2 ^ 23 with
    | Zpos p => S754_finite s p (E - 150)
    | _ => S754_nan
    end.
Proof.
  intros HE HM. unfold F32.of_bits.
  set (b := (if s then 2 ^ 31 else 0) + (E * 2 ^ 23 + M)).
  assert (Hb : 0 <= b < 2 ^ 32) by (unfold b; destruct s; lia).
  assert (Hw : wrap b = b) by (unfold wrap, modulus; apply Z.mod_small; lia).
  rewrite Hw. cbv zeta.
  assert (Hs : Z.testbit b 31 = s).
  { rewrite Z.testbit_eqb by lia. unfold b. destruct s.
    - replace ((2 ^ 31 + (E * 2 ^ 23 + M)) / 2 ^ 31) with 1; [reflexivity |].
      apply Z.div_unique with (E * 2 ^ 23 + M); lia.
    - rewrite Z.div_small by lia. reflexivity. }
  assert (He : Z.land (Z.shiftr b 23) 0xFF = E).
  { change 0xFF with (Z.ones 8). rewrite Z.land_ones, Z.shiftr_div_pow2 by lia.
    unfold b. destruct s.
    - replace ((2 ^ 31 + (E * 2 ^ 23 + M)) / 2 ^ 23) with (2 ^ 8 + E).
      + rewrite <- (Z.mod_unique (2 ^ 8 + E) (2 ^ 8) 1 E); lia.
      + apply Z.div_unique with M; lia.
    - replace ((0 + (E * 2 ^ 23 + M)) / 2 ^ 23) with E.
      + apply Z.mod_small. lia.
      + apply Z.div_unique with M; lia. }
  assert (Hm : Z.land b 0x7FFFFF = M).
  { change 0x7FFFFF with (Z.ones 23). rewrite Z.land_ones by lia.
    unfold b. symmetry.
    apply Z.mod_unique with ((if s then 2 ^ 8 else 0) + E); destruct s; lia. }
  rewrite Hs, He, Hm.
  change 0x800000 with (1 * 2 ^ 23). rewrite Z.lor_comm, lor_disjoint by lia.
  replace (1 * 2 ^ 23 + M) with (M + 2 ^ 23) by lia. reflexivity.
Qed.

(** A float of the format survives the trip through its bit pattern. *)
Lemma of_bits_to_bits f : SF32.valid f = true -> F32.of_bits (F32.to_bits f) = f.
Proof.
  unfold SF32.valid.
  destruct f as [s | s | | s m e]; cbn [valid_binary]; intros Hv.
  - destruct s; reflexivity.
  - destruct s; reflexivity.
  - reflexivity.
  - rewrite to_bits_fields by exact Hv. apply bounded_cases in Hv.
    destruct (Zpos m <? 2 ^ 23) eqn:E.
    + apply Z.ltb_lt in E.
      replace (Zpos m) with (0 * 2 ^ 23 + Zpos m) at 1 by lia.
      rewrite of_bits_fields by lia.
      destruct Hv as [[_ ->] | [? ?]]; [reflexivity | lia].
    + apply Z.ltb_ge in E. destruct Hv as [[? ?] | [Hm He]]; [lia |].
      rewrite of_bits_fields by lia.
      destruct (e + 150 =? 0) eqn:E0; [apply Z.eqb_eq in E0; lia |].
      destruct (e + 150 =? 255) eqn:E1; [apply Z.eqb_eq in E1; lia |].
      replace (Zpos m - 2 ^ 23 + 2 ^ 23) with (Zpos m) by lia.
      f_equal. lia.
Qed.

Lemma of_bits_wrap a : F32.of_bits (wrap a) = F32.of_bits a.
Proof. unfold F32.of_bits. cbv zeta. rewrite wrap_wrap. reflexivity. Qed.

Lemma of_bits_sign a :
  F32.of_bits a <> S754_nan -> SF32.sign (F32.of_bits a) = Z.testbit (wrap a) 31.
Proof.
  unfold F32.of_bits. cbv zeta.
  repeat match goal with
         | |- context [if ?c then _ else _] => destruct c
         | |- context [match ?x with _ => _ end] => destruct x
         end; intros H; try reflexivity; contradiction.
Qed.

(** The operations on bit patterns are the operations on values. *)
Lemma mul_spec a b fa fb :
  F32.of_bits a = fa -> F32.of_bits b = fb -> F32.mul a b = F32.to_bits (SF32.mul fa fb).
Proof. intros <- <-. reflexivity. Qed.

Lemma Max_spec a b fa fb :
  F32.of_bits a = fa -> F32.of_bits b = fb -> F32.of_bits (F32.Max a b) = SF32.Max fa fb.
Proof.
  intros <- <-. unfold F32.Max, SF32.Max, F32.ltb.
  destruct (SFltb _ _); apply of_bits_wrap.
Qed.

Lemma Min_spec a b fa fb :
  F32.of_bits a = fa -> F32.of_bits b = fb -> F32.of_bits (F32.Min a b) = SF32.Min fa fb.
Proof.
  intros <- <-. unfold F32.Min, SF32.Min, F32.ltb.
  destruct (SFltb _ _); apply of_bits_wrap.
Qed.

Lemma Round_spec a fa :
  F32.of_bits a = fa -> SF32.valid (SF32.Round fa) = true ->
  F32.of_bits (F32.Round a) = SF32.Round fa.
Proof.
  intros <-. unfold F32.Round, SF32.Round.
  destruct (F32.of_bits a) as [s | s | | s m e] eqn:E; intros Hv;
    try (rewrite of_bits_wrap; exact E).
  destruct (0 <=? e).
  - rewrite of_bits_wrap. exact E.
  - now apply of_bits_to_bits.
Qed.

Lemma to_uint_spec a fa : F32.of_bits a = fa -> F32.to_uint a = SF32.to_uint fa.
Proof.
  intros <-. unfold F32.to_uint, SF32.to_uint, F32.trunc.
  destruct (F32.of_bits a) as [s | s | | s m e] eqn:E.
  4: { rewrite <- of_bits_sign by (rewrite E; discriminate). rewrite E. reflexivity. }
  1, 2: rewrite <- of_bits_sign by (rewrite E; discriminate); rewrite E; reflexivity.
  destruct (Z.testbit (wrap a) 31); reflexivity.
Qed.

Lemma to_int_spec a fa : F32.of_bits a = fa -> F32.to_int a = SF32.to_int fa.
Proof. intros <-. reflexivity. Qed.

Lemma of_int_spec x :
  SF32.valid (SF32.of_Z (signed x)) = true ->
  F32.of_bits (F32.of_int x) = SF32.of_Z (signed x).
Proof. intros Hv. unfold F32.of_int. now apply of_bits_to_bits. Qed.

Lemma signed_id k : 0 <= k < 2 ^ 31 -> signed k = k.
Proof.
  intros Hk. unfold signed, wrap, modulus.
  rewrite Z.mod_small by lia.
  destruct (k <? 2 ^ 31) eqn:E; [reflexivity | apply Z.ltb_ge in E; lia].
Qed.

Lemma of_uint_of_int k : 0 <= k < 2 ^ 31 -> F32.of_uint k = F32.of_int k.
Proof.
  intros Hk. unfold F32.of_uint, F32.of_int. rewrite signed_id by exact Hk.
  unfold wrap, modulus. rewrite Z.mod_small by lia. reflexivity.
Qed.

End FloatBitsFacts.

(** ** The channels of the codec *)

Section ChannelFacts.
Import Word32 Word32Facts.

Lemma allBits_spec n : forall acc f,
  allBits n acc f = true ->
  forall k, acc * 2 ^ Z.of_nat n <= k < (acc + 1) * 2 ^ Z.of_nat n -> f k = true.
Proof.
  induction n as [| n IH]; intros acc f H k Hk.
  - cbn in Hk. assert (k = acc) as -> by lia. exact H.
  - cbn [allBits] in H. apply andb_true_iff in H. destruct H as [H0 H1].
    rewrite Nat2Z.inj_succ, Z.pow_succ_r in Hk by lia.
    set (P := 2 ^ Z.of_nat n) in *.
    assert (HP : 0 < P) by (apply Z.pow_pos_nonneg; lia).
    clearbody P.
    destruct (Z.lt_ge_cases k ((2 * acc + 1) * P)).
    + apply (IH _ _ H0). nia.
    + apply (IH _ _ H1). nia.
Qed.

(** A field value that passes the check is the packed value of its
    decoded channel. *)
Lemma packUnorm_unorm_checked max k :
  0 <= k < 2 ^ 31 ->
  checkUnorm (unormScale max) (packScale max) k = true ->
  packUnorm (unorm k max) max = k.
Proof.
  intros Hk. unfold checkUnorm, unormScale, packScale. cbv zeta.
  rewrite !andb_true_iff, Z.eqb_eq. intros [[[[Hf Hu] Hp] Hr] Hres].
  unfold packUnorm, unorm.
  rewrite <- (signed_id k Hk) in Hf, Hu, Hp, Hr, Hres at 1.
  pose proof (of_int_spec k Hf) as E1.
  rewrite (mul_spec _ _ _ _ E1 eq_refl).
  pose proof (of_bits_to_bits _ Hu) as E2.
  pose proof (Max_spec _ f_0_0 _ SF32.zero E2 eq_refl) as E3.
  pose proof (Min_spec _ f_1_0 _ SF32.one E3 eq_refl) as E4.
  rewrite (mul_spec _ _ _ _ E4 eq_refl).
  pose proof (of_bits_to_bits _ Hp) as E5.
  pose proof (Round_spec _ _ E5 Hr) as E6.
  rewrite (to_uint_spec _ _ E6). exact Hres.
Qed.

Lemma packSnorm_snorm_checked bits S scale b :
  checkSnorm bits (unormScale S) (packScale scale) b = true ->
  Z.land (packSnorm (snorm (Z.shiftl b (32 - bits)) S) scale) (Z.ones bits) =
  if b =? 2 ^ (bits - 1) then b + 1 else b.
Proof.
  unfold checkSnorm, unormScale, packScale. cbv zeta.
  rewrite !andb_true_iff, Z.eqb_eq. intros [[[[Hf Hu] Hp] Hr] Hres].
  unfold packSnorm, snorm.
  pose proof (of_int_spec _ Hf) as E1.
  rewrite (mul_spec _ _ _ _ E1 eq_refl).
  pose proof (of_bits_to_bits _ Hu) as E2.
  pose proof (Max_spec _ f_m1_0 _ SF32.minus_one E2 eq_refl) as E3.
  pose proof (Max_spec _ f_m1_0 _ SF32.minus_one E3 eq_refl) as E4.
  pose proof (Min_spec _ f_1_0 _ SF32.one E4 eq_refl) as E5.
  rewrite (mul_spec _ _ _ _ E5 eq_refl).
  pose proof (of_bits_to_bits _ Hp) as E6.
  pose proof (Round_spec _ _ E6 Hr) as E7.
  rewrite (to_int_spec _ _ E7). exact Hres.
Qed.

Lemma unorm2_all : allBits 2 0 (checkUnorm (unormScale 0x3) (packScale 0x3)) = true.
Proof. vm_compute. reflexivity. Qed.

Lemma unorm8_all : allBits 8 0 (checkUnorm (unormScale 0xFF) (packScale 0xFF)) = true.
Proof. vm_compute. reflexivity. Qed.

Lemma unorm10_all : allBits 10 0 (checkUnorm (unormScale 0x3FF) (packScale 0x3FF)) = true.
Proof. vm_compute. reflexivity. Qed.

Lemma unorm16_all : allBits 16 0 (checkUnorm (unormScale 0xFFFF) (packScale 0xFFFF)) = true.
Proof. vm_compute. reflexivity. Qed.

Lemma snorm8_all : allBits 8 0 (checkSnorm 8 (unormScale 0x7F000000) (packScale 0x7F)) = true.
Proof. vm_compute. reflexivity. Qed.

Lemma snorm16_all :
  allBits 16 0 (checkSnorm 16 (unormScale 0x7FFF0000) (packScale 0x7FFF)) = true.
Proof. vm_compute. reflexivity. Qed.

Lemma half_all : allBits 16 0 checkHalf = true.
Proof. vm_compute. reflexivity. Qed.

Lemma ufloat_all : allBits 11 0 checkUFloat = true.
Proof. vm_compute. reflexivity. Qed.

End ChannelFacts.

Section ChannelTrips.
Import Word32 Word32Facts.

Lemma packUnorm_unorm_2 k : 0 <= k < 2 ^ 2 -> packUnorm (unorm k 0x3) 0x3 = k.
Proof.
  intros Hk. apply packUnorm_unorm_checked; [lia |].
  apply (allBits_spec 2 0 _ unorm2_all). change (Z.of_nat 2) with 2. lia.
Qed.

Lemma packUnorm_unorm_8 k : 0 <= k < 2 ^ 8 -> packUnorm (unorm k 0xFF) 0xFF = k.
Proof.
  intros Hk. apply packUnorm_unorm_checked; [lia |].
  apply (allBits_spec 8 0 _ unorm8_all). change (Z.of_nat 8) with 8. lia.
Qed.

Lemma packUnorm_unorm_10 k : 0 <= k < 2 ^ 10 -> packUnorm (unorm k 0x3FF) 0x3FF = k.
Proof.
  intros Hk. apply packUnorm_unorm_checked; [lia |].
  apply (allBits_spec 10 0 _ unorm10_all). change (Z.of_nat 10) with 10. lia.
Qed.

Lemma packUnorm_unorm_16 k : 0 <= k < 2 ^ 16 -> packUnorm (unorm k 0xFFFF) 0xFFFF = k.
Proof.
  intros Hk. apply packUnorm_unorm_checked; [lia |].
  apply (allBits_spec 16 0 _ unorm16_all). change (Z.of_nat 16) with 16. lia.
Qed.

(** The decode of a signed normalized channel survives the encode and
    a second decode. *)
Lemma snorm8_trip b :
  0 <= b < 2 ^ 8 ->
  snorm (Z.shiftl (Z.land (packSnorm (snorm (Z.shiftl b 24) 0x7F000000) 0x7F) (Z.ones 8)) 24)
    0x7F000000 =
  snorm (Z.shiftl b 24) 0x7F000000.
Proof.
  intros Hb.
  assert (Hc : checkSnorm 8 (unormScale 0x7F000000) (packScale 0x7F) b = true)
    by (apply (allBits_spec 8 0 _ snorm8_all); change (Z.of_nat 8) with 8; lia).
  apply packSnorm_snorm_checked in Hc. change (32 - 8) with 24 in Hc. rewrite Hc.
  destruct (b =? 2 ^ (8 - 1)) eqn:E; [| reflexivity].
  apply Z.eqb_eq in E. subst b. vm_compute. reflexivity.
Qed.

Lemma snorm16_trip b :
  0 <= b < 2 ^ 16 ->
  snorm (Z.shiftl (Z.land (packSnorm (snorm (Z.shiftl b 16) 0x7FFF0000) 0x7FFF) (Z.ones 16)) 16)
    0x7FFF0000 =
  snorm (Z.shiftl b 16) 0x7FFF0000.
Proof.
  intros Hb.
  assert (Hc : checkSnorm 16 (unormScale 0x7FFF0000) (packScale 0x7FFF) b = true)
    by (apply (allBits_spec 16 0 _ snorm16_all); change (Z.of_nat 16) with 16; lia).
  apply packSnorm_snorm_checked in Hc. change (32 - 16) with 16 in Hc. rewrite Hc.
  destruct (b =? 2 ^ (16 - 1)) eqn:E; [| reflexivity].
  apply Z.eqb_eq in E. subst b. vm_compute. reflexivity.
Qed.

(** A half-float pattern that is not a NaN, widened and narrowed, is
    the pattern itself. *)
Lemma half_trip h :
  0 <= h < 2 ^ 16 ->
  F32.is_nan (halfToFloatBits h) = false ->
  floatToHalfBits (halfToFloatBits h) false = h.
Proof.
  intros Hh Hn.
  pose proof (allBits_spec 16 0 _ half_all h) as Hc.
  change (Z.of_nat 16) with 16 in Hc. specialize (Hc ltac:(lia)).
  unfold checkHalf in Hc. cbv zeta in Hc. rewrite Hn in Hc.
  now apply Z.eqb_eq in Hc.
Qed.

Lemma ufloat_trip j :
  0 <= j < 2 ^ 11 ->
  F32.is_nan (halfToFloatBits (Z.shiftl j 4)) = false ->
  floatToHalfBits (F32.Max (halfToFloatBits (Z.shiftl j 4)) f_0_0) false = Z.shiftl j 4.
Proof.
  intros Hj Hn.
  pose proof (allBits_spec 11 0 _ ufloat_all j) as Hc.
  change (Z.of_nat 11) with 11 in Hc. specialize (Hc ltac:(lia)).
  unfold checkUFloat in Hc. cbv zeta in Hc. rewrite Hn in Hc.
  now apply Z.eqb_eq in Hc.
Qed.

End ChannelTrips.

(** ** Bit fields of packed words *)

Section BitFieldFacts.
Import Word32 Word32Facts.

Lemma testbit_signed z i : 0 <= i -> Z.testbit (signed z) i = Z.testbit z (Z.min i 31).
Proof.
  intros Hi. unfold signed, wrap, modulus.
  assert (H32 : 0 <= z mod 2 ^ 32 < 2 ^ 32) by (apply Z.mod_pos_bound; lia).
  assert (Hlow : forall j, 0 <= j < 32 -> Z.testbit (z mod 2 ^ 32) j = Z.testbit z j)
    by (intros j Hj; apply Z.mod_pow2_bits_low; lia).
  destruct (z mod 2 ^ 32 <? 2 ^ 31) eqn:E.
  - apply Z.ltb_lt in E.
    assert (Hhigh : forall j, 31 <= j -> Z.testbit (z mod 2 ^ 32) j = false)
      by (intros j Hj; apply (high_bits_zero _ 31); lia).
    destruct (Z.ltb_spec i 31).
    + rewrite Z.min_l by lia. apply Hlow. lia.
    + rewrite Z.min_r by lia. rewrite <- (Hlow 31) by lia. rewrite !Hhigh by lia. reflexivity.
  - apply Z.ltb_ge in E.
    assert (H31 : Z.testbit z 31 = true).
    { rewrite <- Hlow by lia. apply Z.testbit_true; [lia |].
      replace (z mod 2 ^ 32 / 2 ^ 31) with 1; [reflexivity |].
      apply Z.div_unique with (z mod 2 ^ 32 - 2 ^ 31); lia. }
    destruct (Z.ltb_spec i 32).
    + replace (Z.testbit (z mod 2 ^ 32 - 2 ^ 32) i) with (Z.testbit (z mod 2 ^ 32) i).
      * rewrite Hlow by lia. destruct (Z.ltb_spec i 31).
        -- now rewrite Z.min_l by lia.
        -- rewrite Z.min_r by lia. now replace i with 31 by lia.
      * rewrite <- (Z.mod_pow2_bits_low (z mod 2 ^ 32 - 2 ^ 32) 32 i) by lia.
        rewrite <- (Z.mod_pow2_bits_low (z mod 2 ^ 32) 32 i) at 1 by lia.
        f_equal. rewrite Zminus_mod, Z.mod_same, Z.sub_0_r, !Z.mod_mod by lia. reflexivity.
    + rewrite Z.min_r by lia. rewrite H31.
      apply Z.bits_iff_neg; [| lia].
      apply Z.lt_le_trans with 32; [| lia].
      rewrite Z.abs_neq by lia.
      apply Z.log2_lt_pow2; lia.
Qed.

Lemma testbit_ones_nonneg n i : 0 <= n -> 0 <= i -> Z.testbit (Z.ones n) i = (i <? n).
Proof.
  intros Hn Hi. destruct (Z.ltb_spec i n).
  - apply Z.ones_spec_low. lia.
  - apply Z.ones_spec_high. lia.
Qed.

Lemma testbit_mod32 z i : Z.testbit (z mod 2 ^ 32) i = (i <? 32) && Z.testbit z i.
Proof.
  destruct (Z.ltb_spec i 32).
  - destruct (Z.ltb_spec i 0); [now rewrite !Z.testbit_neg_r by lia |].
    now rewrite Z.mod_pow2_bits_low by lia.
  - now rewrite Z.mod_pow2_bits_high by lia.
Qed.

Lemma testbit_shiftl a n i : 0 <= i -> Z.testbit (Z.shiftl a n) i = Z.testbit a (i - n).
Proof. apply Z.shiftl_spec. Qed.

End BitFieldFacts.

Ltac word_consts :=
  change 0xFF with (Z.ones 8) in *;
  change 0xFFFF with (Z.ones 16) in *;
  change 0x3FF with (Z.ones 10) in *;
  change 0x3 with (Z.ones 2) in *;
  change 0xFF000000 with (Z.shiftl (Z.ones 8) 24) in *;
  change 0xFFFF0000 with (Z.shiftl (Z.ones 16) 16) in *;
  change 0x7FF0 with (Z.shiftl (Z.ones 11) 4) in *;
  change 0x7FE0 with (Z.shiftl (Z.ones 10) 5) in *.

Ltac bit_rewrite :=
  repeat first
    [ rewrite Z.land_spec
    | rewrite Z.lor_spec
    | rewrite testbit_mod32
    | rewrite Z.shiftr_spec by lia
    | rewrite testbit_signed by lia
    | rewrite testbit_ones_nonneg by lia
    | rewrite testbit_shiftl by lia ].

Ltac split_ltb :=
  repeat match goal with
         | |- context [?a <? ?b] =>
             first [ rewrite (proj2 (Z.ltb_lt a b)) by lia
                   | rewrite (proj2 (Z.ltb_ge a b)) by lia
                   | destruct (Z.ltb_spec a b) ]
         end.

Ltac bit_index :=
  repeat match goal with
         | |- context [Z.testbit ?x ?j] =>
             lazymatch j with
             | 31 => fail
             | _ => tryif is_var j then fail else
                 first [ rewrite (Z.testbit_neg_r x j) by lia
                       | match goal with
                         | i : Z |- _ => replace j with i by lia
                         end
                       | replace j with 31 by lia ]
             end
         end.

Ltac split_sign :=
  match goal with
  | |- context [Z.testbit ?x ?j] =>
      tryif is_var x then fail else
      tryif (assert (0 <= j) by lia) then fail else
      destruct (Z.ltb_spec j 0); [rewrite ?(Z.testbit_neg_r _ j) by lia |]
  end.

Ltac split_min :=
  repeat match goal with
         | |- context [Z.min ?a ?b] =>
             first [ rewrite (Z.min_l a b) by lia
                   | rewrite (Z.min_r a b) by lia
                   | destruct (Z.le_ge_cases a b);
                     [rewrite (Z.min_l a b) by lia | rewrite (Z.min_r a b) by lia] ]
         end.

Ltac bit_step :=
  bit_rewrite; split_ltb; split_min; try split_sign; bit_index; cbn [andb orb negb].

(** Equality of two words, bit by bit. *)
Ltac word_blast :=
  unfold Word32.and, Word32.or, Word32.shl, Word32.shr_u, Word32.shr_s, Word32.wrap,
    Word32.modulus;
  word_consts;
  apply Z.bits_inj'; intros i Hi;
  repeat (progress bit_step);
  repeat match goal with
         | |- context [Z.testbit ?x ?j1] =>
             match goal with
             | |- context [Z.testbit x ?j2] =>
                 lazymatch j2 with
                 | context [j1] => fail
                 | _ => replace j1 with j2 by lia
                 end
             end
         end;
  rewrite ?andb_false_r, ?andb_true_r, ?orb_false_r, ?orb_true_r;
  try reflexivity; try lia;
  repeat match goal with
         | |- context [Z.testbit ?x ?j] => destruct (Z.testbit x j)
         end;
  try reflexivity.

(** ** Round trips of the formats *)

Section FieldRanges.
Import Word32 Word32Facts.

Lemma and_field_range x n : 0 <= n <= 32 -> 0 <= Word32.and x (Z.ones n) < 2 ^ n.
Proof.
  intros Hn. unfold Word32.and.
  assert (Ho : wrap (Z.ones n) = Z.ones n).
  { unfold wrap, modulus. apply Z.mod_small. rewrite Z.ones_equiv.
    assert (0 < 2 ^ n) by (apply Z.pow_pos_nonneg; lia).
    assert (2 ^ n <= 2 ^ 32) by (apply Z.pow_le_mono_r; lia). lia. }
  rewrite Ho, Z.land_ones by lia. apply Z.mod_pos_bound. apply Z.pow_pos_nonneg; lia.
Qed.

Lemma land_field_range x n : 0 <= n -> 0 <= Z.land x (Z.ones n) < 2 ^ n.
Proof.
  intros Hn. rewrite Z.land_ones by lia. apply Z.mod_pos_bound. apply Z.pow_pos_nonneg; lia.
Qed.

Lemma shr_u_range x : 0 <= Word32.shr_u x 16 < 2 ^ 16.
Proof.
  unfold Word32.shr_u, wrap, modulus. rewrite Z.shiftr_div_pow2 by lia.
  assert (H : 0 <= x mod 2 ^ 32 < 2 ^ 32) by (apply Z.mod_pos_bound; lia).
  split; [apply Z.div_pos; lia | apply Z.div_lt_upper_bound; lia].
Qed.

Lemma land_small a n : 0 <= n -> 0 <= a < 2 ^ n -> Z.land a (Z.ones n) = a.
Proof. intros Hn Ha. rewrite Z.land_ones by lia. apply Z.mod_small. exact Ha. Qed.

Lemma and_wrap_l a b : Word32.and (wrap a) b = Word32.and a b.
Proof. unfold Word32.and. now rewrite wrap_wrap. Qed.

Lemma shr_s_wrap a n : Word32.shr_s (wrap a) n = Word32.shr_s a n.
Proof. unfold Word32.shr_s, signed. now rewrite wrap_wrap. Qed.

Lemma shr_u_wrap a n : Word32.shr_u (wrap a) n = Word32.shr_u a n.
Proof. unfold Word32.shr_u. now rewrite wrap_wrap. Qed.

Lemma shl_wrap a n : 0 <= n -> Word32.shl (wrap a) n = Word32.shl a n.
Proof.
  intros Hn. unfold Word32.shl, wrap, modulus.
  rewrite !Z.shiftl_mul_pow2 by lia. apply Z.mul_mod_idemp_l. lia.
Qed.

Lemma floatToHalfBits_upper v :
  floatToHalfBits v true = Word32.shl (floatToHalfBits v false) 16.
Proof. reflexivity. Qed.

Lemma packUnorm_of_uint_16 k :
  0 <= k < 2 ^ 16 ->
  packUnorm (F32.mul (F32.of_uint k) (F32.div f_1_0 (F32.lit 0xFFFF))) 0xFFFF = k.
Proof.
  intros Hk. rewrite of_uint_of_int by lia. now apply packUnorm_unorm_16.
Qed.

End FieldRanges.

Ltac codec_open :=
  let Henc := fresh "Henc" in
  let Hdec := fresh "Hdec" in
  intros Henc Hdec;
  apply Ok_inj in Henc; apply Ok_inj in Hdec;
  apply (f_equal snd) in Henc; cbn [snd] in Henc;
  subst; unfold reencode, wordsOf, texelOf; cbn [nth laneBits].

Ltac split_lanes :=
  repeat match goal with
         | |- _ :: _ = _ :: _ => apply f_equal2
         | |- IntLane _ = IntLane _ => apply f_equal
         | |- UIntLane _ = UIntLane _ => apply f_equal
         | |- FloatLane _ = FloatLane _ => apply f_equal
         end;
  try reflexivity.

Ltac field_range :=
  first [ apply (and_field_range _ 8); lia
        | apply (and_field_range _ 16); lia
        | apply (and_field_range _ 10); lia
        | apply (and_field_range _ 2); lia
        | apply shr_u_range ].

Ltac unpack_unorm :=
  rewrite ?packUnorm_unorm_8, ?packUnorm_unorm_16, ?packUnorm_unorm_10,
    ?packUnorm_unorm_2, ?packUnorm_of_uint_16 by field_range.

Ltac absorb := rewrite ?and_wrap_l, ?shr_s_wrap, ?shr_u_wrap, ?shl_wrap by lia.

(** The packed word built from the fields of [w] is [w] again. *)
Ltac repack w :=
  match goal with
  | |- context [Word32.or ?a ?b] =>
      replace (Word32.or a b) with (Word32.wrap w) by (symmetry; word_blast)
  end.

Ltac pick_format Hin tac :=
  repeat (destruct Hin as [<- | Hin]; [codec_open; tac |]); destruct Hin.

Section RoundTrips.
Variable power : Z -> Z -> Z.
Local Open Scope lane_scope.

Lemma round_trip_words format texelSize enc dec p :
  In format [VK_FORMAT_R32G32B32A32_SFLOAT; VK_FORMAT_R32G32B32A32_SINT;
             VK_FORMAT_R32G32B32A32_UINT; VK_FORMAT_R32_SFLOAT; VK_FORMAT_R32_SINT;
             VK_FORMAT_R32_UINT; VK_FORMAT_R32G32_SFLOAT; VK_FORMAT_R32G32_SINT;
             VK_FORMAT_R32G32_UINT] ->
  encodeTexel format = Ok (texelSize, enc) -> decodeTexel power format = Ok dec ->
  reencode dec enc p = dec p.
Proof. intros Hin. pick_format Hin ltac:(reflexivity). Qed.

(** One packed word whose fields cover all 32 bits. *)
Lemma round_trip_word format texelSize enc dec p :
  In format [VK_FORMAT_R8G8B8A8_UNORM; VK_FORMAT_R8G8B8A8_UINT; VK_FORMAT_R8G8B8A8_SINT;
             VK_FORMAT_A2B10G10R10_UNORM_PACK32; VK_FORMAT_A2B10G10R10_UINT_PACK32;
             VK_FORMAT_R16G16_UNORM; VK_FORMAT_R16G16_UINT; VK_FORMAT_R16G16_SINT] ->
  encodeTexel format = Ok (texelSize, enc) -> decodeTexel power format = Ok dec ->
  reencode dec enc p = dec p.
Proof.
  intros Hin.
  pick_format Hin ltac:(unpack_unorm; repack (p 0%nat); absorb; reflexivity).
Qed.

(** Two packed words of two 16-bit fields. *)
Lemma round_trip_two_words format texelSize enc dec p :
  In format [VK_FORMAT_R16G16B16A16_UNORM; VK_FORMAT_R16G16B16A16_UINT;
             VK_FORMAT_R16G16B16A16_SINT] ->
  encodeTexel format = Ok (texelSize, enc) -> decodeTexel power format = Ok dec ->
  reencode dec enc p = dec p.
Proof.
  intros Hin.
  pick_format Hin
    ltac:(unpack_unorm; repack (p 0%nat); repack (p 1%nat); absorb; reflexivity).
Qed.

(** Texels of one or two bytes. *)
Lemma round_trip_short format texelSize enc dec p :
  In format [VK_FORMAT_R8G8_UNORM; VK_FORMAT_R8G8_UINT; VK_FORMAT_R8G8_SINT;
             VK_FORMAT_R16_UNORM; VK_FORMAT_R16_UINT; VK_FORMAT_R16_SINT;
             VK_FORMAT_R8_UNORM; VK_FORMAT_R8_UINT; VK_FORMAT_R8_SINT] ->
  encodeTexel format = Ok (texelSize, enc) -> decodeTexel power format = Ok dec ->
  reencode dec enc p = dec p.
Proof.
  intros Hin.
  pick_format Hin
    ltac:(unpack_unorm; split_lanes;
          match goal with
          | |- unorm _ _ = unorm _ _ => f_equal
          | _ => idtac
          end; word_blast).
Qed.

Lemma snorm8_field_trip X :
  X = Z.shiftl (Z.land (Z.shiftr X 24) (Z.ones 8)) 24 ->
  snorm (Z.shiftl (Z.land (packSnorm (snorm X 0x7F000000) 0x7F) (Z.ones 8)) 24) 0x7F000000 =
  snorm X 0x7F000000.
Proof.
  intros HX.
  pose proof (snorm8_trip (Z.land (Z.shiftr X 24) (Z.ones 8))
                (land_field_range _ 8 ltac:(lia))) as H.
  rewrite <- HX in H. exact H.
Qed.

Lemma snorm16_field_trip X :
  X = Z.shiftl (Z.land (Z.shiftr X 16) (Z.ones 16)) 16 ->
  snorm (Z.shiftl (Z.land (packSnorm (snorm X 0x7FFF0000) 0x7FFF) (Z.ones 16)) 16)
    0x7FFF0000 =
  snorm X 0x7FFF0000.
Proof.
  intros HX.
  pose proof (snorm16_trip (Z.land (Z.shiftr X 16) (Z.ones 16))
                (land_field_range _ 16 ltac:(lia))) as H.
  rewrite <- HX in H. exact H.
Qed.

Lemma ufloat_field_trip h :
  h = Z.shiftl (Z.land (Z.shiftr h 4) (Z.ones 11)) 4 ->
  F32.is_nan (halfToFloatBits h) = false ->
  floatToHalfBits (F32.Max (halfToFloatBits h) f_0_0) false = h.
Proof.
  intros Hh Hn.
  pose proof (ufloat_trip (Z.land (Z.shiftr h 4) (Z.ones 11))
                (land_field_range _ 11 ltac:(lia))) as H.
  rewrite <- Hh in H. now apply H.
Qed.

(** One channel of a signed normalized format: the field of the
    re-encoded word holds the packed value of the decoded channel. *)
Ltac snorm_channel trip :=
  match goal with
  | |- snorm ?X1 ?S = snorm ?X0 ?S =>
      etransitivity; [| apply (trip X0); word_blast];
      f_equal;
      repeat match goal with
             | |- context [packSnorm ?a ?b] => generalize (packSnorm a b); intro
             end;
      word_blast
  end.

Lemma round_trip_snorm8 format texelSize enc dec p :
  In format [VK_FORMAT_R8G8B8A8_SNORM; VK_FORMAT_R8G8_SNORM; VK_FORMAT_R8_SNORM] ->
  encodeTexel format = Ok (texelSize, enc) -> decodeTexel power format = Ok dec ->
  reencode dec enc p = dec p.
Proof.
  intros Hin. pick_format Hin ltac:(split_lanes; snorm_channel snorm8_field_trip).
Qed.

Lemma round_trip_snorm16 format texelSize enc dec p :
  In format [VK_FORMAT_R16G16B16A16_SNORM; VK_FORMAT_R16G16_SNORM; VK_FORMAT_R16_SNORM] ->
  encodeTexel format = Ok (texelSize, enc) -> decodeTexel power format = Ok dec ->
  reencode dec enc p = dec p.
Proof.
  intros Hin. pick_format Hin ltac:(split_lanes; snorm_channel snorm16_field_trip).
Qed.

(** The channels of a half-float format: each stored pattern comes
    back from the narrowing of its widened value. *)
Ltac half_fields :=
  rewrite ?floatToHalfBits_upper;
  repeat match goal with
         | H : F32.is_nan (halfToFloatBits ?Y) = false
           |- context [floatToHalfBits (halfToFloatBits ?Y) false] =>
             let E := fresh "E" in
             assert (E : 0 <= Y < 2 ^ 16) by field_range;
             rewrite (half_trip Y E H); clear E
         end.

Ltac half_channel :=
  match goal with
  | |- halfToFloatBits _ = halfToFloatBits _ => f_equal; word_blast
  end.

Ltac half_format :=
  let Hn := fresh "Hn" in
  intros Hn;
  pose proof (Hn 0%nat ltac:(lia)) as H0;
  pose proof (Hn 1%nat ltac:(lia)) as H1;
  pose proof (Hn 2%nat ltac:(lia)) as H2;
  pose proof (Hn 3%nat ltac:(lia)) as H3;
  clear Hn; unfold texelOf in H0, H1, H2, H3; cbn [nth laneBits] in H0, H1, H2, H3;
  half_fields; split_lanes; half_channel.

Lemma round_trip_half format texelSize enc dec p :
  In format [VK_FORMAT_R16G16B16A16_SFLOAT; VK_FORMAT_R16G16_SFLOAT; VK_FORMAT_R16_SFLOAT] ->
  encodeTexel format = Ok (texelSize, enc) -> decodeTexel power format = Ok dec ->
  allNumbers (dec p) ->
  reencode dec enc p = dec p.
Proof.
  intros Hin. pick_format Hin ltac:(half_format).
Qed.

(** One channel of the packed unsigned float format: a half pattern with
    a clear sign and clear low bits survives the clamp and re-encoding. *)
Ltac ufloat_channel H :=
  match type of H with
  | F32.is_nan (halfToFloatBits ?h) = false =>
      let E := fresh "E" in
      assert (E : h = Z.shiftl (Z.land (Z.shiftr h 4) (Z.ones 11)) 4)
        by word_blast;
      rewrite (ufloat_field_trip h E H); clear E
  end.

(** X4.  The packed unsigned float format [B10G11R11] round-trips as
    the other formats do, the decode of the encode of a decoded texel
    being that decoded texel, when none of the three decoded channels is
    a NaN; the encode clamps with [Max(x, 0)], which does not keep a
    NaN. *)
Theorem codec_round_trip_ufloat texelSize enc dec (p : nat -> Z) :
  encodeTexel VK_FORMAT_B10G11R11_UFLOAT_PACK32 = Ok (texelSize, enc) ->
  decodeTexel power VK_FORMAT_B10G11R11_UFLOAT_PACK32 = Ok dec ->
  noNaN (dec p) ->
  reencode dec enc p = dec p.
Proof.
  intros Henc Hdec Hn.
  apply Ok_inj in Henc. apply Ok_inj in Hdec.
  apply (f_equal snd) in Henc. cbn [snd] in Henc. subst.
  pose proof (Hn 0%nat ltac:(lia)) as H0.
  pose proof (Hn 1%nat ltac:(lia)) as H1.
  pose proof (Hn 2%nat ltac:(lia)) as H2.
  unfold reencode, wordsOf, texelOf in *. cbn [nth laneBits] in *.
  ufloat_channel H0. ufloat_channel H1. ufloat_channel H2.
  repack (p 0%nat). absorb. reflexivity.
Qed.

End RoundTrips.

(** ** Round-trip laws of the codec *)

Section CodecLaws.

Variable power : Z -> Z -> Z.

(** X1.  An unsigned normalized channel is stored exactly: decoding
    the field value [k] of a 2-, 8-, 10- or 16-bit channel with
    [SIMD::Float(k) * (1.0f / max)] and packing the result with
    [Round(Min(Max(x, 0), 1) * max)] gives [k] back, for every [k]. *)
Theorem unorm_channel_exact (bits k : Z) :
  In bits [2; 8; 10; 16] -> 0 <= k < 2 ^ bits ->
  let max := 2 ^ bits - 1 in
  packUnorm (unorm k max) max = k.
Proof.
  intros Hin Hk. cbv zeta.
  destruct Hin as [<- | [<- | [<- | [<- | []]]]].
  - apply packUnorm_unorm_2, Hk.
  - apply packUnorm_unorm_8, Hk.
  - apply packUnorm_unorm_10, Hk.
  - apply packUnorm_unorm_16, Hk.
Qed.

(** X2.  A signed normalized channel of 8 or 16 bits, decoded from the
    upper bits of a lane and packed again, gives its bit pattern back,
    except the most negative pattern, which the decode clamps to
    [-1.0] and the pack stores as the next pattern; decoding the packed
    pattern gives the decoded value again in every case. *)
Theorem snorm_channel_trip (bits b : Z) :
  In bits [8; 16] -> 0 <= b < 2 ^ bits ->
  let scale := 2 ^ (bits - 1) - 1 in
  let max := Z.shiftl scale (32 - bits) in
  let decoded := snorm (Z.shiftl b (32 - bits)) max in
  let stored := Z.land (packSnorm decoded scale) (Z.ones bits) in
  stored = (if b =? 2 ^ (bits - 1) then b + 1 else b) /\
  snorm (Z.shiftl stored (32 - bits)) max = decoded.
Proof.
  intros Hin Hb. cbv zeta.
  destruct Hin as [<- | [<- | []]].
  - change (Z.shiftl (2 ^ (8 - 1) - 1) (32 - 8)) with 0x7F000000.
    change (2 ^ (8 - 1) - 1) with 0x7F. change (32 - 8) with 24. split.
    + assert (Hc : checkSnorm 8 (unormScale 0x7F000000) (packScale 0x7F) b = true)
        by (apply (allBits_spec 8 0 _ snorm8_all); change (Z.of_nat 8) with 8; lia).
      apply packSnorm_snorm_checked in Hc. exact Hc.
    + apply snorm8_trip, Hb.
  - change (Z.shiftl (2 ^ (16 - 1) - 1) (32 - 16)) with 0x7FFF0000.
    change (2 ^ (16 - 1) - 1) with 0x7FFF. change (32 - 16) with 16. split.
    + assert (Hc : checkSnorm 16 (unormScale 0x7FFF0000) (packScale 0x7FFF) b = true)
        by (apply (allBits_spec 16 0 _ snorm16_all); change (Z.of_nat 16) with 16; lia).
      apply packSnorm_snorm_checked in Hc. exact Hc.
    + apply snorm16_trip, Hb.
Qed.

(** X3.  Reading a texel, writing the value read and reading again
    gives the value of the first read: for every format the write
    supports, except the packed unsigned float format, the decode of
    the encode of a decoded texel is that decoded texel, whatever the
    packed words were; for the three half-float formats this is for
    the texels none of whose decoded components is a NaN, the pattern a
    NaN is narrowed to being left open. *)
Theorem codec_round_trip format texelSize enc dec (p : nat -> Z) :
  encodeTexel format = Ok (texelSize, enc) ->
  decodeTexel power format = Ok dec ->
  clampsNaN format = false ->
  (halfFloat format = true -> allNumbers (dec p)) ->
  reencode dec enc p = dec p.
Proof.
  intros Henc Hdec Hc Hn.
  destruct format; try discriminate Henc; try discriminate Hc;
    first
      [ eapply round_trip_words; [| exact Henc | exact Hdec]; simpl; tauto
      | eapply round_trip_word; [| exact Henc | exact Hdec]; simpl; tauto
      | eapply round_trip_two_words; [| exact Henc | exact Hdec]; simpl; tauto
      | eapply round_trip_short; [| exact Henc | exact Hdec]; simpl; tauto
      | eapply round_trip_snorm8; [| exact Henc | exact Hdec]; simpl; tauto
      | eapply round_trip_snorm16; [| exact Henc | exact Hdec]; simpl; tauto
      | eapply round_trip_half; [| exact Henc | exact Hdec | exact (Hn eq_refl)];
        simpl; tauto ].
Qed.

End CodecLaws.

Lemma unorm_channel_exact_witness :
  packUnorm (unorm 200 (2 ^ 8 - 1)) (2 ^ 8 - 1) = 200.
Proof. apply (unorm_channel_exact 8 200); [simpl; tauto | lia]. Defined.

Lemma snorm_channel_trip_witness :
  Z.land (packSnorm (snorm (Z.shiftl 0x80 24) 0x7F000000) 0x7F) (Z.ones 8) = 0x81.
Proof.
  apply (proj1 (snorm_channel_trip 8 0x80 ltac:(simpl; tauto) ltac:(lia))).
Defined.

Lemma codec_round_trip_witness :
  allNumbers (Examples.decodeOf VK_FORMAT_R16G16B16A16_SFLOAT
                (fun k => if (k =? 0)%nat then 0xC0003C00 else 0x7C000001)) /\
  reencode (Examples.decodeOf VK_FORMAT_R16G16B16A16_SFLOAT)
    (Examples.encodeOf VK_FORMAT_R16G16B16A16_SFLOAT)
    (fun k => if (k =? 0)%nat then 0xC0003C00 else 0x7C000001) =
  Examples.decodeOf VK_FORMAT_R16G16B16A16_SFLOAT
    (fun k => if (k =? 0)%nat then 0xC0003C00 else 0x7C000001) /\
  reencode (Examples.decodeOf VK_FORMAT_R8G8B8A8_SNORM)
    (Examples.encodeOf VK_FORMAT_R8G8B8A8_SNORM) (fun _ => 0x80FF7F01) =
  Examples.decodeOf VK_FORMAT_R8G8B8A8_SNORM (fun _ => 0x80FF7F01).
Proof.
  assert (Hn : allNumbers (Examples.decodeOf VK_FORMAT_R16G16B16A16_SFLOAT
                             (fun k => if (k =? 0)%nat then 0xC0003C00 else 0x7C000001))).
  { intros c Hc. destruct c as [| [| [| [| c]]]]; [vm_compute; reflexivity .. | lia]. }
  split; [exact Hn |]. split.
  - apply (codec_round_trip Examples.power0 VK_FORMAT_R16G16B16A16_SFLOAT 8
             (Examples.encodeOf VK_FORMAT_R16G16B16A16_SFLOAT)
             (Examples.decodeOf VK_FORMAT_R16G16B16A16_SFLOAT));
      [reflexivity | reflexivity | reflexivity | intros _; exact Hn].
  - apply (codec_round_trip Examples.power0 VK_FORMAT_R8G8B8A8_SNORM 4
             (Examples.encodeOf VK_FORMAT_R8G8B8A8_SNORM)
             (Examples.decodeOf VK_FORMAT_R8G8B8A8_SNORM));
      [reflexivity | reflexivity | reflexivity | intros H; discriminate H].
Defined.

Lemma codec_round_trip_ufloat_witness :
  exists dec enc,
    decodeTexel Examples.power0 VK_FORMAT_B10G11R11_UFLOAT_PACK32 = Ok dec /\
    encodeTexel VK_FORMAT_B10G11R11_UFLOAT_PACK32 = Ok (4, enc) /\
    reencode dec enc (fun _ => 0x3C0F03C0) = dec (fun _ => 0x3C0F03C0).
Proof.
  eexists. eexists. split; [reflexivity |]. split; [reflexivity |].
  apply (codec_round_trip_ufloat Examples.power0 4); [reflexivity | reflexivity |].
  intros c Hc. destruct c as [| [| [| c]]]; [vm_compute; reflexivity .. | lia].
Defined.

(** ** The format tables *)

Section FormatTables.

Variable power : Z -> Z -> Z.

Lemma SpirvFormatToVulkanFormat_range format vk :
  SpirvFormatToVulkanFormat format = Ok vk -> 1 <= format <= 39.
Proof.
  intros H. destruct format as [| p | p]; try discriminate H.
  do 6 (try destruct p as [p | p |]); try discriminate H; lia.
Qed.

Lemma format_cases format :
  1 <= format <= 39 ->
  In format (map Z.of_nat (seq 1 39)).
Proof.
  intros H. apply in_map_iff. exists (Z.to_nat format). split; [lia |].
  apply in_seq. lia.
Qed.

(** X5.  [SpirvFormatToVulkanFormat] accepts exactly the image formats
    1 to 39 ([Rgba32f] to [R8ui]) and aborts with the unsupported-format
    condition carrying the format on any other value, [Unknown]
    included; two different image formats never share a Vulkan format. *)
Theorem SpirvFormatToVulkanFormat_table (format other : Z) :
  (isOk (SpirvFormatToVulkanFormat format) = true <-> 1 <= format <= 39) /\
  (~ 1 <= format <= 39 ->
   SpirvFormatToVulkanFormat format = Abort (UnsupportedImageFormat format)) /\
  (isOk (SpirvFormatToVulkanFormat format) = true ->
   SpirvFormatToVulkanFormat format = SpirvFormatToVulkanFormat other ->
   format = other).
Proof.
  assert (Hin : 1 <= format <= 39 -> isOk (SpirvFormatToVulkanFormat format) = true).
  { intros H. apply format_cases in H. cbn in H.
    repeat (destruct H as [<- | H]; [reflexivity |]). destruct H. }
  assert (Hout : isOk (SpirvFormatToVulkanFormat format) = true -> 1 <= format <= 39).
  { destruct (SpirvFormatToVulkanFormat format) eqn:E; [| discriminate].
    intros _. exact (SpirvFormatToVulkanFormat_range _ _ E). }
  split; [split; assumption |]. split.
  - intros H. destruct format as [| p | p]; try reflexivity.
    do 6 (try destruct p as [p | p |]); try reflexivity; lia.
  - intros Hok Heq.
    destruct (SpirvFormatToVulkanFormat format) as [vk |] eqn:E; [| discriminate Hok].
    symmetry in Heq.
    pose proof (format_cases _ (SpirvFormatToVulkanFormat_range _ _ E)) as H1.
    pose proof (format_cases _ (SpirvFormatToVulkanFormat_range _ _ Heq)) as H2.
    cbn in H1, H2.
    repeat (destruct H1 as [<- | H1];
            [apply Ok_inj in E; subst vk;
             repeat (destruct H2 as [<- | H2]; [first [reflexivity | discriminate Heq] |]);
             destruct H2 |]).
    destruct H1.
Qed.

(** X6.  Every image format the translation accepts can be written and
    read: the encode table and the decode table both have an entry for
    its Vulkan format, the texel is 1, 2, 4, 8 or 16 bytes, and the
    encode produces the packed words of one texel of that size. *)
Theorem image_formats_supported (format : Z) vk :
  SpirvFormatToVulkanFormat format = Ok vk ->
  exists texelSize enc dec,
    encodeTexel vk = Ok (texelSize, enc) /\
    decodeTexel power vk = Ok dec /\
    In texelSize [1; 2; 4; 8; 16] /\
    forall texel, length (enc texel) = packedWords texelSize.
Proof.
  intros H.
  pose proof (format_cases _ (SpirvFormatToVulkanFormat_range _ _ H)) as Hin.
  cbn in Hin.
  repeat (destruct Hin as [<- | Hin];
          [apply Ok_inj in H; subst vk;
           eexists; eexists; eexists;
           (split; [reflexivity |]); (split; [reflexivity |]);
           (split; [simpl; tauto | intros texel; reflexivity]) |]).
  destruct Hin.
Qed.

End FormatTables.

Lemma image_formats_supported_witness :
  exists texelSize enc dec,
    encodeTexel VK_FORMAT_B10G11R11_UFLOAT_PACK32 = Ok (texelSize, enc) /\
    decodeTexel Examples.power0 VK_FORMAT_B10G11R11_UFLOAT_PACK32 = Ok dec /\
    In texelSize [1; 2; 4; 8; 16] /\
    forall texel, length (enc texel) = packedWords texelSize.
Proof. apply (image_formats_supported Examples.power0 8). reflexivity. Defined.

(** ** The image operands of reads and writes *)

Section AccessOperands.

Lemma extend_flags_left m :
  hasBit m spv.ImageOperandsZeroExtendMask = true ->
  hasBit m spv.ImageOperandsSignExtendMask = true ->
  let m' := if hasBit m spv.ImageOperandsSampleMask
            then clearBit m spv.ImageOperandsSampleMask else m in
  hasBit m' spv.ImageOperandsZeroExtendMask = true /\
  hasBit (clearBit m' spv.ImageOperandsZeroExtendMask) spv.ImageOperandsSignExtendMask = true.
Proof.
  intros Hz Hs. cbv zeta.
  destruct (hasBit m spv.ImageOperandsSampleMask);
    rewrite ?hasBit_clearBit_other by reflexivity; auto.
Qed.

(** X7.  An image read or write whose operand mask sets both
    [ZeroExtend] and [SignExtend] is refused: the zero-extend test
    clears its bit and skips the sign-extend test, so the sign-extend
    bit is left over and the instruction aborts with the
    unsupported-operands condition. *)
Theorem sign_and_zero_extend_unsupported (readInsn writeInsn : Insn) :
  5 < wordCount readInsn ->
  hasBit (word readInsn 5) spv.ImageOperandsZeroExtendMask = true ->
  hasBit (word readInsn 5) spv.ImageOperandsSignExtendMask = true ->
  4 < wordCount writeInsn ->
  hasBit (word writeInsn 4) spv.ImageOperandsZeroExtendMask = true ->
  hasBit (word writeInsn 4) spv.ImageOperandsSignExtendMask = true ->
  (exists m, imageReadOperands readInsn = Abort (UnsupportedImageOperands m) /\
             hasBit m spv.ImageOperandsSignExtendMask = true) /\
  (exists m, imageWriteOperands writeInsn = Abort (UnsupportedImageOperands m) /\
             hasBit m spv.ImageOperandsSignExtendMask = true).
Proof.
  intros Hr Hrz Hrs Hw Hwz Hws. split.
  - destruct (extend_flags_left _ Hrz Hrs) as [Hz Hs].
    unfold imageReadOperands. rewrite (proj2 (Z.ltb_lt _ _) Hr).
    destruct (hasBit (word readInsn 5) spv.ImageOperandsSampleMask);
      cbv zeta iota beta; rewrite Hz;
      rewrite (proj2 (Z.eqb_neq _ 0) (hasBit_true_nonzero _ _ Hs));
      eexists; (split; [reflexivity | exact Hs]).
  - destruct (extend_flags_left _ Hwz Hws) as [Hz Hs].
    unfold imageWriteOperands. rewrite (proj2 (Z.ltb_lt _ _) Hw).
    destruct (hasBit (word writeInsn 4) spv.ImageOperandsSampleMask);
      cbv zeta iota beta; rewrite Hz;
      rewrite (proj2 (Z.eqb_neq _ 0) (hasBit_true_nonzero _ _ Hs));
      eexists; (split; [reflexivity | exact Hs]).
Qed.

(** X8.  A write parses its optional image operands as a read does:
    the write takes the mask from word 4 and the read from word 5, so
    a write and the read with one more word before the mask yield the
    same sample id or the same abort. *)
Theorem image_write_operands_as_read (w0 w1 w2 w3 x : Z) (rest : list Z) :
  imageWriteOperands (w0 :: w1 :: w2 :: w3 :: rest) =
  imageReadOperands (w0 :: w1 :: w2 :: w3 :: x :: rest).
Proof.
  unfold imageWriteOperands, imageReadOperands, wordCount, word.
  destruct rest as [| m ids]; [reflexivity |].
  cbn [length].
  rewrite (proj2 (Z.ltb_lt 4 _)) by lia. rewrite (proj2 (Z.ltb_lt 5 _)) by lia.
  cbn [nth]. destruct (hasBit m spv.ImageOperandsSampleMask); reflexivity.
Qed.

End AccessOperands.

Lemma sign_and_zero_extend_unsupported_witness :
  (exists m, imageReadOperands [98; 1; 2; 3; 4; 0x3000] = Abort (UnsupportedImageOperands m) /\
             hasBit m spv.ImageOperandsSignExtendMask = true) /\
  (exists m, imageWriteOperands [99; 1; 2; 3; 0x3040; 7] = Abort (UnsupportedImageOperands m) /\
             hasBit m spv.ImageOperandsSignExtendMask = true).
Proof.
  apply (sign_and_zero_extend_unsupported [98; 1; 2; 3; 4; 0x3000] [99; 1; 2; 3; 0x3040; 7]);
    reflexivity.
Defined.

(** ** The level and sample queries *)

Section LevelAndSampleFacts.

Variable spirv : Shader.
Variable getPointer : Z -> Z.
Variable descriptorTypeOf : Z -> VkDescriptorType.
Variable storageAt : Z -> StorageImageDescriptor.
Variable sampledAt : Z -> SampledImageDescriptor.

(** X9.  The level query answers for sampled images only, the sample
    query for storage images as well.  Each succeeds exactly when the
    result type has one component, the descriptor type is one it
    serves and, for the sample query, the operand is a 2D multisampled
    image type; the single component then carries, on every lane, the
    [mipLevels] field of the sampled descriptor, respectively the
    [sampleCount] field read in the layout of the descriptor type. *)
Theorem level_and_sample_queries insn resultTyComponentCount :
  let imageId := word insn 3 in
  let imageTy := objectTypeDefinition spirv imageId in
  let descriptor := getPointer imageId in
  let sampled :=
    match descriptorTypeOf imageId with
    | VK_DESCRIPTOR_TYPE_COMBINED_IMAGE_SAMPLER
    | VK_DESCRIPTOR_TYPE_SAMPLED_IMAGE
    | VK_DESCRIPTOR_TYPE_UNIFORM_TEXEL_BUFFER => true
    | _ => false
    end in
  let storage :=
    match descriptorTypeOf imageId with
    | VK_DESCRIPTOR_TYPE_STORAGE_IMAGE => true
    | _ => false
    end in
  let levels :=
    EmitImageQueryLevels getPointer descriptorTypeOf sampledAt insn resultTyComponentCount in
  let samples :=
    EmitImageQuerySamples spirv getPointer descriptorTypeOf storageAt sampledAt insn
      resultTyComponentCount in
  (isOk levels = (resultTyComponentCount =? 1) && sampled) /\
  (isOk samples =
     (resultTyComponentCount =? 1) && (objectTypeOpcode spirv imageId =? spvOp.OpTypeImage)
     && (word imageTy 3 =? spv.Dim2D) && (word imageTy 6 =? 1) && (sampled || storage)) /\
  (forall dst, levels = Ok dst ->
     dst = [Some (SIMD.Int (sampled_mipLevels (sampledAt descriptor)))]) /\
  (forall dst, samples = Ok dst ->
     dst = [Some (SIMD.Int (if storage then sampleCount (storageAt descriptor)
                            else sampled_sampleCount (sampledAt descriptor)))]).
Proof.
  cbv zeta. unfold EmitImageQueryLevels, EmitImageQuerySamples, ASSERT.
  destruct (resultTyComponentCount =? 1); cbn [mbind Result_bind andb isOk].
  2: { repeat split; intros dst H; discriminate H. }
  destruct (objectTypeOpcode spirv (word insn 3) =? spvOp.OpTypeImage);
    destruct (word (objectTypeDefinition spirv (word insn 3)) 3 =? spv.Dim2D);
    destruct (word (objectTypeDefinition spirv (word insn 3)) 6 =? 1);
    destruct (descriptorTypeOf (word insn 3));
    cbn [mbind Result_bind andb orb isOk];
    repeat split; intros dst H; try discriminate H;
    apply Ok_inj in H; subst dst; reflexivity.
Qed.

End LevelAndSampleFacts.

(** ** The texel pointer of an atomic *)

Section TexelPointerFacts.
Import Word32 Word32Facts.

Variable spirv : Shader.
Variable operandOf : Z -> Operand.
Variable routine : Routine.
Variable getPointer : Z -> Z.
Variable storageAt : Z -> StorageImageDescriptor.
Variable typeStorageClass : Z -> Z.
Variable typeElement : Z -> Z.
Variable pointeeTypeDefinition : Z -> Insn.

(** X10.  [EmitImageTexelPointer] creates, for the result id, a
    pointer into the primary plane of the image, with 4-byte texels
    whatever the format and the nullify policy always on.  A lane whose
    out-of-bounds predicate is set points at the offset
    [0x7FFFFFFF - 16] and fails the bounds test of a 4-byte access, so
    an atomic through the pointer leaves it alone; every other lane
    points at its computed offset.  The instruction aborts when the
    pointee is not an image type, the result is not a pointer of the
    image storage class, or the pointed-to type is not an integer. *)
Theorem EmitImageTexelPointer_lanes insn :
  let imageId := word insn 3 in
  let imageType := pointeeTypeDefinition imageId in
  let d := storageAt (getPointer imageId) in
  let coordinate := operandOf (word insn 4) in
  let sampleId := word insn 5 in
  let checks :=
    (opcode imageType =? spvOp.OpTypeImage)
    && (typeStorageClass (word insn 1) =? StorageClassImage)
    && (typeOpcode spirv (typeElement (word insn 1)) =? spvOp.OpTypeInt) in
  let emitted :=
    EmitImageTexelPointer spirv operandOf routine getPointer storageAt typeStorageClass
      typeElement pointeeTypeDefinition insn in
  sizeInBytes d <= OOB_OFFSET ->
  (checks = false -> emitted = Abort AssertFailed) /\
  (checks = true ->
   exists p,
     emitted = Ok (word insn 2, p) /\
     SIMD.base p = ptr d /\ SIMD.limit p = sizeInBytes d /\
     forall lane,
       if laneOutOfBoundsb operandOf routine coordinate imageType d sampleId lane
       then SIMD.offsets p lane = 0x7FFFFFFF - 16 /\ laneInBounds p 4 lane = false
       else SIMD.offsets p lane =
            texelPtrOffset operandOf routine coordinate imageType d 4 sampleId false lane).
Proof.
  cbv zeta. intros Hsize. unfold EmitImageTexelPointer, ASSERT.
  destruct (opcode _ =? _); cbn [mbind Result_bind andb];
    [destruct (typeStorageClass _ =? _); cbn [mbind Result_bind andb];
     [destruct (typeOpcode _ _ =? _); cbn [mbind Result_bind andb] |] |];
    (split; [intros H; first [discriminate H | reflexivity] |]);
    intros H; try discriminate H.
  eexists. split; [reflexivity |]. split; [reflexivity |]. split; [reflexivity |].
  intros lane.
  pose proof (GetTexelAddress_nullify_offsets operandOf routine
                (ptr (storageAt (getPointer (word insn 3))))
                (sizeInBytes (storageAt (getPointer (word insn 3))))
                (operandOf (word insn 4)) (pointeeTypeDefinition (word insn 3))
                (storageAt (getPointer (word insn 3))) 4 (word insn 5) false lane) as Hoff.
  destruct (laneOutOfBoundsb _ _ _ _ _ _ _); [| exact Hoff].
  split; [exact Hoff |].
  apply lane_nullified; [exact Hoff | lia | exact Hsize].
Qed.

End TexelPointerFacts.

Lemma EmitImageTexelPointer_lanes_witness :
  exists p,
    EmitImageTexelPointer Examples.shader0 Examples.accessOperand Examples.routine0
      (fun _ => 0) Examples.storage0 (fun _ => StorageClassImage) (fun _ => 0)
      (fun _ => Examples.image2D) Examples.texelPointer = Ok (2, p) /\
    SIMD.offsets p 0%nat = 36 /\
    laneInBounds p 4 3%nat = false.
Proof.
  destruct (EmitImageTexelPointer_lanes Examples.shader0 Examples.accessOperand
              Examples.routine0 (fun _ => 0) Examples.storage0 (fun _ => StorageClassImage)
              (fun _ => 0) (fun _ => Examples.image2D) Examples.texelPointer) as [_ H].
  { vm_compute. discriminate. }
  destruct (H eq_refl) as (p & Hp & _ & _ & Hl).
  exists p. split; [exact Hp |]. split.
  - exact (Hl 0%nat).
  - exact (proj2 (Hl 3%nat)).
Defined.

(** ** The layout of the sampler arguments *)

Section SamplerLayoutFacts.

Lemma storeFrom_app (a b : list SIMD.t) : forall (in_ : list (option SIMD.t)) (i : nat),
  storeFrom in_ i (a ++ b) = storeFrom (storeFrom in_ i a).1 (storeFrom in_ i a).2 b.
Proof.
  induction a as [| v a IH]; intros in_ i; cbn [storeFrom app]; [reflexivity | apply IH].
Qed.

(** Storing into the unwritten tail of an array written densely so far
    keeps it dense. *)
Lemma storeFrom_dense (vals : list SIMD.t) : forall (done : list SIMD.t) (k : nat),
  (length vals <= k)%nat ->
  storeFrom (map Some done ++ replicate k None) (length done) vals =
  (map Some (done ++ vals) ++ replicate (k - length vals) None,
   (length done + length vals)%nat).
Proof.
  induction vals as [| v vals IH]; intros done k Hk; cbn [storeFrom length] in *.
  - rewrite app_nil_r, Nat.sub_0_r, Nat.add_0_r. reflexivity.
  - destruct k as [| k]; [lia |].
    rewrite insert_app_r_alt by (rewrite length_map; lia).
    rewrite length_map, Nat.sub_diag. cbn [replicate].
    change (<[0%nat := Some v]> (None :: replicate k None))
      with ([Some v] ++ replicate k (@None SIMD.t)).
    rewrite app_assoc.
    change [Some v] with (map (@Some SIMD.t) [v]). rewrite <- map_app.
    replace (S (length done)) with (length (done ++ [v]))
      by (rewrite length_app; cbn; lia).
    rewrite IH by lia. rewrite <- app_assoc, length_app. cbn [length app].
    f_equal. lia.
Qed.

Variable operandOf : Z -> Operand.

Lemma samplerInputs_storeFrom instruction :
  samplerInputs operandOf instruction =
  (storeFrom (replicate 16 None) 0 (samplerArguments operandOf instruction)).1.
Proof.
  unfold samplerInputs, samplerArguments. cbv zeta.
  rewrite !storeFrom_app.
  destruct (storeFrom (replicate 16 None) 0 _) as [in0 i0]. cbn [fst snd].
  destruct (isDref (state instruction)); cbn [storeFrom fst snd];
    (destruct (negb (lodOrBiasId instruction =? 0)); cbn [storeFrom fst snd];
     [| destruct (negb (gradDxId instruction =? 0)); cbn [storeFrom fst snd];
        [rewrite storeFrom_app;
         match goal with
         | |- context [storeFrom ?a ?b ?c] =>
             lazymatch c with
             | map _ _ => destruct (storeFrom a b c) as [inx ix]; cbn [fst snd]
             end
         end;
         match goal with
         | |- context [storeFrom ?a ?b ?c] =>
             lazymatch c with
             | map _ _ => destruct (storeFrom a b c) as [iny iy]; cbn [fst snd]
             end
         end
        | destruct (SamplerMethod_eqb _ Fetch); cbn [storeFrom fst snd]]]);
    (destruct (negb (offsetId instruction =? 0)); cbn [storeFrom fst snd];
     [match goal with
      | |- context [storeFrom ?a ?b ?c] =>
          lazymatch c with
          | map _ _ => destruct (storeFrom a b c) as [ino io]; cbn [fst snd]
          end
      end |]);
    destruct (sample instruction); reflexivity.
Qed.

(** X11.  [callSamplerFunction] packs the arguments of the routine
    densely from slot 0 of the sixteen-slot input array, in the order
    coordinates, reference depth, level-of-detail block, offset, sample
    index, and leaves every later slot unwritten.  The level-of-detail
    block is the lod or bias operand if there is one, else the
    gradients dx then dy, else, for a fetch, the constant level 0. *)
Theorem samplerInputs_layout instruction :
  let args := samplerArguments operandOf instruction in
  (length args <= 16)%nat ->
  samplerInputs operandOf instruction =
  map Some args ++ replicate (16 - length args) None.
Proof.
  cbv zeta. intros Hlen. rewrite samplerInputs_storeFrom.
  pose proof (storeFrom_dense (samplerArguments operandOf instruction) [] 16 Hlen) as H.
  cbn [map app length] in H. rewrite H. reflexivity.
Qed.

End SamplerLayoutFacts.

Lemma samplerInputs_layout_witness :
  samplerInputs Examples.projOperand Examples.projInstruction =
  map Some (samplerArguments Examples.projOperand Examples.projInstruction)
  ++ replicate 14 None.
Proof.
  apply (samplerInputs_layout Examples.projOperand Examples.projInstruction).
  vm_compute. lia.
Defined.

(** ** Sampling through the cache *)

Section SampleFacts.

Variable spirv : Shader.
Variable operandOf : Z -> Operand.
Variable getPointer : Z -> Z.
Variable descriptorAt : Z -> SampledImageDescriptor.
Variable getImageSampler : Z -> ImageInstructionState -> Z -> Z -> Z.
Variable ImageSampler : Z -> Z -> list (option SIMD.t) -> nat -> SIMD.t.
Variable textureOffset : Z.
Variable AnyTrue : SIMD.t -> bool.

(** X12.  The slot of a call site remembers the last pair only: when a
    call site is used with descriptor [A], then with a different
    descriptor [B], then with [A] again, the third lookup calls the
    routine compiler once more, with the arguments of the first, and
    returns the routine the first returned. *)
Theorem lookupSamplerFunction_forgets instruction st A B f1 st1 f2 st2 :
  let lookup := lookupSamplerFunction spirv getPointer descriptorAt getImageSampler in
  let samplerId := currentSamplerId spirv getPointer descriptorAt A instruction in
  let call := (sampled_device (descriptorAt A), state instruction, samplerId,
               sampled_imageViewId (descriptorAt A)) in
  A <> B ->
  lookup A instruction st = Some (f1, st1) ->
  lookup B instruction st1 = Some (f2, st2) ->
  exists st3,
    lookup A instruction st2 = Some (getImageSampler (sampled_device (descriptorAt A))
                                       (state instruction) samplerId
                                       (sampled_imageViewId (descriptorAt A)), st3) /\
    compilerCalls st3 = compilerCalls st2 ++ [call] /\
    (compilerCalls st1 = compilerCalls st \/ compilerCalls st1 = compilerCalls st ++ [call]) /\
    (compilerCalls st1 = compilerCalls st ++ [call] ->
     f1 = getImageSampler (sampled_device (descriptorAt A)) (state instruction) samplerId
            (sampled_imageViewId (descriptorAt A))).
Proof.
  cbv zeta. intros Hne H1 H2.
  pose proof (lookupSamplerFunction_slot spirv getImageSampler _ _ _ _ _ _ _ H2) as Hslot.
  pose proof (lookupSamplerFunction_miss spirv getImageSampler getPointer descriptorAt A
                instruction st2 _ Hslot) as Hmiss.
  cbv zeta in Hmiss. rewrite Hmiss by (left; cbn; congruence).
  eexists. split; [reflexivity |]. split; [reflexivity |].
  revert H1. unfold lookupSamplerFunction.
  destruct (samplerCache st !! position instruction) as [cache |]; [| discriminate]. cbn.
  destruct (negb _); intros H; injection H as <- <-; cbn [compilerCalls].
  - split; [right; reflexivity | reflexivity].
  - split; [left; reflexivity |].
    intros Habs. apply (f_equal (@length _)) in Habs.
    rewrite length_app in Habs. cbn in Habs. lia.
Qed.

Lemma move_loop (out : nat -> SIMD.t) (n : nat) : forall m, (m <= n)%nat ->
  foldl (fun result i => move (Z.of_nat i) (out i) result) (replicate n None) (seq 0 m) =
  map (fun i => Some (out i)) (seq 0 m) ++ replicate (n - m) None.
Proof.
  induction m as [| m IH]; intros Hm.
  - cbn. rewrite Nat.sub_0_r. reflexivity.
  - rewrite seq_S, foldl_app, IH by lia. cbn [foldl Nat.add]. unfold move, Intermediate.
    rewrite Nat2Z.id, insert_app_r_alt by (rewrite length_map, length_seq; lia).
    rewrite length_map, length_seq, Nat.sub_diag.
    replace (n - m)%nat with (S (n - S m)) by lia. cbn [replicate].
    rewrite map_app. cbn [map]. rewrite <- app_assoc. reflexivity.
Qed.

(** X13.  [EmitImageSample] consults the sampler cache only when some
    lane is active.  With no active lane it leaves the cache and the
    log of compiler calls as they were and moves the output lanes, as
    they stood, into the result; with an active lane the result holds
    the outputs of the routine the lookup returned, and the state is
    the one the lookup left.  Either way the result has the component
    count of the result type and every component is written. *)
Theorem EmitImageSample_gating insn position resultTyComponentCount mask out st instruction :
  let n := Z.to_nat resultTyComponentCount in
  let emitted :=
    EmitImageSample spirv operandOf getPointer descriptorAt getImageSampler ImageSampler
      textureOffset AnyTrue insn position resultTyComponentCount mask out st in
  let imageDescriptor := getPointer (sampledImageId instruction) in
  decodeImageInstruction spirv insn position = Ok instruction ->
  (AnyTrue mask = false ->
   emitted = Ok (Some (map (fun i => Some (out i)) (seq 0 n), st))) /\
  (AnyTrue mask = true ->
   forall f st',
     lookupSamplerFunction spirv getPointer descriptorAt getImageSampler imageDescriptor
       instruction st = Some (f, st') ->
     emitted =
     Ok (Some (map (fun i =>
                      Some (callSamplerFunction operandOf ImageSampler textureOffset f
                              imageDescriptor instruction i))
                 (seq 0 n), st'))).
Proof.
  cbv zeta. intros Hdec. unfold EmitImageSample, createIntermediate. rewrite Hdec.
  cbn [mbind Result_bind]. split; intros Hany; rewrite Hany.
  - cbn. rewrite move_loop by lia. rewrite Nat.sub_diag, app_nil_r. reflexivity.
  - intros f st' Hl. unfold EmitImageSampleUnconditional. rewrite Hl. cbn.
    rewrite move_loop by lia. rewrite Nat.sub_diag, app_nil_r. reflexivity.
Qed.

End SampleFacts.

(** ** The size of a level *)

Section SizeLodFacts.
Import Word32 Word32Facts.

Variable spirv : Shader.
Variable operandOf : Z -> Operand.
Variable getPointer : Z -> Z.
Variable descriptorTypeOf : Z -> VkDescriptorType.
Variable storageAt : Z -> StorageImageDescriptor.
Variable sampledAt : Z -> SampledImageDescriptor.

Lemma signed_wrap a : signed (wrap a) = signed a.
Proof. unfold signed. rewrite wrap_wrap. reflexivity. Qed.

Lemma max_s_one a : 1 <= signed (max_s a (wrap 1)).
Proof.
  unfold max_s. change (signed (wrap 1)) with 1.
  destruct (signed a <? 1) eqn:E.
  - vm_compute. discriminate.
  - apply Z.ltb_ge in E. rewrite signed_wrap. exact E.
Qed.

(** X14.  A size query with a level of detail never reports a spatial
    dimension below 1: whatever the descriptor holds and whatever the
    lanes of the level are, each lane of each of the [dimensions]
    leading components of the result is at least 1 as a signed
    integer. *)
Theorem image_query_size_lod_positive insn resultTyComponentCount dst k v lane :
  let imageId := word insn 3 in
  let isArrayed := negb (word (objectTypeDefinition spirv imageId) 5 =? 0) in
  let dimensions := wrap (resultTyComponentCount - (if isArrayed then 1 else 0)) in
  word insn 4 <> 0 ->
  EmitImageQuerySizeLod spirv operandOf getPointer descriptorTypeOf storageAt sampledAt
    insn resultTyComponentCount = Ok dst ->
  (k < 3)%nat -> Z.of_nat k < dimensions ->
  dst !! k = Some (Some v) ->
  1 <= signed (v lane).
Proof.
  cbv zeta. intros Hlod H Hk Hd Hv. revert H Hd Hv.
  unfold EmitImageQuerySizeLod, GetImageDimensions.
  set (dims := wrap _). intros H Hd Hv.
  unfold ASSERT in H.
  destruct (objectTypeOpcode spirv _ =? _); cbn [mbind Result_bind] in H; [| discriminate H].
  rewrite (proj2 (Z.eqb_neq _ 0) Hlod) in H. cbn [negb] in H.
  match type of H with
  | context [match ?d with VK_DESCRIPTOR_TYPE_SAMPLER => _ | _ => _ end] =>
      destruct d
  end; cbn [mbind Result_bind] in H; try discriminate H;
    (destruct (componentCount _ =? 1); cbn [mbind Result_bind] in H; [| discriminate H]);
    apply Ok_inj in H; subst dst;
    (assert (Hne : Z.to_nat dims <> k) by lia);
    unfold move, Intermediate, createIntermediate in Hv;
    (destruct (negb (word _ 5 =? 0));
     [rewrite list_lookup_insert_ne in Hv by exact Hne |]);
    (destruct k as [| [| [| k]]]; [| | | lia]);
    repeat match type of Hv with
           | context [if ?c then _ else _] =>
               let E := fresh "E" in
               destruct c eqn:E;
               [| apply Z.leb_gt in E; try lia]
           end;
    repeat match type of Hv with
           | <[_ := _]> _ !! _ = Some _ =>
               apply list_lookup_insert_Some in Hv;
               destruct Hv as [(_ & Hv & _) | (_ & Hv)];
               [injection Hv as <-; apply max_s_one |]
           end;
    apply lookup_replicate in Hv; destruct Hv as [Hv _]; discriminate Hv.
Qed.

End SizeLodFacts.

Lemma lookupSamplerFunction_forgets_witness :
  exists st1 st2,
    lookupSamplerFunction Examples.shaderProj (fun _ => 0x600) Examples.sampledDescriptor
      Examples.compiler0 0x500 Examples.projInstruction Examples.emptySlot
    = Some (1195, st1) /\
    lookupSamplerFunction Examples.shaderProj (fun _ => 0x600) Examples.sampledDescriptor
      Examples.compiler0 0x501 Examples.projInstruction st1 = Some (1195, st2) /\
    exists st3,
      lookupSamplerFunction Examples.shaderProj (fun _ => 0x600) Examples.sampledDescriptor
        Examples.compiler0 0x500 Examples.projInstruction st2 = Some (1195, st3) /\
      compilerCalls st3 = compilerCalls st2 ++ [(1, mkState Variant.Proj Implicit, 9, 5)].
Proof.
  eexists. eexists. split; [reflexivity |]. split; [reflexivity |].
  destruct (lookupSamplerFunction_forgets Examples.shaderProj (fun _ => 0x600)
              Examples.sampledDescriptor Examples.compiler0 Examples.projInstruction
              Examples.emptySlot 0x500 0x501 _ _ _ _ ltac:(discriminate) eq_refl eq_refl)
    as (st3 & H3 & Hc & _).
  exists st3. split; [exact H3 | exact Hc].
Defined.

Lemma EmitImageSample_gating_witness :
  EmitImageSample Examples.shaderProj Examples.projOperand (fun _ => 0x600)
    Examples.sampledDescriptor Examples.compiler0 (fun _ _ _ _ => SIMD.Int 7) 0
    (fun _ => false) Examples.sampleProj 0 4 (fun _ => 0) (fun _ => SIMD.Int 0)
    Examples.emptySlot =
  Ok (Some (map (fun i => Some (SIMD.Int 0)) (seq 0 4), Examples.emptySlot)).
Proof.
  apply (proj1 (EmitImageSample_gating Examples.shaderProj Examples.projOperand
                  (fun _ => 0x600) Examples.sampledDescriptor Examples.compiler0
                  (fun _ _ _ _ => SIMD.Int 7) 0 (fun _ => false) Examples.sampleProj 0 4
                  (fun _ => 0) (fun _ => SIMD.Int 0) Examples.emptySlot
                  Examples.projInstruction eq_refl)).
  reflexivity.
Defined.

Lemma image_query_size_lod_positive_witness :
  exists dst v,
    EmitImageQuerySizeLod Examples.shader0 Examples.lodOperand (fun _ => 0x700)
      (fun _ => VK_DESCRIPTOR_TYPE_STORAGE_IMAGE) (fun _ => Examples.descriptor4x4)
      Examples.sampledDescriptor Examples.querySizeLod 2 = Ok dst /\
    dst !! 1%nat = Some (Some v) /\
    1 <= Word32.signed (v 3%nat).
Proof.
  eexists. eexists. split; [reflexivity |]. split; [reflexivity |].
  eapply (image_query_size_lod_positive Examples.shader0 Examples.lodOperand (fun _ => 0x700)
           (fun _ => VK_DESCRIPTOR_TYPE_STORAGE_IMAGE) (fun _ => Examples.descriptor4x4)
           Examples.sampledDescriptor Examples.querySizeLod 2 _ 1%nat _ 3%nat).
  - vm_compute. discriminate.
  - reflexivity.
  - lia.
  - vm_compute. reflexivity.
  - reflexivity.
Defined.

(** ** Texel addresses of in-range lanes *)

(** Equations between wrapped sums of products: both sides are reduced
    to the sums without the inner wrap-arounds, which [ring] compares. *)
Ltac wrap_poly t :=
  lazymatch t with
  | Word32.wrap ?a => wrap_poly a
  | ?a + ?b => let a' := wrap_poly a in let b' := wrap_poly b in constr:(a' + b')
  | ?a * ?b => let a' := wrap_poly a in let b' := wrap_poly b in constr:(a' * b')
  | _ => t
  end.

Ltac eqm_pure :=
  lazymatch goal with
  | |- eqm _ (Word32.wrap ?a) _ =>
      apply (eqm_trans Word32.modulus _ a); [apply Word32Facts.wrap_eqm | eqm_pure]
  | |- eqm _ (?a + ?b) (?a' + ?b') => apply (Zplus_eqm Word32.modulus); eqm_pure
  | |- eqm _ (?a * ?b) (?a' * ?b') => apply (Zmult_eqm Word32.modulus); eqm_pure
  | |- eqm _ ?a ?a => apply eqm_refl
  end.

Ltac wrap_ring :=
  lazymatch goal with
  | |- Word32.wrap ?A = Word32.wrap ?B =>
      let A' := wrap_poly A in
      let B' := wrap_poly B in
      transitivity (Word32.wrap A');
      [change (eqm Word32.modulus A A'); eqm_pure
      | transitivity (Word32.wrap B');
        [f_equal; ring | symmetry; change (eqm Word32.modulus B B'); eqm_pure]]
  end.

Section AddressFacts.
Import Word32 Word32Facts.

Variable operandOf : Z -> Operand.
Variable routine : Routine.

(** The byte offset of a lane, from the lanes of [u], [v], [w] and [n]
    as the bounds test reads them. *)
Lemma texelPtrOffset_lanes coordinate imageType descriptor texelSize sampleId st i :
  let dims := dimsOf coordinate imageType in
  texelPtrOffset operandOf routine coordinate imageType descriptor texelSize sampleId st i =
  wrap (wrap (texelU routine coordinate imageType i) * texelSize
        + (if 1 <? dims
           then wrap (texelV routine coordinate imageType i) * rowPitchOf descriptor st
           else 0)
        + (if (2 <? dims) || isArrayedType imageType
           then wrap (texelW coordinate imageType i) * slicePitchOf descriptor st else 0)
        + (if dimOf imageType =? spv.DimSubpassData
           then viewID routine * slicePitchOf descriptor st else 0)
        + (if sampleUsed operandOf sampleId
           then wrap (texelN operandOf sampleId i) * samplePitchOf descriptor st else 0)).
Proof.
  cbv zeta. unfold texelPtrOffset. cbv zeta.
  destruct (1 <? dimsOf coordinate imageType);
    destruct ((2 <? dimsOf coordinate imageType) || isArrayedType imageType);
    destruct (dimOf imageType =? spv.DimSubpassData);
    destruct (sampleUsed operandOf sampleId);
    unfold SIMD.add, SIMD.mul, SIMD.lift2, SIMD.Int, Word32.add, Word32.mul;
    wrap_ring.
Qed.

Lemma not_below_range a b : 0 <= wrap b < 2 ^ 31 ->
  negb (wrap a <? wrap b) = false <-> 0 <= signed a < wrap b.
Proof.
  intros Hb. rewrite negb_false_iff, Z.ltb_lt. unfold signed.
  pose proof (wrap_range a) as Ha. unfold modulus in *.
  destruct (wrap a <? 2 ^ 31) eqn:E; [apply Z.ltb_lt in E | apply Z.ltb_ge in E]; lia.
Qed.

(** X15.  The unsigned comparisons of the bounds test are two-sided
    range checks: for a descriptor whose dimensions are below [2^31], a
    lane is in bounds exactly when each relevant axis, read as a signed
    integer, is at least 0 and below its dimension.  A negative
    coordinate is therefore out of bounds. *)
Theorem lane_in_bounds_signed coordinate imageType descriptor sampleId i :
  let dims := dimsOf coordinate imageType in
  let u := signed (texelU routine coordinate imageType i) in
  let v := signed (texelV routine coordinate imageType i) in
  let w := signed (texelW coordinate imageType i) in
  let n := signed (texelN operandOf sampleId i) in
  0 <= wrap (width descriptor) < 2 ^ 31 ->
  0 <= wrap (height descriptor) < 2 ^ 31 ->
  0 <= depthBound imageType descriptor < 2 ^ 31 ->
  0 <= wrap (sampleCount descriptor) < 2 ^ 31 ->
  laneOutOfBoundsb operandOf routine coordinate imageType descriptor sampleId i = false <->
  0 <= u < wrap (width descriptor) /\
  (1 < dims -> 0 <= v < wrap (height descriptor)) /\
  (2 < dims \/ isArrayedType imageType = true ->
   0 <= w < depthBound imageType descriptor) /\
  (sampleUsed operandOf sampleId = true -> 0 <= n < wrap (sampleCount descriptor)).
Proof.
  cbv zeta. intros HW HH HD HS. unfold laneOutOfBoundsb. cbv zeta.
  assert (HD' : depthBound imageType descriptor = wrap (depthBound imageType descriptor)).
  { unfold depthBound. destruct (dimOf imageType =? spv.DimCube); now rewrite wrap_wrap. }
  rewrite HD' at 1.
  rewrite !orb_false_iff, !andb_false_iff, !orb_false_iff.
  rewrite !not_below_range by (rewrite <- ?HD'; assumption).
  rewrite <- HD', !Z.ltb_ge.
  destruct (isArrayedType imageType); destruct (sampleUsed operandOf sampleId);
    split; intros H; repeat split; try lia; intuition (try lia; try discriminate).
Qed.

(** X16.  An in-range lane addresses a texel inside the image.  For an
    image that is not subpass data, with a positive texel size and
    pitches that are not negative, whose last texel ends within
    [sizeInBytes], itself below the out-of-bounds offset: every lane
    with a clear out-of-bounds predicate has an offset that is not
    negative, its texel ends within [sizeInBytes], and the lane passes
    the bounds test of an access of the texel size. *)
Theorem in_range_lane_inside imageBase coordinate imageType descriptor texelSize sampleId
    (useStencilAspect : bool) i :
  let dims := dimsOf coordinate imageType in
  let rowPitch := rowPitchOf descriptor useStencilAspect in
  let slicePitch := slicePitchOf descriptor useStencilAspect in
  let samplePitch := samplePitchOf descriptor useStencilAspect in
  let last :=
    (wrap (width descriptor) - 1) * texelSize
    + (if 1 <? dims then (wrap (height descriptor) - 1) * rowPitch else 0)
    + (if (2 <? dims) || isArrayedType imageType
       then (depthBound imageType descriptor - 1) * slicePitch else 0)
    + (if sampleUsed operandOf sampleId
       then (wrap (sampleCount descriptor) - 1) * samplePitch else 0) in
  let p :=
    GetTexelAddress operandOf routine imageBase (sizeInBytes descriptor) coordinate imageType
      descriptor texelSize sampleId useStencilAspect Nullify in
  dimOf imageType <> spv.DimSubpassData ->
  0 < texelSize -> 0 <= rowPitch -> 0 <= slicePitch -> 0 <= samplePitch ->
  last + texelSize <= sizeInBytes descriptor ->
  sizeInBytes descriptor <= OOB_OFFSET ->
  laneOutOfBoundsb operandOf routine coordinate imageType descriptor sampleId i = false ->
  0 <= SIMD.offsets p i /\
  SIMD.offsets p i + texelSize <= sizeInBytes descriptor /\
  laneInBounds p texelSize i = true.
Proof.
  cbv zeta. intros Hdim Hts Hrp Hsp Hsmp Hlast Hsize Hin.
  rewrite GetTexelAddress_nullify_offsets, Hin.
  assert (Hoff : exists off,
            texelPtrOffset operandOf routine coordinate imageType descriptor texelSize
              sampleId useStencilAspect i = off /\
            0 <= off /\ off + texelSize <= sizeInBytes descriptor).
  { rewrite texelPtrOffset_lanes. cbv zeta.
    rewrite (proj2 (Z.eqb_neq _ _) Hdim).
    unfold laneOutOfBoundsb in Hin. cbv zeta in Hin.
    rewrite !orb_false_iff, !andb_false_iff, !negb_false_iff, !Z.ltb_lt in Hin.
    destruct Hin as [[[Hu Hv] Hw] Hn].
    pose proof (wrap_range (texelU routine coordinate imageType i)) as Ru.
    pose proof (wrap_range (texelV routine coordinate imageType i)) as Rv.
    pose proof (wrap_range (texelW coordinate imageType i)) as Rw.
    pose proof (wrap_range (texelN operandOf sampleId i)) as Rn.
    set (u := wrap (texelU routine coordinate imageType i)) in *.
    set (v := wrap (texelV routine coordinate imageType i)) in *.
    set (w := wrap (texelW coordinate imageType i)) in *.
    set (n := wrap (texelN operandOf sampleId i)) in *.
    set (W := wrap (width descriptor)) in *.
    set (H := wrap (height descriptor)) in *.
    set (D := depthBound imageType descriptor) in *.
    set (S := wrap (sampleCount descriptor)) in *.
    set (rp := rowPitchOf descriptor useStencilAspect) in *.
    set (sp := slicePitchOf descriptor useStencilAspect) in *.
    set (smp := samplePitchOf descriptor useStencilAspect) in *.
    unfold OOB_OFFSET in Hsize.
    assert (Eu : 0 <= u * texelSize <= (W - 1) * texelSize) by nia.
    assert (Ev : (1 <? dimsOf coordinate imageType) = true ->
                 0 <= v * rp <= (H - 1) * rp).
    { intros E. destruct Hv as [Hv | Hv]; [congruence | nia]. }
    assert (Ew : (2 <? dimsOf coordinate imageType) || isArrayedType imageType = true ->
                 0 <= w * sp <= (D - 1) * sp).
    { intros E. destruct Hw as [Hw | Hw]; [congruence | nia]. }
    assert (En : sampleUsed operandOf sampleId = true -> 0 <= n * smp <= (S - 1) * smp).
    { intros E. destruct Hn as [Hn | Hn]; [congruence | nia]. }
    clearbody u v w n W H D S rp sp smp.
    destruct (1 <? dimsOf coordinate imageType);
      destruct ((2 <? dimsOf coordinate imageType) || isArrayedType imageType);
      destruct (sampleUsed operandOf sampleId);
      try specialize (Ev eq_refl); try specialize (Ew eq_refl); try specialize (En eq_refl);
      (eexists; split; [apply wrap_small; unfold modulus; lia | lia]). }
  destruct Hoff as (off & Heq & H0 & H1). rewrite Heq.
  split; [exact H0 |]. split; [exact H1 |].
  unfold laneInBounds. rewrite GetTexelAddress_nullify_offsets, Hin, Heq.
  unfold GetTexelAddress. cbn [SIMD.limit].
  unfold OOB_OFFSET in Hsize. rewrite signed_nonneg by lia.
  apply andb_true_iff. split; [apply Z.leb_le | apply Z.leb_le]; lia.
Qed.

(** X17.  For a subpass-data image the coordinate is relative to the
    window position of the lane and the layer is the current view: the
    byte offset of a lane is
    [(u + x) * texelSize + (v + y) * rowPitch + w * slicePitch
     + viewID * slicePitch + n * samplePitch]
    in 32-bit arithmetic, each term under the condition of the image
    that is not subpass data, [v] being 0 for a one-component
    coordinate; and the bounds test compares the shifted [u + x] and
    [v + y] with the width and the height. *)
Theorem GetTexelAddress_subpass coordinate imageType descriptor texelSize sampleId
    (useStencilAspect : bool) i :
  let dims := dimsOf coordinate imageType in
  let isArrayed := isArrayedType imageType in
  let x := windowSpacePosition0 routine i in
  let y := windowSpacePosition1 routine i in
  let u := OpInt coordinate 0 i in
  let v := if 1 <? componentCount coordinate then OpInt coordinate 1 i else 0 in
  let w := (if 2 <? dims then OpInt coordinate 2 i else 0) +
           (if isArrayed then OpInt coordinate dims i else 0) in
  let n := OpInt (operandOf sampleId) 0 i in
  let rowPitch := rowPitchOf descriptor useStencilAspect in
  let slicePitch := slicePitchOf descriptor useStencilAspect in
  let samplePitch := samplePitchOf descriptor useStencilAspect in
  dimOf imageType = spv.DimSubpassData ->
  texelPtrOffset operandOf routine coordinate imageType descriptor texelSize sampleId
    useStencilAspect i =
  wrap ((u + x) * texelSize
        + (if 1 <? dims then (v + y) * rowPitch else 0)
        + (if (2 <? dims) || isArrayed then w * slicePitch else 0)
        + viewID routine * slicePitch
        + (if sampleUsed operandOf sampleId then n * samplePitch else 0)) /\
  wrap (texelU routine coordinate imageType i) = wrap (u + x) /\
  wrap (texelV routine coordinate imageType i) = wrap (v + y).
Proof.
  cbv zeta. intros Hdim. unfold texelPtrOffset, texelU, texelV, texelW, texelN. cbv zeta.
  rewrite Hdim, Z.eqb_refl.
  unfold SIMD.add, SIMD.mul, SIMD.lift2, SIMD.Int, Word32.add, Word32.mul.
  split; [| split].
  - destruct (1 <? componentCount coordinate);
      destruct (1 <? dimsOf coordinate imageType);
      destruct (2 <? dimsOf coordinate imageType);
      destruct (isArrayedType imageType);
      destruct (sampleUsed operandOf sampleId); cbn [orb]; wrap_ring.
  - apply wrap_wrap.
  - destruct (1 <? componentCount coordinate); wrap_ring.
Qed.

End AddressFacts.

Lemma lane_in_bounds_signed_witness :
  laneOutOfBoundsb Examples.noOperand Examples.routine0 Examples.coordinate2
    Examples.image2D Examples.descriptor4x4 0 0%nat = false.
Proof.
  apply (lane_in_bounds_signed Examples.noOperand Examples.routine0 Examples.coordinate2
           Examples.image2D Examples.descriptor4x4 0 0%nat);
    try (vm_compute; split; [discriminate | reflexivity]).
  split; [vm_compute; split; [discriminate | reflexivity] |].
  split; [intros _; vm_compute; split; [discriminate | reflexivity] |].
  split.
  - intros [H | H]; vm_compute in H; discriminate H.
  - intros H. vm_compute in H. discriminate H.
Defined.

Lemma in_range_lane_inside_witness :
  let p :=
    GetTexelAddress Examples.noOperand Examples.routine0 0x1000 64 Examples.coordinate2
      Examples.image2D Examples.descriptor4x4 4 0 false Nullify in
  0 <= SIMD.offsets p 0%nat /\ SIMD.offsets p 0%nat + 4 <= 64 /\
  laneInBounds p 4 0%nat = true.
Proof.
  apply (in_range_lane_inside Examples.noOperand Examples.routine0 0x1000
           Examples.coordinate2 Examples.image2D Examples.descriptor4x4 4 0 false 0%nat);
    first [lia | reflexivity | vm_compute; discriminate].
Defined.

Lemma GetTexelAddress_subpass_witness :
  texelPtrOffset Examples.noOperand
    {| windowSpacePosition0 := fun _ => 1; windowSpacePosition1 := fun _ => 1; viewID := 0 |}
    Examples.coordinate2 [25; 10; 6; spv.DimSubpassData; 0; 0; 0; 2; 0]
    Examples.descriptor4x4 4 0 false 0%nat = 56.
Proof.
  apply (proj1 (GetTexelAddress_subpass Examples.noOperand
                  {| windowSpacePosition0 := fun _ => 1; windowSpacePosition1 := fun _ => 1;
                     viewID := 0 |}
                  Examples.coordinate2 [25; 10; 6; spv.DimSubpassData; 0; 0; 0; 2; 0]
                  Examples.descriptor4x4 4 0 false 0%nat eq_refl)).
Defined.

(** ** The bytes of a texel *)

Section TexelByteFacts.
Import Word32 Word32Facts.

Lemma byte_of_word x i :
  0 <= i < 4 -> (wrap x / 2 ^ (8 * i)) mod 256 = (x / 2 ^ (8 * i)) mod 256.
Proof.
  intros Hi. unfold wrap, modulus.
  assert (i = 0 \/ i = 1 \/ i = 2 \/ i = 3) as [-> | [-> | [-> | ->]]] by lia;
    cbn [Z.mul Pos.mul]; Z.div_mod_to_equations; lia.
Qed.

(** A 32-bit pattern is determined by its four bytes. *)
Lemma word_of_bytes x y :
  0 <= x < 2 ^ 32 -> 0 <= y < 2 ^ 32 ->
  (forall i, 0 <= i < 4 -> (x / 2 ^ (8 * i)) mod 256 = (y / 2 ^ (8 * i)) mod 256) ->
  x = y.
Proof.
  intros Hx Hy H.
  pose proof (H 0 ltac:(lia)) as H0. pose proof (H 1 ltac:(lia)) as H1.
  pose proof (H 2 ltac:(lia)) as H2. pose proof (H 3 ltac:(lia)) as H3.
  cbn [Z.mul Pos.mul] in *. Z.div_mod_to_equations. lia.
Qed.

Lemma low_bytes_16 x y :
  x mod 256 = y mod 256 -> (x / 2 ^ 8) mod 256 = (y / 2 ^ 8) mod 256 ->
  Z.land x (Z.ones 16) = Z.land y (Z.ones 16).
Proof.
  intros H0 H1. rewrite !Z.land_ones by lia. Z.div_mod_to_equations. lia.
Qed.

Lemma low_bytes_8 x y :
  x mod 256 = y mod 256 -> Z.land x (Z.ones 8) = Z.land y (Z.ones 8).
Proof. intros H0. rewrite !Z.land_ones by lia. exact H0. Qed.

Lemma loadByte_range mem a : 0 <= loadByte mem a < 256.
Proof. unfold loadByte. apply Z.mod_pos_bound. lia. Qed.

Lemma load32_range mem a : 0 <= load32 mem a < 2 ^ 32.
Proof.
  unfold load32.
  pose proof (loadByte_range mem a). pose proof (loadByte_range mem (a + 1)).
  pose proof (loadByte_range mem (a + 2)). pose proof (loadByte_range mem (a + 3)). lia.
Qed.

Lemma load32_byte mem a i :
  0 <= i < 4 -> (load32 mem a / 2 ^ (8 * i)) mod 256 = loadByte mem (a + i).
Proof.
  intros Hi. unfold load32.
  pose proof (loadByte_range mem a). pose proof (loadByte_range mem (a + 1)).
  pose proof (loadByte_range mem (a + 2)). pose proof (loadByte_range mem (a + 3)).
  assert (i = 0 \/ i = 1 \/ i = 2 \/ i = 3) as [-> | [-> | [-> | ->]]] by lia;
    rewrite ?Z.add_0_r; cbn [Z.mul Pos.mul];
    generalize dependent (loadByte mem a); generalize dependent (loadByte mem (a + 1));
    generalize dependent (loadByte mem (a + 2)); generalize dependent (loadByte mem (a + 3));
    intros; Z.div_mod_to_equations; lia.
Qed.

End TexelByteFacts.

(** The masks of the packed 16-bit formats, as runs of ones. *)
Ltac field_consts :=
  repeat match goal with
         | |- context [Word32.and ?x 0xF] =>
             change (Word32.and x 0xF) with (Word32.and x (Z.ones 4))
         | |- context [Word32.and ?x 0x1F] =>
             change (Word32.and x 0x1F) with (Word32.and x (Z.ones 5))
         | |- context [Word32.and ?x 0x3F] =>
             change (Word32.and x 0x3F) with (Word32.and x (Z.ones 6))
         | |- context [Word32.and ?x 0x1] =>
             change (Word32.and x 0x1) with (Word32.and x (Z.ones 1))
         end.

(** The argument of a channel conversion. *)
Ltac channel_arg :=
  repeat match goal with
         | |- unorm _ _ = unorm _ _ => f_equal
         | |- snorm _ _ = snorm _ _ => f_equal
         | |- sRGBtoLinear _ _ = sRGBtoLinear _ _ => f_equal
         | |- halfToFloatBits _ = halfToFloatBits _ => f_equal
         | |- F32.of_int _ = F32.of_int _ => f_equal
         | |- F32.mul _ _ = F32.mul _ _ => f_equal
         | |- F32.of_uint _ = F32.of_uint _ => f_equal
         end.

Section DecodeBytes.
Import Word32 Word32Facts.

Variable power : Z -> Z -> Z.

(** The decode of a format of one or two bytes reads the low bytes of
    the packed word only. *)
Lemma decodeTexel_masked vkFormat dec (p : nat -> Z) :
  decodeTexel power vkFormat = Ok dec ->
  formatBytes vkFormat < 4 ->
  dec p = dec (fun k => Z.land (p k) (Z.ones (8 * formatBytes vkFormat))).
Proof.
  intros Hdec Hts.
  destruct vkFormat; try discriminate Hdec; cbn [formatBytes] in Hts; try lia;
    apply Ok_inj in Hdec; subst dec; cbn [formatBytes]; cbv beta;
    change (8 * 2) with 16; change (8 * 1) with 8;
    split_lanes; channel_arg; field_consts; word_blast.
Qed.

Lemma texelByte_at (p : nat -> Z) (k : nat) i :
  0 <= i < 4 -> texelByte p (4 * Z.of_nat k + i) = (p k / 2 ^ (8 * i)) mod 256.
Proof.
  intros Hi. unfold texelByte.
  replace ((4 * Z.of_nat k + i) / 4) with (Z.of_nat k)
    by (apply Z.div_unique with i; lia).
  replace ((4 * Z.of_nat k + i) mod 4) with i
    by (apply Z.mod_unique with (Z.of_nat k); lia).
  rewrite Nat2Z.id. reflexivity.
Qed.

(** Two lanes whose packed words agree on the bytes of the texel decode
    alike; the words of a texel of four bytes or more have to be 32-bit
    patterns. *)
Lemma decodeTexel_by_bytes vkFormat dec (p q : nat -> Z) :
  decodeTexel power vkFormat = Ok dec ->
  (4 <= formatBytes vkFormat ->
   forall k, (k < packedWords (formatBytes vkFormat))%nat ->
             0 <= p k < 2 ^ 32 /\ 0 <= q k < 2 ^ 32) ->
  (forall j, 0 <= j < formatBytes vkFormat -> texelByte p j = texelByte q j) ->
  dec p = dec q.
Proof.
  intros Hdec Hlanes Hbytes.
  pose proof (decodeTexel_bytes power _ _ Hdec) as Hts. cbv zeta in Hts.
  destruct (Z.ltb_spec (formatBytes vkFormat) 4) as [Hs | Hw].
  - rewrite (decodeTexel_masked _ _ p Hdec Hs), (decodeTexel_masked _ _ q Hdec Hs).
    apply (decodeTexel_prefix power _ _ _ _ Hdec). intros k Hk.
    assert (k = 0%nat) as ->.
    { unfold packedWords in Hk.
      assert (Z.to_nat ((formatBytes vkFormat + 3) / 4) = 1%nat)
        by (destruct Hts as [E | [E | E]];
            [rewrite E; reflexivity | rewrite E; reflexivity | lia]).
      lia. }
    pose proof (texelByte_at p 0 0 ltac:(lia)) as P0.
    pose proof (texelByte_at q 0 0 ltac:(lia)) as Q0.
    pose proof (texelByte_at p 0 1 ltac:(lia)) as P1.
    pose proof (texelByte_at q 0 1 ltac:(lia)) as Q1.
    change (4 * Z.of_nat 0 + 0) with 0 in P0, Q0.
    change (4 * Z.of_nat 0 + 1) with 1 in P1, Q1.
    change (2 ^ (8 * 0)) with 1 in P0, Q0. change (8 * 1) with 8 in P1, Q1.
    rewrite Z.div_1_r in P0, Q0.
    destruct Hts as [E | [E | E]]; [| | lia]; rewrite E in *.
    + apply low_bytes_8. rewrite <- P0, <- Q0. apply Hbytes. lia.
    + apply low_bytes_16.
      * rewrite <- P0, <- Q0. apply Hbytes. lia.
      * rewrite <- P1, <- Q1. apply Hbytes. lia.
  - apply (decodeTexel_prefix power _ _ _ _ Hdec). intros k Hk.
    apply word_of_bytes; [apply (Hlanes Hw k Hk) | apply (Hlanes Hw k Hk) |].
    intros i Hi. rewrite <- !texelByte_at by exact Hi. apply Hbytes.
    unfold packedWords in Hk.
    assert (Z.of_nat k < formatBytes vkFormat / 4).
    { destruct Hts as [E | [E | [E | [E | E]]]]; rewrite E in *; try lia;
        [change (Z.to_nat ((4 + 3) / 4)) with 1%nat in Hk; change (4 / 4) with 1
        | change (Z.to_nat ((8 + 3) / 4)) with 2%nat in Hk; change (8 / 4) with 2
        | change (Z.to_nat ((16 + 3) / 4)) with 4%nat in Hk; change (16 / 4) with 4];
        lia. }
    destruct Hts as [E | [E | [E | [E | E]]]]; rewrite E in *; try lia;
      [change (4 / 4) with 1 in * | change (8 / 4) with 2 in *
      | change (16 / 4) with 4 in *]; lia.
Qed.

(** X18.  The decode of a texel depends on the bytes of the texel
    only: when the packed words of two lanes are 32-bit patterns that
    agree on the [formatBytes] bytes of the texel, their decodes are
    equal.  The bits a one- or two-byte gather leaves above the texel
    (the sign extension of a half word) and the packed words beyond the
    texel do not reach the result. *)
Theorem decodeTexel_texel_bytes vkFormat dec (p q : nat -> Z) :
  decodeTexel power vkFormat = Ok dec ->
  (forall k, 0 <= p k < 2 ^ 32 /\ 0 <= q k < 2 ^ 32) ->
  (forall j, 0 <= j < formatBytes vkFormat -> texelByte p j = texelByte q j) ->
  dec p = dec q.
Proof.
  intros Hdec Hlanes Hbytes.
  apply (decodeTexel_by_bytes vkFormat dec p q Hdec); [| exact Hbytes].
  intros _ k _. apply Hlanes.
Qed.

End DecodeBytes.

Lemma decodeTexel_texel_bytes_witness :
  exists dec,
    decodeTexel Examples.power0 VK_FORMAT_R16_SINT = Ok dec /\
    dec (fun _ => 0xFFFF8001) = dec (fun _ => 0x00008001).
Proof.
  eexists. split; [reflexivity |].
  apply (decodeTexel_texel_bytes Examples.power0 VK_FORMAT_R16_SINT); [reflexivity | |].
  - intros k. split; split; first [discriminate | reflexivity].
  - intros j Hj. cbn [formatBytes] in Hj.
    assert (j = 0 \/ j = 1) as [-> | ->] by lia; reflexivity.
Defined.

(** ** A write followed by a read *)

Section WriteReadFacts.
Import Word32 Word32Facts.

Lemma texelAt_byte mem addr texelSize rest j :
  texelSize = 1 \/ texelSize = 2 \/ texelSize = 4 \/ texelSize = 8 \/ texelSize = 16 ->
  0 <= j < texelSize ->
  texelByte (texelAt mem addr texelSize rest) j = loadByte mem (addr + j).
Proof.
  intros Hts Hj.
  destruct (texelSize_cases texelSize Hts) as [Hw | [Hnw Hs]].
  - destruct (texelSize_words texelSize Hw) as [Hb Hn].
    assert (Hk : 0 <= j / 4 < texelSize / 4 /\ 0 <= j mod 4 < 4 /\ j = 4 * (j / 4) + j mod 4).
    { destruct Hw as [-> | [-> | ->]]; Z.div_mod_to_equations; lia. }
    destruct Hk as (Hq & Hr & Hd).
    unfold texelByte, texelAt. rewrite Hb.
    rewrite (proj2 (Nat.ltb_lt _ _)) by lia.
    rewrite Z2Nat.id by lia. rewrite load32_byte by exact Hr.
    f_equal. lia.
  - unfold texelByte, texelAt. rewrite Hnw.
    pose proof (loadByte_range mem addr) as R0.
    pose proof (loadByte_range mem (addr + 1)) as R1.
    destruct Hs as [-> | ->]; cbn [Z.eqb Pos.eqb].
    + assert (j = 0 \/ j = 1) as [-> | ->] by lia;
        cbn [Z.div Z.modulo Z.to_nat Nat.eqb]; unfold Int_of_Short, load16, wrap, modulus;
        rewrite ?Z.add_0_r;
        change (0 / 4) with 0; change (1 / 4) with 0; change (0 mod 4) with 0;
        change (1 mod 4) with 1; cbn [Z.to_nat Nat.eqb Z.mul Pos.mul];
        change (Z.to_nat 0) with 0%nat; cbn [Nat.eqb];
        change (2 ^ (8 * 0)) with 1; change (8 * 1) with 8;
        generalize dependent (loadByte mem addr);
        generalize dependent (loadByte mem (addr + 1)); intros b1 R1 b0 R0;
        destruct (_ <? _); Z.div_mod_to_equations; lia.
    + assert (j = 0) as -> by lia.
      change (0 / 4) with 0; change (0 mod 4) with 0.
      change (Z.to_nat 0) with 0%nat; cbn [Nat.eqb]. change (2 ^ (8 * 0)) with 1.
      unfold Int_of_Byte, load8. rewrite Z.add_0_r.
      generalize dependent (loadByte mem addr). intros b0 R0.
      Z.div_mod_to_equations; lia.
Qed.

Lemma or_range a b : 0 <= Word32.or a b < 2 ^ 32.
Proof.
  unfold Word32.or.
  pose proof (wrap_range a) as Ha. pose proof (wrap_range b) as Hb. unfold modulus in *.
  assert (E : Z.lor (wrap a) (wrap b) = Z.lor (wrap a) (wrap b) mod 2 ^ 32).
  { apply Z.bits_inj'. intros i Hi. rewrite testbit_mod32, Z.lor_spec.
    destruct (Z.ltb_spec i 32); [reflexivity |].
    rewrite (high_bits_zero (wrap a) 32 i), (high_bits_zero (wrap b) 32 i) by lia.
    reflexivity. }
  rewrite E. apply Z.mod_pos_bound. lia.
Qed.

(** The packed words of a texel of four bytes or more are 32-bit
    patterns when the components of the texel are. *)
Lemma encodeTexel_lanes format texelSize encode (texel : nat -> Z) k :
  encodeTexel format = Ok (texelSize, encode) ->
  4 <= texelSize ->
  (forall c, 0 <= texel c < 2 ^ 32) ->
  0 <= nth k (encode texel) 0 < 2 ^ 32.
Proof.
  intros Henc Hts Htexel.
  destruct format; try discriminate Henc; apply Ok_inj in Henc;
    pose proof (f_equal fst Henc) as Hsize; pose proof (f_equal snd Henc) as Hfun;
    cbn [fst snd] in Hsize, Hfun; clear Henc; subst texelSize encode; try lia;
    (destruct k as [| [| [| [| k]]]]; cbn [nth];
     lazymatch goal with
     | |- 0 <= Word32.or _ _ < _ => apply or_range
     | |- 0 <= texel _ < _ => apply Htexel
     | |- 0 <= 0 < _ => lia
     | |- 0 <= match ?n with O => _ | S _ => _ end < _ => destruct n; lia
     end).
Qed.

Lemma encodeTexel_format format texelSize encode :
  encodeTexel format = Ok (texelSize, encode) ->
  formatBytes format = texelSize /\ isD32S8 format = false.
Proof.
  intros Henc. destruct format; try discriminate Henc; apply Ok_inj in Henc;
    apply (f_equal fst) in Henc; cbn [fst] in Henc; subst texelSize; split; reflexivity.
Qed.

Lemma texelAt_lanes mem addr texelSize rest k :
  texelSize = 4 \/ texelSize = 8 \/ texelSize = 16 ->
  (k < packedWords texelSize)%nat ->
  0 <= texelAt mem addr texelSize rest k < 2 ^ 32.
Proof.
  intros Hw Hk. destruct (texelSize_words texelSize Hw) as [Hb Hn].
  unfold texelAt. rewrite Hb.
  assert (E : packedWords texelSize = Z.to_nat (texelSize / 4))
    by (destruct Hw as [-> | [-> | ->]]; reflexivity).
  rewrite E in Hk. rewrite (proj2 (Nat.ltb_lt _ _) Hk). apply load32_range.
Qed.

Variable spirv : Shader.
Variable operandOf : Z -> Operand.
Variable routine : Routine.
Variable getPointer : Z -> Z.
Variable storageAt : Z -> StorageImageDescriptor.
Variable inputAttachmentFormat : Z -> VkFormat.
Variable power : Z -> Z -> Z.

(** X19.  What is written is what is read.  Take a write and a read of
    the same image at the same coordinate and sample, the image not
    being subpass data, in a supported format.  When every lane with a
    clear out-of-bounds predicate has its texel within the image memory,
    the write followed by the read gives, on every lane that is active
    in both, has a clear predicate, shares its texel with no other
    lane of the write and whose texel components are 32-bit patterns,
    the decode of the encode of the lane's texel. *)
Theorem image_write_then_read writeInsn readInsn maskW maskR mem packed sampleId format
    texelSize encode dec lane :
  let imageId := word writeInsn 1 in
  let imageType := objectTypeDefinition spirv imageId in
  let d := storageAt (getPointer imageId) in
  let oob :=
    accessOutOfBounds spirv operandOf routine getPointer storageAt imageId
      (word writeInsn 2) sampleId in
  let off :=
    accessOffset spirv operandOf routine getPointer storageAt imageId (word writeInsn 2)
      sampleId texelSize false in
  let texel := fun (l c : nat) => OpInt (operandOf (word writeInsn 3)) (Z.of_nat c) l in
  word readInsn 3 = imageId ->
  word readInsn 4 = word writeInsn 2 ->
  imageWriteOperands writeInsn = Ok sampleId ->
  imageReadOperands readInsn = Ok sampleId ->
  objectTypeOpcode spirv imageId = spvOp.OpTypeImage ->
  word imageType 3 <> spv.DimSubpassData ->
  SpirvFormatToVulkanFormat (word imageType 8) = Ok format ->
  encodeTexel format = Ok (texelSize, encode) ->
  decodeTexel power format = Ok dec ->
  sizeInBytes d <= OOB_OFFSET ->
  (forall c, 0 <= texel lane c < 2 ^ 32) ->
  (forall l, (l < SIMD.Width)%nat -> oob l = false ->
     0 <= off l /\ off l + texelSize <= sizeInBytes d) ->
  (lane < SIMD.Width)%nat ->
  laneActive maskW lane = true -> laneActive maskR lane = true -> oob lane = false ->
  (forall i, (i < SIMD.Width)%nat -> i <> lane -> laneActive maskW i = true ->
     oob i = false ->
     off i + texelSize <= off lane \/ off lane + texelSize <= off i) ->
  exists mem' out,
    EmitImageWrite spirv operandOf routine getPointer storageAt writeInsn maskW mem
      = Ok mem' /\
    EmitImageRead spirv operandOf routine getPointer storageAt inputAttachmentFormat power
      readInsn maskR mem' packed = Ok out /\
    out lane = dec (wordsOf (encode (texel lane))).
Proof.
  cbv zeta.
  intros Hid Hco HwOps HrOps Hop Hdim Hfmt Henc Hdec Hsize Htexel Hinside Hlane HaW HaR
    Hoob Halone.
  destruct (encodeTexel_format _ _ _ Henc) as [Hfb Hd32].
  pose proof (encodeTexel_bytes _ _ _ Henc) as Hts.
  destruct (EmitImageWrite_lanes spirv operandOf routine getPointer storageAt writeInsn
              maskW mem sampleId format texelSize encode Hop HwOps Hfmt Henc Hsize)
    as (mem' & Hw & _ & Hstore).
  destruct (Hstore Hinside) as [_ Hhit].
  assert (Haddr :
    imageReadAddress spirv operandOf routine getPointer storageAt inputAttachmentFormat
      readInsn sampleId =
    Ok (format, false, texelSize,
        GetTexelAddress operandOf routine (ptr (storageAt (getPointer (word writeInsn 1))))
          (sizeInBytes (storageAt (getPointer (word writeInsn 1))))
          (operandOf (word writeInsn 2)) (objectTypeDefinition spirv (word writeInsn 1))
          (storageAt (getPointer (word writeInsn 1))) texelSize sampleId false Nullify)).
  { unfold imageReadAddress. cbv zeta. rewrite Hid, Hco, Hop, Z.eqb_refl.
    cbn [ASSERT mbind Result_bind].
    rewrite (proj2 (Z.eqb_neq _ _) Hdim), Hfmt. cbn [mbind Result_bind].
    rewrite Hd32. cbn [andb]. rewrite Hfb. reflexivity. }
  assert (Hsize' : sizeInBytes (storageAt (getPointer (word readInsn 3))) <= OOB_OFFSET)
    by (rewrite Hid; exact Hsize).
  destruct (EmitImageRead_lanes spirv operandOf routine getPointer storageAt
              inputAttachmentFormat power readInsn maskR mem' packed sampleId format false
              texelSize _ dec HrOps Haddr Hdec Hsize')
    as (out & Hr & Hlanes).
  exists mem', out. split; [exact Hw |]. split; [exact Hr |].
  destruct (Hlanes lane Hlane) as (Hin & _). cbv zeta in Hin.
  rewrite Hid, Hco in Hin.
  destruct (Hinside lane Hlane Hoob) as [H0 H1].
  rewrite (Hin Hoob HaR H0 H1). clear Hin.
  apply (decodeTexel_by_bytes power format dec _ _ Hdec); rewrite Hfb.
  - intros H4 k Hk. split.
    + apply texelAt_lanes; [lia | exact Hk].
    + unfold wordsOf. apply (encodeTexel_lanes _ _ _ _ _ Henc H4). apply Htexel.
  - intros j Hj. rewrite texelAt_byte by (exact Hts || exact Hj).
    unfold loadByte. rewrite (Hhit lane j Hlane HaW Hoob Hj Halone).
    unfold texelByte, wordsOf. apply Z.mod_mod. lia.
Qed.

End WriteReadFacts.

Lemma image_write_then_read_witness :
  exists mem' out,
    EmitImageWrite Examples.shader0 Examples.accessOperand Examples.routine0 (fun _ => 0)
      Examples.storage0 Examples.imageWrite Examples.allLanes Examples.memory0 = Ok mem' /\
    EmitImageRead Examples.shader0 Examples.accessOperand Examples.routine0 (fun _ => 0)
      Examples.storage0 (fun _ => VK_FORMAT_UNDEFINED) Examples.power0 Examples.imageRead
      Examples.allLanes mem' (fun _ _ => 0) = Ok out /\
    out 0%nat = [IntLane 0x11223344; IntLane 0; IntLane 0; IntLane 1].
Proof.
  assert (Hsize : sizeInBytes (Examples.storage0 0) <= OOB_OFFSET)
    by (vm_compute; discriminate).
  destruct (image_write_then_read Examples.shader0 Examples.accessOperand Examples.routine0
              (fun _ => 0) Examples.storage0 (fun _ => VK_FORMAT_UNDEFINED) Examples.power0
              Examples.imageWrite Examples.imageRead Examples.allLanes Examples.allLanes
              Examples.memory0 (fun _ _ => 0) 0 VK_FORMAT_R32_UINT 4 (fun c => [c 0%nat])
              (fun packed => [IntLane (packed 0%nat); IntLane 0; IntLane 0; IntLane 1])
              0%nat eq_refl eq_refl eq_refl eq_refl eq_refl)
    as (mem' & out & Hw & Hr & Ho).
  - vm_compute. discriminate.
  - reflexivity.
  - reflexivity.
  - reflexivity.
  - exact Hsize.
  - intros c. destruct c as [| c]; vm_compute; split; first [discriminate | reflexivity].
  - intros l Hl Hoob. unfold SIMD.Width in Hl.
    destruct l as [| [| [| [| l]]]]; try lia; try discriminate Hoob;
      split; vm_compute; discriminate.
  - vm_compute. lia.
  - reflexivity.
  - reflexivity.
  - reflexivity.
  - intros i Hi Hne _ Hoob. unfold SIMD.Width in Hi.
    destruct i as [| [| [| [| i]]]]; try lia; try discriminate Hoob;
      right; vm_compute; discriminate.
  - exists mem', out. split; [exact Hw |]. split; [exact Hr | exact Ho].
Defined.

(** ** Exact storage *)

Section ExactStorage.
Import Word32 Word32Facts.

Variable power : Z -> Z -> Z.
Local Open Scope lane_scope.

(** The low bytes of each packed word of a re-encoded texel. *)
Lemma exact_words format texelSize enc dec (p : nat -> Z) (k : nat) :
  storesExactly format = true ->
  encodeTexel format = Ok (texelSize, enc) ->
  decodeTexel power format = Ok dec ->
  (k < packedWords texelSize)%nat ->
  Z.land (nth k (enc (texelOf (dec p))) 0) (Z.ones (8 * Z.min texelSize 4)) =
  Z.land (p k) (Z.ones (8 * Z.min texelSize 4)).
Proof.
  intros Hex Henc Hdec Hk.
  destruct format; try discriminate Hex; try discriminate Henc;
    apply Ok_inj in Henc; apply Ok_inj in Hdec;
    pose proof (f_equal fst Henc) as Hsize; pose proof (f_equal snd Henc) as Hfun;
    cbn [fst snd] in Hsize, Hfun; clear Henc; subst texelSize enc dec;
    unfold packedWords in Hk;
    (destruct k as [| [| [| [| k]]]]; try (exfalso; vm_compute in Hk; lia));
    unfold texelOf; cbn [nth laneBits];
    try reflexivity;
    unpack_unorm;
    match goal with
    | |- Z.land _ (Z.ones ?n) = _ =>
        let m := eval vm_compute in n in change n with m
    end;
    word_blast.
Qed.

Lemma byte_of_masked x n i :
  0 <= i -> 8 * i + 8 <= n ->
  (Z.land x (Z.ones n) / 2 ^ (8 * i)) mod 256 = (x / 2 ^ (8 * i)) mod 256.
Proof.
  intros Hi Hn. change 256 with (2 ^ 8).
  rewrite <- !Z.shiftr_div_pow2, <- !Z.land_ones by lia.
  apply Z.bits_inj'. intros b Hb.
  rewrite !Z.land_spec, !Z.shiftr_spec, Z.land_spec by lia.
  rewrite !testbit_ones_nonneg by lia.
  destruct (Z.ltb_spec b 8).
  - rewrite (proj2 (Z.ltb_lt (b + 8 * i) n)) by lia. now rewrite andb_true_r.
  - now rewrite !andb_false_r.
Qed.

(** X20.  Writing back what was read leaves the bytes of the texel as
    they were: for every format the write supports other than the
    signed normalized, half-float and packed-float formats, each byte
    of the encode of a decoded texel is the byte of the packed words
    the texel was decoded from. *)
Theorem codec_exact_bytes format texelSize enc dec (p : nat -> Z) (j : Z) :
  storesExactly format = true ->
  encodeTexel format = Ok (texelSize, enc) ->
  decodeTexel power format = Ok dec ->
  0 <= j < texelSize ->
  texelByte (wordsOf (enc (texelOf (dec p)))) j = texelByte p j.
Proof.
  intros Hex Henc Hdec Hj.
  pose proof (encodeTexel_bytes _ _ _ Henc) as Hts.
  assert (Hk : (Z.to_nat (j / 4) < packedWords texelSize)%nat /\
               0 <= j mod 4 /\ 8 * (j mod 4) + 8 <= 8 * Z.min texelSize 4).
  { unfold packedWords.
    destruct Hts as [-> | [-> | [-> | [-> | ->]]]];
      [change (Z.to_nat ((1 + 3) / 4)) with 1%nat; change (Z.min 1 4) with 1
      | change (Z.to_nat ((2 + 3) / 4)) with 1%nat; change (Z.min 2 4) with 2
      | change (Z.to_nat ((4 + 3) / 4)) with 1%nat; change (Z.min 4 4) with 4
      | change (Z.to_nat ((8 + 3) / 4)) with 2%nat; change (Z.min 8 4) with 4
      | change (Z.to_nat ((16 + 3) / 4)) with 4%nat; change (Z.min 16 4) with 4];
      Z.div_mod_to_equations; lia. }
  destruct Hk as (Hk & Hi & Hn).
  pose proof (exact_words format texelSize enc dec p _ Hex Henc Hdec Hk) as Hw.
  unfold texelByte, wordsOf.
  rewrite <- (byte_of_masked (nth _ _ 0) _ _ Hi Hn), Hw.
  apply byte_of_masked; assumption.
Qed.

End ExactStorage.

Lemma codec_exact_bytes_witness :
  texelByte
    (wordsOf (Examples.encodeOf VK_FORMAT_A2B10G10R10_UNORM_PACK32
                (texelOf (Examples.decodeOf VK_FORMAT_A2B10G10R10_UNORM_PACK32
                            (fun _ => 0x9ABCDEF0))))) 3 =
  texelByte (fun _ => 0x9ABCDEF0) 3.
Proof.
  apply (codec_exact_bytes Examples.power0 VK_FORMAT_A2B10G10R10_UNORM_PACK32 4
           (Examples.encodeOf VK_FORMAT_A2B10G10R10_UNORM_PACK32)
           (Examples.decodeOf VK_FORMAT_A2B10G10R10_UNORM_PACK32));
    first [reflexivity | lia].
Defined.

(** ** The memory a read depends on *)

Section ReadLocality.
Import Word32 Word32Facts.

Lemma Load_local p r (mask : SIMD.t) (mem mem2 : Memory) i :
  (laneActive mask i = true ->
   forall a, SIMD.base p <= a < SIMD.base p + SIMD.limit p -> mem a = mem2 a) ->
  Load p r mask mem i = Load p r mask mem2 i.
Proof.
  intros Hagree. unfold Load.
  destruct (negb (SIMD.and mask (isInBounds p 4 r) i =? 0)) eqn:E; [| reflexivity].
  pose proof E as E'. rewrite masked_lane_iff in E'. apply andb_true_iff in E' as [Ha Hb].
  destruct (laneInBounds_region p 4 i Hb) as [H0 H1].
  unfold load32, loadByte. rewrite !(Hagree Ha) by lia. reflexivity.
Qed.

Lemma gatherTexel_local texelSize p (mask : SIMD.t) (mem mem2 : Memory) packed g :
  gatherTexel texelSize p mask mem packed = Ok g ->
  exists g2,
    gatherTexel texelSize p mask mem2 packed = Ok g2 /\
    forall lane,
      (laneActive mask lane = true ->
       forall a, SIMD.base p <= a < SIMD.base p + SIMD.limit p -> mem a = mem2 a) ->
      forall k, g k lane = g2 k lane.
Proof.
  unfold gatherTexel.
  destruct ((texelSize =? 4) || (texelSize =? 8) || (texelSize =? 16)).
  { intros H. apply Ok_inj in H. subst g. eexists. split; [reflexivity |].
    intros lane Hagree k. rewrite !gatherWords_spec.
    destruct ((0 <=? k)%nat && (k <? 0 + Z.to_nat (texelSize / 4))%nat); [| reflexivity].
    apply Load_local. rewrite advanceWords_base, advanceWords_limit. exact Hagree. }
  destruct (texelSize =? 2).
  { intros H. apply Ok_inj in H. subst g. eexists. split; [reflexivity |].
    intros lane Hagree k. unfold SIMD.Extract.
    rewrite (foldl_insert_spec
               (fun j => negb (SIMD.and mask (isInBounds p 2 Nullify) j =? 0))
               (fun j => Int_of_Short (load16 mem (SIMD.base p + signed (SIMD.offsets p j))))).
    rewrite (foldl_insert_spec
               (fun j => negb (SIMD.and mask (isInBounds p 2 Nullify) j =? 0))
               (fun j => Int_of_Short (load16 mem2 (SIMD.base p + signed (SIMD.offsets p j))))).
    destruct (Nat.eqb k 0 && existsb (Nat.eqb lane) lanes) ; [| reflexivity]. cbn [andb].
    destruct (negb (SIMD.and mask (isInBounds p 2 Nullify) lane =? 0)) eqn:E; [| reflexivity].
    pose proof E as E'. rewrite masked_lane_iff in E'. apply andb_true_iff in E' as [Ha Hb].
    destruct (laneInBounds_region p 2 lane Hb) as [H0 H1]. unfold laneAddress in *.
    unfold load16, loadByte. rewrite !(Hagree Ha) by lia. reflexivity. }
  destruct (texelSize =? 1); [| discriminate].
  intros H. apply Ok_inj in H. subst g. eexists. split; [reflexivity |].
  intros lane Hagree k. unfold SIMD.Extract.
  rewrite (foldl_insert_spec
             (fun j => negb (SIMD.and mask (isInBounds p 1 Nullify) j =? 0))
             (fun j => Int_of_Byte (load8 mem (SIMD.base p + signed (SIMD.offsets p j))))).
  rewrite (foldl_insert_spec
             (fun j => negb (SIMD.and mask (isInBounds p 1 Nullify) j =? 0))
             (fun j => Int_of_Byte (load8 mem2 (SIMD.base p + signed (SIMD.offsets p j))))).
  destruct (Nat.eqb k 0 && existsb (Nat.eqb lane) lanes) ; [| reflexivity]. cbn [andb].
  destruct (negb (SIMD.and mask (isInBounds p 1 Nullify) lane =? 0)) eqn:E; [| reflexivity].
  pose proof E as E'. rewrite masked_lane_iff in E'. apply andb_true_iff in E' as [Ha Hb].
  destruct (laneInBounds_region p 1 lane Hb) as [H0 H1]. unfold laneAddress in *.
  unfold load8, loadByte. rewrite !(Hagree Ha) by lia. reflexivity.
Qed.

Variable spirv : Shader.
Variable operandOf : Z -> Operand.
Variable routine : Routine.
Variable getPointer : Z -> Z.
Variable storageAt : Z -> StorageImageDescriptor.
Variable inputAttachmentFormat : Z -> VkFormat.
Variable power : Z -> Z -> Z.

(** X21.  A read depends on the memory of the plane it addresses only,
    and on an inactive lane on no memory at all: whether the read
    succeeds does not depend on the memory, and the result of a lane is
    the same for two memories that, if the lane is active, agree on the
    [sizeInBytes] bytes from the base of the plane (the stencil plane
    when the stencil aspect is read, the primary plane otherwise). *)
Theorem EmitImageRead_local insn (mask : SIMD.t) (mem mem2 : Memory) packed sampleId out :
  let d := storageAt (getPointer (word insn 3)) in
  imageReadOperands insn = Ok sampleId ->
  EmitImageRead spirv operandOf routine getPointer storageAt inputAttachmentFormat power
    insn mask mem packed = Ok out ->
  exists vkFormat useStencilAspect texelSize texelPtr out2,
    imageReadAddress spirv operandOf routine getPointer storageAt inputAttachmentFormat
      insn sampleId = Ok (vkFormat, useStencilAspect, texelSize, texelPtr) /\
    EmitImageRead spirv operandOf routine getPointer storageAt inputAttachmentFormat power
      insn mask mem2 packed = Ok out2 /\
    forall lane,
      (laneActive mask lane = true ->
       forall a,
         (if useStencilAspect then stencilPtr d else ptr d) <= a
         < (if useStencilAspect then stencilPtr d else ptr d) + sizeInBytes d ->
         mem a = mem2 a) ->
      out lane = out2 lane.
Proof.
  cbv zeta. intros Hops. unfold EmitImageRead. rewrite Hops. cbn [mbind Result_bind].
  destruct (imageReadAddress _ _ _ _ _ _ _ _) as [[[[vkFormat st] texelSize] texelPtr] |] eqn:Ha;
    [| discriminate].
  cbn [mbind Result_bind].
  destruct (gatherTexel texelSize texelPtr mask mem packed) as [g |] eqn:Hg; [| discriminate].
  cbn [mbind Result_bind].
  destruct (decodeTexel power vkFormat) as [dec |] eqn:Hdec; [| discriminate].
  cbn [mbind Result_bind]. intros H. apply Ok_inj in H. subst out.
  destruct (gatherTexel_local _ _ _ mem mem2 _ _ Hg) as (g2 & Hg2 & Hloc).
  destruct (imageReadAddress_spec _ _ _ _ _ _ _ _ _ _ _ _ Ha) as [_ Hptr].
  exists vkFormat, st, texelSize, texelPtr. eexists. split; [reflexivity |].
  rewrite Hg2. cbn [mbind Result_bind]. split; [reflexivity |].
  intros lane Hagree.
  apply (decodeTexel_prefix power vkFormat dec _ _ Hdec). intros k _.
  apply Hloc. rewrite Hptr. exact Hagree.
Qed.

End ReadLocality.

Lemma EmitImageRead_local_witness :
  exists out out2,
    EmitImageRead Examples.shader0 Examples.accessOperand Examples.routine0 (fun _ => 0)
      Examples.storage0 (fun _ => VK_FORMAT_UNDEFINED) Examples.power0 Examples.imageRead
      Examples.allLanes Examples.memory0 (fun _ _ => 0) = Ok out /\
    EmitImageRead Examples.shader0 Examples.accessOperand Examples.routine0 (fun _ => 0)
      Examples.storage0 (fun _ => VK_FORMAT_UNDEFINED) Examples.power0 Examples.imageRead
      Examples.allLanes (fun a => if a <? 0x1000 then 0 else Examples.memory0 a)
      (fun _ _ => 0) = Ok out2 /\
    out 0%nat = out2 0%nat.
Proof.
  assert (Hsize : sizeInBytes (Examples.storage0 0) <= OOB_OFFSET)
    by (vm_compute; discriminate).
  assert (Haddr :
    imageReadAddress Examples.shader0 Examples.accessOperand Examples.routine0 (fun _ => 0)
      Examples.storage0 (fun _ => VK_FORMAT_UNDEFINED) Examples.imageRead 0 =
    Ok (VK_FORMAT_R32_UINT, false, 4,
        GetTexelAddress Examples.accessOperand Examples.routine0 0x1000 64
          (Examples.accessOperand 4) Examples.image2D Examples.descriptor4x4 4 0 false
          Nullify)) by reflexivity.
  destruct (EmitImageRead_lanes Examples.shader0 Examples.accessOperand Examples.routine0
              (fun _ => 0) Examples.storage0 (fun _ => VK_FORMAT_UNDEFINED) Examples.power0
              Examples.imageRead Examples.allLanes Examples.memory0 (fun _ _ => 0) 0
              VK_FORMAT_R32_UINT false 4 _
              (fun packed => [IntLane (packed 0%nat); IntLane 0; IntLane 0; IntLane 1])
              eq_refl Haddr eq_refl Hsize)
    as (out & Hout & _).
  destruct (EmitImageRead_local Examples.shader0 Examples.accessOperand Examples.routine0
              (fun _ => 0) Examples.storage0 (fun _ => VK_FORMAT_UNDEFINED) Examples.power0
              Examples.imageRead Examples.allLanes Examples.memory0
              (fun a => if a <? 0x1000 then 0 else Examples.memory0 a) (fun _ _ => 0) 0 out
              eq_refl Hout)
    as (vkFormat & st & texelSize & texelPtr & out2 & Ha & Hr & Hl).
  exists out, out2. split; [exact Hout |]. split; [exact Hr |].
  apply Hl. intros _ a Hrange.
  rewrite Haddr in Ha.
  pose proof (f_equal (fun r => match r with
                                | Ok (_, s, _, _) => s
                                | Abort _ => false
                                end) Ha) as Hst.
  cbn beta iota in Hst. subst st.
  change (0x1000 <= a < 0x1000 + 64) in Hrange.
  rewrite (proj2 (Z.ltb_ge a 0x1000)) by lia. reflexivity.
Defined.

(** ** What a decoded instruction guarantees *)

Section DecodedInvariant.

Variable spirv : Shader.

(** X22.  A decoded sampling instruction carries at most one of the
    bias, lod and gradient operands, each only with the sampler method
    it belongs to, a sample operand only as a fetch, and no operand bit
    the decoder does not recognize. *)
Theorem decoded_operands_exclusive insn pos instr imageOperands :
  decodeImageInstruction spirv insn pos = Ok instr ->
  getImageOperands insn = Ok imageOperands ->
  let method := samplerMethod (state instr) in
  let bias := hasBit imageOperands spv.ImageOperandsBiasMask in
  let lod := hasBit imageOperands spv.ImageOperandsLodMask in
  let grad := hasBit imageOperands spv.ImageOperandsGradMask in
  let sample := hasBit imageOperands spv.ImageOperandsSampleMask in
  (bias = true -> method = Bias /\ lod = false /\ grad = false /\ sample = false) /\
  (lod = true -> (method = Lod \/ method = Fetch) /\ grad = false) /\
  (grad = true -> method = Grad /\ sample = false) /\
  (sample = true -> method = Fetch) /\
  Z.land imageOperands (Z.lnot recognizedImageOperands) = 0.
Proof.
  intros Hdec Hops. cbv zeta.
  destruct (parseVariantAndMethod insn) as [st |] eqn:Hparse.
  2: { unfold decodeImageInstruction in Hdec. rewrite Hparse in Hdec. discriminate Hdec. }
  pose proof (decodeImageInstruction_cases spirv insn pos st imageOperands Hparse Hops) as H.
  cbv zeta in H.
  destruct (negb (operandContract st imageOperands)) eqn:Hc; [congruence |].
  destruct (negb (Z.land imageOperands (Z.lnot recognizedImageOperands) =? 0)) eqn:Hl;
    [congruence |].
  destruct H as (instr' & Hdec' & Hst & _).
  rewrite Hdec in Hdec'. apply Ok_inj in Hdec'. subst instr'. rewrite Hst.
  apply negb_false_iff in Hc, Hl. apply Z.eqb_eq in Hl.
  unfold operandContract in Hc. cbv zeta in Hc.
  destruct (hasBit imageOperands spv.ImageOperandsBiasMask);
    destruct (hasBit imageOperands spv.ImageOperandsLodMask);
    destruct (hasBit imageOperands spv.ImageOperandsGradMask);
    destruct (hasBit imageOperands spv.ImageOperandsSampleMask);
    destruct (samplerMethod st); cbn in Hc; try discriminate Hc;
    repeat split; try exact Hl; intros; try discriminate; auto.
Qed.

End DecodedInvariant.

Lemma decoded_operands_exclusive_witness :
  exists instr,
    decodeImageInstruction Examples.shader0 Examples.fetchLodSample 0 = Ok instr /\
    samplerMethod (state instr) = Fetch.
Proof.
  eexists. split; [reflexivity |].
  apply (decoded_operands_exclusive Examples.shader0 Examples.fetchLodSample 0 _ 0x42
           eq_refl eq_refl).
  reflexivity.
Defined.

(** ** The sRGB formats *)

Section SRGBFacts.
Import Word32 Word32Facts.

Variable power : Z -> Z -> Z.
Local Open Scope lane_scope.

(** X23.  [sRGBtoLinear] blends its two candidates with the comparison
    mask, which selects: the result is the linear segment
    [c * (1 / 12.92)] when [c < 0.04045] and the power segment
    [((c + 0.055) * (1 / 1.055)) ^ 2.4] otherwise, a NaN taking the
    power segment.  The decode of an sRGB format is the decode of the
    corresponding normalized format with the three colour channels
    converted and the alpha channel left linear. *)
Theorem sRGB_decode (c : Z) (packed : nat -> Z) :
  sRGBtoLinear power c =
    (if F32.ltb c f_0_04045 then wrap (c *f f_inv_12_92)
     else wrap (power (F32.add c f_0_055 *f f_inv_1_055) f_2_4)) /\
  forall srgb unorm,
    In (srgb, unorm)
      [(VK_FORMAT_R8G8B8A8_SRGB, VK_FORMAT_R8G8B8A8_UNORM);
       (VK_FORMAT_A8B8G8R8_SRGB_PACK32, VK_FORMAT_A8B8G8R8_UNORM_PACK32);
       (VK_FORMAT_B8G8R8A8_SRGB, VK_FORMAT_B8G8R8A8_UNORM)] ->
    exists decodeSRGB decodeUnorm,
      decodeTexel power srgb = Ok decodeSRGB /\
      decodeTexel power unorm = Ok decodeUnorm /\
      decodeSRGB packed = sRGBColor power (decodeUnorm packed).
Proof.
  split.
  - unfold sRGBtoLinear, F32.CmpLT. cbv zeta.
    set (lc := c *f f_inv_12_92).
    set (ec := power (F32.add c f_0_055 *f f_inv_1_055) f_2_4).
    pose proof (select_mask ec lc (F32.ltb c f_0_04045)) as H.
    unfold Word32.or in *.
    rewrite Z.lor_comm. rewrite <- H. f_equal.
    unfold Word32.and. rewrite Z.land_comm. reflexivity.
  - intros srgb unorm Hin.
    repeat (destruct Hin as [Hin | Hin];
            [injection Hin as <- <-; eexists; eexists;
             split; [reflexivity |]; split; [reflexivity |]; reflexivity |]).
    destruct Hin.
Qed.

End SRGBFacts.

(** ** Byte-sized channels *)

Section ByteChannels.
Import Word32 Word32Facts.

Variable power : Z -> Z -> Z.
Local Open Scope lane_scope.





End ByteChannels.

